(* ===== verification/_CoqProject ===== *)
-Q . S2P
Prelude.v
Interleave.v
Compose.v
BpfMaps.v
FwProg.v
FwSpec.v
RateLimit.v
FwTrace.v
FwConc.v
CStrings.v
Detector.v
FwCtl.v
FwCtlSpec.v
FwWatch.v
FwDaemon.v
FwMain.v
FwRaces.v
FwTyped.v
FwBanRace.v
FwPinned.v
FwWatchRace.v
FwSystem.v
Parser.v
BenchFrame.v
Percentile.v
BenchRun.v
PacketFilter.v
SocketRx.v
Validate.v
AfPacket.v
AfXdp.v
Resources.v
Throughput.v
PacketIO.v
RxMulti.v
BenchCli.v
ProcStat.v
BenchMain.v
