(* ===== verification/Prelude.v ===== *)
(** * FalconWall: a verification development

    FalconWall is a DDoS filter for Linux ([src/wall]) with a benchmark of
    packet-receive backends beside it ([src/benchmark]). This library models
    both as executable functions and proves what makes them correct.

    ** The program and where its parts are modelled

    The firewall is a data plane and a control plane that meet in five kernel
    maps.

    - [FwProg]: [wall/fw_prog.c], the XDP program. [kmaps] is the record of
      its maps; [fw_prog] is the function, a program of the state-and-error
      monad [prog] below, whose blocks [blocklist_check], [range_check],
      [classify], [record_stats] (with [roll_window], [count_packet],
      [sliding_rate], [fresh_stats]), [drop_packet] and [pass_packet] are the
      numbered blocks of the source in its order. [None] would be a read
      outside the frame, which the kernel's verifier refuses.
    - [BpfMaps]: the kernel's hash and LPM maps, as type classes of
      operations with their documented laws; [gmap], a bounded list that
      evicts, and a prefix map are instances.
    - [FwSpec]: the abstract specification of one run (the inductive [fate]
      and the state after it) and the refinement theorem. [RateLimit]: the
      limiter seen from one source, its arithmetic and its bounds. [FwTrace]:
      sequences of frames from many sources on many CPUs.
    - [Detector]: [wall/detector.cpp] and [detector.hpp]: the registry, the
      four detectors, and the byte layout the C++ and C sides share.
    - [CStrings]: [strtol], [strtoull] and the one [sscanf] format of the
      command line.
    - [FwCtl]: [wall/fw.cpp], one definition per function, over [world] (the
      pinned maps, the attachment, the open objects, the text printed).
      [FwCtlSpec] has the effect of [block], [unblock], [range], [unrange],
      [FwWatch] the auto-ban loop, [FwDaemon] the life of [start] and the
      configuration commands, [FwMain] [stats] and [main].

    These files take a run of [fw_prog], and a pass of [watch], as one step.
    In the kernel they are not: every processor runs the program at once, on
    shared maps, and the commands write to the maps meanwhile. A second group
    of files models that, and shows that alone it is the first.

    - [Interleave]: programs as trees of operations, pools of them whose
      operations interleave, and a rely-guarantee logic for one of them.
    - [FwConc]: [fw_prog] as its loads, stores and calls of helpers. [FwRaces]:
      any number of processors beside any commands: the counters, and how long
      a frame takes. [FwTyped]: the widths of the maps' values. [FwBanRace]: a
      ban that is made meanwhile. [FwPinned]: the rate limit, when the frames
      of a source go to one processor.
    - [FwWatchRace]: the pass of [watch] as its system calls, beside other
      processes, traffic, and a table that evicts.
    - [Compose]: two pools of programs on one state, and the runs that each of
      them makes inside a run of both. [FwSystem]: the whole firewall, the data
      plane of [FwRaces] beside the processes of [FwWatchRace] and the commands.

    The benchmark sends and receives UDP frames over one of three backends.

    - [Parser]: [include/falcon/parser/*.hpp] and [frame_ts] of
      [bench/bench_main.cpp]; [BenchFrame]: [ip_checksum] and [build_frame] of
      the same file, write by write.
    - [PacketFilter]: which frames reach a backend: [backend/af_xdp.bpf.c], and
      the classic BPF program of [backend/af_packet.cpp] with an interpreter
      for the instructions it uses.
    - [SocketRx], [AfPacket], [AfXdp]: [recvImpl] of the three backends, over
      buffers that several frames may alias, over the shared ring of blocks
      and over the ownership of chunks; [Resources]: what their constructors
      and destructors acquire and release.
    - [Validate]: the receiver of [bench/validate.cpp], which judges a backend;
      [Throughput]: the loops of [bench/rx_bench.cpp] and [rx_bench_mq.cpp],
      which count what a backend delivers; [BenchCli]: the sender of the first
      and the command lines of all three. [RxMulti]: the processes and pipes of
      [run_multi]; [ProcStat]: [read_cpu_times] on the text of /proc/stat.
    - [PacketIO]: [core/backend.hpp], the base class of the backends, as a class
      of operations with its laws; the three backends are its instances, and
      [Throughput] is proved against the laws.
    - [BenchRun]: [run_bench] of [bench/bench_main.cpp], with [Percentile], its
      statistics and the one floating-point computation they depend on;
      [BenchMain]: its senders and its command line.

    ** What the theorems show

    - The data plane: [fw_prog] never reads outside a frame and implements
      [fate] with its effect on every map; its counters account for every
      frame; the entries of the sources stay consistent. The limiter lets at
      most [pps] packets of a source through in a window, and at most twice
      that in any interval of a window's length, whatever else arrives.
    - The control plane: a ban or a dropped range holds over every later
      sequence of frames, until it expires or for ever, and touches nothing
      else; [unblock] and [unrange] undo them; a pass of [watch] terminates,
      bans exactly the sources the detectors match, and a flood it saw does
      not pass afterwards; [start] sets up all it says and leaves behind only
      what the system refuses to take down; every command line ends with an
      exit code, [start] and [watch] once a signal comes; without a daemon
      nothing changes. Several theorems state where the code falls short of
      what it prints (bans that overflow, settings that are lost, sources
      banned again).
    - Interleaving: the counters stay exact, the values in the maps keep their
      types, every frame is decided within a fixed number of accesses, and a
      ban holds from the moment it is in the map, unless a processor is just
      deleting an expired one. [watch] bans nobody whom no detector accuses,
      and whom one does, when its scan is not disturbed; a flood of new sources
      can keep it scanning for ever. A run of the whole firewall contains the
      runs of its parts ([system_data_plane]), and so their properties hold
      together: the pass that sees a flood bans it, and from then on no frame of
      it passes ([flood_ended], where other sources may come and go meanwhile,
      but the entry of the flood stays, and nobody takes its ban back). The limit holds for a source whose
      frames one processor handles, whatever the others, the processes of
      [watch] and the commands do ([firewall_limit]). It does not hold across processors
      ([limit_raced], [late_raced]): the entries are not updated atomically.
    - The benchmark: crafted frames are well-formed, with a checksum that
      verifies, and parsed back; the two filters agree on frames without IP
      options; each [recvImpl] delivers what arrived, in order, within the
      caller's array (the socket backend only up to 64 frames, and the
      theorems say what happens beyond); the chunks of AF_XDP are neither lost
      nor shared; [receive] succeeds exactly when every number came once, and
      the throughput receiver accounts for every frame until its run ends, in
      agreement with the statistics of any backend that keeps the laws.
      [run_multi] comes back exactly when all its children end, with their sums
      and nothing left behind, and the CPU usage is read back from the counters
      of the right CPU.
      [falcon-bench] measures the delays of its frames and reports their
      percentiles; its sender stays inside its buffer in every run that the
      checks of the command line let through, and completes its bursts (in tx
      mode, which has no such checks, it does not).

    Theorems that state a property are numbered C1, C2, ... in their comments,
    in the order of importance. A lemma [<name>_witness] evaluates the
    theorem [<name>] on a concrete input.

    ** Conventions, bounds and fuel

    Integers are [Z] with their wrap-around written out ([u8] to [u64]); the
    byte order is the class [Endian], so each theorem holds for both. Bytes
    are integers from 0 to 255. The bounds of the theorems on counts (2^53
    packets for the limiter, 2^60 for the detectors, 2^64 frames for the
    counters) are where the 64-bit arithmetic of the source starts to wrap.

    Recursion that the source does not bound takes fuel, and a theorem shows
    that the fuel is enough. [watch_keys] gets the number of keys of the map it
    scans, which it visits once each (without fuel left [watch_loop] has no
    result, so that a command which ends has scanned the map to its end); [fold_sum], the carry loop of the
    checksum, gets 3, and a carry is gone after two rounds; [bpf_run] gets the
    length of the program, whose jumps only go forward; [AfPacket.recvImpl]
    gets one step per frame asked for and per wait, and one more. The loops of
    [start] and [watch] that end at a signal run [e_beats] times, any number.
    [watch_code] has the fuel of [watch_keys]; that it can run out beside a
    flood, whatever it is, is a theorem. A frame takes at most 31 accesses and
    an undisturbed pass of [watch] at most 6 system calls for an entry and one
    more: the longest paths through the two programs. The loops of the benchmark
    run over a list of turns, or of sends: what the outside answered. When the
    list does not end them the result says so, and the theorems say which lists
    do. Percentiles are exact below 2^45 latencies, far more than fit in memory.

    ** What is not modelled

    The kernel, libbpf, libxdp, [inet_pton], [inet_ntop] and the clock are
    parameters or classes with laws. The hash maps of the source are LRU maps,
    which evict when they are full; theorems that need a map to keep its
    entries assume [BpfHashKeeps], the idealisation of a run in which the map
    never fills, and say so; the others hold for maps that evict. Accesses happen one after the other, as
    the source writes them: that a compiler merges or moves them, or that a
    processor reorders them, is not modelled. The lookup of a ban and the load
    of its expiry are one access, a system call copies a value at once, and an
    entry that is evicted and made again is the same entry to a program that
    still has the pointer. Beside [start] there is traffic between the turns of
    its loop only. A pin that an earlier run left for a map which the loaded
    object lacks is taken to be a pin of the object's map, and removing a pin
    before a new one is made works. There is one place to attach a program. Of the
    benchmark, what is printed as a floating-point quotient is left out (packets
    and bytes per second, percent of CPU: their numerators and denominators are
    there), and comparisons of durations in floating point are parameters; so
    are what a clock or a system call answers. That memory runs out, and the end
    of [falcon-bench] by an exception, are not modelled. A child of [run_multi]
    is the result of its run, and its 56 bytes go through the pipe at once;
    [sscanf] gives no result for a number that does not fit its type. The calls
    pipe, fork, read, close and waitpid of [RxMulti] are the part of POSIX that
    it needs. Pinning a
    process to a CPU changes nothing that the model has. The
    threads of [falcon-bench] share only a flag to stop, which is an input of
    the sender. [src/core/stats.cpp] has no code; the documents, scripts and
    build files are left out. *)

From Stdlib Require Export ZArith Lia.
From stdpp Require Export base tactics list list_numbers gmap strings numbers option sorting.
#[global] Open Scope Z_scope.
#[export] Set Warnings "-clear-no-such-hyp".

(** ** Machine integers

    A [w]-bit unsigned integer of the C or C++ source is a [Z] in [[0, 2^w)];
    every arithmetic operation of the source is followed by the wrap of its
    type. *)

Definition wrap (w z : Z) : Z := z mod 2 ^ w.
Definition u8 (z : Z) : Z := wrap 8 z.
Definition u16 (z : Z) : Z := wrap 16 z.
Definition u32 (z : Z) : Z := wrap 32 z.
Definition u64 (z : Z) : Z := wrap 64 z.

(** Signed conversions (two's complement). *)
Definition swrap (w z : Z) : Z := (z + 2 ^ (w - 1)) mod 2 ^ w - 2 ^ (w - 1).
Definition i32 (z : Z) : Z := swrap 32 z.

Definition uint_ok (w z : Z) : Prop := 0 <= z < 2 ^ w.
#[global] Instance uint_ok_dec w z : Decision (uint_ok w z).
Proof. unfold uint_ok. apply _. Defined.

(** The powers the widths of this program use, as numerals for [lia]. *)
Ltac pow2_consts :=
  repeat match goal with
  | H : context [2 ^ ?n] |- _ =>
      is_ground n; let v := eval vm_compute in (2 ^ n) in change (2 ^ n) with v in H
  | |- context [2 ^ ?n] =>
      is_ground n; let v := eval vm_compute in (2 ^ n) in change (2 ^ n) with v
  end.

(** [word]: linear arithmetic over wrapped integers. *)
Ltac word :=
  unfold u8, u16, u32, u64, i32, swrap, wrap, uint_ok in *; pow2_consts;
  try lia; Z.div_mod_to_equations; lia.

Section Wrap.
Context (w : Z) (Hw : 0 <= w).

Lemma wrap_range z : uint_ok w (wrap w z).
Proof using Hw. unfold uint_ok, wrap. apply Z.mod_pos_bound. lia. Qed.

Lemma wrap_small z : uint_ok w z -> wrap w z = z.
Proof using Type. apply Z.mod_small. Qed.

Lemma wrap_wrap z : wrap w (wrap w z) = wrap w z.
Proof using Type. apply Z.mod_mod_divide, Z.divide_refl. Qed.

Lemma wrap_add_l x y : wrap w (wrap w x + y) = wrap w (x + y).
Proof using Hw. unfold wrap. apply Zplus_mod_idemp_l. Qed.

Lemma wrap_add_r x y : wrap w (x + wrap w y) = wrap w (x + y).
Proof using Hw. unfold wrap. apply Zplus_mod_idemp_r. Qed.
End Wrap.

(** ** Bytes and byte order *)

Definition byte_ok (b : Z) : Prop := uint_ok 8 b.
Definition bytes_ok (bs : list Z) : Prop := Forall byte_ok bs.

Fixpoint le_int (bs : list Z) : Z :=
  match bs with
  | [] => 0
  | b :: bs => b + 256 * le_int bs
  end.

Definition be_int (bs : list Z) : Z := le_int (rev bs).

Fixpoint le_bytes (n : nat) (z : Z) : list Z :=
  match n with
  | O => []
  | S n => z mod 256 :: le_bytes n (z / 256)
  end.

Definition be_bytes (n : nat) (z : Z) : list Z := rev (le_bytes n z).

Lemma length_le_bytes n z : length (le_bytes n z) = n.
Proof. revert z. induction n; intros z; simpl; auto. Qed.

Lemma length_be_bytes n z : length (be_bytes n z) = n.
Proof. unfold be_bytes. by rewrite length_rev, length_le_bytes. Qed.

Lemma le_bytes_ok n z : bytes_ok (le_bytes n z).
Proof.
  revert z. induction n; intros z; simpl; constructor; [|apply IHn].
  unfold byte_ok, uint_ok. pow2_consts. apply Z.mod_pos_bound. lia.
Qed.

Lemma rev_bytes_ok bs : bytes_ok bs -> bytes_ok (rev bs).
Proof. apply List.Forall_rev. Qed.

Lemma pow256_succ n : 2 ^ (8 * Z.of_nat (S n)) = 256 * 2 ^ (8 * Z.of_nat n).
Proof. rewrite Nat2Z.inj_succ, Z.mul_succ_r, Z.add_comm, Z.pow_add_r by lia. done. Qed.

Lemma le_int_range bs : bytes_ok bs -> uint_ok (8 * Z.of_nat (length bs)) (le_int bs).
Proof.
  unfold uint_ok. induction 1 as [|b bs Hb _ IH]; [done|].
  simpl length. rewrite pow256_succ. simpl.
  unfold byte_ok, uint_ok in Hb. pow2_consts. lia.
Qed.

Lemma be_int_range bs : bytes_ok bs -> uint_ok (8 * Z.of_nat (length bs)) (be_int bs).
Proof.
  intros H. unfold be_int. rewrite <-(length_rev bs). by apply le_int_range, rev_bytes_ok.
Qed.

Lemma le_int_le_bytes n z : le_int (le_bytes n z) = wrap (8 * Z.of_nat n) z.
Proof.
  unfold wrap. revert z. induction n as [|n IH]; intros z.
  - simpl. by rewrite Z.mod_1_r.
  - rewrite pow256_succ. cbn [le_bytes le_int]. rewrite IH.
    rewrite Z.rem_mul_r by lia. lia.
Qed.

Lemma le_bytes_le_int bs : bytes_ok bs -> le_bytes (length bs) (le_int bs) = bs.
Proof.
  induction 1 as [|b bs Hb _ IH]; simpl; [done|].
  unfold byte_ok, uint_ok in Hb. pow2_consts.
  replace (b + 256 * le_int bs) with (le_int bs * 256 + b) by lia.
  rewrite Z.add_comm, Z_mod_plus_full, Z.mod_small by lia.
  rewrite Z.div_add, Z.div_small by lia. by rewrite Z.add_0_l, IH.
Qed.

Lemma be_int_be_bytes n z : be_int (be_bytes n z) = wrap (8 * Z.of_nat n) z.
Proof. unfold be_int, be_bytes. by rewrite rev_involutive, le_int_le_bytes. Qed.

Lemma be_bytes_be_int bs : bytes_ok bs -> be_bytes (length bs) (be_int bs) = bs.
Proof.
  intros H. unfold be_int, be_bytes. rewrite <-(length_rev bs), le_bytes_le_int.
  - apply rev_involutive.
  - by apply rev_bytes_ok.
Qed.

(** Bitwise and goes byte by byte, so it commutes with a change of byte order. *)
Lemma land_bytes b c x y :
  byte_ok b -> byte_ok c ->
  Z.land (b + 256 * x) (c + 256 * y) = Z.land b c + 256 * Z.land x y.
Proof.
  intros Hb Hc. unfold byte_ok, uint_ok in *. change 256 with (2 ^ 8) in *.
  rewrite !(Z.mul_comm (2 ^ 8)).
  assert (forall b x, 0 <= b < 2 ^ 8 -> b + x * 2 ^ 8 = Z.lor b (Z.shiftl x 8)) as E.
  { intros b' x' Hb'. rewrite <-Z.shiftl_mul_pow2 by lia.
    apply Z.add_nocarry_lor. apply Z.bits_inj'. intros n Hn.
    rewrite Z.land_spec, Z.bits_0. destruct (Z.ltb_spec n 8).
    - rewrite Z.shiftl_spec_low by lia. by rewrite andb_false_r.
    - rewrite <-(Z.mod_small b' (2 ^ 8)) by lia. by rewrite Z.mod_pow2_bits_high by lia. }
  assert (0 <= Z.land b c < 2 ^ 8) as Hbc.
  { split; [apply Z.land_nonneg; lia|].
    rewrite <-(Z.mod_small b (2 ^ 8)), <-Z.land_ones by lia.
    rewrite <-Z.land_assoc, (Z.land_comm (Z.ones 8)), Z.land_assoc, Z.land_ones by lia.
    apply Z.mod_pos_bound. lia. }
  rewrite !E by done. apply Z.bits_inj'. intros n Hn.
  rewrite !Z.land_spec, !Z.lor_spec, !Z.land_spec.
  destruct (Z.ltb_spec n 8).
  - rewrite !Z.shiftl_spec_low by lia. by rewrite !orb_false_r.
  - rewrite !Z.shiftl_spec, Z.land_spec by lia.
    assert (forall b, 0 <= b < 2 ^ 8 -> Z.testbit b n = false) as Hhi.
    { intros b' Hb'. rewrite <-(Z.mod_small b' (2 ^ 8)) by lia.
      by rewrite Z.mod_pow2_bits_high by lia. }
    by rewrite !Hhi by done.
Qed.

Lemma le_int_land bs cs :
  bytes_ok bs -> bytes_ok cs -> length bs = length cs ->
  le_int (zip_with Z.land bs cs) = Z.land (le_int bs) (le_int cs).
Proof.
  intros Hb. revert cs. induction Hb as [|b bs Hb _ IH]; intros cs Hc Hl; [done|].
  destruct Hc as [|c cs Hc Hcs]; [done|]. cbn [zip_with le_int].
  rewrite land_bytes by done. rewrite IH; [done|done|]. simpl in Hl. lia.
Qed.

Lemma le_bytes_land n x y :
  le_bytes n (Z.land x y) = zip_with Z.land (le_bytes n x) (le_bytes n y).
Proof.
  revert x y. induction n as [|n IH]; intros x y; [done|]. cbn [le_bytes zip_with].
  change 256 with (2 ^ 8). rewrite <-!Z.land_ones, <-!Z.shiftr_div_pow2 by lia.
  rewrite Z.shiftr_land, IH. f_equal. apply Z.bits_inj'. intros k Hk.
  rewrite !Z.land_spec. by destruct (Z.testbit x k), (Z.testbit y k), (Z.testbit (Z.ones 8) k).
Qed.

Lemma be_int_land bs cs :
  bytes_ok bs -> bytes_ok cs -> length bs = length cs ->
  be_int (zip_with Z.land bs cs) = Z.land (be_int bs) (be_int cs).
Proof.
  intros Hb Hc Hl. unfold be_int.
  rewrite <-le_int_land by (rewrite ?length_rev; auto using rev_bytes_ok).
  f_equal. clear Hb Hc. revert cs Hl. induction bs as [|b bs IH]; intros [|c cs] Hl; try done.
  simpl in *. rewrite IH by lia. rewrite zip_with_app by (rewrite !length_rev; lia). done.
Qed.

(** The byte order of the machine that runs the program. Nothing below
    depends on which one it is: the theorems hold for both. *)
Class Endian := big_endian : bool.

Section HostOrder.
Context `{Endian}.

(** The integer the machine loads from the bytes [bs] of its memory, and
  the bytes it stores. *)
Definition host_int (bs : list Z) : Z := if big_endian then be_int bs else le_int bs.
Definition host_bytes (n : nat) (z : Z) : list Z :=
  if big_endian then be_bytes n z else le_bytes n z.

(** [htons]/[ntohs] ([n = 2]), [htonl]/[ntohl] ([n = 4]) and
  [htobe64]/[be64toh] ([n = 8]). *)
Definition hton (n : nat) (z : Z) : Z := if big_endian then z else be_int (le_bytes n z).

Definition htons := hton 2.
Definition ntohs := hton 2.
Definition htonl := hton 4.
Definition ntohl := hton 4.
Definition htobe64 := hton 8.
Definition be64toh := hton 8.

Lemma length_host_bytes n z : length (host_bytes n z) = n.
Proof using Type.
  unfold host_bytes. case_match; [apply length_be_bytes|apply length_le_bytes].
Qed.

Lemma host_bytes_ok n z : bytes_ok (host_bytes n z).
Proof using Type.
  unfold host_bytes. case_match; [apply rev_bytes_ok|]; apply le_bytes_ok.
Qed.

Lemma host_int_range bs : bytes_ok bs -> uint_ok (8 * Z.of_nat (length bs)) (host_int bs).
Proof using Type.
  unfold host_int. case_match; [apply be_int_range|apply le_int_range].
Qed.

Lemma host_int_host_bytes n z : host_int (host_bytes n z) = wrap (8 * Z.of_nat n) z.
Proof using Type.
  unfold host_int, host_bytes.
  case_match; [apply be_int_be_bytes|apply le_int_le_bytes].
Qed.

Lemma host_bytes_host_int bs : bytes_ok bs -> host_bytes (length bs) (host_int bs) = bs.
Proof using Type.
  unfold host_int, host_bytes.
  case_match; [apply be_bytes_be_int|apply le_bytes_le_int].
Qed.

(** Converting a loaded field gives the big-endian number on the wire. *)
Lemma ntoh_host_int n bs :
  bytes_ok bs -> length bs = n -> hton n (host_int bs) = be_int bs.
Proof using Type.
  intros Hok <-. unfold hton, host_int.
  case_match; [done|]. by rewrite le_bytes_le_int.
Qed.

(** Storing a converted field puts the big-endian bytes on the wire. *)
Lemma host_bytes_hton n z : host_bytes n (hton n z) = be_bytes n z.
Proof using Type.
  unfold hton, host_bytes. case_match; [done|].
  unfold be_int, be_bytes. rewrite <-(length_le_bytes n z) at 1.
  rewrite <-length_rev, le_bytes_le_int; [done|].
  apply rev_bytes_ok, le_bytes_ok.
Qed.

Lemma hton_range n z : uint_ok (8 * Z.of_nat n) z -> uint_ok (8 * Z.of_nat n) (hton n z).
Proof using Type.
  intros Hz. unfold hton. case_match; [done|].
  rewrite <-(length_le_bytes n z) at 1. apply be_int_range, le_bytes_ok.
Qed.

Lemma hton_hton n z : uint_ok (8 * Z.of_nat n) z -> hton n (hton n z) = z.
Proof using Type.
  intros Hz. rewrite <-(wrap_small _ z Hz) at 2.
  rewrite <-(be_int_be_bytes n z), <-host_bytes_hton.
  rewrite <-(wrap_small _ (hton n z)) at 1 by (by apply hton_range).
  rewrite <-host_int_host_bytes.
  apply ntoh_host_int; [apply host_bytes_ok|apply length_host_bytes].
Qed.

Lemma hton_land n x y : hton n (Z.land x y) = Z.land (hton n x) (hton n y).
Proof using Type.
  unfold hton. case_match; [done|].
  rewrite le_bytes_land. apply be_int_land; auto using le_bytes_ok.
  by rewrite !length_le_bytes.
Qed.

Lemma hton_inj n x y :
  uint_ok (8 * Z.of_nat n) x -> uint_ok (8 * Z.of_nat n) y -> hton n x = hton n y -> x = y.
Proof using Type.
  intros Hx Hy E. by rewrite <-(hton_hton n x), E, hton_hton.
Qed.
End HostOrder.

(** ** Reading and writing a buffer

    A buffer is the list of its bytes. An access outside the buffer has no
    value: [None] is a memory error, never an error code of the program. *)

Definition load_bytes (m : list Z) (off : Z) (n : nat) : option (list Z) :=
  if (0 <=? off) && (off + Z.of_nat n <=? Z.of_nat (length m))
  then Some (take n (drop (Z.to_nat off) m)) else None.

Definition store_bytes (m : list Z) (off : Z) (bs : list Z) : option (list Z) :=
  if (0 <=? off) && (off + Z.of_nat (length bs) <=? Z.of_nat (length m))
  then Some (take (Z.to_nat off) m ++ bs ++ drop (Z.to_nat off + length bs) m) else None.

Definition load_int `{Endian} (n : nat) (m : list Z) (off : Z) : option Z :=
  host_int <$> load_bytes m off n.

Definition load8 (m : list Z) (off : Z) : option Z := le_int <$> load_bytes m off 1.

(** The bytes [off, off + n) of a buffer known to have them. *)
Definition sub (m : list Z) (off : Z) (n : nat) : list Z := take n (drop (Z.to_nat off) m).

Lemma load_bytes_Some m off n :
  0 <= off -> off + Z.of_nat n <= Z.of_nat (length m) ->
  load_bytes m off n = Some (sub m off n).
Proof.
  intros H1 H2. unfold load_bytes.
  rewrite (proj2 (Z.leb_le _ _) H1), (proj2 (Z.leb_le _ _) H2). done.
Qed.

Lemma load_bytes_None m off n :
  Z.of_nat (length m) < off + Z.of_nat n -> load_bytes m off n = None.
Proof.
  intros H. unfold load_bytes. rewrite (proj2 (Z.leb_gt _ _) H). by rewrite andb_false_r.
Qed.

Lemma load_bytes_inv m off n bs :
  load_bytes m off n = Some bs ->
  0 <= off /\ off + Z.of_nat n <= Z.of_nat (length m) /\ bs = sub m off n.
Proof.
  unfold load_bytes. case_match eqn:E; [|done]. intros [= <-].
  apply andb_prop in E as [E1%Z.leb_le E2%Z.leb_le]. done.
Qed.

Lemma length_sub m off n :
  0 <= off -> off + Z.of_nat n <= Z.of_nat (length m) -> length (sub m off n) = n.
Proof. intros. unfold sub. rewrite length_take, length_drop. lia. Qed.

Lemma sub_ok m off n : bytes_ok m -> bytes_ok (sub m off n).
Proof. intros H. by apply Forall_take, Forall_drop. Qed.

Lemma load_int_Some `{Endian} n m off :
  0 <= off -> off + Z.of_nat n <= Z.of_nat (length m) ->
  load_int n m off = Some (host_int (sub m off n)).
Proof. intros. unfold load_int. by rewrite load_bytes_Some. Qed.

Lemma load8_Some m off :
  0 <= off -> off + 1 <= Z.of_nat (length m) ->
  load8 m off = Some (le_int (sub m off 1)).
Proof. intros. unfold load8. by rewrite load_bytes_Some. Qed.

Lemma load8_range m off b : bytes_ok m -> load8 m off = Some b -> byte_ok b.
Proof.
  unfold load8. intros Hm (bs & Hb & E)%fmap_Some. subst b.
  apply load_bytes_inv in Hb as (? & ? & ->).
  pose proof (le_int_range (sub m off 1) (sub_ok _ _ _ Hm)) as H2.
  rewrite length_sub in H2 by (simpl; lia). exact H2.
Qed.

Lemma load_bytes_app_l (a b : list Z) n :
  n = length a -> load_bytes (a ++ b) 0 n = Some a.
Proof.
  intros ->. rewrite load_bytes_Some; [|lia|rewrite length_app; lia].
  unfold sub. by rewrite drop_0, take_app_length.
Qed.

Lemma load_bytes_app_r (a b : list Z) off n :
  0 <= off -> load_bytes (a ++ b) (Z.of_nat (length a) + off) n = load_bytes b off n.
Proof.
  intros Hoff. unfold load_bytes. rewrite length_app, Nat2Z.inj_add, <-Z.add_assoc.
  replace (0 <=? Z.of_nat (length a) + off) with true by (symmetry; apply Z.leb_le; lia).
  rewrite (proj2 (Z.leb_le 0 off)) by lia. cbn [andb].
  replace (Z.of_nat (length a) + (off + Z.of_nat n) <=?
    Z.of_nat (length a) + Z.of_nat (length b))
    with (off + Z.of_nat n <=? Z.of_nat (length b))
    by (apply eq_true_iff_eq; rewrite !Z.leb_le; lia).
  case_match; [|done].
  by rewrite (Z2Nat.inj_add _ _ (Nat2Z.is_nonneg _) Hoff), Nat2Z.id, drop_app_add.
Qed.

(** ** C structures

    A structure whose fields are all [n] bytes wide has no padding: its bytes
    are those of its fields, in the order of the declaration. *)
Section Structs.
Context `{Endian} (n : nat).

Definition struct_bytes (fields : list Z) : list Z := concat (host_bytes n <$> fields).

Definition struct_field (m : list Z) (i : nat) : option Z :=
  load_int n m (Z.of_nat (i * n)).

(** A field is as wide as its type. *)
Lemma struct_field_wrap fields i z :
  fields !! i = Some z -> struct_field (struct_bytes fields) i = Some (wrap (8 * Z.of_nat n) z).
Proof using Type.
  unfold struct_field, load_int. revert i.
  induction fields as [|f fields IH]; intros i Hi; [done|].
  change (struct_bytes (f :: fields)) with (host_bytes n f ++ struct_bytes fields).
  destruct i as [|i].
  - injection Hi as ->. rewrite load_bytes_app_l by by rewrite length_host_bytes.
    cbn [fmap option_fmap option_map].
    by rewrite host_int_host_bytes.
  - specialize (IH i Hi). rewrite <-IH. f_equal.
    rewrite <-(load_bytes_app_r (host_bytes n f) (struct_bytes fields)) by lia.
    rewrite length_host_bytes, Nat.mul_succ_l, Nat2Z.inj_add, Z.add_comm. done.
Qed.

Lemma struct_field_bytes fields i z :
  fields !! i = Some z -> uint_ok (8 * Z.of_nat n) z ->
  struct_field (struct_bytes fields) i = Some z.
Proof using Type. intros Hi Hz. by rewrite (struct_field_wrap _ _ _ Hi), wrap_small. Qed.
End Structs.

(** ** Lists *)

Section Lists.
Context {A : Type}.
Implicit Types l : list A.

Lemma length_filter_mono (P Q : A -> Prop) `{!forall x, Decision (P x), !forall x, Decision (Q x)} l :
  (forall x, x ∈ l -> P x -> Q x) -> (length (filter P l) <= length (filter Q l))%nat.
Proof using Type.
  induction l as [|x l IH]; intros HPQ; [done|].
  assert (length (filter P l) <= length (filter Q l))%nat by (apply IH; intros; apply HPQ; [by right|done]).
  rewrite !filter_cons. specialize (HPQ x ltac:(by left)).
  repeat case_decide; simpl; try lia. tauto.
Qed.

Lemma length_filter_split (P : A -> Prop) `{!forall x, Decision (P x)} l :
  length l = (length (filter P l) + length (filter (fun x => ~ P x) l))%nat.
Proof using Type.
  induction l as [|x l IH]; [done|]. rewrite !filter_cons.
  repeat case_decide; simpl; try tauto; lia.
Qed.

Lemma StronglySorted_filter (R : A -> A -> Prop) (P : A -> Prop) `{!forall x, Decision (P x)} l :
  StronglySorted R l -> StronglySorted R (filter P l).
Proof using Type.
  induction 1 as [|x l Hs IH Hx]; [constructor|]. rewrite filter_cons.
  case_decide; [|done]. constructor; [done|].
  rewrite Forall_forall in *. intros y [_ Hy]%list_elem_of_filter. auto.
Qed.
Lemma filter_fmap {B} (f : A -> B) (P : B -> Prop) `{!forall x, Decision (P x)} l :
  filter P (f <$> l) = f <$> filter (fun x => P (f x)) l.
Proof using Type.
  induction l as [|x l IH]; [done|]. rewrite fmap_cons, !filter_cons.
  case_decide; rewrite IH; done.
Qed.
End Lists.

(** ** Programs over a state

    [prog S A]: a computation over the state [S]; [None] is a memory error. *)
Definition prog (S A : Type) : Type := S -> option (A * S).

#[global] Instance prog_ret {S} : MRet (prog S) := fun A a s => Some (a, s).
#[global] Instance prog_bind {S} : MBind (prog S) := fun A B f m s =>
  match m s with
  | Some (a, s') => f a s'
  | None => None
  end.

Definition pget {S} : prog S S := fun s => Some (s, s).
Definition pmodify {S} (f : S -> S) : prog S unit := fun s => Some (tt, f s).
(** A read of memory inside a program. *)
Definition plift {S A} (o : option A) : prog S A := fun s => (fun a => (a, s)) <$> o.

Lemma plift_Some {S A B} (o : option A) a (k : A -> prog S B) s :
  o = Some a -> (x ← plift o; k x) s = k a s.
Proof. intros ->. done. Qed.

Lemma pget_bind {S B} (k : S -> prog S B) s : (pget ≫= k) s = k s s.
Proof. done. Qed.

Lemma pmodify_bind {S B} (f : S -> S) (k : unit -> prog S B) s :
  (pmodify f ≫= k) s = k tt (f s).
Proof. done. Qed.

Create HintDb falcon discriminated.
#[export] Hint Resolve wrap_small wrap_range le_bytes_ok host_bytes_ok rev_bytes_ok sub_ok : falcon.
#[export] Hint Constants Opaque : falcon.

(** [case_bool]: split on a comparison of the goal and turn it into the
    proposition it decides. *)
Ltac case_bool :=
  match goal with
  | |- context [?x <=? ?y] => destruct (Z.leb_spec x y)
  | |- context [?x <? ?y] => destruct (Z.ltb_spec x y)
  | |- context [?x =? ?y] => destruct (Z.eqb_spec x y)
  end.

Ltac bool_hyps :=
  repeat match goal with
  | H : _ && _ = true |- _ => apply andb_prop in H as [? ?]
  | H : _ || _ = false |- _ => apply orb_false_elim in H as [? ?]
  | H : (_ <=? _) = true |- _ => apply Z.leb_le in H
  | H : (_ <=? _) = false |- _ => apply Z.leb_gt in H
  | H : (_ <? _) = true |- _ => apply Z.ltb_lt in H
  | H : (_ <? _) = false |- _ => apply Z.ltb_ge in H
  | H : (_ =? _) = true |- _ => apply Z.eqb_eq in H
  | H : (_ =? _) = false |- _ => apply Z.eqb_neq in H
  end.
