(* ===== verification/Interleave.v ===== *)
(** * Programs whose accesses to a shared state interleave

    [code]: a program as the tree of its operations on a shared state, each of
    them atomic. [seq] runs one alone; a [pool] is a state with the programs
    that run on it, at most one on each processor, and [step] lets any of them
    make its next access, start, or finish, and lets an environment change
    the state in between. [wp] is a rely-guarantee logic for one program of a
    pool: what it does whatever the others do. *)

From S2P Require Import Prelude.

(** ** Programs *)

Section Code.
Context {Op : Type} {ans : Op -> Type}.

(** [Fault] is a memory error; [Do o k] performs [o] and goes on with its
    answer. *)
Inductive code (A : Type) : Type :=
  | Ret (a : A)
  | Fault
  | Do (o : Op) (k : ans o -> code A).

Fixpoint code_bind {A B} (f : A -> code B) (c : code A) : code B :=
  match c with
  | Ret _ a => f a
  | Fault _ => Fault B
  | Do _ o k => Do B o (fun x => code_bind f (k x))
  end.
End Code.
Arguments code {Op} ans A.
Arguments Ret {Op ans A} a.
Arguments Fault {Op ans A}.
Arguments Do {Op ans A} o k.

#[global] Instance code_ret {Op} {ans : Op -> Type} : MRet (code ans) := fun A a => Ret a.
#[global] Instance code_mbind {Op} {ans : Op -> Type} : MBind (code ans) :=
  fun A B f c => code_bind f c.

(** One operation, and a read of private memory. *)
Definition act {Op} {ans : Op -> Type} (o : Op) : code ans (ans o) := Do o Ret.
Definition clift {Op} {ans : Op -> Type} {A} (o : option A) : code ans A :=
  match o with Some a => Ret a | None => Fault end.

(** At most [n] operations, whatever their answers. *)
Fixpoint steps_le {Op} {ans : Op -> Type} {A} (n : nat) (c : code ans A) : Prop :=
  match c with
  | Do o k => match n with O => False | S n => forall x, steps_le n (k x) end
  | _ => True
  end.

(** Every operation it can come to satisfies [P], and it cannot fault. *)
Fixpoint all_ops {Op} {ans : Op -> Type} {A} (P : Op -> Prop) (c : code ans A) : Prop :=
  match c with
  | Ret _ => True
  | Fault => False
  | Do o k => P o /\ forall x, all_ops P (k x)
  end.

(** The same of the programs whose operations answer as [T] says. *)
Fixpoint ops_when {Op} {ans : Op -> Type} {A} (P : Op -> Prop) (T : forall o, ans o -> Prop)
    (c : code ans A) : Prop :=
  match c with
  | Ret _ => True
  | Fault => False
  | Do o k => P o /\ forall x, T o x -> ops_when P T (k x)
  end.

(** Every program that can be left of it satisfies [P]. *)
Fixpoint everywhere {Op} {ans : Op -> Type} {A} (P : code ans A -> Prop) (c : code ans A) : Prop :=
  P c /\ match c with Do o k => forall x, everywhere P (k x) | _ => True end.

Section Ops.
Context {Op : Type} {ans : Op -> Type}.

Lemma all_ops_mono {A} (P P' : Op -> Prop) (c : code ans A) :
  (forall o, P o -> P' o) -> all_ops P c -> all_ops P' c.
Proof using Type. intros HP. induction c; simpl; [done..|]. intros [? ?]. eauto. Qed.

Lemma all_ops_bind {A B} (P : Op -> Prop) (c : code ans A) (f : A -> code ans B) :
  all_ops P c -> (forall a, all_ops P (f a)) -> all_ops P (c ≫= f).
Proof using Type.
  unfold mbind, code_mbind. intros Hc Hf. induction c; simpl in *; [auto|done|].
  destruct Hc. eauto.
Qed.

Lemma all_ops_act (P : Op -> Prop) o : P o -> all_ops P (act (ans := ans) o).
Proof using Type. simpl. eauto. Qed.

Lemma all_ops_clift {A} (P : Op -> Prop) (o : option A) a :
  o = Some a -> all_ops P (clift (ans := ans) o).
Proof using Type. by intros ->. Qed.

Lemma ops_when_bind {A B} P T (c : code ans A) (f : A -> code ans B) :
  ops_when P T c -> (forall a, ops_when P T (f a)) -> ops_when P T (c ≫= f).
Proof using Type.
  unfold mbind, code_mbind. intros Hc Hf. induction c; simpl in *; [auto|done|].
  destruct Hc. eauto.
Qed.

Lemma ops_when_act {A} P T o (f : ans o -> code ans A) :
  P o -> (forall x, T o x -> ops_when P T (f x)) -> ops_when P T (act o ≫= f).
Proof using Type. by split. Qed.

Lemma ops_when_last P T o : P o -> ops_when P T (act (ans := ans) o).
Proof using Type. by split. Qed.

Lemma everywhere_here {A} (P : code ans A -> Prop) c : everywhere P c -> P c.
Proof using Type. by destruct c as [| |? ?]; intros [? _]. Qed.

(** What holds of the programs with operations in [P] holds everywhere in one. *)
Lemma everywhere_ops {A} (P : Op -> Prop) (D : code ans A -> Prop) c :
  (forall c, all_ops P c -> D c) -> all_ops P c -> everywhere D c.
Proof using Type.
  intros HD. induction c as [a| |o k IH]; intros Hc; (split; [by apply HD|]); [done..|].
  intros x. apply IH, Hc.
Qed.

(** The next operation, if there is one, satisfies [P]. *)
Definition next_ok {A} (P : Op -> Prop) (c : code ans A) : Prop :=
  match c with Do o _ => P o | _ => True end.

Lemma everywhere_next_bind {A B} (P : Op -> Prop) (c : code ans A) (f : A -> code ans B) :
  everywhere (next_ok P) c -> (forall a, everywhere (next_ok P) (f a)) ->
  everywhere (next_ok P) (c ≫= f).
Proof using Type.
  unfold mbind, code_mbind. intros Hc Hf. induction c as [a| |o k IH]; simpl in *; [done..|].
  destruct Hc as [Ho Hk]. split; [done|]. auto.
Qed.

(** In a sequence: at every point of the first program, with the second to
  come, and everywhere in the second. *)
Lemma everywhere_bind {A B} (P : code ans A -> Prop) (D : code ans B -> Prop) c (f : A -> code ans B) :
  (forall c, P c -> D (c ≫= f)) -> everywhere P c -> (forall a, everywhere D (f a)) ->
  everywhere D (c ≫= f).
Proof using Type.
  unfold mbind, code_mbind. intros HD Hc Hf. induction c as [a| |o k IH]; simpl in *.
  - done.
  - destruct Hc as [Hc _]. split; [|done]. by apply (HD Fault).
  - destruct Hc as [Hc Hk]. split; [by apply (HD (Do o k))|]. intros x. by apply IH.
Qed.
End Ops.

Section Length.
Context {Op : Type} {ans : Op -> Type}.

Lemma steps_le_weaken {A} n m (c : code ans A) : (n <= m)%nat -> steps_le n c -> steps_le m c.
Proof using Type.
  revert n m. induction c as [a| |o k IH]; intros n m Hnm; [by destruct m..|].
  destruct n as [|n]; simpl; [done|]. destruct m as [|m]; [lia|].
  intros Hc x. eapply IH; [|done]. lia.
Qed.

Lemma steps_le_bind {A B} n m (c : code ans A) (f : A -> code ans B) :
  steps_le n c -> (forall a, steps_le m (f a)) -> steps_le (n + m) (c ≫= f).
Proof using Type.
  intros Hc Hf. unfold mbind, code_mbind. revert n Hc.
  induction c as [a| |o k IH]; intros n Hc; simpl; [|by destruct (n + m)%nat|].
  - eapply steps_le_weaken, Hf. lia.
  - destruct n as [|n]; simpl in *; [done|]. intros x. by apply IH.
Qed.
End Length.

(** ** One program alone, and many of them *)

Section Pool.
Context {Op : Type} {ans : Op -> Type} {S : Type} (exec : forall o, S -> ans o * S).

Fixpoint seq {A} (c : code ans A) (s : S) : option (A * S) :=
  match c with
  | Ret a => Some (a, s)
  | Fault => None
  | Do o k => seq (k (fst (exec o s))) (snd (exec o s))
  end.

(** [seq] is a morphism of monads. *)
Lemma seq_bind {A B} (c : code ans A) (f : A -> code ans B) s :
  seq (c ≫= f) s = (a ← (seq c : prog S A); (seq (f a) : prog S B)) s.
Proof using Type.
  unfold mbind, code_mbind, prog_bind. revert s.
  induction c as [a| |o k IH]; intros s; simpl; [done..|]. apply IH.
Qed.

Lemma seq_bind_Some {A B} (c : code ans A) (f : A -> code ans B) s a s' :
  seq c s = Some (a, s') -> seq (c ≫= f) s = seq (f a) s'.
Proof using Type. intros Hc. rewrite seq_bind. unfold mbind, prog_bind. by rewrite Hc. Qed.

Lemma seq_act o s : seq (act o) s = Some (exec o s).
Proof using Type. simpl. by destruct (exec o s). Qed.

Lemma seq_clift {A} (o : option A) s : seq (clift o) s = (plift o : prog S A) s.
Proof using Type. by destruct o. Qed.

(** The jobs of the processors, and their programs. *)
Context {J A : Type} (body : nat -> J -> code ans A).

Record pool := Pool { shared : S; active : gmap nat (J * code ans A) }.

Inductive label :=
  | Arrive (cpu : nat) (j : J)
  | Access (cpu : nat)
  | Finish (cpu : nat) (j : J) (a : A)
  | Control.

(** [control]: what the environment may do to the state at once. *)
Context (control : S -> S -> Prop).

Inductive step : pool -> label -> pool -> Prop :=
  | step_arrive s ts cpu j :
      ts !! cpu = None ->
      step (Pool s ts) (Arrive cpu j) (Pool s (<[cpu := (j, body cpu j)]> ts))
  | step_access s ts cpu j o k :
      ts !! cpu = Some (j, Do o k) ->
      step (Pool s ts) (Access cpu)
        (Pool (snd (exec o s)) (<[cpu := (j, k (fst (exec o s)))]> ts))
  | step_finish s ts cpu j a :
      ts !! cpu = Some (j, Ret a) ->
      step (Pool s ts) (Finish cpu j a) (Pool s (delete cpu ts))
  | step_control s s' ts :
      control s s' -> step (Pool s ts) Control (Pool s' ts).

Inductive run : pool -> list label -> pool -> Prop :=
  | run_nil p : run p [] p
  | run_cons p1 p2 p3 e es : step p1 e p2 -> run p2 es p3 -> run p1 (e :: es) p3.

Lemma run_app p1 p2 p3 es1 es2 : run p1 es1 p2 -> run p2 es2 p3 -> run p1 (es1 ++ es2) p3.
Proof using Type. induction 1; simpl; [done|]. intros ?. econstructor; eauto. Qed.

Lemma run_app_inv p1 p3 es1 es2 :
  run p1 (es1 ++ es2) p3 -> exists p2, run p1 es1 p2 /\ run p2 es2 p3.
Proof using Type.
  revert p1. induction es1 as [|e es1 IH]; intros p1; simpl.
  - intros Hr. exists p1. split; [constructor|done].
  - inversion 1; subst. edestruct IH as (q & ? & ?); [done|].
    exists q. split; [by econstructor|done].
Qed.

(** The next access of a processor. *)
Lemma run_access cpu j o k x s s' ts es p :
  exec o s = (x, s') -> run (Pool s' (<[cpu := (j, k x)]> ts)) es p ->
  run (Pool s (<[cpu := (j, Do o k)]> ts)) (Access cpu :: es) p.
Proof using Type.
  intros He Hr. eapply run_cons; [eapply step_access, lookup_insert_eq|].
  by rewrite insert_insert_eq, He.
Qed.

(** A program that runs alone on an otherwise idle processor does what [seq]
    says. *)
Lemma run_alone cpu j c s ts a s' :
  seq c s = Some (a, s') -> ts !! cpu = None ->
  exists n, run (Pool s (<[cpu := (j, c)]> ts)) (replicate n (Access cpu) ++ [Finish cpu j a])
              (Pool s' ts).
Proof using Type.
  intros Hs Hc. revert s Hs. induction c as [b| |o k IH]; intros s Hs; simpl in Hs; [|done|].
  - injection Hs as -> ->. exists O. simpl. eapply run_cons; [|apply run_nil].
    rewrite <-(delete_insert_id ts cpu (j, Ret a)) at 2 by done.
    apply step_finish, lookup_insert_eq.
  - destruct (IH _ _ Hs) as [n Hr]. exists (Datatypes.S n).
    by eapply run_access; [apply surjective_pairing|].
Qed.

(** *** The bound on a job's own steps *)

Definition is_access (cpu : nat) (e : label) : Prop :=
  match e with Access c => c = cpu | _ => False end.
#[global] Instance is_access_dec cpu e : Decision (is_access cpu e).
Proof using Type. destruct e; simpl; apply _. Defined.

Definition finishes (cpu : nat) (e : label) : Prop :=
  match e with Finish c _ _ => c = cpu | _ => False end.

(** Until [cpu] finishes its job, the accesses it makes use up its bound. *)
Lemma run_accesses cpu j c n p es p' :
  active p !! cpu = Some (j, c) -> steps_le n c ->
  run p es p' -> Forall (fun e => ~ finishes cpu e) es ->
  exists m c', n = (m + length (filter (is_access cpu) es))%nat /\
    active p' !! cpu = Some (j, c') /\ steps_le m c'.
Proof using Type.
  intros Hc Hn Hr. revert c n Hc Hn. induction Hr as [p|p1 p2 p3 e es Hs Hr IH]; intros c n Hc Hn Hf.
  { exists n, c. simpl. split; [lia|done]. }
  apply Forall_cons in Hf as [Hfe Hf]. rewrite filter_cons.
  destruct Hs as [s ts cpu' j' Ht|s ts cpu' j' o k Ht|s ts cpu' j' a Ht|s s' ts Hct];
    simpl in Hc, Hfe; cbn [is_access].
  - rewrite decide_False by tauto. apply (IH c n); [|done..]. simpl.
    rewrite lookup_insert_ne; [done|]. congruence.
  - case_decide as Hd; [subst cpu'|].
    + rewrite Hc in Ht. injection Ht as -> ->. destruct n as [|n]; [done|].
      destruct (IH (k (fst (exec o s))) n) as (m & c' & -> & ? & ?);
        [apply lookup_insert_eq|apply Hn|done|].
      exists m, c'. simpl. split; [lia|done].
    + apply (IH c n); [|done..]. simpl. by rewrite lookup_insert_ne.
  - rewrite decide_False by tauto. apply (IH c n); [|done..]. simpl.
    by rewrite lookup_delete_ne.
  - rewrite decide_False by tauto. by apply (IH c n).
Qed.
(** *** What all the programs of a pool are made of *)

(** The programs on processor [cpu] have operations in [P cpu]. *)
Definition pool_ops (P : nat -> Op -> Prop) (p : pool) : Prop :=
  forall cpu j c, active p !! cpu = Some (j, c) -> all_ops (P cpu) c.

Lemma pool_ops_step P p e p' :
  (forall cpu j, all_ops (P cpu) (body cpu j)) -> pool_ops P p -> step p e p' -> pool_ops P p'.
Proof using Type.
  intros Hb Hp Hs. destruct Hs as [s ts cpu j Ht|s ts cpu j o k Ht|s ts cpu j a Ht|s s' ts Hc];
    unfold pool_ops; cbn [active]; intros cpu' j' c'; [| | |by apply Hp].
  - rewrite lookup_insert_Some. intros [[<- [= <- <-]]|[_ Hl]]; [apply Hb|by eapply Hp].
  - rewrite lookup_insert_Some. intros [[<- [= <- <-]]|[_ Hl]]; [|by eapply Hp].
    apply (Hp _ _ _ Ht).
  - intros [_ Hl]%lookup_delete_Some. by eapply Hp.
Qed.

Lemma pool_ops_run P p es p' :
  (forall cpu j, all_ops (P cpu) (body cpu j)) -> pool_ops P p -> run p es p' -> pool_ops P p'.
Proof using Type. intros Hb Hp Hr. induction Hr; [done|]. eauto using pool_ops_step. Qed.

Lemma pool_ops_empty P s : pool_ops P (Pool s ∅).
Proof using Type. intros cpu j c. cbn [active]. by rewrite lookup_empty. Qed.

(** Scheduled on its own, a program without faults finishes. *)
Lemma run_to_finish (P : Op -> Prop) cpu j c n s ts :
  ts !! cpu = Some (j, c) -> all_ops P c -> steps_le n c ->
  exists i a p', (i <= n)%nat /\
    run (Pool s ts) (replicate i (Access cpu) ++ [Finish cpu j a]) p'.
Proof using Type.
  revert n s ts. induction c as [a| |o k IH]; intros n s ts Hc Hp Hn; [|done|].
  - exists O, a, (Pool s (delete cpu ts)). split; [lia|].
    eapply run_cons; [by constructor|constructor].
  - destruct n as [|n]; [done|]. destruct Hp as [_ Hp].
    destruct (IH (fst (exec o s)) n (snd (exec o s)) (<[cpu := (j, k (fst (exec o s)))]> ts))
      as (i & a & p' & Hi & Hr); [apply lookup_insert_eq|apply Hp|apply Hn|].
    exists (Datatypes.S i), a, p'. split; [lia|]. eapply run_cons; [by constructor|done].
Qed.
End Pool.
Arguments Pool {Op ans S J A} shared active.
Arguments shared {Op ans S J A}.
Arguments active {Op ans S J A}.
Arguments Arrive {J A}.
Arguments Access {J A}.
Arguments Finish {J A}.
Arguments Control {J A}.

(** ** What one program does whatever the others do *)

Section Wp.
Context {Op : Type} {ans : Op -> Type} {S : Type} (exec : forall o, S -> ans o * S).
Context (R G : S -> S -> Prop) `{!PreOrder R}.

(** From [s], whatever changes of [R] the others make before each access, [c]
  does not fault, each of its own changes is in [G], and it ends with [Q]. *)
Fixpoint wp {A} (c : code ans A) (Q : A -> S -> Prop) (s : S) : Prop :=
  forall s', R s s' ->
    match c with
    | Ret a => Q a s'
    | Fault => False
    | Do o k => G s' (snd (exec o s')) /\ wp (k (fst (exec o s'))) Q (snd (exec o s'))
    end.

Lemma wp_stable {A} (c : code ans A) Q s s' : R s s' -> wp c Q s -> wp c Q s'.
Proof using All. destruct c; simpl; intros Hs Hc s2 Hs2; apply (Hc s2); by transitivity s'. Qed.

Lemma wp_mono {A} (c : code ans A) (Q Q' : A -> S -> Prop) s :
  (forall a s, Q a s -> Q' a s) -> wp c Q s -> wp c Q' s.
Proof using Type.
  intros HQ. revert s. induction c as [a| |o k IH]; simpl; intros s Hc s' Hs; [auto|by eapply Hc|].
  destruct (Hc s' Hs). split; [done|]. by apply IH.
Qed.

Lemma wp_bind {A B} (c : code ans A) (f : A -> code ans B) Q s :
  wp c (fun a => wp (f a) Q) s -> wp (c ≫= f) Q s.
Proof using All.
  unfold mbind, code_mbind. revert s. induction c as [a| |o k IH]; intros s Hc.
  - simpl. pose proof (Hc s (PreOrder_Reflexive s)) as Hf. done.
  - done.
  - simpl in *. intros s' Hs. destruct (Hc s' Hs). split; [done|]. by apply IH.
Qed.

Lemma wp_ret {A} (a : A) Q s : (forall s', R s s' -> Q a s') -> wp (Ret a) Q s.
Proof using Type. done. Qed.

Lemma wp_do {A} o (k : ans o -> code ans A) Q s :
  (forall s', R s s' -> G s' (snd (exec o s')) /\ wp (k (fst (exec o s'))) Q (snd (exec o s'))) ->
  wp (Do o k) Q s.
Proof using Type. done. Qed.

(** A program whose operations are changes of [R]. *)
Lemma wp_ops {A} (P : Op -> Prop) (c : code ans A) s :
  (forall o s, P o -> R s (snd (exec o s)) /\ G s (snd (exec o s))) -> all_ops P c ->
  wp c (fun _ => R s) s.
Proof using All.
  intros HP Hc. enough (forall s', R s s' -> wp c (fun _ => R s) s') as Hw by by apply Hw.
  induction c as [a| |o k IH]; simpl; intros s1 Hs1 s2 Hs2; [by etrans|done|].
  destruct Hc as [Ho Hc]. split; [by apply HP|]. apply IH; [done|].
  etrans; [exact Hs1|]. etrans; [exact Hs2|]. by apply HP.
Qed.

(** The same where the answers are those that an invariant [I] allows. *)
Lemma wp_ops_when {A} (I : S -> Prop) P (T : forall o, ans o -> Prop) (c : code ans A) s :
  (forall s s', R s s' -> I s -> I s') ->
  (forall o s, P o -> I s -> T o (fst (exec o s)) /\ (I (snd (exec o s)) /\ G s (snd (exec o s)))) ->
  ops_when P T c -> I s -> wp c (fun _ => I) s.
Proof using Type.
  intros HI HP. revert s. induction c as [a| |o k IH]; intros s Hc Hs s' Hk; [by eapply HI|done|].
  destruct Hc as [Ho Hc], (HP o s' Ho (HI _ _ Hk Hs)) as (Ht & Hi & Hg). split; [done|].
  by apply IH; [apply Hc|].
Qed.

Lemma wp_access {A} o (k : ans o -> code ans A) Q s :
  wp (Do o k) Q s ->
  G s (snd (exec o s)) /\ wp (k (fst (exec o s))) Q (snd (exec o s)).
Proof using All. intros Hc. apply Hc. done. Qed.
End Wp.

(** Two things that a program promises, each to others that promise it. *)
Lemma wp_and {Op} {ans : Op -> Type} {S A} (exec : forall o, S -> ans o * S) (R1 G1 R2 G2 : S -> S -> Prop)
    (c : code ans A) Q1 Q2 s :
  wp exec R1 G1 c Q1 s -> wp exec R2 G2 c Q2 s ->
  wp exec (fun s s' => R1 s s' /\ R2 s s') (fun s s' => G1 s s' /\ G2 s s') c
    (fun a s => Q1 a s /\ Q2 a s) s.
Proof.
  revert s. induction c as [a| |o k IH]; intros s H1 H2 s' [Hr1 Hr2];
    specialize (H1 s' Hr1); specialize (H2 s' Hr2); [by split|done|].
  destruct H1, H2. split; [by split|]. by apply IH.
Qed.

(** Operations on a part of the state: [get] and [put] it. *)
Definition on_part {Op} {ans : Op -> Type} {S T} (get : T -> S) (put : S -> T -> T)
    (exec : forall o, S -> ans o * S) (o : Op) (t : T) : ans o * T :=
  (fst (exec o (get t)), put (snd (exec o (get t))) t).

(** A run on the whole state is one on the part. *)
Lemma run_part {Op} {ans : Op -> Type} {S T J A} (get : T -> S) (put : S -> T -> T)
    (exec : forall o, S -> ans o * S) (body : nat -> J -> code ans A) (C : T -> T -> Prop)
    (C' : S -> S -> Prop) p es p' :
  (forall s t, get (put s t) = s) -> (forall t t', C t t' -> C' (get t) (get t')) ->
  run (on_part get put exec) body C p es p' ->
  run exec body C' (Pool (get (shared p)) (active p)) es (Pool (get (shared p')) (active p')).
Proof.
  intros Hgp HC Hr. induction Hr as [p|p1 p2 p3 e es Hs Hr IH]; [constructor|].
  eapply run_cons; [|exact IH].
  destruct Hs as [t ts cpu j Ht|t ts cpu j o k Ht|t ts cpu j a Ht|t t' ts Hc]; simpl; try rewrite Hgp;
    by constructor; auto.
Qed.

(** What a program does to the part; the guarantee on the whole state may use
    that the rest is as it was. *)
Lemma wp_part {Op} {ans : Op -> Type} {S T A} (exec : forall o, S -> ans o * S)
    (get : T -> S) (put : S -> T -> T) (R G : S -> S -> Prop) (R' G' : T -> T -> Prop)
    (c : code ans A) Q t :
  (forall s t, get (put s t) = s) -> (forall t t', R' t t' -> R (get t) (get t')) ->
  (forall t s, G (get t) s -> G' t (put s t)) -> wp exec R G c Q (get t) ->
  wp (on_part get put exec) R' G' c (fun a t => Q a (get t)) t.
Proof.
  intros Hgp HR HG. revert t. induction c as [a| |o k IH]; intros t Hc t' Ht; specialize (Hc _ (HR _ _ Ht));
    [done|done|].
  destruct Hc as [Hg Hc]. split; [by apply HG|]. apply IH. simpl. by rewrite Hgp.
Qed.

(** Scheduled on its own, such a program finishes, with what it promises. *)
Lemma wp_to_finish {Op} {ans : Op -> Type} {S J A} (exec : forall o, S -> ans o * S)
    (body : nat -> J -> code ans A) control R `{!PreOrder R} (Q : A -> S -> Prop) cpu j c n s ts :
  ts !! cpu = Some (j, c) -> wp exec R R c Q s -> steps_le n c ->
  exists i a p', (i <= n)%nat /\ Q a (shared p') /\
    run exec body control (Pool s ts) (replicate i (Access cpu) ++ [Finish cpu j a]) p'.
Proof.
  revert n s ts. induction c as [a| |o k IH]; intros n s ts Hc Hw Hn.
  - exists O, a, (Pool s (delete cpu ts)). split; [lia|]. split; [by apply (Hw s)|].
    eapply run_cons; [by constructor|constructor].
  - by destruct (Hw s).
  - destruct n as [|n]; [done|]. apply wp_access in Hw as [_ Hw]; [|done].
    destruct (IH (fst (exec o s)) n (snd (exec o s)) (<[cpu := (j, k (fst (exec o s)))]> ts))
      as (i & a & p' & Hi & Hq & Hr); [apply lookup_insert_eq|exact Hw|apply Hn|].
    exists (Datatypes.S i), a, p'. split; [lia|]. split; [done|].
    eapply run_cons; [by constructor|done].
Qed.

(** *** Keeping an invariant *)

Section Keeps.
Context {Op : Type} {ans : Op -> Type} {S : Type} (exec : forall o, S -> ans o * S).
Context (I : S -> Prop).

(** A change that does not break [I]. *)
Definition keeps (s s' : S) : Prop := I s -> I s'.
#[global] Instance keeps_preorder : PreOrder keeps.
Proof using Type. split; unfold keeps; intros s; auto. Qed.

(** A program whose operations keep [I] keeps it. *)
Lemma wp_keeps {A} (P : Op -> Prop) (c : code ans A) s :
  (forall o s, P o -> keeps s (snd (exec o s))) -> all_ops P c -> I s ->
  wp exec keeps keeps c (fun _ => I) s.
Proof using Type.
  intros HP Hc Hs. eapply wp_mono; [|apply (wp_ops exec keeps keeps P); [|done]].
  - intros ? s' Hk. by apply Hk.
  - intros o s' Ho. by split; apply HP.
Qed.

(** So does one whose operations keep [I] as long as the answers are those that
    [I] allows. *)
Lemma wp_keeps_when {A} P (T : forall o, ans o -> Prop) (c : code ans A) s :
  (forall o s, P o -> I s -> T o (fst (exec o s)) /\ I (snd (exec o s))) -> ops_when P T c -> I s ->
  wp exec keeps keeps c (fun _ => I) s.
Proof using Type.
  intros HP. apply (wp_ops_when _ _ _ I); [done|]. intros o s1 Ho Hs1.
  destruct (HP o s1 Ho Hs1) as [Ht Hi]. split; [done|]. split; [done|]. by intros _.
Qed.
End Keeps.

(** A program that only makes changes of [R'], among others that do: all that
    happened meanwhile is a change of [R']. *)
Lemma wp_track {Op} {ans : Op -> Type} {S A} (exec : forall o, S -> ans o * S)
    (R G R' G' : S -> S -> Prop) `{!PreOrder R'} (c : code ans A) Q s :
  (forall s s', R' s s' -> R s s') -> (forall s s', G s s' -> R' s s' /\ G' s s') ->
  wp exec R G c Q s -> wp exec R' G' c (fun a s' => Q a s' /\ R' s s') s.
Proof.
  intros HR HG Hc. assert (R' s s) as Hss by reflexivity.
  revert Hc Hss. generalize s at 1 3 5 as s1.
  induction c as [a| |o k IH]; simpl; intros s1 Hc Hs1 s2 Hs2.
  - split; [by apply Hc, HR|]. by etrans.
  - by destruct (Hc s2 (HR _ _ Hs2)).
  - destruct (Hc s2 (HR _ _ Hs2)) as [Hg Hk]. destruct (HG _ _ Hg) as [Hr ?].
    split; [done|]. apply IH; [done|]. etrans; [exact Hs1|]. by etrans.
Qed.

(** *** Pools of programs that rely on each other *)

Section Rely.
Context {Op : Type} {ans : Op -> Type} {S : Type} (exec : forall o, S -> ans o * S).
Context {J A : Type} (body : nat -> J -> code ans A) (control : S -> S -> Prop).
Context (R : S -> S -> Prop) `{!PreOrder R} (I : S -> Prop).
Context (P : nat -> J -> Prop) (Q : nat -> J -> A -> S -> Prop).

(** [I] holds, and every running program makes changes of [R] only, when the
  others do, and ends with [Q]. *)
Definition pool_ok (p : pool (ans := ans) (S := S) (J := J) (A := A)) : Prop :=
  I (shared p) /\
  forall cpu j c, active p !! cpu = Some (j, c) -> wp exec R R c (Q cpu j) (shared p).

Definition arrives (e : label (J := J) (A := A)) : Prop :=
  match e with Arrive cpu j => P cpu j | _ => True end.
Definition finished (e : label (J := J) (A := A)) : Prop :=
  match e with Finish cpu j a => exists s, I s /\ Q cpu j a s | _ => True end.

Context (HI : forall s s', R s s' -> I s -> I s').
Context (Hcontrol : forall s s', control s s' -> R s s').
Context (Hbody : forall cpu j s, P cpu j -> I s -> wp exec R R (body cpu j) (Q cpu j) s).

Lemma pool_ok_step p e p' :
  pool_ok p -> arrives e -> step exec body control p e p' -> pool_ok p' /\ finished e.
Proof using All.
  intros [Hs0 Hp] He Hs. destruct Hs as [s ts cpu j Ht|s ts cpu j o k Ht|s ts cpu j a Ht|s s' ts Hc];
    unfold pool_ok; cbn [shared active arrives finished] in *.
  - split; [split; [done|]|done]. intros cpu' j' c'. rewrite lookup_insert_Some.
    intros [[<- [= <- <-]]|[Hne Hl]]; [by apply Hbody|by eapply Hp].
  - destruct (wp_access _ _ _ _ _ _ _ (Hp _ _ _ Ht)) as [Hg Hk].
    split; [split; [by eapply HI|]|done]. intros cpu' j' c'. rewrite lookup_insert_Some.
    intros [[<- [= <- <-]]|[Hne Hl]]; [done|]. eapply wp_stable; [apply _|exact Hg|by apply Hp].
  - split; [split; [done|]|exists s; split; [done|by apply (Hp _ _ _ Ht s)]].
    intros cpu' j' c' [? Hl]%lookup_delete_Some. by eapply Hp.
  - split; [split; [by eapply HI, Hs0; apply Hcontrol|]|done]. intros cpu' j' c' Hl.
    eapply wp_stable; [apply _|by apply Hcontrol|by apply Hp].
Qed.

Lemma pool_ok_change p e p' : pool_ok p -> step exec body control p e p' -> R (shared p) (shared p').
Proof using Hcontrol PreOrder0.
  intros [_ Hp] Hs. destruct Hs as [s ts cpu j Ht|s ts cpu j o k Ht|s ts cpu j a Ht|s s' ts Hc]; simpl in *;
    [done| |done|by apply Hcontrol].
  by apply (wp_access _ _ _ _ _ _ _ (Hp _ _ _ Ht)).
Qed.

(** The others change the state. *)
Lemma pool_ok_others s s' ts : R s s' -> pool_ok (Pool s ts) -> pool_ok (Pool s' ts).
Proof using HI PreOrder0.
  intros Hr [Hi Hp]. split; [by eapply HI|]. intros cpu j c Hc. eapply wp_stable; [done|exact Hr|by apply Hp].
Qed.

Lemma pool_ok_run p es p' :
  pool_ok p -> Forall arrives es -> run exec body control p es p' ->
  pool_ok p' /\ Forall finished es.
Proof using All.
  intros Hp Ha Hr. induction Hr as [p|p1 p2 p3 e es Hs Hr IH]; [done|].
  apply Forall_cons in Ha as [He Ha]. destruct (pool_ok_step _ _ _ Hp He Hs) as [Hp2 Hf].
  destruct (IH Hp2 Ha) as [? ?]. split; [done|]. by constructor.
Qed.

Lemma pool_ok_empty s : I s -> pool_ok (Pool s ∅).
Proof using Type. intros Hs. split; [done|]. intros cpu j c. cbn [active]. by rewrite lookup_empty. Qed.

(** No processor of such a pool is stuck. *)
Lemma pool_ok_progress p cpu j c :
  pool_ok p -> active p !! cpu = Some (j, c) ->
  (exists o k, c = Do o k) \/ (exists a, c = Ret a /\ Q cpu j a (shared p)).
Proof using PreOrder0.
  intros [_ Hp] Hc. specialize (Hp _ _ _ Hc). destruct c as [a| |o k]; [right|exfalso|left].
  - exists a. split; [done|]. by apply (Hp (shared p)).
  - by apply (Hp (shared p)).
  - eauto.
Qed.
End Rely.

(** *** What is left of the programs of a pool *)

Section Left.
Context {Op : Type} {ans : Op -> Type} {S : Type} (exec : forall o, S -> ans o * S).
Context {J A : Type} (body : nat -> J -> code ans A) (control : S -> S -> Prop).
Context (D : code ans A -> Prop) (P : nat -> J -> Prop).

Definition pool_left (p : pool (ans := ans) (S := S) (J := J) (A := A)) : Prop :=
  forall cpu j c, active p !! cpu = Some (j, c) -> everywhere D c.

Lemma pool_left_run p es p' :
  (forall cpu j, P cpu j -> everywhere D (body cpu j)) -> Forall (arrives P) es ->
  pool_left p -> run exec body control p es p' -> pool_left p'.
Proof using Type.
  intros Hb Ha Hp Hr. induction Hr as [p|p1 p2 p3 e es Hs Hr IH]; [done|].
  apply Forall_cons in Ha as [He Ha]. apply IH; [done|].
  destruct Hs as [s ts cpu j Ht|s ts cpu j o k Ht|s ts cpu j a Ht|s s' ts Hc];
    unfold pool_left; cbn [active]; intros cpu' j' c'; [| | |by apply Hp].
  - rewrite lookup_insert_Some. intros [[<- [= <- <-]]|[_ Hl]]; [by apply Hb|by eapply Hp].
  - rewrite lookup_insert_Some. intros [[<- [= <- <-]]|[_ Hl]]; [|by eapply Hp].
    apply (Hp _ _ _ Ht).
  - intros [_ Hl]%lookup_delete_Some. by eapply Hp.
Qed.
End Left.

(** *** An executable scheduler *)

Section Schedule.
Context {Op : Type} {ans : Op -> Type} {S : Type} (exec : forall o, S -> ans o * S).
Context {J A : Type} (body : nat -> J -> code ans A).

Inductive choice := Begin (cpu : nat) (j : J) | Go (cpu : nat).
#[local] Abbreviation pool := (pool (ans := ans) (S := S) (J := J) (A := A)).

(** One choice: start a job, or make the next access of a processor, or finish
  its job. *)
Definition choose (c : choice) (p : pool) : option (label * pool) :=
  match c with
  | Begin cpu j =>
    match active p !! cpu with
    | None => Some (Arrive cpu j, Pool (shared p) (<[cpu := (j, body cpu j)]> (active p)))
    | Some _ => None
    end
  | Go cpu =>
    match active p !! cpu with
    | Some (j, Ret a) => Some (Finish cpu j a, Pool (shared p) (delete cpu (active p)))
    | Some (j, Do o k) =>
        Some (Access cpu, Pool (snd (exec o (shared p)))
                            (<[cpu := (j, k (fst (exec o (shared p))))]> (active p)))
    | _ => None
    end
  end.

Fixpoint schedule (cs : list choice) (p : pool) : option (list label * pool) :=
  match cs with
  | [] => Some ([], p)
  | c :: cs =>
    '(e, p) ← choose c p;
    '(es, p) ← schedule cs p;
    Some (e :: es, p)
  end.

Lemma choose_step control c p e p' :
  choose c p = Some (e, p') -> step exec body control p e p'.
Proof using Type.
  destruct p as [s ts], c as [cpu j|cpu]; simpl; destruct (ts !! cpu) as [[j' [a| |o k]]|] eqn:E;
    intros Hc; simplify_eq; by constructor.
Qed.

Lemma schedule_run control cs p es p' :
  schedule cs p = Some (es, p') -> run exec body control p es p'.
Proof using Type.
  revert p es. induction cs as [|c cs IH]; simpl; intros p es Hs.
  { simplify_eq. constructor. }
  destruct (choose c p) as [[e p1]|] eqn:E1; [|done]. simpl in Hs.
  destruct (schedule cs p1) as [[es1 p2]|] eqn:E2; [|done]. simplify_eq/=.
  econstructor; [by eapply choose_step|by apply IH].
Qed.
End Schedule.
Arguments Begin {J}.
Arguments Go {J}.
