(* ===== verification/Compose.v ===== *)
(** * Two pools on one state

    Two kinds of programs, each with its own operations, run on the same state:
    [system] puts a pool of the one beside a pool of the other. A run of the
    system is a run of each pool in which the other one is part of the
    environment ([run_lefts], [run_rights]), and an invariant of the whole
    system says what its steps do ([sys_run_inv]). *)

From S2P Require Import Prelude Interleave.

Section Compose.
Context {S : Type}.
Context {Op1 : Type} {ans1 : Op1 -> Type} {J1 A1 : Type}.
Context {Op2 : Type} {ans2 : Op2 -> Type} {J2 A2 : Type}.
Context (exec1 : forall o, S -> ans1 o * S) (body1 : nat -> J1 -> code ans1 A1).
Context (exec2 : forall o, S -> ans2 o * S) (body2 : nat -> J2 -> code ans2 A2).
Context (env : S -> S -> Prop).

Record system := System {
  state : S;
  lefts : gmap nat (J1 * code ans1 A1);
  rights : gmap nat (J2 * code ans2 A2);
}.
Implicit Types (x : system) (s : S).

Definition left_pool x : pool (ans := ans1) := Pool (state x) (lefts x).
Definition right_pool x : pool (ans := ans2) := Pool (state x) (rights x).

Inductive event :=
  | L (e : label (J := J1) (A := A1))
  | R (e : label (J := J2) (A := A2))
  | Env.

(** A step of a pool on its own. *)
Definition nothing s s' : Prop := False.

Inductive sys_step : system -> event -> system -> Prop :=
  | sys_left s l r e s' l' :
      step exec1 body1 nothing (Pool s l) e (Pool s' l') ->
      sys_step (System s l r) (L e) (System s' l' r)
  | sys_right s l r e s' r' :
      step exec2 body2 nothing (Pool s r) e (Pool s' r') ->
      sys_step (System s l r) (R e) (System s' l r')
  | sys_env s l r s' :
      env s s' -> sys_step (System s l r) Env (System s' l r).

(** Runs in which every step satisfies [P]. *)
Inductive sys_run (P : S -> event -> S -> Prop) : system -> list event -> system -> Prop :=
  | sys_nil x : sys_run P x [] x
  | sys_cons x1 x2 x3 e es :
      sys_step x1 e x2 -> P (state x1) e (state x2) -> sys_run P x2 es x3 ->
      sys_run P x1 (e :: es) x3.

Definition any_step s (e : event) s' : Prop := True.

Lemma sys_run_app P x1 x2 x3 es1 es2 :
  sys_run P x1 es1 x2 -> sys_run P x2 es2 x3 -> sys_run P x1 (es1 ++ es2) x3.
Proof using Type. induction 1; simpl; [done|]. intros ?. econstructor; eauto. Qed.

Lemma sys_run_app_inv P x1 x3 es1 es2 :
  sys_run P x1 (es1 ++ es2) x3 -> exists x2, sys_run P x1 es1 x2 /\ sys_run P x2 es2 x3.
Proof using Type.
  revert x1. induction es1 as [|e es1 IH]; intros x1; simpl.
  - intros Hr. exists x1. split; [constructor|done].
  - inversion 1; subst. edestruct IH as (q & ? & ?); [done|].
    exists q. split; [by econstructor|done].
Qed.

Lemma sys_run_mono (P P' : S -> event -> S -> Prop) x es x' :
  (forall s e s', P s e s' -> P' s e s') -> sys_run P x es x' -> sys_run P' x es x'.
Proof using Type. intros HP. induction 1; econstructor; eauto. Qed.

(** What the steps of a run do, from an invariant of the system and what is
    known of each event. *)
Lemma sys_run_inv (I : system -> Prop) (K : event -> Prop) (P P' : S -> event -> S -> Prop) x es x' :
  (forall x e x', I x -> K e -> sys_step x e x' -> P (state x) e (state x') ->
     I x' /\ P' (state x) e (state x')) ->
  I x -> Forall K es -> sys_run P x es x' -> I x' /\ sys_run P' x es x'.
Proof using Type.
  intros HI Hx HK Hr. induction Hr as [x|x1 x2 x3 e es Hs HP Hr IH]; [split; [done|constructor]|].
  apply Forall_cons in HK as [He HK]. destruct (HI _ _ _ Hx He Hs HP) as [Hx2 HP'].
  destruct (IH Hx2 HK) as [? ?]. split; [done|]. by econstructor.
Qed.

(** ** Each pool beside the other *)

Definition left_label (e : event) : label := match e with L e => e | _ => Control end.
Definition right_label (e : event) : label := match e with R e => e | _ => Control end.

Lemma step_any {Op} {ans : Op -> Type} {J A} (exec : forall o, S -> ans o * S) (body : nat -> J -> code ans A)
    (C : S -> S -> Prop) p e p' :
  step exec body nothing p e p' -> step exec body C p e p'.
Proof using Type. destruct 1; [by constructor..|]. destruct H. Qed.

Lemma run_lefts P (C : S -> S -> Prop) x es x' :
  (forall s e s', P s e s' -> (forall l, e <> L l) -> C s s') ->
  sys_run P x es x' ->
  run exec1 body1 C (left_pool x) (left_label <$> es) (left_pool x').
Proof using Type.
  intros HC Hr. induction Hr as [x|x1 x2 x3 e es Hs HP Hr IH]; [constructor|].
  eapply run_cons; [|exact IH]. destruct Hs as [s l r e s' l' Hs|s l r e s' r' Hs|s l r s' Hs]; simpl.
  - by apply step_any.
  - apply step_control. by eapply HC.
  - apply step_control. by eapply HC.
Qed.

Lemma run_rights P (C : S -> S -> Prop) x es x' :
  (forall s e s', P s e s' -> (forall r, e <> R r) -> C s s') ->
  sys_run P x es x' ->
  run exec2 body2 C (right_pool x) (right_label <$> es) (right_pool x').
Proof using Type.
  intros HC Hr. induction Hr as [x|x1 x2 x3 e es Hs HP Hr IH]; [constructor|].
  eapply run_cons; [|exact IH]. destruct Hs as [s l r e s' l' Hs|s l r e s' r' Hs|s l r s' Hs]; simpl.
  - apply step_control. by eapply HC.
  - by apply step_any.
  - apply step_control. by eapply HC.
Qed.

(** The steps of one pool while the other one rests. *)
Lemma lefts_run C s l r es s' l' :
  run exec1 body1 nothing (Pool s l) es (Pool s' l') -> (forall e s s', C s (L e) s') ->
  sys_run C (System s l r) (L <$> es) (System s' l' r).
Proof using Type.
  intros Hr HC. remember (Pool s l) as p eqn:Ep. remember (Pool s' l') as p' eqn:Ep'. revert s l Ep.
  induction Hr as [p|p1 [s2 l2] p3 e es Hs Hr IH]; intros s l ->; [by injection Ep' as -> ->; constructor|].
  econstructor; [by apply sys_left|done|]. by apply IH.
Qed.

Lemma rights_run C s l r es s' r' :
  run exec2 body2 nothing (Pool s r) es (Pool s' r') -> (forall e s s', C s (R e) s') ->
  sys_run C (System s l r) (R <$> es) (System s' l r').
Proof using Type.
  intros Hr HC. remember (Pool s r) as p eqn:Ep. remember (Pool s' r') as p' eqn:Ep'. revert s r Ep.
  induction Hr as [p|p1 [s2 r2] p3 e es Hs Hr IH]; intros s r ->; [by injection Ep' as -> ->; constructor|].
  econstructor; [by apply sys_right|done|]. by apply IH.
Qed.

(** What is known of the programs that start. *)
Definition sys_arrives (P1 : nat -> J1 -> Prop) (P2 : nat -> J2 -> Prop) (e : event) : Prop :=
  match e with L e => arrives P1 e | R e => arrives P2 e | Env => True end.

Lemma left_arrives P1 P2 es :
  Forall (sys_arrives P1 P2) es -> Forall (arrives P1) (left_label <$> es).
Proof using Type. intros He. apply Forall_fmap. by eapply Forall_impl; [exact He|intros []]. Qed.

Lemma right_arrives P1 P2 es :
  Forall (sys_arrives P1 P2) es -> Forall (arrives P2) (right_label <$> es).
Proof using Type. intros He. apply Forall_fmap. by eapply Forall_impl; [exact He|intros []]. Qed.

Lemma sys_arrives_mono (P1 P1' : nat -> J1 -> Prop) (P2 P2' : nat -> J2 -> Prop) es :
  (forall cpu j, P1 cpu j -> P1' cpu j) -> (forall cpu j, P2 cpu j -> P2' cpu j) ->
  Forall (sys_arrives P1 P2) es -> Forall (sys_arrives P1' P2') es.
Proof using Type.
  intros H1 H2 He. eapply Forall_impl; [exact He|]. intros [[]|[]|]; simpl; auto.
Qed.
End Compose.
Arguments System {S Op1 ans1 J1 A1 Op2 ans2 J2 A2} state lefts rights.
Arguments state {S Op1 ans1 J1 A1 Op2 ans2 J2 A2}.
Arguments lefts {S Op1 ans1 J1 A1 Op2 ans2 J2 A2}.
Arguments rights {S Op1 ans1 J1 A1 Op2 ans2 J2 A2}.
Arguments L {J1 A1 J2 A2}.
Arguments R {J1 A1 J2 A2}.
Arguments Env {J1 A1 J2 A2}.
