(* ===== verification/BpfMaps.v ===== *)
(** * The kernel's maps, as interfaces

    The BPF maps live in the kernel, which is not part of the repository. The
    program relies on a few documented facts about them; they are the classes
    of this file. [BpfHash] is a hash map keyed by an IPv4 address
    ([BPF_MAP_TYPE_LRU_HASH]: [fw_blocklist], [fw_ip_stats]); [LpmTrie] is
    [BPF_MAP_TYPE_LPM_TRIE] ([fw_range_drop]). The two array maps
    ([fw_config], [fw_stats]) are lists of their [max_entries] cells and need
    no interface.

    An LRU map may drop any other entry when it inserts a key: the laws say so
    and nothing proved from [BpfHashLaws] assumes the contrary. The class
    [BpfHashKeeps] is the stronger interface of a map without a bound. No LRU
    map satisfies it for ever: it stands for runs in which the map does not
    fill, and the theorems that need it say so.
    Three instances show that the laws can hold: [gmap] (a map with room),
    [lru] (a list of bounded length that evicts), and [trie]. *)

From S2P Require Import Prelude.

(** ** Hash maps keyed by a [__u32] *)

Class BpfHash (M V : Type) := {
  bpf_lookup : M -> Z -> option V;              (* bpf_map_lookup_elem *)
  bpf_update : M -> Z -> V -> option M;         (* bpf_map_update_elem, BPF_ANY *)
  bpf_delete : M -> Z -> option M;              (* bpf_map_delete_elem *)
  bpf_write : M -> Z -> V -> M;                 (* store through the looked-up pointer *)
  bpf_next_key : M -> option Z -> option Z;     (* bpf_map_get_next_key *)
  bpf_keys : M -> list Z;                       (* the order of the iteration *)
}.
#[global] Hint Mode BpfHash ! - : typeclass_instances.

Class BpfHashLaws (M V : Type) `{BpfHash M V} : Prop := {
  bpf_update_eq (m m' : M) k v : bpf_update m k v = Some m' -> bpf_lookup m' k = Some v;
  bpf_update_ne (m m' : M) k k' v : bpf_update m k v = Some m' -> k <> k' ->
    bpf_lookup m' k' = bpf_lookup m k' \/ bpf_lookup m' k' = None;
  bpf_delete_eq (m m' : M) k : bpf_delete m k = Some m' -> bpf_lookup m' k = None;
  bpf_delete_ne (m m' : M) k k' : bpf_delete m k = Some m' -> k <> k' ->
    bpf_lookup m' k' = bpf_lookup m k';
  bpf_delete_fail (m : M) k : bpf_delete m k = None <-> bpf_lookup m k = None;
  bpf_write_eq (m : M) k v0 v : bpf_lookup m k = Some v0 -> bpf_lookup (bpf_write m k v) k = Some v;
  bpf_write_ne (m : M) k k' v : k <> k' -> bpf_lookup (bpf_write m k v) k' = bpf_lookup m k';
  bpf_write_write (m : M) k v v' : bpf_write (bpf_write m k v) k v' = bpf_write m k v';
  bpf_keys_NoDup (m : M) : NoDup (bpf_keys m);
  bpf_keys_lookup (m : M) k : k ∈ bpf_keys m <-> is_Some (bpf_lookup m k);
  bpf_next_key_first (m : M) : bpf_next_key m None = head (bpf_keys m);
  bpf_next_key_after (m : M) k l1 l2 :
    bpf_keys m = l1 ++ k :: l2 -> bpf_next_key m (Some k) = head l2;
  bpf_next_key_lost (m : M) k : k ∉ bpf_keys m -> bpf_next_key m (Some k) = head (bpf_keys m);
}.

(** A map that accepts every update and evicts nothing, an idealisation: the
    source's maps do so as long as they have held fewer than [max_entries]
    distinct keys. *)
Class BpfHashKeeps (M V : Type) `{BpfHashLaws M V} : Prop := {
  bpf_update_ok (m : M) k v : is_Some (bpf_update m k v);
  bpf_update_keeps (m m' : M) k k' v : bpf_update m k v = Some m' -> k <> k' ->
    bpf_lookup m' k' = bpf_lookup m k';
}.

(** ** The longest-prefix-match trie *)

(** struct lpm_key *)
Record lpm_key := LpmKey { prefix_len : Z; data : Z }.
#[global] Instance lpm_key_eq_dec : EqDecision lpm_key.
Proof. solve_decision. Defined.

(** The first [p] bits of an address. The trie compares the bytes of [data]
    as they lie in memory, which for an address in network byte order is the
    big-endian number [ntohl data]. *)
Definition prefix_bits `{Endian} (p a : Z) : Z := Z.shiftr (ntohl a) (32 - p).

Definition key_node `{Endian} (k : lpm_key) : Z * Z :=
  (prefix_len k, prefix_bits (prefix_len k) (data k)).

Class LpmTrie (T : Type) := {
  lpm_lookup : T -> lpm_key -> option Z;
  lpm_update : T -> lpm_key -> Z -> option T;
  lpm_delete : T -> lpm_key -> option T;
  lpm_nodes : T -> gset (Z * Z);                (* the stored prefixes *)
}.

Definition covers `{Endian, LpmTrie T} (t : T) (a : Z) : Prop :=
  exists p, 0 <= p <= 32 /\ (p, prefix_bits p a) ∈ lpm_nodes t.

Class LpmLaws (T : Type) `{Endian, LpmTrie T} : Prop := {
  lpm_lookup_full (t : T) a : is_Some (lpm_lookup t (LpmKey 32 a)) <-> covers t a;
  lpm_update_nodes (t t' : T) k v : lpm_update t k v = Some t' ->
    lpm_nodes t' = {[key_node k]} ∪ lpm_nodes t;
  lpm_delete_nodes (t t' : T) k : lpm_delete t k = Some t' ->
    lpm_nodes t' = lpm_nodes t ∖ {[key_node k]};
  lpm_delete_fail (t : T) k : lpm_delete t k = None <-> key_node k ∉ lpm_nodes t;
}.

Section Covers.
Context `{Endian, LpmTrie T, !LpmLaws T}.

Lemma covers_update t t' k v a :
  0 <= prefix_len k <= 32 -> lpm_update t k v = Some t' ->
  covers t' a <->
  prefix_bits (prefix_len k) a = prefix_bits (prefix_len k) (data k) \/ covers t a.
Proof.
  intros Hk Hu. unfold covers. rewrite (lpm_update_nodes _ _ _ _ Hu). unfold key_node. split.
  - intros (p & Hp & [E%elem_of_singleton|Hin]%elem_of_union); [|by eauto].
    left. congruence.
  - intros [E|(p & Hp & Hin)].
    + exists (prefix_len k). rewrite E. set_solver.
    + exists p. set_solver.
Qed.

Lemma covers_delete t t' k a :
  lpm_delete t k = Some t' ->
  covers t' a <->
  exists p, 0 <= p <= 32 /\ (p, prefix_bits p a) ∈ lpm_nodes t /\
  (p <> prefix_len k \/ prefix_bits p a <> prefix_bits (prefix_len k) (data k)).
Proof.
  intros Hd. unfold covers. rewrite (lpm_delete_nodes _ _ _ Hd). unfold key_node.
  setoid_rewrite elem_of_difference. setoid_rewrite elem_of_singleton.
  split; intros (p & Hp & Hin & Hne); exists p; repeat split; try done; try lia.
  - destruct (decide (p = prefix_len k)) as [->|]; [|by left].
    right. intros E. by rewrite E in Hne.
  - intros [= -> E]. by destruct Hne as [Hne|Hne].
Qed.
End Covers.

(** ** Instance: a hash map with room left *)

(** The successor of [k] in an iteration order, the first key when [k] is not
    there. *)
Fixpoint after (k : Z) (l : list Z) : option (option Z) :=
  match l with
  | [] => None
  | k' :: l => if decide (k = k') then Some (head l) else after k l
  end.

Definition next_in (l : list Z) (k : option Z) : option Z :=
  match k with
  | None => head l
  | Some k => default (head l) (after k l)
  end.

Lemma next_in_after l1 k l2 : NoDup (l1 ++ k :: l2) -> next_in (l1 ++ k :: l2) (Some k) = head l2.
Proof.
  intros Hnd. enough (after k (l1 ++ k :: l2) = Some (head l2)) as E by (simpl; by rewrite E).
  induction l1 as [|x l1 IH]; simpl in *.
  - by rewrite decide_True.
  - apply list.NoDup_cons in Hnd as [Hx Hnd]. rewrite decide_False; [auto|].
    intros ->. apply Hx, elem_of_app. right. left.
Qed.

Lemma next_in_lost l k : k ∉ l -> next_in l (Some k) = head l.
Proof.
  intros Hk. enough (after k l = None) as E by (simpl; by rewrite E).
  induction l as [|x l IH]; [done|]. apply not_elem_of_cons in Hk as [Hx Hk].
  simpl. rewrite decide_False by done. auto.
Qed.

#[global] Instance gmap_hash {V} : BpfHash (gmap Z V) V := {|
  bpf_lookup m k := m !! k;
  bpf_update m k v := Some (<[k := v]> m);
  bpf_delete m k := match m !! k with Some _ => Some (delete k m) | None => None end;
  bpf_write m k v := match m !! k with Some _ => <[k := v]> m | None => m end;
  bpf_next_key m k := next_in (map_to_list m).*1 k;
  bpf_keys m := (map_to_list m).*1;
|}.

#[global] Instance gmap_hash_laws {V} : BpfHashLaws (gmap Z V) V.
Proof.
  split; simpl; intros.
  - simplify_eq. apply lookup_insert_eq.
  - simplify_eq. left. by apply lookup_insert_ne.
  - case_match; simplify_eq. apply lookup_delete_eq.
  - case_match; simplify_eq. by apply lookup_delete_ne.
  - by case_match.
  - simplify_map_eq. done.
  - case_match; [by apply lookup_insert_ne|done].
  - destruct (m !! k) eqn:E; [by rewrite lookup_insert_eq, insert_insert_eq|by rewrite E].
  - apply NoDup_fst_map_to_list.
  - split.
    + intros [[k' v] [-> Hin]]%list_elem_of_fmap. exists v. by apply elem_of_map_to_list.
    + intros [v Hv]. apply list_elem_of_fmap. exists (k, v). split; [done|].
      by apply elem_of_map_to_list.
  - done.
  - match goal with E : _ = _ ++ _ |- _ => rewrite E end.
    apply next_in_after.
    match goal with E : _ = _ ++ _ |- _ => rewrite <-E end.
    apply NoDup_fst_map_to_list.
  - by apply next_in_lost.
Qed.

#[global] Instance gmap_hash_keeps {V} : BpfHashKeeps (gmap Z V) V.
Proof.
  split; simpl; [by eexists|]. intros. simplify_eq. by apply lookup_insert_ne.
Qed.

(** ** Instance: a bounded map that evicts its oldest entry *)

Definition lru (N : positive) (V : Type) : Type := list (Z * V).

Section Lru.
Context {N : positive} {V : Type}.
Implicit Types m : list (Z * V).

Fixpoint assoc m (k : Z) : option V :=
  match m with
  | [] => None
  | (k', v) :: m => if decide (k = k') then Some v else assoc m k
  end.

Fixpoint assoc_del m (k : Z) : list (Z * V) :=
  match m with
  | [] => []
  | (k', v) :: m => if decide (k = k') then assoc_del m k else (k', v) :: assoc_del m k
  end.

Fixpoint assoc_set m (k : Z) (v : V) : list (Z * V) :=
  match m with
  | [] => []
  | (k', v') :: m => (k', if decide (k = k') then v else v') :: assoc_set m k v
  end.

#[global] Instance lru_hash : BpfHash (lru N V) V := {|
  bpf_lookup m k := assoc m k;
  bpf_update m k v := Some (take (Pos.to_nat N) ((k, v) :: assoc_del m k));
  bpf_delete m k := match assoc m k with Some _ => Some (assoc_del m k) | None => None end;
  bpf_write m k v := assoc_set m k v;
  bpf_next_key m k := next_in (remove_dups m.*1) k;
  bpf_keys m := remove_dups m.*1;
|}.

Lemma assoc_del_eq m k : assoc (assoc_del m k) k = None.
Proof using Type. induction m as [|[k' v] m IH]; simpl; [done|]. case_decide; [done|]. simpl. by rewrite decide_False. Qed.

Lemma assoc_del_ne m k k' : k <> k' -> assoc (assoc_del m k) k' = assoc m k'.
Proof using Type. intros Hk. induction m as [|[k'' v] m IH]; simpl; [done|]. repeat (case_decide; simpl); congruence. Qed.

Lemma assoc_take n m k : assoc (take n m) k = assoc m k \/ assoc (take n m) k = None.
Proof using Type.
  revert n. induction m as [|[k' v] m IH]; intros [|n]; simpl; auto.
  case_decide; auto.
Qed.

Lemma assoc_set_eq m k v0 v : assoc m k = Some v0 -> assoc (assoc_set m k v) k = Some v.
Proof using Type. induction m as [|[k' v'] m IH]; simpl; [done|]. by case_decide. Qed.

Lemma assoc_set_ne m k k' v : k <> k' -> assoc (assoc_set m k v) k' = assoc m k'.
Proof using Type. intros Hk. induction m as [|[k'' v''] m IH]; simpl; [done|]. repeat case_decide; congruence. Qed.

Lemma assoc_set_set m k v v' : assoc_set (assoc_set m k v) k v' = assoc_set m k v'.
Proof using Type. induction m as [|[k' v''] m IH]; simpl; [done|]. rewrite IH. by case_decide. Qed.

Lemma assoc_is_Some m k : k ∈ m.*1 <-> is_Some (assoc m k).
Proof using Type.
  induction m as [|[k' v] m IH]; simpl.
  - split; [by intros ?%not_elem_of_nil|by intros []].
  - rewrite elem_of_cons, IH. case_decide; naive_solver.
Qed.

#[global] Instance lru_hash_laws : BpfHashLaws (lru N V) V.
Proof using Type.
  assert (exists n, Pos.to_nat N = S n) as [n HN] by (exists (pred (Pos.to_nat N)); lia).
  split; simpl; intros; rewrite ?HN in *; simplify_eq/=.
  - by rewrite decide_True.
  - rewrite decide_False by done. rewrite <-(assoc_del_ne m k k') by done. apply assoc_take.
  - case_match; simplify_eq. apply assoc_del_eq.
  - case_match; simplify_eq. by apply assoc_del_ne.
  - by case_match.
  - by eapply assoc_set_eq.
  - by apply assoc_set_ne.
  - apply assoc_set_set.
  - apply NoDup_remove_dups.
  - rewrite elem_of_remove_dups. apply assoc_is_Some.
  - done.
  - match goal with E : _ = _ ++ _ |- _ => rewrite E end.
    apply next_in_after.
    match goal with E : _ = _ ++ _ |- _ => rewrite <-E end.
    apply NoDup_remove_dups.
  - by apply next_in_lost.
Qed.
End Lru.

(** ** Instance: a trie, as the map from prefixes to values *)

Section Trie.
Context `{Endian}.

(** The longest stored prefix of an address: lengths [p], [p - 1], ..., 0. *)
Fixpoint longest (t : gmap (Z * Z) Z) (p : nat) (a : Z) : option Z :=
  match t !! (Z.of_nat p, prefix_bits (Z.of_nat p) a) with
  | Some v => Some v
  | None => match p with O => None | S p => longest t p a end
  end.

#[global] Instance trie : LpmTrie (gmap (Z * Z) Z) := {|
  lpm_lookup t k := longest t (Z.to_nat (prefix_len k)) (data k);
  lpm_update t k v := Some (<[key_node k := v]> t);
  lpm_delete t k :=
  match t !! key_node k with Some _ => Some (delete (key_node k) t) | None => None end;
  lpm_nodes t := dom t;
|}.

Lemma longest_is_Some t n a :
  is_Some (longest t n a) <->
  exists p, 0 <= p <= Z.of_nat n /\ is_Some (t !! (p, prefix_bits p a)).
Proof using Type.
  induction n as [|n IH]; cbn [longest].
  - split.
    + intros Hs. exists 0. split; [lia|]. by case_match.
    + intros (p & Hp & Hs). assert (p = 0) as -> by lia. destruct Hs as [v Hv].
      change (Z.of_nat 0) with 0. by rewrite Hv.
  - case_match eqn:E.
    + split; [|done]. intros _. exists (Z.of_nat (S n)). split; [lia|]. by rewrite E.
    + rewrite IH. split; intros (p & Hp & Hs); exists p; (split; [|done]); [lia|].
      destruct (decide (p = Z.of_nat (S n))) as [->|]; [|lia].
      rewrite E in Hs. by destruct Hs.
Qed.

#[global] Instance trie_laws : LpmLaws (gmap (Z * Z) Z).
Proof using Type.
  split.
  { intros t a. change (lpm_lookup t (LpmKey 32 a)) with (longest t (Z.to_nat 32) a).
    rewrite longest_is_Some. unfold covers; cbn [lpm_nodes trie].
    setoid_rewrite elem_of_dom. by rewrite Z2Nat.id. }
  all: simpl; intros.
  - simplify_eq. apply dom_insert_L.
  - case_match; simplify_eq. apply dom_delete_L.
  - rewrite not_elem_of_dom. by case_match.
Qed.
End Trie.
