(* ===== verification/FwProg.v ===== *)
(** * The XDP data plane, [wall/fw_prog.c]

    [fw_prog] is the program the kernel runs on every received frame. Its
    state is the five maps of the file ([kmaps]); one run takes the frame, the
    CPU it arrived on and the value [bpf_ktime_get_ns] returns. The helpers
    [blocklist_check], [range_check], [classify], [record_stats] are the
    numbered blocks of the function body, in its order. *)

From S2P Require Import Prelude BpfMaps.

(** ** Data *)

Definition ETH_P_IP : Z := 0x0800.
Definition IPPROTO_ICMP : Z := 1.
Definition IPPROTO_TCP : Z := 6.
Definition IPPROTO_UDP : Z := 17.

Inductive xdp_action := XDP_DROP | XDP_PASS.
#[global] Instance xdp_action_eq_dec : EqDecision xdp_action.
Proof. solve_decision. Defined.

Definition WINDOW_NS : Z := Z.shiftl 1 30.
Definition FRAC_BITS : Z := 10.

Record ip_stats := IpStats {
  window_start : Z;
  prev_packets : Z;
  packets : Z;
  prev_bytes : Z;
  bytes : Z;
  syn : Z;
  udp : Z;
  icmp : Z;
}.

Record counters := Counters { rx : Z; dropped : Z; passed : Z }.

#[global] Instance ip_stats_eq_dec : EqDecision ip_stats.
Proof. solve_decision. Defined.
#[global] Instance counters_eq_dec : EqDecision counters.
Proof. solve_decision. Defined.

Definition CFG_ENABLED : Z := 0.
Definition CFG_PPS : Z := 1.

(** The maps. [fw_config] lists its two cells, [fw_stats] the one cell of each
    possible CPU. *)
Record kmaps (BL RD IS : Type) := Kmaps {
  fw_blocklist : BL;
  fw_range_drop : RD;
  fw_ip_stats : IS;
  fw_config : list Z;
  fw_stats : list counters;
}.
Arguments Kmaps {BL RD IS}.
Arguments fw_blocklist {BL RD IS}.
Arguments fw_range_drop {BL RD IS}.
Arguments fw_ip_stats {BL RD IS}.
Arguments fw_config {BL RD IS}.
Arguments fw_stats {BL RD IS}.

(** c->rx++, c->dropped++, c->passed++ *)
Definition inc_rx (c : counters) := Counters (u64 (rx c + 1)) (dropped c) (passed c).
Definition inc_dropped (c : counters) := Counters (rx c) (u64 (dropped c + 1)) (passed c).
Definition inc_passed (c : counters) := Counters (rx c) (dropped c) (u64 (passed c + 1)).

(** What the classification found. *)
Record l4 := L4 { is_syn : bool; is_udp : bool; is_icmp : bool }.

(** ** One source's sliding window *)

(** The window of [s] is over: its counts become the previous ones. *)
Definition roll_window (now : Z) (s : ip_stats) : ip_stats :=
  if WINDOW_NS <=? u64 (now - window_start s) then
    {| window_start := now; prev_packets := packets s; packets := 0;
       prev_bytes := bytes s; bytes := 0; syn := 0; udp := 0; icmp := 0 |}
  else s.

(** s->packets++; s->bytes += len; and one of syn, udp, icmp. *)
Definition count_packet (len : Z) (k : l4) (s : ip_stats) : ip_stats :=
  {| window_start := window_start s; prev_packets := prev_packets s;
     packets := u64 (packets s + 1);
     prev_bytes := prev_bytes s;
     bytes := u64 (bytes s + len);
     syn := if is_syn k then u64 (syn s + 1) else syn s;
     udp := if is_syn k then udp s else if is_udp k then u64 (udp s + 1) else udp s;
     icmp := if is_syn k then icmp s else if is_udp k then icmp s
             else if is_icmp k then u64 (icmp s + 1) else icmp s |}.

(** Weighted rate over the sliding window. *)
Definition sliding_rate (now : Z) (s : ip_stats) : Z :=
  let slot := Z.shiftr (u64 (now - window_start s)) 20 in
  Z.shiftr (u64 (u64 (prev_packets s * u64 (1024 - slot)) + u64 (Z.shiftl (packets s) 10)))
           FRAC_BITS.

(** The entry of a source seen for the first time. *)
Definition fresh_stats (now len : Z) (k : l4) : ip_stats :=
  {| window_start := now; prev_packets := 0; packets := 1; prev_bytes := 0; bytes := len;
     syn := if is_syn k then 1 else 0;
     udp := if is_syn k then 0 else if is_udp k then 1 else 0;
     icmp := if is_syn k then 0 else if is_udp k then 0 else if is_icmp k then 1 else 0 |}.

Section FwProg.
Context `{Endian} {BL RD IS : Type}.
Context `{BpfHash BL Z, LpmTrie RD, BpfHash IS ip_stats}.
#[local] Abbreviation kmaps := (kmaps BL RD IS).

(** ** The program *)

Definition set_blocklist (b : BL) (st : kmaps) : kmaps :=
  Kmaps b (fw_range_drop st) (fw_ip_stats st) (fw_config st) (fw_stats st).
Definition set_range_drop (r : RD) (st : kmaps) : kmaps :=
  Kmaps (fw_blocklist st) r (fw_ip_stats st) (fw_config st) (fw_stats st).
Definition set_ip_stats (s : IS) (st : kmaps) : kmaps :=
  Kmaps (fw_blocklist st) (fw_range_drop st) s (fw_config st) (fw_stats st).
Definition set_fw_config (c : list Z) (st : kmaps) : kmaps :=
  Kmaps (fw_blocklist st) (fw_range_drop st) (fw_ip_stats st) c (fw_stats st).
Definition set_fw_stats (c : list counters) (st : kmaps) : kmaps :=
  Kmaps (fw_blocklist st) (fw_range_drop st) (fw_ip_stats st) (fw_config st) c.

(** if (c) f(c), where [c] is the counters cell of this CPU. *)
Definition count (cpu : nat) (f : counters -> counters) : prog kmaps unit :=
  pmodify (fun st => set_fw_stats (alter f cpu (fw_stats st)) st).

Definition cfg (i : Z) : prog kmaps Z :=
  st ← pget; mret (default 0 (fw_config st !! Z.to_nat i)).

(** 1. Blocklist: true when the packet is dropped. *)
Definition blocklist_check (src now : Z) : prog kmaps bool :=
  st ← pget;
  match bpf_lookup (fw_blocklist st) src with
  | Some exp =>
    if (exp =? 0) || (now <=? exp) then mret true
    else
      _ ← pmodify (fun st =>
            match bpf_delete (fw_blocklist st) src with
            | Some b => set_blocklist b st
            | None => st
            end);
      mret false
  | None => mret false
  end.

(** 2. CIDR range drop. *)
Definition range_check (src : Z) : prog kmaps bool :=
  st ← pget;
  mret (match lpm_lookup (fw_range_drop st) (LpmKey 32 src) with
      | Some _ => true
      | None => false
      end).

(** 3. Classify the L4 packet (only the no-options case). *)
Definition classify (pkt : list Z) : option l4 :=
  proto ← load8 pkt 23;
  version_ihl ← load8 pkt 14;
  if Z.land version_ihl 15 =? 5 then
  if proto =? IPPROTO_TCP then
    if 54 <=? Z.of_nat (length pkt) then
      flags ← load8 pkt 47;
      Some (L4 (Z.testbit flags 1) false false)
    else Some (L4 false false false)
  else if proto =? IPPROTO_UDP then Some (L4 false true false)
  else if proto =? IPPROTO_ICMP then Some (L4 false false true)
  else Some (L4 false false false)
  else Some (L4 false false false).

(** 4. Record the packet in its source's entry; returns the rate. *)
Definition record_stats (src now len : Z) (k : l4) : prog kmaps Z :=
  st ← pget;
  match bpf_lookup (fw_ip_stats st) src with
  | Some s =>
    let s := count_packet len k (roll_window now s) in
    _ ← pmodify (fun st => set_ip_stats (bpf_write (fw_ip_stats st) src s) st);
    mret (sliding_rate now s)
  | None =>
    _ ← pmodify (fun st =>
          match bpf_update (fw_ip_stats st) src (fresh_stats now len k) with
          | Some m => set_ip_stats m st
          | None => st
          end);
    mret 1
  end.

(** Count the verdict and return it. *)
Definition drop_packet (cpu : nat) : prog kmaps xdp_action :=
  _ ← count cpu inc_dropped; mret XDP_DROP.
Definition pass_packet (cpu : nat) : prog kmaps xdp_action :=
  _ ← count cpu inc_passed; mret XDP_PASS.

Definition fw_prog (pkt : list Z) (cpu : nat) (now : Z) : prog kmaps xdp_action :=
  let data_end := Z.of_nat (length pkt) in
  if data_end <? 14 then mret XDP_DROP else
  _ ← count cpu inc_rx;
  h_proto ← plift (load_int 2 pkt 12);
  if negb (h_proto =? htons ETH_P_IP) then pass_packet cpu else
  if data_end <? 34 then drop_packet cpu else
  enabled ← cfg CFG_ENABLED;
  if enabled =? 0 then pass_packet cpu else
  src ← plift (load_int 4 pkt 26);
  let len := u32 data_end in
  blocked ← blocklist_check src now;
  if blocked : bool then drop_packet cpu else
  ranged ← range_check src;
  if ranged : bool then drop_packet cpu else
  k ← plift (classify pkt);
  rate ← record_stats src now len k;
  pps ← cfg CFG_PPS;
  if (0 <? pps) && (pps <? rate) then drop_packet cpu else
  pass_packet cpu.
End FwProg.

(** ** A small configuration to evaluate the program on

    A little-endian machine with one CPU; [udp_frame] is a 60-byte IPv4/UDP
    frame from 10.0.0.2. *)
Definition little : Endian := false.

Definition udp_frame : list Z :=
  [255; 255; 255; 255; 255; 255; 2; 0; 0; 0; 0; 2; 8; 0;
   69; 0; 0; 46; 0; 0; 64; 0; 64; 17; 0; 0; 10; 0; 0; 2; 10; 0; 0; 1;
   195; 80; 35; 140; 0; 26; 0; 0] ++ replicate 18 0.

(** 10.0.0.2 in network byte order, loaded on a little-endian machine. *)
Definition demo_src : Z := 0x0200000a.

Definition demo_maps : Type := kmaps (gmap Z Z) (gmap (Z * Z) Z) (gmap Z ip_stats).

(** The firewall on, with a limit of 3 packets per window. *)
Definition demo_st : demo_maps := Kmaps ∅ ∅ ∅ [1; 3] [Counters 0 0 0].

Definition demo_run (cpu : nat) (now : Z) (st : demo_maps) : option (xdp_action * demo_maps) :=
  let _ := little in fw_prog udp_frame cpu now st.
