(* ===== verification/FwSpec.v ===== *)
(** * What the data plane promises

    [fate pkt now st c]: the specification, as the rules a reader of the
    README expects, of what happens to a frame and why. [fw_prog] implements
    it ([fw_prog_refines]), the rules are exclusive ([fate_unique]), and the
    state after the run is [spec_state]. *)

From S2P Require Import Prelude BpfMaps FwProg.

(** Why a frame was dropped or passed. *)
Inductive cause :=
  | Runt | NotIp | ShortIp | Off | Banned | Ranged | OverLimit | Clean.
#[global] Instance cause_eq_dec : EqDecision cause.
Proof. solve_decision. Defined.

Definition verdict (c : cause) : xdp_action :=
  match c with
  | Runt | ShortIp | Banned | Ranged | OverLimit => XDP_DROP
  | NotIp | Off | Clean => XDP_PASS
  end.

(** The update of the counters of the CPU that ran the program. *)
Definition counted (c : cause) (k : counters) : counters :=
  match c with
  | Runt => k
  | ShortIp | Banned | Ranged | OverLimit => inc_dropped (inc_rx k)
  | NotIp | Off | Clean => inc_passed (inc_rx k)
  end.

(** The fields of a frame, by their position on the wire. *)
Definition ethertype (pkt : list Z) : Z := be_int (sub pkt 12 2).
Definition ip_ihl (pkt : list Z) : Z := Z.land (le_int (sub pkt 14 1)) 15.
Definition ip_proto (pkt : list Z) : Z := le_int (sub pkt 23 1).
Definition tcp_flags (pkt : list Z) : Z := le_int (sub pkt 47 1).
Definition frame_len (pkt : list Z) : Z := Z.of_nat (length pkt).

(** What the statistics count a packet as. *)
Definition kind_of (pkt : list Z) : l4 :=
  let plain := ip_ihl pkt =? 5 in
  {| is_syn := plain && (ip_proto pkt =? 6) && (54 <=? frame_len pkt)
               && Z.testbit (tcp_flags pkt) 1;
     is_udp := plain && (ip_proto pkt =? 17);
     is_icmp := plain && (ip_proto pkt =? 1) |}.

Section FwSpec.
Context `{Endian} {BL RD IS : Type}.
Context `{BpfHash BL Z, LpmTrie RD, BpfHash IS ip_stats}.
Context `{!BpfHashLaws BL Z, !LpmLaws RD, !BpfHashLaws IS ip_stats}.
#[local] Abbreviation kmaps := (kmaps BL RD IS).
Implicit Types (pkt : list Z) (cpu : nat) (now : Z) (st : kmaps).

(** The source address, as the key of the maps (network byte order). *)
Definition src_of pkt : Z := host_int (sub pkt 26 4).

Definition enabled st : Prop := default 0 (fw_config st !! 0%nat) <> 0.
Definition limit st : Z := default 0 (fw_config st !! 1%nat).

(** [a] is in the blocklist and its ban has not expired. *)
Definition banned st (a now : Z) : Prop :=
  exists e, bpf_lookup (fw_blocklist st) a = Some e /\ (e = 0 \/ now <= e).

(** The entry of source [a] once a packet is recorded, and its rate. *)
Definition next_entry (o : option ip_stats) (now len : Z) (k : l4) : ip_stats * Z :=
  match o with
  | Some s => let s := count_packet len k (roll_window now s) in (s, sliding_rate now s)
  | None => (fresh_stats now len k, 1)
  end.

Definition next_of pkt now st : ip_stats * Z :=
  next_entry (bpf_lookup (fw_ip_stats st) (src_of pkt)) now (u32 (frame_len pkt)) (kind_of pkt).

(** A well-formed IPv4 frame, with the firewall on. *)
Definition mitigated pkt st : Prop :=
  34 <= frame_len pkt /\ ethertype pkt = 0x0800 /\ enabled st.

Inductive fate pkt now st : cause -> Prop :=
  | fate_runt : frame_len pkt < 14 -> fate pkt now st Runt
  | fate_not_ip : 14 <= frame_len pkt -> ethertype pkt <> 0x0800 -> fate pkt now st NotIp
  | fate_short_ip : 14 <= frame_len pkt < 34 -> ethertype pkt = 0x0800 ->
      fate pkt now st ShortIp
  | fate_off : 34 <= frame_len pkt -> ethertype pkt = 0x0800 -> ~ enabled st ->
      fate pkt now st Off
  | fate_banned : mitigated pkt st -> banned st (src_of pkt) now -> fate pkt now st Banned
  | fate_ranged : mitigated pkt st -> ~ banned st (src_of pkt) now ->
      covers (fw_range_drop st) (src_of pkt) -> fate pkt now st Ranged
  | fate_over : mitigated pkt st -> ~ banned st (src_of pkt) now ->
      ~ covers (fw_range_drop st) (src_of pkt) ->
      0 < limit st < snd (next_of pkt now st) -> fate pkt now st OverLimit
  | fate_clean : mitigated pkt st -> ~ banned st (src_of pkt) now ->
      ~ covers (fw_range_drop st) (src_of pkt) ->
      ~ 0 < limit st < snd (next_of pkt now st) -> fate pkt now st Clean.

(** The state after a frame whose fate was [c]. *)
Definition unban (a : Z) (b : BL) : BL := default b (bpf_delete b a).

Definition store_entry (m : IS) (a : Z) (s : ip_stats) : IS :=
  match bpf_lookup m a with
  | Some _ => bpf_write m a s
  | None => default m (bpf_update m a s)
  end.

Definition spec_state pkt cpu now c st : kmaps := {|
  fw_blocklist :=
  match c with
  | Ranged | OverLimit | Clean => unban (src_of pkt) (fw_blocklist st)
  | _ => fw_blocklist st
  end;
  fw_range_drop := fw_range_drop st;
  fw_ip_stats :=
  match c with
  | OverLimit | Clean =>
      store_entry (fw_ip_stats st) (src_of pkt) (fst (next_of pkt now st))
  | _ => fw_ip_stats st
  end;
  fw_config := fw_config st;
  fw_stats := alter (counted c) cpu (fw_stats st);
|}.

(** ** Lemmas on the blocks of the program *)

Lemma ethertype_test pkt :
  bytes_ok pkt -> 14 <= frame_len pkt ->
  (host_int (sub pkt 12 2) =? htons ETH_P_IP) = (ethertype pkt =? 0x0800).
Proof using Type.
  intros Hok Hlen. unfold frame_len in Hlen.
  assert (length (sub pkt 12 2) = 2%nat) as Hl by (apply length_sub; lia).
  pose proof (host_int_range (sub pkt 12 2) (sub_ok _ _ _ Hok)) as Hr.
  rewrite Hl in Hr.
  apply eq_true_iff_eq. rewrite !Z.eqb_eq. unfold ethertype, htons, ETH_P_IP.
  rewrite <-(ntoh_host_int 2) by (auto using sub_ok).
  split; intros E.
  - rewrite E. by rewrite hton_hton.
  - by rewrite <-E, hton_hton.
Qed.

Lemma classify_kind pkt :
  34 <= frame_len pkt -> classify pkt = Some (kind_of pkt).
Proof using Type.
  unfold frame_len. intros Hlen. unfold classify, kind_of, frame_len.
  rewrite (load8_Some pkt 23), (load8_Some pkt 14) by lia. simpl.
  fold (ip_proto pkt) (ip_ihl pkt).
  destruct (ip_ihl pkt =? 5); [|done]. simpl.
  unfold IPPROTO_TCP, IPPROTO_UDP, IPPROTO_ICMP.
  destruct (Z.eqb_spec (ip_proto pkt) 6) as [->|].
  - simpl. case_bool; [|done]. rewrite load8_Some by lia. done.
  - destruct (Z.eqb_spec (ip_proto pkt) 17) as [->|]; [done|].
    by destruct (ip_proto pkt =? 1).
Qed.

#[global] Instance mitigated_dec pkt st : Decision (mitigated pkt st).
Proof using Type. unfold mitigated, enabled. apply _. Defined.

Lemma banned_dec st a now : {banned st a now} + {~ banned st a now}.
Proof using Type.
  unfold banned. destruct (bpf_lookup (fw_blocklist st) a) as [e|].
  - destruct (decide (e = 0 \/ now <= e)) as [Hd|Hd]; [left; eauto|].
    right. by intros (e' & [= <-] & He).
  - right. by intros (e' & ? & _).
Qed.

Lemma blocklist_check_banned st a now :
  banned st a now -> blocklist_check a now st = Some (true, st).
Proof using Type.
  intros (e & He & Hd). unfold blocklist_check. unfold mbind, prog_bind, pget. rewrite He.
  destruct Hd as [->|Hd]; [done|]. apply Z.leb_le in Hd. rewrite Hd, orb_true_r. done.
Qed.

Lemma blocklist_check_free st a now :
  ~ banned st a now ->
  blocklist_check a now st = Some (false, set_blocklist (unban a (fw_blocklist st)) st).
Proof using Type*.
  intros Hn. unfold blocklist_check, unban. unfold mbind, prog_bind, pget, pmodify.
  destruct st as [b r m c k]; cbn [fw_blocklist] in *.
  destruct (bpf_lookup b a) as [e|] eqn:He.
  - assert ((e =? 0) || (now <=? e) = false) as ->.
    { apply orb_false_iff. rewrite Z.eqb_neq, Z.leb_gt.
      split; [intros ->|apply Z.nle_gt; intros ?]; apply Hn; eexists; eauto. }
    cbn [fw_blocklist].
    destruct (bpf_delete b a) as [b'|] eqn:E; [done|].
    apply bpf_delete_fail in E. congruence.
  - by rewrite (proj2 (bpf_delete_fail b a) He).
Qed.

Lemma range_check_covers st a :
  exists b : bool, range_check a st = Some (b, st) /\ (b = true <-> covers (fw_range_drop st) a).
Proof using Type*.
  unfold range_check. unfold mbind, prog_bind, pget.
  eexists. split; [done|]. rewrite <-lpm_lookup_full.
  by case_match.
Qed.

Lemma record_stats_spec st a now len k :
  record_stats a now len k st =
  let e := next_entry (bpf_lookup (fw_ip_stats st) a) now len k in
  Some (snd e, set_ip_stats (store_entry (fw_ip_stats st) a (fst e)) st).
Proof using Type.
  unfold record_stats, store_entry. unfold mbind, prog_bind, pget, pmodify.
  destruct st as [b r m c s]; cbn [fw_ip_stats].
  destruct (bpf_lookup m a) as [e|] eqn:He; [done|]. simpl.
  by destruct (bpf_update m a _).
Qed.


Lemma drop_packet_eq cpu st :
  drop_packet cpu st = Some (XDP_DROP, set_fw_stats (alter inc_dropped cpu (fw_stats st)) st).
Proof using Type. done. Qed.

Lemma pass_packet_eq cpu st :
  pass_packet cpu st = Some (XDP_PASS, set_fw_stats (alter inc_passed cpu (fw_stats st)) st).
Proof using Type. done. Qed.

Lemma fw_prog_mitigated pkt cpu now st :
  bytes_ok pkt -> mitigated pkt st ->
  fw_prog pkt cpu now st =
  (blocked ← blocklist_check (src_of pkt) now;
   if blocked : bool then drop_packet cpu else
   ranged ← range_check (src_of pkt);
   if ranged : bool then drop_packet cpu else
   rate ← record_stats (src_of pkt) now (u32 (frame_len pkt)) (kind_of pkt);
   pps ← cfg CFG_PPS;
   if (0 <? pps) && (pps <? rate) then drop_packet cpu else pass_packet cpu)
  (set_fw_stats (alter inc_rx cpu (fw_stats st)) st).
Proof using Type*.
  intros Hok (Hlen & Hty & Hen). pose proof (classify_kind pkt Hlen) as Hk.
  pose proof (ethertype_test pkt Hok ltac:(lia)) as He. rewrite Hty in He.
  unfold frame_len, enabled in *.
  unfold fw_prog. rewrite (proj2 (Z.ltb_ge _ _)) by lia.
  rewrite (load_int_Some 2 pkt 12), (load_int_Some 4 pkt 26) by lia. unfold count, cfg.
  unfold mbind, mret, prog_bind, prog_ret, pget, pmodify, plift;
    cbn -[Z.eqb sub htons host_int Z.ltb].
  rewrite He. cbn -[Z.ltb Z.eqb sub host_int]. rewrite (proj2 (Z.ltb_ge _ _)) by lia.
  apply Z.eqb_neq in Hen.
  change (Z.to_nat CFG_ENABLED) with 0%nat.
  destruct st as [b r m c s]; cbn in *. rewrite Hen.
  fold (src_of pkt).
  destruct (blocklist_check _ _ _) as [[[] st1]|]; [done| |done].
  destruct (range_check _ _) as [[[] st2]|]; [done| |done].
  by rewrite Hk.
Qed.

(** The early exits of the program: no map but the counters is touched. *)
Lemma fw_prog_early pkt cpu now st :
  bytes_ok pkt -> ~ mitigated pkt st ->
  exists c, fate pkt now st c /\
  fw_prog pkt cpu now st = Some (verdict c, spec_state pkt cpu now c st).
Proof using Type.
  intros Hok Hn. unfold mitigated, enabled, frame_len in Hn.
  unfold fw_prog, pass_packet, drop_packet, count, cfg.
  unfold mbind, mret, prog_bind, prog_ret, pget, pmodify, plift.
  destruct (Z.ltb_spec (Z.of_nat (length pkt)) 14) as [Hl|Hl].
  { exists Runt. split; [by constructor|]. unfold spec_state; simpl.
    rewrite list_alter_id by done. by destruct st. }
  pose proof (ethertype_test pkt Hok Hl) as He.
  rewrite (load_int_Some 2 pkt 12) by lia. cbn -[Z.eqb sub htons host_int Z.ltb].
  rewrite He.
  destruct (Z.eqb_spec (ethertype pkt) 0x0800) as [Hty|Hty]; cbn -[Z.ltb Z.eqb sub].
  2:{ exists NotIp. split; [by constructor|]. unfold spec_state, set_fw_stats; simpl.
  by rewrite list_alter_alter_eq. }
  destruct (Z.ltb_spec (Z.of_nat (length pkt)) 34) as [Hl'|Hl'].
  { exists ShortIp. split; [by constructor|]. unfold spec_state, set_fw_stats; simpl.
    by rewrite list_alter_alter_eq. }
  assert (default 0 (fw_config st !! 0%nat) = 0) as Hoff.
  { destruct (decide (default 0 (fw_config st !! 0%nat) = 0)); [done|]. exfalso. auto. }
  change (Z.to_nat CFG_ENABLED) with 0%nat.
  exists Off. split; [apply fate_off; auto|].
  destruct st as [b r m c s]; cbn in *. rewrite Hoff. unfold spec_state; simpl.
  by rewrite list_alter_alter_eq.
Qed.

Lemma fw_prog_filtered pkt cpu now st :
  bytes_ok pkt -> mitigated pkt st ->
  exists c, fate pkt now st c /\
  fw_prog pkt cpu now st = Some (verdict c, spec_state pkt cpu now c st).
Proof using Type*.
  intros Hok Hm. rewrite fw_prog_mitigated by done. unfold mbind, prog_bind.
  set (st1 := set_fw_stats _ st). destruct (banned_dec st (src_of pkt) now) as [Hb|Hb].
  { rewrite (blocklist_check_banned st1) by done.
    exists Banned. split; [by constructor|]. rewrite drop_packet_eq.
    unfold spec_state, set_fw_stats; simpl. by rewrite list_alter_alter_eq. }
  rewrite (blocklist_check_free st1) by done.
  set (st2 := set_blocklist _ st1).
  destruct (range_check_covers st2 (src_of pkt)) as ([] & -> & Hc).
  { exists Ranged. split; [apply fate_ranged; tauto|].
    rewrite drop_packet_eq. unfold spec_state, set_fw_stats; simpl.
    by rewrite list_alter_alter_eq. }
  assert (~ covers (fw_range_drop st) (src_of pkt)) as Hnc by (intros Hcov; by apply Hc in Hcov).
  rewrite record_stats_spec. unfold cfg, pget, mret, prog_ret.
  change (Z.to_nat CFG_PPS) with 1%nat.
  assert (forall c, fate pkt now st c -> (c = OverLimit \/ c = Clean) ->
    verdict c = (if (0 <? limit st) && (limit st <? snd (next_of pkt now st))
                 then XDP_DROP else XDP_PASS) ->
    exists c, fate pkt now st c /\
    (if (0 <? limit st) && (limit st <? snd (next_of pkt now st))
     then drop_packet cpu else pass_packet cpu)
      (set_ip_stats (store_entry (fw_ip_stats st) (src_of pkt) (fst (next_of pkt now st))) st2)
     = Some (verdict c, spec_state pkt cpu now c st)) as Hfinish.
  { intros c Hf Hc' Hv. exists c. split; [done|].
    destruct Hc' as [->| ->]; destruct ((0 <? _) && _); try done;
      rewrite ?drop_packet_eq, ?pass_packet_eq; unfold spec_state, set_fw_stats; simpl;
      by rewrite list_alter_alter_eq. }
  destruct (decide (0 < limit st < snd (next_of pkt now st))) as [Hlim|Hlim].
  - apply (Hfinish OverLimit); [by constructor|by left|].
    by rewrite !(proj2 (Z.ltb_lt _ _)) by lia.
  - apply (Hfinish Clean); [by constructor|by right|].
    destruct (0 <? limit st) eqn:?; [|done]. destruct (limit st <? _) eqn:?; [|done].
    bool_hyps. lia.
Qed.

Lemma fw_prog_fate pkt cpu now st :
  bytes_ok pkt ->
  exists c, fate pkt now st c /\
  fw_prog pkt cpu now st = Some (verdict c, spec_state pkt cpu now c st).
Proof using Type*.
  intros Hok.
  destruct (mitigated_dec pkt st) as [Hm|Hm].
  - by apply fw_prog_filtered.
  - by apply fw_prog_early.
Qed.

Lemma fate_det pkt now st c1 c2 : fate pkt now st c1 -> fate pkt now st c2 -> c1 = c2.
Proof using Type.
  unfold mitigated. destruct 1; destruct 1; try done; exfalso;
    unfold mitigated in *; naive_solver lia.
Qed.

(** C1. The data plane implements its specification: on every frame and in
  every state [fw_prog] terminates without a memory error, for exactly one
  cause allowed by the rules of [fate]; it returns that cause's verdict,
  and leaves the maps as [spec_state] says. *)
Theorem fw_prog_refines pkt cpu now st :
  bytes_ok pkt ->
  exists c, fate pkt now st c /\ (forall c', fate pkt now st c' -> c' = c) /\
  fw_prog pkt cpu now st = Some (verdict c, spec_state pkt cpu now c st).
Proof using Type*.
  intros Hok. destruct (fw_prog_fate pkt cpu now st Hok) as (c & Hf & E).
  exists c. split; [done|]. split; [|done]. intros c' Hf'. by eapply fate_det.
Qed.
End FwSpec.

Lemma udp_frame_ok : bytes_ok udp_frame.
Proof. by apply (bool_decide_unpack _). Defined.

Lemma fw_prog_refines_witness :
  let _ := little in
  bytes_ok udp_frame /\
  exists c, fate udp_frame 5 demo_st c /\ (forall c', fate udp_frame 5 demo_st c' -> c' = c) /\
    fw_prog udp_frame 0 5 demo_st = Some (verdict c, spec_state udp_frame 0 5 c demo_st).
Proof.
  intros en. split; [exact udp_frame_ok|].
  exact (fw_prog_refines udp_frame 0 5 demo_st udp_frame_ok).
Defined.
