(* ===== verification/RateLimit.v ===== *)
(** * The sliding-window rate limit

    [fw_prog.c], lines 181-229, seen from one source: [source_step] is what
    the data plane does with one more packet of the source, [source_run] with
    a sequence of them. The theorems bound what the limiter lets through and
    what it may hold back. *)

From S2P Require Import Prelude FwProg FwSpec.

(** ** The weighted rate *)

(** An entry as it stands after [roll_window] at time [now]: its window is
    the current one, and its counts are far from overflow. *)
Definition in_window (now : Z) (s : ip_stats) : Prop :=
  window_start s <= now < window_start s + WINDOW_NS.

Definition counts_ok (n : Z) (s : ip_stats) : Prop :=
  0 <= packets s <= n /\ 0 <= prev_packets s <= n.

(** The number of 2^20 ns slots elapsed in the window. *)
Definition slot_of (now : Z) (s : ip_stats) : Z := (now - window_start s) / 2 ^ 20.

Lemma WINDOW_NS_val : WINDOW_NS = 1073741824.
Proof. done. Qed.

Lemma slot_range now s : in_window now s -> 0 <= slot_of now s <= 1023.
Proof.
  unfold in_window, slot_of. rewrite WINDOW_NS_val. pow2_consts. intros ?.
  Z.div_mod_to_equations. lia.
Qed.

Lemma sliding_rate_value now s :
  in_window now s -> counts_ok (2 ^ 53 - 1) s ->
  sliding_rate now s =
    (prev_packets s * (1024 - slot_of now s) + packets s * 1024) / 1024.
Proof.
  intros Hw [Hp Hq]. pose proof (slot_range now s Hw) as Hs.
  unfold in_window in Hw. rewrite WINDOW_NS_val in Hw.
  unfold sliding_rate, FRAC_BITS.
  assert (u64 (now - window_start s) = now - window_start s) as -> by (apply wrap_small; word).
  rewrite !Z.shiftr_div_pow2, Z.shiftl_mul_pow2 by lia. fold (slot_of now s).
  assert (u64 (1024 - slot_of now s) = 1024 - slot_of now s) as -> by (apply wrap_small; word).
  pow2_consts.
  assert (0 <= prev_packets s * (1024 - slot_of now s) <= prev_packets s * 1024) by nia.
  assert (u64 (prev_packets s * (1024 - slot_of now s)) =
    prev_packets s * (1024 - slot_of now s)) as -> by (apply wrap_small; word).
  assert (u64 (packets s * 1024) = packets s * 1024) as -> by (apply wrap_small; word).
  f_equal. apply wrap_small. word.
Qed.

Lemma sliding_rate_bounds now s :
  in_window now s -> counts_ok (2 ^ 53 - 1) s ->
  packets s <= sliding_rate now s <= packets s + prev_packets s.
Proof.
  intros Hw Hc. rewrite sliding_rate_value by done.
  pose proof (slot_range now s Hw). destruct Hc as [Hp Hq].
  assert (0 <= prev_packets s * (1024 - slot_of now s) <= prev_packets s * 1024) by nia.
  Z.div_mod_to_equations. lia.
Qed.

(** ** Rolling the window *)

Definition clock_ok (now : Z) (s : ip_stats) : Prop :=
  0 <= window_start s <= now /\ now < 2 ^ 64.

Lemma roll_window_cases now s :
  clock_ok now s ->
  (now < window_start s + WINDOW_NS /\ roll_window now s = s) \/
  (window_start s + WINDOW_NS <= now /\
   window_start (roll_window now s) = now /\ packets (roll_window now s) = 0 /\
   prev_packets (roll_window now s) = packets s).
Proof.
  unfold clock_ok, roll_window. rewrite WINDOW_NS_val. intros [Hw Hn].
  assert (u64 (now - window_start s) = now - window_start s) as -> by (apply wrap_small; word).
  case_bool; [right|left]; simpl; split; try done; lia.
Qed.

Lemma roll_in_window now s : clock_ok now s -> in_window now (roll_window now s).
Proof.
  intros Hc. pose proof Hc as [Hw Hn].
  destruct (roll_window_cases now s Hc) as [(Hlt & ->)|(Hge & E & _)]; unfold in_window.
  - lia.
  - rewrite E, WINDOW_NS_val. lia.
Qed.

Lemma roll_counts n now s : counts_ok n s -> counts_ok n (roll_window now s).
Proof. unfold counts_ok, roll_window. intros. case_match; simpl; lia. Qed.

(** One packet of a known source. *)
Definition next_stats (now len : Z) (k : l4) (s : ip_stats) : ip_stats :=
  count_packet len k (roll_window now s).

Lemma next_stats_window now len k s :
  window_start (next_stats now len k s) = window_start (roll_window now s).
Proof. done. Qed.

Lemma next_stats_packets n now len k s :
  counts_ok n s -> n < 2 ^ 64 - 1 ->
  packets (next_stats now len k s) = packets (roll_window now s) + 1.
Proof.
  intros Hc Hn. pose proof (roll_counts n now s Hc) as [Hp _].
  apply wrap_small. unfold uint_ok. lia.
Qed.

Lemma next_stats_counts n now len k s :
  counts_ok n s -> n < 2 ^ 64 - 1 -> counts_ok (n + 1) (next_stats now len k s).
Proof.
  intros Hc Hn. pose proof (roll_counts n now s Hc) as [Hp Hq].
  split.
  - rewrite (next_stats_packets n) by done. lia.
  - simpl. lia.
Qed.

Lemma next_stats_clock now len k s : clock_ok now s -> clock_ok now (next_stats now len k s).
Proof.
  intros Hc. pose proof Hc as [Hw Hn]. unfold clock_ok. rewrite next_stats_window.
  destruct (roll_window_cases now s Hc) as [(_ & ->)|(_ & -> & _)]; lia.
Qed.

Lemma next_stats_in_window now len k s :
  clock_ok now s -> in_window now (next_stats now len k s).
Proof. intros Hc. unfold in_window. rewrite next_stats_window. by apply roll_in_window. Qed.

(** ** A sequence of packets of one source *)

Record event := Event { ev_now : Z; ev_len : Z; ev_kind : l4 }.

(** What happened to one of them: when, in which entry it was counted, and
    whether the limiter let it pass. *)
Record outcome := Outcome { o_now : Z; o_entry : ip_stats; o_pass : bool }.

Definition under_limit (pps rate : Z) : bool := negb ((0 <? pps) && (pps <? rate)).

Definition source_step (pps : Z) (o : option ip_stats) (e : event) : outcome :=
  let '(s, rate) := next_entry o (ev_now e) (ev_len e) (ev_kind e) in
  Outcome (ev_now e) s (under_limit pps rate).

Fixpoint source_run (pps : Z) (o : option ip_stats) (es : list event) : list outcome :=
  match es with
  | [] => []
  | e :: es =>
      let out := source_step pps o e in
      out :: source_run pps (Some (o_entry out)) es
  end.

(** The entry after a run. *)
Fixpoint entry_after (pps : Z) (o : option ip_stats) (es : list event) : option ip_stats :=
  match es with
  | [] => o
  | e :: es => entry_after pps (Some (o_entry (source_step pps o e))) es
  end.

Lemma source_run_app pps o es1 es2 :
  source_run pps o (es1 ++ es2) = source_run pps o es1 ++ source_run pps (entry_after pps o es1) es2.
Proof. revert o. induction es1 as [|e es1 IH]; intros o; simpl; [done|]. by rewrite IH. Qed.

Lemma entry_after_app pps o es1 es2 :
  entry_after pps o (es1 ++ es2) = entry_after pps (entry_after pps o es1) es2.
Proof. revert o. induction es1 as [|e es1 IH]; intros o; simpl; [done|]. by rewrite IH. Qed.

Lemma source_step_now pps o e : o_now (source_step pps o e) = ev_now e.
Proof. unfold source_step. by destruct (next_entry _ _ _ _). Qed.

(** The clock never goes back, from [t] on. *)
Fixpoint times_from (t : Z) (ts : list Z) : Prop :=
  match ts with
  | [] => True
  | t' :: ts => t <= t' < 2 ^ 64 /\ times_from t' ts
  end.

Lemma times_from_weaken t t' ts : t' <= t -> times_from t ts -> times_from t' ts.
Proof. destruct ts; simpl; [done|]. intros ? [??]. split; [lia|done]. Qed.

Lemma times_from_sublist t ts' ts : ts' `sublist_of` ts -> times_from t ts -> times_from t ts'.
Proof.
  intros Hs. revert t. induction Hs as [|t' ts' ts _ IH|t' ts' ts _ IH]; intros t; simpl; [done| |].
  - intros [? ?]. by split; [|apply IH].
  - intros [? Hts]. apply (times_from_weaken t'); [lia|by apply IH].
Qed.

(** The packets the limiter let through, counted in the window that starts at
    [w], or within the interval of time [[t, t + WINDOW_NS)]. *)
Definition passed_in_window (w : Z) (os : list outcome) : list outcome :=
  filter (fun o => o_pass o = true /\ window_start (o_entry o) = w) os.

Definition passed_within (t : Z) (os : list outcome) : list outcome :=
  filter (fun o => o_pass o = true /\ t <= o_now o < t + WINDOW_NS) os.

(** An entry the run can start from. *)
Definition entry_ok (n t : Z) (s : ip_stats) : Prop := counts_ok n s /\ clock_ok t s.

Lemma source_step_entry pps s e :
  o_entry (source_step pps (Some s) e) = next_stats (ev_now e) (ev_len e) (ev_kind e) s.
Proof. done. Qed.

Lemma source_step_pass pps n s e :
  entry_ok n (ev_now e) s -> n < 2 ^ 53 - 1 -> 0 < pps ->
  o_pass (source_step pps (Some s) e) = true ->
  packets (next_stats (ev_now e) (ev_len e) (ev_kind e) s) <= pps.
Proof.
  intros [Hc Ht] Hn Hpps Hp. cbn [source_step next_entry o_pass] in Hp.
  change (count_packet (ev_len e) (ev_kind e) (roll_window (ev_now e) s))
    with (next_stats (ev_now e) (ev_len e) (ev_kind e) s) in Hp.
  unfold under_limit in Hp. apply negb_true_iff, andb_false_iff in Hp.
  destruct Hp as [Hp|Hp]; bool_hyps; [lia|].
  pose proof (sliding_rate_bounds (ev_now e) (next_stats (ev_now e) (ev_len e) (ev_kind e) s)).
  assert (counts_ok (n + 1) (next_stats (ev_now e) (ev_len e) (ev_kind e) s)) as [??].
  { apply next_stats_counts; [done|]. lia. }
  destruct H; [by apply next_stats_in_window| |lia].
  unfold counts_ok. lia.
Qed.

Lemma entry_ok_later n t t' s : entry_ok n t s -> t <= t' < 2 ^ 64 -> entry_ok n t' s.
Proof. intros [Hc Ht] Hl. split; [done|]. unfold clock_ok in *. lia. Qed.

Lemma entry_ok_next n s e :
  entry_ok n (ev_now e) s -> n < 2 ^ 64 - 1 ->
  entry_ok (n + 1) (ev_now e) (next_stats (ev_now e) (ev_len e) (ev_kind e) s).
Proof.
  intros [Hc Ht] Hn. split; [by apply next_stats_counts|by apply next_stats_clock].
Qed.

Lemma fresh_entry_ok e :
  0 <= ev_now e < 2 ^ 64 ->
  entry_ok 1 (ev_now e) (fresh_stats (ev_now e) (ev_len e) (ev_kind e)).
Proof. intros H. split; [unfold counts_ok|unfold clock_ok]; simpl; lia. Qed.

(** What a run may still let through in window [w], from entry [s]. *)
Definition budget (pps w : Z) (s : ip_stats) : Z :=
  if window_start s <? w then pps
  else if window_start s =? w then Z.max 0 (pps - packets s)
  else 0.

Lemma budget_step pps n w s e :
  entry_ok n (ev_now e) s -> n < 2 ^ 53 - 1 -> 0 < pps ->
  let out := source_step pps (Some s) e in
  (if bool_decide (o_pass out = true /\ window_start (o_entry out) = w) then 1 else 0)
    + budget pps w (o_entry out) <= budget pps w s.
Proof.
  intros Hok Hn Hpps out. pose proof Hok as [Hc Ht].
  assert (o_pass out = true -> packets (o_entry out) <= pps) as Hp
    by (by eapply source_step_pass).
  assert (packets (o_entry out) = packets (roll_window (ev_now e) s) + 1) as Hpk
    by (apply (next_stats_packets n); [done|lia]).
  assert (window_start (o_entry out) = window_start (roll_window (ev_now e) s)) as Hw by done.
  destruct Hc as [Hc _]. unfold budget.
  destruct (roll_window_cases (ev_now e) s Ht) as [(Hlt & E)|(Hge & E1 & E2 & _)].
  - rewrite E in *. rewrite Hw, Hpk. repeat case_bool; case_bool_decide; naive_solver lia.
  - rewrite WINDOW_NS_val in Hge. rewrite E1 in Hw. rewrite E2 in Hpk. rewrite Hw, Hpk.
    repeat case_bool; case_bool_decide; naive_solver lia.
Qed.

Lemma passed_in_window_cons w o os :
  Z.of_nat (length (passed_in_window w (o :: os))) =
    (if bool_decide (o_pass o = true /\ window_start (o_entry o) = w) then 1 else 0)
    + Z.of_nat (length (passed_in_window w os)).
Proof.
  unfold passed_in_window. rewrite filter_cons. case_bool_decide as Hd.
  - rewrite decide_True by done. simpl. lia.
  - rewrite decide_False by done. lia.
Qed.

Lemma window_budget pps w es n t s :
  0 < pps -> entry_ok n t s -> n + Z.of_nat (length es) < 2 ^ 53 ->
  times_from t (ev_now <$> es) ->
  Z.of_nat (length (passed_in_window w (source_run pps (Some s) es))) <= budget pps w s.
Proof.
  intros Hpps. revert n t s. induction es as [|e es IH]; intros n t s Hok Hn Ht.
  - destruct Hok as [[Hc _] _]. unfold budget. simpl. repeat case_bool; lia.
  - destruct Ht as [Ht Hts]. simpl length in Hn.
    assert (entry_ok n (ev_now e) s) as Hok' by (by eapply entry_ok_later).
    cbn [source_run]. rewrite passed_in_window_cons.
    pose proof (budget_step pps n w s e Hok' ltac:(lia) Hpps) as Hb. cbn zeta in Hb.
    specialize (IH (n + 1) (ev_now e) (o_entry (source_step pps (Some s) e))).
    assert (entry_ok (n + 1) (ev_now e) (o_entry (source_step pps (Some s) e))) as Hok2
      by (apply entry_ok_next; [done|lia]).
    specialize (IH Hok2 ltac:(lia) Hts). lia.
Qed.

(** The state a run of a source starts from: no entry yet, or a valid one. *)
Definition source_ok (n t : Z) (o : option ip_stats) : Prop :=
  match o with
  | Some s => entry_ok n t s
  | None => 0 <= n /\ 0 <= t
  end.

Lemma window_pass_bound pps w es n t o :
  0 < pps -> source_ok n t o -> n + Z.of_nat (length es) < 2 ^ 53 ->
  times_from t (ev_now <$> es) ->
  Z.of_nat (length (passed_in_window w (source_run pps o es))) <= pps.
Proof.
  intros Hpps Ho Hn Ht. destruct o as [s|].
  - etrans; [by eapply window_budget|]. destruct Ho as [[Hc _] _].
    unfold budget. repeat case_bool; lia.
  - destruct es as [|e es]; [simpl; lia|]. destruct Ht as [Ht Hts]. destruct Ho as [Hn0 Ht0].
    cbn [source_run]. rewrite passed_in_window_cons. simpl length in Hn.
    assert (entry_ok 1 (ev_now e) (o_entry (source_step pps None e))) as Hok
      by (apply fresh_entry_ok; lia).
    pose proof (window_budget pps w es 1 (ev_now e) _ Hpps Hok ltac:(lia) Hts) as Hb.
    assert (budget pps w (o_entry (source_step pps None e)) <= pps) as Hle
      by (unfold budget; simpl; repeat case_bool; lia).
    case_bool_decide as Hd; [|lia]. destruct Hd as [_ Hw].
    enough (budget pps w (o_entry (source_step pps None e)) <= pps - 1) by lia.
    unfold budget. rewrite Hw, Z.ltb_irrefl, Z.eqb_refl. simpl. lia.
Qed.

(** ** Any interval of one window's length *)

(** Two packets were counted in the same window, or their windows start at
    least [WINDOW_NS] apart. *)
Definition later_window (o1 o2 : outcome) : Prop :=
  window_start (o_entry o1) = window_start (o_entry o2) \/
  window_start (o_entry o1) + WINDOW_NS <= window_start (o_entry o2).

Definition start_after (w : Z) (o : outcome) : Prop :=
  window_start (o_entry o) = w \/ w + WINDOW_NS <= window_start (o_entry o).

Lemma run_starts pps es n t s :
  entry_ok n t s -> n + Z.of_nat (length es) < 2 ^ 53 -> times_from t (ev_now <$> es) ->
  Forall (start_after (window_start s)) (source_run pps (Some s) es).
Proof.
  revert n t s. induction es as [|e es IH]; intros n t s Hok Hn Ht; [constructor|].
  destruct Ht as [Ht Hts]. simpl length in Hn.
  assert (entry_ok n (ev_now e) s) as Hok' by (by eapply entry_ok_later).
  pose proof (entry_ok_next n s e Hok' ltac:(lia)) as Hok2.
  specialize (IH _ _ _ Hok2 ltac:(lia) Hts).
  cbn [source_run]. rewrite source_step_entry.
  assert (start_after (window_start s) (source_step pps (Some s) e)) as Hh.
  { unfold start_after. rewrite source_step_entry, next_stats_window.
    destruct (roll_window_cases (ev_now e) s (proj2 Hok')) as [(_ & ->)|(Hge & -> & _)]; auto. }
  constructor; [done|]. eapply Forall_impl; [exact IH|]. intros o Ho.
  unfold start_after in *. rewrite source_step_entry in Hh. rewrite WINDOW_NS_val in *.
  destruct Ho, Hh; lia.
Qed.

Lemma run_sorted pps es n t s :
  entry_ok n t s -> n + Z.of_nat (length es) < 2 ^ 53 -> times_from t (ev_now <$> es) ->
  StronglySorted later_window (source_run pps (Some s) es) /\
  Forall (fun o => in_window (o_now o) (o_entry o)) (source_run pps (Some s) es).
Proof.
  revert n t s. induction es as [|e es IH]; intros n t s Hok Hn Ht; [by repeat constructor|].
  destruct Ht as [Ht Hts]. simpl length in Hn.
  assert (entry_ok n (ev_now e) s) as Hok' by (by eapply entry_ok_later).
  pose proof (entry_ok_next n s e Hok' ltac:(lia)) as Hok2.
  destruct (IH _ _ _ Hok2 ltac:(lia) Hts) as [Hs Hw].
  cbn [source_run]. rewrite source_step_entry. split; constructor; try done.
  - eapply Forall_impl; [by eapply run_starts; [exact Hok2|lia|]|].
    intros o [E|E]; unfold later_window; rewrite source_step_entry; [left|right]; congruence.
  - apply next_stats_in_window, Hok'.
Qed.

Lemma source_run_sorted pps es n t o :
  source_ok n t o -> n + Z.of_nat (length es) < 2 ^ 53 -> times_from t (ev_now <$> es) ->
  StronglySorted later_window (source_run pps o es) /\
  Forall (fun o => in_window (o_now o) (o_entry o)) (source_run pps o es).
Proof.
  intros Ho Hn Ht. destruct o as [s|]; [by eapply run_sorted|].
  destruct es as [|e es]; [by repeat constructor|]. destruct Ht as [Ht Hts].
  destruct Ho as [Hn0 Ht0]. simpl length in Hn.
  pose proof (fresh_entry_ok e ltac:(lia)) as Hok.
  destruct (run_sorted pps es _ _ _ Hok ltac:(lia) Hts) as [Hs Hw].
  pose proof (run_starts pps es _ _ _ Hok ltac:(lia) Hts) as Hst.
  cbn [source_run source_step next_entry o_entry]. split; constructor; try done.
  - eapply Forall_impl; [exact Hst|]. intros o [E|E]; [left|right]; simpl in *; congruence.
  - unfold in_window. rewrite WINDOW_NS_val. simpl. lia.
Qed.

(** An interval of length [WINDOW_NS] meets at most two windows. *)
Lemma two_windows pps t os :
  0 <= pps -> StronglySorted later_window os ->
  Forall (fun o => in_window (o_now o) (o_entry o)) os ->
  (forall w, Z.of_nat (length (passed_in_window w os)) <= pps) ->
  Z.of_nat (length (passed_within t os)) <= 2 * pps.
Proof.
  intros Hpps Hs Hin Hw. unfold passed_within.
  set (L := filter _ os).
  assert (StronglySorted later_window L) as HsL by (by apply StronglySorted_filter).
  assert (forall o, o ∈ L ->
    t - WINDOW_NS < window_start (o_entry o) < t + WINDOW_NS) as HL.
  { intros o [Hp Ho]%list_elem_of_filter. rewrite Forall_forall in Hin.
    specialize (Hin o Ho). unfold in_window in Hin. lia. }
  assert (forall w, Z.of_nat (length (filter (fun o => window_start (o_entry o) = w) L)) <= pps)
    as HwL.
  { intros w. etrans; [|apply (Hw w)]. apply inj_le. unfold L, passed_in_window.
    rewrite list_filter_filter. apply length_filter_mono. naive_solver. }
  destruct L as [|o1 L'] eqn:EL; [simpl; lia|]. rewrite <-EL in *. clearbody L.
  set (w1 := window_start (o_entry o1)).
  rewrite (length_filter_split (fun o => window_start (o_entry o) = w1) L).
  set (M := filter (fun o => ~ window_start (o_entry o) = w1) L).
  enough (Z.of_nat (length M) <= pps) by (specialize (HwL w1); lia).
  assert (StronglySorted later_window M) as HsM by (by apply StronglySorted_filter).
  assert (forall o, o ∈ M -> w1 + WINDOW_NS <= window_start (o_entry o) < t + WINDOW_NS) as HM.
  { intros o [Hne Ho]%list_elem_of_filter. pose proof (HL o Ho).
    rewrite EL in Ho, HsL. apply StronglySorted_inv in HsL as [_ HsL].
    apply elem_of_cons in Ho as [->|Ho]; [done|].
    rewrite Forall_forall in HsL. destruct (HsL o Ho) as [E|E]; fold w1 in E; [congruence|lia]. }
  assert (t - WINDOW_NS < w1) as Hw1 by (apply (HL o1); rewrite EL; left).
  destruct M as [|o2 M'] eqn:EM; [simpl; lia|].
  assert (Forall (fun o => window_start (o_entry o) = window_start (o_entry o2)) (o2 :: M')) as Hall.
  { constructor; [done|]. apply StronglySorted_inv in HsM as [_ HsM].
    pose proof (HM o2 ltac:(by left)). rewrite Forall_forall in *. intros o Ho.
    destruct (HsM o Ho) as [E|E]; [done|]. pose proof (HM o ltac:(by right)).
    rewrite WINDOW_NS_val in *. lia. }
  etrans; [|apply (HwL (window_start (o_entry o2)))]. apply inj_le.
  rewrite <-EM in *. rewrite Forall_forall in Hall. unfold M. apply length_filter_mono.
  intros o Ho Hne. apply Hall. by apply list_elem_of_filter.
Qed.

(** The times at which the limiter let packets through. *)
Definition passed_times (os : list outcome) : list Z :=
  o_now <$> filter (fun o => o_pass o = true) os.

Lemma passed_times_app os1 os2 : passed_times (os1 ++ os2) = passed_times os1 ++ passed_times os2.
Proof. unfold passed_times. by rewrite filter_app, fmap_app. Qed.

Lemma passed_times_one o : passed_times [o] = if o_pass o then [o_now o] else [].
Proof. unfold passed_times. cbn [filter list_filter]. by destruct (o_pass o). Qed.

Lemma interval_pass_bound pps t0 es n t o :
  0 < pps -> source_ok n t o -> n + Z.of_nat (length es) < 2 ^ 53 ->
  times_from t (ev_now <$> es) ->
  Z.of_nat (length (filter (fun x => t0 <= x < t0 + WINDOW_NS) (passed_times (source_run pps o es))))
  <= 2 * pps.
Proof.
  intros Hpps Ho Hn Ht. set (os := source_run _ _ _).
  destruct (source_run_sorted pps es n t _ Ho Hn Ht) as [Hsort Hin].
  assert (length (filter (fun x => t0 <= x < t0 + WINDOW_NS) (passed_times os))
    = length (passed_within t0 os)) as ->.
  { unfold passed_times, passed_within. rewrite filter_fmap, length_fmap.
    rewrite list_filter_filter. f_equal. apply list_filter_iff. simpl. tauto. }
  apply two_windows; [lia|done|done|]. intros w. by eapply window_pass_bound.
Qed.

(** ** The properties *)

(** C7. The integer arithmetic of the limiter is exact: below 2^53 packets a
    window, the shifts, products and sums of [fw_prog.c] lines 207-208 do not
    wrap, and a packet of a known source passes exactly when the limit is off
    or the weighted count [(prev * (1024 - slot) + packets * 1024) / 1024],
    rounded down, is at most the limit, with [slot] one of 0..1023. *)
Theorem limiter_decision pps n s e :
  entry_ok n (ev_now e) s -> n < 2 ^ 53 - 1 -> 0 <= pps ->
  let s' := next_stats (ev_now e) (ev_len e) (ev_kind e) s in
  0 <= slot_of (ev_now e) s' <= 1023 /\
  (o_pass (source_step pps (Some s) e) = true <->
   pps = 0 \/
   prev_packets s' * (1024 - slot_of (ev_now e) s') + packets s' * 1024 < (pps + 1) * 1024).
Proof.
  intros Hok Hn Hpps s'. pose proof (proj2 Hok) as Ht.
  assert (in_window (ev_now e) s') as Hw by by apply next_stats_in_window.
  split; [by apply slot_range|].
  assert (counts_ok (2 ^ 53 - 1) s') as Hc.
  { destruct (next_stats_counts n (ev_now e) (ev_len e) (ev_kind e) s) as [? ?];
      [apply Hok|lia|]. split; unfold s'; lia. }
  cbn [source_step next_entry o_pass].
  change (count_packet _ _ (roll_window (ev_now e) s)) with s'.
  rewrite sliding_rate_value by done. unfold under_limit.
  rewrite negb_true_iff, andb_false_iff, !Z.ltb_ge.
  set (x := prev_packets s' * _ + _). Z.div_mod_to_equations. lia.
Qed.

(** Within one window the limiter lets at most [pps] packets of a source
    pass, over any sequence of its packets at any non-decreasing times. *)
Theorem window_limit pps w es n t o :
  0 < pps -> source_ok n t o -> n + Z.of_nat (length es) < 2 ^ 53 ->
  times_from t (ev_now <$> es) ->
  Z.of_nat (length (passed_in_window w (source_run pps o es))) <= pps.
Proof. apply window_pass_bound. Qed.

(** The window slides over the last active window, however long ago it
    was: the first packet after any silence of a window's length or more is
    charged the whole count of that window. A source that used its limit and
    then stayed silent, for an hour say, has its next packet dropped. *)
Theorem stale_window_charged pps n s e :
  entry_ok n (ev_now e) s -> n < 2 ^ 53 - 1 -> 0 < pps ->
  window_start s + WINDOW_NS <= ev_now e ->
  snd (next_entry (Some s) (ev_now e) (ev_len e) (ev_kind e)) = packets s + 1 /\
  (pps <= packets s -> o_pass (source_step pps (Some s) e) = false).
Proof.
  intros Hok Hn Hpps Hgap. pose proof (proj2 Hok) as Ht.
  assert (snd (next_entry (Some s) (ev_now e) (ev_len e) (ev_kind e)) = packets s + 1) as Hr.
  { cbn [next_entry snd].
    change (count_packet _ _ (roll_window (ev_now e) s))
      with (next_stats (ev_now e) (ev_len e) (ev_kind e) s).
    rewrite sliding_rate_value.
    - destruct (roll_window_cases _ _ Ht) as [(? & _)|(_ & E1 & E2 & E3)]; [lia|].
      rewrite (next_stats_packets n), E2 by (apply Hok || lia).
      change (prev_packets (next_stats _ _ _ s)) with (prev_packets (roll_window (ev_now e) s)).
      unfold slot_of. rewrite next_stats_window, E1, E3, Z.sub_diag.
      change (0 / 2 ^ 20) with 0. Z.div_mod_to_equations. lia.
    - by apply next_stats_in_window.
    - destruct (next_stats_counts n (ev_now e) (ev_len e) (ev_kind e) s) as [? ?];
        [apply Hok|lia|]. split; lia. }
  split; [done|]. intros Hp. unfold source_step.
  destruct (next_entry _ _ _ _) as [s' r]. cbn [snd] in Hr. subst r. simpl.
  unfold under_limit. by rewrite !(proj2 (Z.ltb_lt _ _)) by lia.
Qed.

(** A clock reading older than the window's start resets the window. Two
    CPUs that handle packets of one source can write the entry in the other
    order than they read the clock; the unsigned difference then wraps, and
    the previous window's count is lost: whatever the source sent before, the
    rate of the second packet is 2. *)
Theorem clock_skew_resets n s len k len' k' t1 t2 :
  entry_ok n t2 s -> n < 2 ^ 53 - 1 ->
  window_start s + WINDOW_NS <= t2 -> 0 <= t1 < t2 -> t2 - t1 <= 2 ^ 64 - WINDOW_NS ->
  snd (next_entry (Some (next_stats t2 len k s)) t1 len' k') = 2.
Proof.
  intros Hok Hn Hgap Ht1 Hd. pose proof (proj2 Hok) as Ht.
  rewrite WINDOW_NS_val in Hd. set (s2 := next_stats t2 len k s).
  assert (packets s2 = 1 /\ window_start s2 = t2) as [Hp2 Hw2].
  { destruct (roll_window_cases _ _ Ht) as [(? & _)|(_ & E1 & E2 & _)]; [lia|].
    unfold s2. rewrite (next_stats_packets n), E2 by (apply Hok || lia). done. }
  assert (roll_window t1 s2 =
    IpStats t1 1 0 (bytes s2) 0 0 0 0) as Hroll.
  { unfold roll_window. rewrite Hw2, Hp2, WINDOW_NS_val.
    assert (u64 (t1 - t2) = t1 - t2 + 2 ^ 64) as ->.
    { unfold u64, wrap. rewrite <-(Z_mod_plus_full _ 1). apply Z.mod_small.
      destruct Ht. lia. }
    by rewrite (proj2 (Z.leb_le _ _)) by lia. }
  cbn [next_entry snd]. rewrite Hroll. unfold sliding_rate. cbn -[u64].
  by rewrite Z.sub_diag.
Qed.

(** *** Witnesses *)

Definition plain : l4 := L4 false false false.
(** A source that sent 5 packets in a window that started at time 100. *)
Definition old_entry : ip_stats := IpStats 100 0 5 0 300 0 0 0.
Definition burst (t : Z) : list event := replicate 10 (Event t 60 plain).

Lemma old_entry_ok t : 100 <= t < 2 ^ 64 -> entry_ok 5 t old_entry.
Proof. intros. split; [unfold counts_ok|unfold clock_ok]; simpl; lia. Defined.

Lemma limiter_decision_witness :
  let e := Event 200 60 plain in
  o_pass (source_step 9 (Some old_entry) e) = true <->
   9 = 0 \/ 0 * (1024 - 0) + 6 * 1024 < (9 + 1) * 1024.
Proof.
  intros e.
  exact (proj2 (limiter_decision 9 5 old_entry e (old_entry_ok 200 ltac:(simpl; lia))
    ltac:(lia) ltac:(lia))).
Defined.

Lemma window_limit_witness :
  Z.of_nat (length (passed_in_window 200 (source_run 3 None (burst 200)))) <= 3.
Proof.
  apply (window_limit 3 200 (burst 200) 0 0 None); [lia|simpl; lia|simpl; lia|].
  repeat split; simpl; lia.
Defined.

Lemma stale_window_charged_witness :
  let e := Event 3600000000000 60 plain in
  snd (next_entry (Some old_entry) (ev_now e) (ev_len e) (ev_kind e)) = 6 /\
  (5 <= packets old_entry -> o_pass (source_step 5 (Some old_entry) e) = false).
Proof.
  intros e. apply (stale_window_charged 5 5 old_entry e);
    [apply old_entry_ok; simpl; lia|lia|lia|vm_compute; congruence].
Defined.

Lemma clock_skew_resets_witness :
  snd (next_entry (Some (next_stats 2000000000 60 plain old_entry)) 1999999999 60 plain) = 2.
Proof.
  apply (clock_skew_resets 5 old_entry 60 plain 60 plain 1999999999 2000000000);
    [apply old_entry_ok; lia|lia|vm_compute; congruence|lia|vm_compute; congruence].
Defined.
