(* ===== verification/FwTrace.v ===== *)
(** * The data plane over a sequence of frames

    [fw_run] feeds a list of frames, each with its CPU and clock reading, to
    [fw_prog]. The theorems are about every such sequence: the counters add
    up, the per-source entries keep their invariant, and the rate limit of
    [RateLimit] holds for the whole program, whatever the other sources do. *)

From S2P Require Import Prelude BpfMaps FwProg FwSpec RateLimit.

Record frame := Frame { f_bytes : list Z; f_cpu : nat; f_now : Z }.

(** The entry of a source: its counts agree with each other and are at most
    [n], the number of packets processed. *)
Definition entry_wf (n : Z) (s : ip_stats) : Prop :=
  1 <= packets s <= n /\ 0 <= prev_packets s <= n /\
  0 <= syn s /\ 0 <= udp s /\ 0 <= icmp s /\ syn s + udp s + icmp s <= packets s.

Lemma entry_wf_weaken n m s : n <= m -> entry_wf n s -> entry_wf m s.
Proof. unfold entry_wf. lia. Qed.

Lemma fresh_stats_wf n now len k : 1 <= n -> entry_wf n (fresh_stats now len k).
Proof. intros. unfold entry_wf, fresh_stats; simpl. repeat case_match; lia. Qed.

Lemma count_packet_wf n now len k s :
  n < 2 ^ 64 - 1 -> entry_wf n s -> entry_wf (n + 1) (count_packet len k (roll_window now s)).
Proof.
  intros Hn (? & ? & ? & ? & ? & ?). unfold entry_wf, count_packet, roll_window.
  assert (forall x, 0 <= x <= n -> u64 (x + 1) = x + 1) as Hu
    by (intros; apply wrap_small; unfold uint_ok; lia).
  destruct (WINDOW_NS <=? _); cbn [packets prev_packets syn udp icmp];
    destruct (is_syn k), (is_udp k), (is_icmp k); rewrite ?Hu by lia; lia.
Qed.

Section FwTrace.
Context `{Endian} {BL RD IS : Type}.
Context `{BpfHash BL Z, LpmTrie RD, BpfHash IS ip_stats}.
Context `{!BpfHashLaws BL Z, !LpmLaws RD, !BpfHashLaws IS ip_stats}.
#[local] Abbreviation kmaps := (kmaps BL RD IS).
Implicit Types (fs : list frame) (st : kmaps).

Fixpoint fw_run fs : prog kmaps (list xdp_action) :=
  match fs with
  | [] => mret []
  | f :: fs =>
    v ← fw_prog (f_bytes f) (f_cpu f) (f_now f);
    vs ← fw_run fs;
    mret (v :: vs)
  end.

Definition frames_ok fs : Prop := Forall (fun f => bytes_ok (f_bytes f)) fs.

(** One frame, then the rest: the form every induction below uses. *)
Lemma fw_run_cons f fs st :
  bytes_ok (f_bytes f) ->
  exists c, fate (f_bytes f) (f_now f) st c /\
  fw_run (f :: fs) st =
    (vs ← fw_run fs; mret (verdict c :: vs))
      (spec_state (f_bytes f) (f_cpu f) (f_now f) c st).
Proof using Type*.
  intros Hok. destruct (fw_prog_fate _ (f_cpu f) (f_now f) st Hok) as (c & Hf & E).
  exists c. split; [done|]. cbn [fw_run]. unfold mbind, prog_bind. by rewrite E.
Qed.

(** ** Counters *)

(** The frames of CPU [cpu] among [fs] that were passed, and those that were
  counted as dropped (a frame too short for an Ethernet header is dropped
  before the counters are looked up). *)
Definition n_passed (cpu : nat) fs (vs : list xdp_action) : Z :=
  Z.of_nat (length (filter (fun '(f, v) => f_cpu f = cpu /\ v = XDP_PASS) (zip fs vs))).
Definition n_dropped (cpu : nat) fs (vs : list xdp_action) : Z :=
  Z.of_nat (length (filter (fun '(f, v) =>
  f_cpu f = cpu /\ v = XDP_DROP /\ 14 <= frame_len (f_bytes f)) (zip fs vs))).

(** The counters after counting [p] passed and [d] dropped frames more. *)
Definition count_on (p d : Z) (k : counters) : counters :=
  Counters (u64 (rx k + (p + d))) (u64 (dropped k + d)) (u64 (passed k + p)).

Definition counters_ok (k : counters) : Prop :=
  uint_ok 64 (rx k) /\ uint_ok 64 (dropped k) /\ uint_ok 64 (passed k).

Lemma counters_ok_count_on p d k : counters_ok (count_on p d k).
Proof using Type. repeat split; apply wrap_range; lia. Qed.

Lemma count_on_add p d p' d' k :
  count_on p' d' (count_on p d k) = count_on (p + p') (d + d') k.
Proof using Type.
  unfold count_on, u64; simpl. f_equal; rewrite wrap_add_l by lia; f_equal; lia.
Qed.

Lemma count_on_0 k : counters_ok k -> count_on 0 0 k = k.
Proof using Type.
  intros (? & ? & ?). destruct k. unfold count_on, u64; simpl.
  f_equal; rewrite !Z.add_0_r; by apply wrap_small.
Qed.

Lemma counted_count_on pkt now st c k :
  fate pkt now st c -> counters_ok k ->
  counted c k =
  count_on (if decide (verdict c = XDP_PASS) then 1 else 0)
    (if decide (verdict c = XDP_DROP /\ 14 <= frame_len pkt) then 1 else 0) k.
Proof using Type.
  intros Hf Hk. destruct k as [r d p]. destruct Hk as (? & ? & ?). simpl in *.
  unfold count_on, u64. unfold mitigated in Hf.
  destruct Hf; simpl; rewrite ?decide_True by (unfold mitigated in *; split; [done|lia]);
    try rewrite decide_False by (intros [? ?]; lia || done); simpl;
    unfold inc_rx, inc_dropped, inc_passed, u64; simpl; f_equal;
    rewrite ?Z.add_0_r; auto; symmetry; by apply wrap_small.
Qed.

Lemma n_passed_cons cpu f fs v vs :
  n_passed cpu (f :: fs) (v :: vs) =
  (if decide (f_cpu f = cpu /\ v = XDP_PASS) then 1 else 0) + n_passed cpu fs vs.
Proof using Type.
  unfold n_passed. simpl. rewrite filter_cons. repeat case_decide; simpl; tauto || lia.
Qed.

Lemma n_dropped_cons cpu f fs v vs :
  n_dropped cpu (f :: fs) (v :: vs) =
  (if decide (f_cpu f = cpu /\ v = XDP_DROP /\ 14 <= frame_len (f_bytes f)) then 1 else 0)
  + n_dropped cpu fs vs.
Proof using Type.
  unfold n_dropped. simpl. rewrite filter_cons. repeat case_decide; simpl; tauto || lia.
Qed.

Lemma fw_run_count fs st cpu k :
  frames_ok fs -> fw_stats st !! cpu = Some k -> counters_ok k ->
  exists vs st', fw_run fs st = Some (vs, st') /\ length vs = length fs /\
  fw_stats st' !! cpu = Some (count_on (n_passed cpu fs vs) (n_dropped cpu fs vs) k).
Proof using Type*.
  revert st k. induction fs as [|f fs IH]; intros st k Hok Hk Hr.
  { exists [], st. split; [done|]. split; [done|]. by rewrite count_on_0. }
  apply Forall_cons in Hok as [Hb Hok].
  destruct (fw_run_cons f fs st Hb) as (c & Hf & ->).
  set (st1 := spec_state _ _ _ _ _).
  set (p := if decide (f_cpu f = cpu /\ verdict c = XDP_PASS) then 1 else 0).
  set (d := if decide (f_cpu f = cpu /\ verdict c = XDP_DROP /\ 14 <= frame_len (f_bytes f))
    then 1 else 0).
  assert (fw_stats st1 !! cpu = Some (count_on p d k)) as Hk1.
  { subst st1 p d; cbn [spec_state fw_stats]. rewrite list_lookup_alter.
    destruct (decide (f_cpu f = cpu)) as [Hc|Hc].
    - rewrite Hc, Hk. simpl. f_equal. rewrite (counted_count_on _ _ _ _ _ Hf Hr).
      f_equal; repeat case_decide; tauto.
    - rewrite !decide_False by tauto. by rewrite count_on_0. }
  destruct (IH st1 _ Hok Hk1 (counters_ok_count_on _ _ _)) as (vs & st' & E & Hl & Hk').
  exists (verdict c :: vs), st'. unfold mbind, prog_bind. rewrite E. split; [done|].
  split; [by simpl; rewrite Hl|].
  rewrite Hk', count_on_add, n_passed_cons, n_dropped_cons. done.
Qed.

(** ** The per-source entries *)

Lemma store_entry_inv (m : IS) a s a' s' :
  bpf_lookup (store_entry m a s) a' = Some s' ->
  (a' = a /\ s' = s) \/ bpf_lookup m a' = Some s'.
Proof using Type*.
  unfold store_entry. destruct (bpf_lookup m a) as [s0|] eqn:E.
  - destruct (decide (a = a')) as [<-|Hne].
    + rewrite (bpf_write_eq _ _ _ _ E). intros [= <-]. by left.
    + rewrite bpf_write_ne by done. by right.
  - destruct (bpf_update m a s) as [m'|] eqn:Hu; simpl; [|by right].
    destruct (decide (a = a')) as [<-|Hne].
    + rewrite (bpf_update_eq _ _ _ _ Hu). intros [= <-]. by left.
    + destruct (bpf_update_ne _ _ _ _ _ Hu Hne) as [->| ->]; [by right|done].
Qed.

Definition entries_wf (n : Z) st : Prop :=
  forall a s, bpf_lookup (fw_ip_stats st) a = Some s -> entry_wf n s.

Lemma next_of_wf n pkt now st :
  0 <= n < 2 ^ 64 - 1 -> entries_wf n st -> entry_wf (n + 1) (fst (next_of pkt now st)).
Proof using Type.
  intros Hn Hwf. unfold next_of, next_entry.
  destruct (bpf_lookup _ _) as [s|] eqn:E; simpl.
  - apply count_packet_wf; [lia|by eapply Hwf].
  - apply fresh_stats_wf. lia.
Qed.

Lemma spec_state_wf n pkt cpu now c st :
  0 <= n < 2 ^ 64 - 1 -> entries_wf n st -> entries_wf (n + 1) (spec_state pkt cpu now c st).
Proof using Type*.
  intros Hn Hwf a s Hs.
  assert (bpf_lookup (fw_ip_stats st) a = Some s -> entry_wf (n + 1) s) as Hold
    by (intros Ho; eapply entry_wf_weaken, Hwf, Ho; lia).
  cbn [spec_state fw_ip_stats] in Hs.
  destruct c; try by apply Hold.
  all: apply store_entry_inv in Hs as [[-> ->]|Hs]; [by apply next_of_wf|by apply Hold].
Qed.

Lemma fw_run_wf fs st n vs st' :
  frames_ok fs -> 0 <= n -> n + Z.of_nat (length fs) < 2 ^ 64 -> entries_wf n st ->
  fw_run fs st = Some (vs, st') -> entries_wf (n + Z.of_nat (length fs)) st'.
Proof using Type*.
  revert st n vs. induction fs as [|f fs IH]; intros st n vs Hok Hn0 Hn Hwf Hr.
  { simplify_eq/=. injection Hr as <- <-. by rewrite Z.add_0_r. }
  apply Forall_cons in Hok as [Hb Hok]. simpl length in *.
  destruct (fw_run_cons f fs st Hb) as (c & Hf & E). rewrite E in Hr.
  unfold mbind, prog_bind in Hr.
  destruct (fw_run fs _) as [[vs1 st1]|] eqn:E1; [|done]. injection Hr as <- <-.
  replace (n + Z.of_nat (Datatypes.S (length fs))) with (n + 1 + Z.of_nat (length fs)) by lia.
  eapply IH; [done|lia|lia| |done]. apply spec_state_wf; [lia|done].
Qed.
End FwTrace.

(** ** Sources that do not get through *)

Section FwBlocked.
Context `{Endian} {BL RD IS : Type}.
Context `{BpfHash BL Z, LpmTrie RD, BpfHash IS ip_stats}.
Context `{!BpfHashLaws BL Z, !LpmLaws RD, !BpfHashLaws IS ip_stats}.
#[local] Abbreviation kmaps := (kmaps BL RD IS).
Implicit Types (fs : list frame) (st : kmaps).

(** The times at which IPv4 frames of source [a] were passed while the
  firewall was on. *)
Definition passed_from (a : Z) st fs (vs : list xdp_action) : list Z :=
  (fun fv => f_now (fst fv)) <$>
  filter (fun fv => mitigated (f_bytes (fst fv)) st /\ src_of (f_bytes (fst fv)) = a /\
                    snd fv = XDP_PASS) (zip fs vs).

Lemma passed_from_cons a st f fs v vs :
  passed_from a st (f :: fs) (v :: vs) =
  (if decide (mitigated (f_bytes f) st /\ src_of (f_bytes f) = a /\ v = XDP_PASS)
   then [f_now f] else []) ++ passed_from a st fs vs.
Proof using Type.
  unfold passed_from. simpl. rewrite filter_cons. repeat case_decide; simpl in *; tauto || done.
Qed.

Lemma passed_from_ext a st1 st2 fs vs :
  fw_config st1 = fw_config st2 -> passed_from a st1 fs vs = passed_from a st2 fs vs.
Proof using Type.
  intros E. unfold passed_from. f_equal. apply list_filter_iff. intros fv.
  unfold mitigated, enabled. by rewrite E.
Qed.

(** A property of the state that every frame preserves, and under which a
  frame of [a] passes only at a time in [P], holds of the times [a]'s frames
  are passed at in any run. *)
Lemma passed_from_inv (Inv : Z -> kmaps -> Prop) (P : Z -> Prop) a t fs st vs st' :
  (forall t st pkt cpu now c, Inv t st -> t <= now -> fate pkt now st c ->
   Inv now (spec_state pkt cpu now c st)) ->
  (forall t st pkt now c, Inv t st -> t <= now -> fate pkt now st c ->
   mitigated pkt st -> src_of pkt = a -> verdict c = XDP_PASS -> P now) ->
  frames_ok fs -> times_from t (f_now <$> fs) -> Inv t st ->
  fw_run fs st = Some (vs, st') -> Forall P (passed_from a st fs vs).
Proof using Type*.
  intros Hstep Hpass. revert t st vs. induction fs as [|f fs IH]; intros t st vs Hok Ht Hi Hr.
  { injection Hr as <- <-. constructor. }
  apply Forall_cons in Hok as [Hb Hok]. destruct Ht as [Ht Hts].
  destruct (fw_run_cons f fs st Hb) as (c & Hf & E). rewrite E in Hr.
  unfold mbind, prog_bind in Hr. set (st1 := spec_state _ _ _ _ _) in *.
  destruct (fw_run fs st1) as [[vs1 st2]|] eqn:E1; [|done]. injection Hr as <- <-.
  rewrite passed_from_cons, (passed_from_ext a st st1) by done. apply Forall_app. split.
  - case_decide as Hd; [|constructor]. destruct Hd as (Hm & Ha & Hv).
    constructor; [|constructor]. eapply Hpass; eauto; lia.
  - eapply IH; eauto. eapply Hstep; eauto; lia.
Qed.

(** A blocklist entry of [a] with expiry [e] that has not been removed yet,
  or [a]'s ban is over. *)
Definition ban_holds (a e t : Z) st : Prop :=
  bpf_lookup (fw_blocklist st) a = Some e \/ (e <> 0 /\ e < t).

Lemma unban_ne a a' (b : BL) : a <> a' -> bpf_lookup (unban a b) a' = bpf_lookup b a'.
Proof using Type*.
  intros Hne. unfold unban. destruct (bpf_delete b a) as [b'|] eqn:E; [|done].
  simpl. by eapply bpf_delete_ne.
Qed.

Lemma ban_holds_step a e t st pkt cpu now c :
  ban_holds a e t st -> t <= now -> fate pkt now st c ->
  ban_holds a e now (spec_state pkt cpu now c st).
Proof using Type*.
  intros [Hl|He] Ht Hf; [|right; lia]. unfold ban_holds. cbn [spec_state fw_blocklist].
  destruct (decide (src_of pkt = a)) as [<-|Hne].
  - destruct (decide (e = 0 \/ now <= e)) as [Hd|Hd]; [left|right; lia].
    assert (banned st (src_of pkt) now) as Hb by by exists e.
    by destruct Hf.
  - left. rewrite <-Hl. destruct c; try done; by apply unban_ne.
Qed.

Lemma ban_holds_pass a e t st pkt now c :
  ban_holds a e t st -> t <= now -> fate pkt now st c ->
  mitigated pkt st -> src_of pkt = a -> verdict c = XDP_PASS -> e <> 0 /\ e < now.
Proof using Type.
  intros [Hl|He] Ht Hf Hm <- Hv; [|lia].
  destruct (decide (e = 0 \/ now <= e)) as [Hd|Hd]; [exfalso|lia].
  assert (banned st (src_of pkt) now) as Hb by by exists e.
  destruct Hm as (? & ? & ?). destruct Hf; try done; lia.
Qed.

(** No frame of a banned source passes before its ban expires. *)
Lemma banned_run a e t fs st vs st' :
  frames_ok fs -> times_from t (f_now <$> fs) ->
  bpf_lookup (fw_blocklist st) a = Some e ->
  fw_run fs st = Some (vs, st') ->
  Forall (fun x => e <> 0 /\ e < x) (passed_from a st fs vs).
Proof using Type*.
  intros Hok Ht Hl Hr.
  eapply (passed_from_inv (ban_holds a e)); eauto; [| |by left].
  - intros. by eapply ban_holds_step.
  - intros. by eapply ban_holds_pass.
Qed.

(** No frame of a source in a dropped range passes. *)
Lemma covered_run a t fs st vs st' :
  frames_ok fs -> times_from t (f_now <$> fs) -> covers (fw_range_drop st) a ->
  fw_run fs st = Some (vs, st') -> passed_from a st fs vs = [].
Proof using Type*.
  intros Hok Ht Hc Hr.
  assert (Forall (fun _ => False) (passed_from a st fs vs)) as Hf.
  { eapply (passed_from_inv (fun _ st => covers (fw_range_drop st) a)); eauto.
    intros t' st1 pkt now c Hcov _ Hfate (? & ? & ?) <- Hv. destruct Hfate; try done; lia. }
  destruct (passed_from a st fs vs); [done|]. by apply Forall_cons in Hf as [[] _].
Qed.
End FwBlocked.

(** ** The rate limit, for the whole program

    The map of entries has room ([BpfHashKeeps]): an evicted source would be
    counted afresh. *)
Section FwRate.
Context `{Endian} {BL RD IS : Type}.
Context `{BpfHash BL Z, LpmTrie RD, BpfHash IS ip_stats}.
Context `{!BpfHashLaws BL Z, !LpmLaws RD, !BpfHashLaws IS ip_stats, !BpfHashKeeps IS ip_stats}.
#[local] Abbreviation kmaps := (kmaps BL RD IS).
Implicit Types (fs : list frame) (st : kmaps).

Lemma store_entry_eq (m : IS) a s : bpf_lookup (store_entry m a s) a = Some s.
Proof using Type*.
  unfold store_entry. destruct (bpf_lookup m a) as [s0|] eqn:E.
  - by eapply bpf_write_eq.
  - destruct (bpf_update_ok m a s) as [m' Hu]. rewrite Hu. by eapply bpf_update_eq.
Qed.

Lemma store_entry_ne (m : IS) a a' s :
  a <> a' -> bpf_lookup (store_entry m a s) a' = bpf_lookup m a'.
Proof using Type*.
  intros Hne. unfold store_entry. destruct (bpf_lookup m a) as [s0|] eqn:E.
  - by apply bpf_write_ne.
  - destruct (bpf_update_ok m a s) as [m' Hu]. rewrite Hu. by eapply bpf_update_keeps.
Qed.

(** A frame of [a] that reaches the limiter is one [source_step]; any other
  frame leaves [a]'s entry alone and is not one [a] got passed. *)
Lemma frame_source a st f c :
  fate (f_bytes f) (f_now f) st c ->
  let st1 := spec_state (f_bytes f) (f_cpu f) (f_now f) c st in
  (exists e, ev_now e = f_now f /\
   let out := source_step (limit st) (bpf_lookup (fw_ip_stats st) a) e in
   bpf_lookup (fw_ip_stats st1) a = Some (o_entry out) /\
   ((mitigated (f_bytes f) st /\ src_of (f_bytes f) = a /\ verdict c = XDP_PASS)
    <-> o_pass out = true)) \/
  (bpf_lookup (fw_ip_stats st1) a = bpf_lookup (fw_ip_stats st) a /\
   ~ (mitigated (f_bytes f) st /\ src_of (f_bytes f) = a /\ verdict c = XDP_PASS)).
Proof using Type*.
  intros Hf st1. subst st1. cbn [spec_state fw_ip_stats].
  assert (c = OverLimit \/ c = Clean \/ ((c <> OverLimit /\ c <> Clean) /\
    ~ (mitigated (f_bytes f) st /\ verdict c = XDP_PASS))) as Hc.
  { unfold mitigated. destruct Hf; simpl; auto; right; right; (split; [done|]);
      intros [(? & ? & ?) ?]; done || lia || tauto. }
  destruct (decide (src_of (f_bytes f) = a)) as [Ha|Ha].
  2:{ right. split; [|tauto]. destruct c; try done; by apply store_entry_ne. }
  destruct Hc as [Hc|[Hc|[Hc Hv]]].
  3:{ right. split; [|tauto]. destruct c; tauto. }
  all: left; exists (Event (f_now f) (u32 (frame_len (f_bytes f))) (kind_of (f_bytes f)));
    (split; [done|]); cbn zeta; unfold source_step; cbn [ev_now ev_len ev_kind];
    pose proof Hf as Hf'; rewrite Hc in Hf'; inversion Hf'; subst c;
    unfold next_of in *; rewrite Ha in *;
    destruct (next_entry _ _ _ _) as [s rate]; cbn [fst snd o_entry o_pass] in *;
    (split; [apply store_entry_eq|]); unfold under_limit; simpl.
  - rewrite !(proj2 (Z.ltb_lt _ _)) by lia. naive_solver.
  - split; [intros _|done]. apply negb_true_iff, andb_false_iff. rewrite !Z.ltb_ge. lia.
Qed.

Lemma fw_run_source a t fs st vs st' :
  frames_ok fs -> times_from t (f_now <$> fs) -> fw_run fs st = Some (vs, st') ->
  exists es, (length es <= length fs)%nat /\ times_from t (ev_now <$> es) /\
  passed_from a st fs vs =
    passed_times (source_run (limit st) (bpf_lookup (fw_ip_stats st) a) es).
Proof using Type*.
  revert t st vs. induction fs as [|f fs IH]; intros t st vs Hok Ht Hr.
  { injection Hr as <- <-. by exists []. }
  apply Forall_cons in Hok as [Hb Hok]. destruct Ht as [Ht Hts].
  destruct (fw_run_cons f fs st Hb) as (c & Hf & E). rewrite E in Hr.
  unfold mbind, prog_bind in Hr. set (st1 := spec_state _ _ _ _ _) in *.
  destruct (fw_run fs st1) as [[vs1 st2]|] eqn:E1; [|done]. injection Hr as <- <-.
  destruct (IH (f_now f) st1 vs1 Hok Hts E1) as (es & Hl & Het & Hp).
  rewrite passed_from_cons, (passed_from_ext a st st1) by done. rewrite Hp.
  change (limit st1) with (limit st).
  destruct (frame_source a st f c Hf) as [(e & He & Hs & Hv)|[Hs Hv]];
    fold st1 in Hs; rewrite Hs.
  - exists (e :: es). split; [simpl; lia|]. split; [simpl; rewrite He; by split|].
    unfold passed_times. cbn [source_run]. rewrite filter_cons.
    set (out := source_step _ _ _) in *.
    assert (o_now out = f_now f) as Ho.
    { subst out. unfold source_step. destruct (next_entry _ _ _ _). done. }
    destruct (decide (o_pass out = true)) as [Hd|Hd].
    + rewrite decide_True by by apply Hv. simpl. by rewrite Ho.
    + rewrite decide_False by by rewrite Hv. done.
  - exists es. split; [simpl; lia|]. split; [by eapply times_from_weaken; [|exact Het]; lia|].
    by rewrite decide_False.
Qed.
End FwRate.

(** ** The properties *)

Section FwTraceProps.
Context `{Endian} {BL RD IS : Type}.
Context `{BpfHash BL Z, LpmTrie RD, BpfHash IS ip_stats}.
Context `{!BpfHashLaws BL Z, !LpmLaws RD, !BpfHashLaws IS ip_stats}.
#[local] Abbreviation kmaps := (kmaps BL RD IS).
Implicit Types (fs : list frame) (st : kmaps).

(** The counters account for every frame, on every CPU and for every
  sequence of frames and state: [passed] grows by the frames passed there,
  [dropped] by the frames dropped there that were long enough to be
  counted, and [rx] by their sum (each modulo 2^64). *)
Theorem fw_run_counters fs st cpu k :
  frames_ok fs -> fw_stats st !! cpu = Some k -> counters_ok k ->
  exists vs st' k', fw_run fs st = Some (vs, st') /\ length vs = length fs /\
  fw_stats st' !! cpu = Some k' /\
  passed k' = u64 (passed k + n_passed cpu fs vs) /\
  dropped k' = u64 (dropped k + n_dropped cpu fs vs) /\
  rx k' = u64 (rx k + (n_passed cpu fs vs + n_dropped cpu fs vs)).
Proof using Type*.
  intros Hok Hk Hr. destruct (fw_run_count fs st cpu k Hok Hk Hr) as (vs & st' & E & Hl & Hk').
  eauto 10.
Qed.

(** C8. The statistics of every source stay consistent through any sequence
  of fewer than 2^64 frames: the SYN, UDP and ICMP counts of the current
  window never add up to more than its packets, and no count exceeds the
  number of frames processed. *)
Theorem fw_run_entries fs st n vs st' :
  frames_ok fs -> 0 <= n -> n + Z.of_nat (length fs) < 2 ^ 64 -> entries_wf n st ->
  fw_run fs st = Some (vs, st') -> entries_wf (n + Z.of_nat (length fs)) st'.
Proof using Type*. apply fw_run_wf. Qed.

(** C3. The rate limit of the program: over any sequence of frames from any
  mix of sources on any CPUs, at non-decreasing times, at most [2 * limit]
  IPv4 frames of one source pass within any interval of the window's
  length (2^30 ns), as long as the map of entries does not evict. *)
Theorem rate_limit_any_interval `{!BpfHashKeeps IS ip_stats} a t0 t n fs st vs st' :
  frames_ok fs -> times_from t (f_now <$> fs) -> fw_run fs st = Some (vs, st') ->
  0 < limit st -> source_ok n t (bpf_lookup (fw_ip_stats st) a) ->
  n + Z.of_nat (length fs) < 2 ^ 53 ->
  Z.of_nat (length (filter (fun x => t0 <= x < t0 + WINDOW_NS) (passed_from a st fs vs)))
  <= 2 * limit st.
Proof using Type*.
  intros Hok Ht Hr Hlim Hs Hn.
  destruct (fw_run_source a t fs st vs st' Hok Ht Hr) as (es & Hl & Het & ->).
  eapply interval_pass_bound; eauto. lia.
Qed.
End FwTraceProps.

(** *** Witnesses *)

Definition demo_frames : list frame := replicate 6 (Frame udp_frame 0 7).

Lemma demo_frames_ok : frames_ok demo_frames.
Proof. apply Forall_replicate, udp_frame_ok. Defined.

(** The run the witnesses talk about exists. *)
Lemma demo_frames_run :
  let _ := little in exists vs st', fw_run demo_frames demo_st = Some (vs, st').
Proof.
  intros en.
  destruct (fw_run_count demo_frames demo_st 0 (Counters 0 0 0) demo_frames_ok eq_refl)
    as (vs & st' & E & _); [|by exists vs, st'].
  repeat split; simpl; lia.
Defined.

Lemma fw_run_counters_witness :
  let _ := little in
  exists vs st' k', fw_run demo_frames demo_st = Some (vs, st') /\ length vs = 6%nat /\
    fw_stats st' !! 0%nat = Some k' /\
    passed k' = u64 (0 + n_passed 0 demo_frames vs) /\
    dropped k' = u64 (0 + n_dropped 0 demo_frames vs) /\
    rx k' = u64 (0 + (n_passed 0 demo_frames vs + n_dropped 0 demo_frames vs)).
Proof.
  intros en. apply (fw_run_counters demo_frames demo_st 0 (Counters 0 0 0)).
  - exact demo_frames_ok.
  - reflexivity.
  - repeat split; simpl; lia.
Defined.

Lemma demo_no_entries n : entries_wf n demo_st.
Proof. intros a s. vm_compute. discriminate. Defined.

Lemma fw_run_entries_witness :
  let _ := little in
  exists vs st', fw_run demo_frames demo_st = Some (vs, st') /\ entries_wf 6 st'.
Proof.
  intros en. destruct demo_frames_run as (vs & st' & E). exists vs, st'. split; [exact E|].
  apply (fw_run_entries demo_frames demo_st 0 vs st' demo_frames_ok);
    [lia|simpl; lia|apply demo_no_entries|exact E].
Defined.

Lemma rate_limit_any_interval_witness :
  let _ := little in
  exists vs st', fw_run demo_frames demo_st = Some (vs, st') /\
    Z.of_nat (length (filter (fun x => 0 <= x < 0 + WINDOW_NS)
                        (passed_from demo_src demo_st demo_frames vs))) <= 2 * 3.
Proof.
  intros en. destruct demo_frames_run as (vs & st' & E). exists vs, st'. split; [exact E|].
  eapply (rate_limit_any_interval demo_src 0 0 0 demo_frames demo_st).
  - exact demo_frames_ok.
  - repeat split; simpl; lia.
  - exact E.
  - reflexivity.
  - split; lia.
  - simpl; lia.
Defined.
