(* ===== verification/FwConc.v ===== *)
(** * The data plane on several processors

    The kernel runs [fw_prog] on every processor at once, on the same maps.
    [fw_code] is the program again, as the sequence of its accesses to the
    maps: a lookup, an update or a deletion is one call of a helper; a field
    of a value is loaded and stored through the pointer the lookup returned,
    so an increment is two accesses. [exec] says what one access does. The
    program alone is [fw_prog] ([fw_code_alone]); what it does among others is
    the subject of [FwRaces] and [FwBanRace]. *)

From S2P Require Import Prelude BpfMaps FwProg FwSpec Interleave.

(** ** Accesses *)

Inductive cell := Rx | Dropped | Passed.
Inductive field := WindowStart | PrevPackets | Packets | PrevBytes | Bytes | Syn | Udp | Icmp.
#[global] Instance field_eq_dec : EqDecision field.
Proof. solve_decision. Defined.

Inductive op :=
  | StatLookup (cpu : nat)                  (* bpf_map_lookup_elem(&fw_stats, &k0) *)
  | StatLoad (cpu : nat) (f : cell)         (* c->f *)
  | StatStore (cpu : nat) (f : cell) (v : Z)
  | CfgLoad (i : Z)                         (* cfg(i) *)
  | BlockLookup (a : Z)                     (* the lookup in fw_blocklist, and *exp *)
  | BlockDelete (a : Z)
  | RangeLookup (a : Z)
  | EntryLookup (a : Z)                     (* bpf_map_lookup_elem(&fw_ip_stats, &src) *)
  | EntryLoad (a : Z) (f : field)           (* s->f *)
  | EntryStore (a : Z) (f : field) (v : Z)
  | EntryUpdate (a : Z) (s : ip_stats).

Definition answer (o : op) : Type :=
  match o with
  | StatLookup _ | RangeLookup _ | EntryLookup _ => bool
  | StatLoad _ _ | CfgLoad _ | EntryLoad _ _ => Z
  | BlockLookup _ => option Z
  | StatStore _ _ _ | BlockDelete _ | EntryStore _ _ _ | EntryUpdate _ _ => unit
  end.

Definition get_cell (f : cell) (c : counters) : Z :=
  match f with Rx => rx c | Dropped => dropped c | Passed => passed c end.
Definition set_cell (f : cell) (v : Z) (c : counters) : counters :=
  match f with
  | Rx => Counters v (dropped c) (passed c)
  | Dropped => Counters (rx c) v (passed c)
  | Passed => Counters (rx c) (dropped c) v
  end.

Definition get_field (f : field) (s : ip_stats) : Z :=
  match f with
  | WindowStart => window_start s | PrevPackets => prev_packets s | Packets => packets s
  | PrevBytes => prev_bytes s | Bytes => bytes s | Syn => syn s | Udp => udp s | Icmp => icmp s
  end.
Definition set_field (f : field) (v : Z) (s : ip_stats) : ip_stats :=
  let 'IpStats ws pp p pb b sy u i := s in
  match f with
  | WindowStart => IpStats v pp p pb b sy u i
  | PrevPackets => IpStats ws v p pb b sy u i
  | Packets => IpStats ws pp v pb b sy u i
  | PrevBytes => IpStats ws pp p v b sy u i
  | Bytes => IpStats ws pp p pb v sy u i
  | Syn => IpStats ws pp p pb b v u i
  | Udp => IpStats ws pp p pb b sy v i
  | Icmp => IpStats ws pp p pb b sy u v
  end.

(** The memory of an entry that was evicted while a program still has its
    pointer: the kernel may have given it to another key. What a load from it
    reads, and what a store to it does to the map, is not constrained. *)
Class Reclaimed (IS : Type) := {
  stale_load : IS -> Z -> field -> Z;
  stale_store : IS -> Z -> field -> Z -> IS;
}.

(** For example, memory that reads as 0 and that no other key has got. *)
#[global] Instance gmap_reclaimed {V} : Reclaimed (gmap Z V) := {|
  stale_load _ _ _ := 0;
  stale_store i _ _ _ := i;
|}.

Section FwConc.
Context `{Endian} {BL RD IS : Type}.
Context `{BpfHash BL Z, LpmTrie RD, BpfHash IS ip_stats, Reclaimed IS}.
#[local] Abbreviation kmaps := (kmaps BL RD IS).
#[local] Abbreviation code := (code answer).
#[local] Abbreviation access := (act (ans := answer)).
Implicit Types (m : kmaps).

Definition exec (o : op) m : answer o * kmaps :=
  match o return answer o * kmaps with
  | StatLookup cpu => (bool_decide (is_Some (fw_stats m !! cpu)), m)
  | StatLoad cpu f => (from_option (get_cell f) 0 (fw_stats m !! cpu), m)
  | StatStore cpu f v => (tt, set_fw_stats (alter (set_cell f v) cpu (fw_stats m)) m)
  | CfgLoad i => (default 0 (fw_config m !! Z.to_nat i), m)
  | BlockLookup a => (bpf_lookup (fw_blocklist m) a, m)
  | BlockDelete a =>
      (tt, match bpf_delete (fw_blocklist m) a with Some b => set_blocklist b m | None => m end)
  | RangeLookup a =>
      (match lpm_lookup (fw_range_drop m) (LpmKey 32 a) with Some _ => true | None => false end, m)
  | EntryLookup a => (bool_decide (is_Some (bpf_lookup (fw_ip_stats m) a)), m)
  | EntryLoad a f =>
      (match bpf_lookup (fw_ip_stats m) a with
       | Some s => get_field f s
       | None => stale_load (fw_ip_stats m) a f
       end, m)
  | EntryStore a f v =>
      (tt, match bpf_lookup (fw_ip_stats m) a with
           | Some s => set_ip_stats (bpf_write (fw_ip_stats m) a (set_field f v s)) m
           | None => set_ip_stats (stale_store (fw_ip_stats m) a f v) m
           end)
  | EntryUpdate a s =>
      (tt, match bpf_update (fw_ip_stats m) a s with Some i => set_ip_stats i m | None => m end)
  end.

(** ** The program *)

(** if (c) c->f++ *)
Definition incr_cell (c : bool) (cpu : nat) (f : cell) : code unit :=
  if c then v ← access (StatLoad cpu f); access (StatStore cpu f (u64 (v + 1))) else mret tt.

Definition drop_code (c : bool) (cpu : nat) : code xdp_action :=
  _ ← incr_cell c cpu Dropped; mret XDP_DROP.
Definition pass_code (c : bool) (cpu : nat) : code xdp_action :=
  _ ← incr_cell c cpu Passed; mret XDP_PASS.

(** s->f++, s->f += d *)
Definition add_field (a : Z) (f : field) (d : Z) : code unit :=
  v ← access (EntryLoad a f); access (EntryStore a f (u64 (v + d))).

(** 1. Blocklist. *)
Definition block_code (src now : Z) : code bool :=
  e ← access (BlockLookup src);
  match e with
  | Some exp =>
    if (exp =? 0) || (now <=? exp) then mret true
    else _ ← access (BlockDelete src); mret false
  | None => mret false
  end.

(** 4. The window: the stores of the roll-over, in their order. *)
Definition roll_code (src now : Z) : code unit :=
  ws ← access (EntryLoad src WindowStart);
  if WINDOW_NS <=? u64 (now - ws) then
  p ← access (EntryLoad src Packets);
  _ ← access (EntryStore src PrevPackets p);
  b ← access (EntryLoad src Bytes);
  _ ← access (EntryStore src PrevBytes b);
  _ ← access (EntryStore src Packets 0);
  _ ← access (EntryStore src Bytes 0);
  _ ← access (EntryStore src Syn 0);
  _ ← access (EntryStore src Udp 0);
  _ ← access (EntryStore src Icmp 0);
  access (EntryStore src WindowStart now)
  else mret tt.

Definition kind_code (src : Z) (k : l4) : code unit :=
  if is_syn k then add_field src Syn 1
  else if is_udp k then add_field src Udp 1
  else if is_icmp k then add_field src Icmp 1
  else mret tt.

Definition rate_code (src now : Z) : code Z :=
  ws ← access (EntryLoad src WindowStart);
  let slot := Z.shiftr (u64 (now - ws)) 20 in
  pp ← access (EntryLoad src PrevPackets);
  p ← access (EntryLoad src Packets);
  mret (Z.shiftr (u64 (u64 (pp * u64 (1024 - slot)) + u64 (Z.shiftl p 10))) FRAC_BITS).

Definition record_code (src now len : Z) (k : l4) : code Z :=
  s ← access (EntryLookup src);
  if s : bool then
  _ ← roll_code src now;
  _ ← add_field src Packets 1;
  _ ← add_field src Bytes len;
  _ ← kind_code src k;
  rate_code src now
  else
  _ ← access (EntryUpdate src (fresh_stats now len k));
  mret 1.

(** From the classification on. *)
Definition limit_code (c : bool) (cpu : nat) (pkt : list Z) (src now len : Z) : code xdp_action :=
  k ← clift (classify pkt);
  rate ← record_code src now len k;
  pps ← access (CfgLoad CFG_PPS);
  if (0 <? pps) && (pps <? rate) then drop_code c cpu else
  pass_code c cpu.

(** From the blocklist on. *)
Definition filter_code (c : bool) (cpu : nat) (pkt : list Z) (src now len : Z) : code xdp_action :=
  blocked ← block_code src now;
  if blocked : bool then drop_code c cpu else
  ranged ← access (RangeLookup src);
  if ranged : bool then drop_code c cpu else
  limit_code c cpu pkt src now len.

Definition fw_code (pkt : list Z) (cpu : nat) (now : Z) : code xdp_action :=
  let data_end := Z.of_nat (length pkt) in
  if data_end <? 14 then mret XDP_DROP else
  c ← access (StatLookup cpu);
  _ ← incr_cell c cpu Rx;
  h_proto ← clift (load_int 2 pkt 12);
  if negb (h_proto =? htons ETH_P_IP) then pass_code c cpu else
  if data_end <? 34 then drop_code c cpu else
  enabled ← access (CfgLoad CFG_ENABLED);
  if enabled =? 0 then pass_code c cpu else
  src ← clift (load_int 4 pkt 26);
  filter_code c cpu pkt src now (u32 data_end).
End FwConc.

(** ** The program alone *)

Section Alone.
Context `{Endian} {BL RD IS : Type}.
Context `{BpfHash BL Z, LpmTrie RD, BpfHash IS ip_stats, Reclaimed IS}.
Context `{!BpfHashLaws BL Z, !LpmLaws RD, !BpfHashLaws IS ip_stats}.
#[local] Abbreviation kmaps := (kmaps BL RD IS).
#[local] Abbreviation seq := (seq (S := kmaps) exec).
Implicit Types (m : kmaps) (s : ip_stats).

Definition inc_cell (f : cell) : counters -> counters :=
  match f with Rx => inc_rx | Dropped => inc_dropped | Passed => inc_passed end.

(** What the lookup of the counters found. *)
Definition has_cell (m : kmaps) (cpu : nat) : bool := bool_decide (is_Some (fw_stats m !! cpu)).

Lemma seq_incr_cell m cpu f :
  seq (incr_cell (has_cell m cpu) cpu f) m = count cpu (inc_cell f) m.
Proof using Type.
  unfold incr_cell, has_cell, count, pmodify. case_bool_decide as Hc.
  - destruct Hc as [k Hk]. cbn. do 3 f_equal. apply list_alter_ext; [|done].
    intros k' Hk'. rewrite Hk' in *. by destruct f, k'.
  - cbn. do 2 f_equal. destruct m as [b r i c l]. unfold set_fw_stats; cbn in *. f_equal.
    rewrite (list_alter_ext _ id _ l), list_alter_id; [done|done| |done].
    intros k Hk. rewrite Hk in Hc. by destruct Hc.
Qed.

Lemma seq_drop_code m cpu : seq (drop_code (has_cell m cpu) cpu) m = drop_packet cpu m.
Proof using Type.
  unfold drop_code, drop_packet. rewrite seq_bind. unfold mbind, prog_bind.
  by rewrite seq_incr_cell.
Qed.

Lemma seq_pass_code m cpu : seq (pass_code (has_cell m cpu) cpu) m = pass_packet cpu m.
Proof using Type.
  unfold pass_code, pass_packet. rewrite seq_bind. unfold mbind, prog_bind.
  by rewrite seq_incr_cell.
Qed.

Lemma seq_block_code m a now : seq (block_code a now) m = blocklist_check a now m.
Proof using Type.
  unfold block_code, blocklist_check. rewrite seq_bind.
  unfold mbind, prog_bind, pget, pmodify. rewrite (seq_act exec (BlockLookup a)). cbn [exec].
  destruct (bpf_lookup (fw_blocklist m) a) as [e|]; [|done].
  by destruct ((e =? 0) || (now <=? e)).
Qed.

(** [m'] is [m], or differs from it in the entry of [a] only, which is [s]. *)
Record entry_is m a s m' : Prop := {
  ei_present : is_Some (bpf_lookup (fw_ip_stats m) a);
  ei_lookup : bpf_lookup (fw_ip_stats m') a = Some s;
  ei_store s' : set_ip_stats (bpf_write (fw_ip_stats m') a s') m' =
                set_ip_stats (bpf_write (fw_ip_stats m) a s') m;
}.

Lemma entry_is_first m a s : bpf_lookup (fw_ip_stats m) a = Some s -> entry_is m a s m.
Proof using Type. intros Hs. split; [by eexists|done..]. Qed.

Definition written m a s : kmaps := set_ip_stats (bpf_write (fw_ip_stats m) a s) m.

Lemma entry_is_written m a s :
  is_Some (bpf_lookup (fw_ip_stats m) a) -> entry_is m a s (written m a s).
Proof using Type*.
  intros [s0 Hs]. split; [by eexists| |]; unfold written, set_ip_stats;
    cbn [fw_ip_stats fw_blocklist fw_range_drop fw_config fw_stats].
  - by eapply bpf_write_eq.
  - intros s'. by rewrite bpf_write_write.
Qed.

Lemma seq_load {A} m a s m' f (k : Z -> code answer A) :
  entry_is m a s m' ->
  seq (x ← act (ans := answer) (EntryLoad a f); k x) m' = seq (k (get_field f s)) m'.
Proof using Type. intros [_ Hl _]. cbn -[bpf_lookup]. by rewrite Hl. Qed.

Lemma seq_store {A} m a s m' f v (k : code answer A) :
  entry_is m a s m' ->
  seq (_ ← act (ans := answer) (EntryStore a f v); k) m' = seq k (written m a (set_field f v s)).
Proof using Type. intros [_ Hl Hs]. cbn -[bpf_lookup]. by rewrite Hl, Hs. Qed.

Lemma seq_store_last m a s m' f v :
  entry_is m a s m' ->
  seq (act (ans := answer) (EntryStore a f v)) m' = Some (tt, written m a (set_field f v s)).
Proof using Type. intros [_ Hl Hs]. cbn -[bpf_lookup]. by rewrite Hl, Hs. Qed.

Lemma seq_roll_code m a s m' now :
  entry_is m a s m' ->
  exists m1, seq (roll_code a now) m' = Some (tt, m1) /\ entry_is m a (roll_window now s) m1.
Proof using Type*.
  intros He. pose proof (ei_present _ _ _ _ He) as Hp. unfold roll_code, roll_window.
  rewrite (seq_load _ _ _ _ _ _ He). cbn [get_field].
  destruct (WINDOW_NS <=? _); [|by exists m'].
  rewrite (seq_load _ _ _ _ _ _ He), (seq_store _ _ _ _ _ _ _ He).
  rewrite (seq_load _ _ _ _ _ _ (entry_is_written _ _ _ Hp)).
  do 6 rewrite (seq_store _ _ _ _ _ _ _ (entry_is_written _ _ _ Hp)).
  eexists. split; [apply (seq_store_last _ _ _ _ _ _ (entry_is_written _ _ _ Hp))|].
  destruct s. by apply entry_is_written.
Qed.

Lemma seq_add_field m a s m' f d :
  entry_is m a s m' ->
  seq (add_field a f d) m' = Some (tt, written m a (set_field f (u64 (get_field f s + d)) s)).
Proof using Type.
  intros He. unfold add_field. rewrite (seq_load _ _ _ _ _ _ He). by apply seq_store_last.
Qed.

Lemma seq_kind_code m a s k :
  is_Some (bpf_lookup (fw_ip_stats m) a) ->
  seq (kind_code a k) (written m a s) = Some (tt, written m a (
    if is_syn k then set_field Syn (u64 (syn s + 1)) s
    else if is_udp k then set_field Udp (u64 (udp s + 1)) s
    else if is_icmp k then set_field Icmp (u64 (icmp s + 1)) s else s)).
Proof using Type*.
  intros Hp. unfold kind_code. pose proof (entry_is_written m a s Hp) as He.
  destruct (is_syn k); [by rewrite (seq_add_field _ _ _ _ _ _ He)|].
  destruct (is_udp k); [by rewrite (seq_add_field _ _ _ _ _ _ He)|].
  destruct (is_icmp k); [by rewrite (seq_add_field _ _ _ _ _ _ He)|done].
Qed.

Lemma seq_rate_code m a s m' now :
  entry_is m a s m' -> seq (rate_code a now) m' = Some (sliding_rate now s, m').
Proof using Type. intros He. unfold rate_code. by rewrite !(seq_load _ _ _ _ _ _ He). Qed.

Lemma seq_record_code m a now len k : seq (record_code a now len k) m = record_stats a now len k m.
Proof using Type*.
  unfold record_code, record_stats.
  rewrite (seq_bind_Some _ _ _ _ (bool_decide (is_Some (bpf_lookup (fw_ip_stats m) a))) m) by done.
  rewrite pget_bind.
  destruct (bpf_lookup (fw_ip_stats m) a) as [s|] eqn:E.
  2:{ rewrite bool_decide_false by (by intros []). by rewrite pmodify_bind. }
  rewrite bool_decide_true by by eexists.
  assert (is_Some (bpf_lookup (fw_ip_stats m) a)) as Hp by by eexists.
  destruct (seq_roll_code m a s m now (entry_is_first _ _ _ E)) as (m1 & E1 & He1).
  erewrite seq_bind_Some by exact E1.
  erewrite seq_bind_Some by exact (seq_add_field _ _ _ _ _ _ He1).
  erewrite seq_bind_Some by exact (seq_add_field _ _ _ _ _ _ (entry_is_written _ _ _ Hp)).
  erewrite seq_bind_Some by by apply seq_kind_code.
  rewrite (seq_rate_code _ _ _ _ _ (entry_is_written _ _ _ Hp)).
  set (r := roll_window now s). assert (count_packet len k r = (
    let s := set_field Bytes (u64 (bytes r + len)) (set_field Packets (u64 (packets r + 1)) r) in
    if is_syn k then set_field Syn (u64 (syn s + 1)) s
    else if is_udp k then set_field Udp (u64 (udp s + 1)) s
    else if is_icmp k then set_field Icmp (u64 (icmp s + 1)) s else s)) as ->.
  { unfold count_packet. destruct r; simpl. by destruct (is_syn k), (is_udp k), (is_icmp k). }
  by destruct r.
Qed.

(** Accesses that leave the counters' cells in place. *)
Lemma count_has_cell m cpu f m' : count cpu f m = Some (tt, m') -> has_cell m' cpu = has_cell m cpu.
Proof using Type.
  intros [= <-]. unfold has_cell; cbn [set_fw_stats fw_stats].
  rewrite list_lookup_alter, decide_True by done. by destruct (fw_stats m !! cpu).
Qed.

Lemma blocklist_check_stats m a now b m' :
  blocklist_check a now m = Some (b, m') -> fw_stats m' = fw_stats m.
Proof using Type.
  unfold blocklist_check. rewrite pget_bind. case_match; [case_match|].
  1,3: by intros [= <- <-].
  rewrite pmodify_bind. intros [= <- <-]. by case_match.
Qed.

Lemma record_stats_stats m a now len k r m' :
  record_stats a now len k m = Some (r, m') -> fw_stats m' = fw_stats m.
Proof using Type.
  unfold record_stats. rewrite pget_bind. case_match; rewrite pmodify_bind; intros [= <- <-].
  - done.
  - by case_match.
Qed.

Lemma seq_bind_prog {A B} (c : code answer A) (p : prog kmaps A) (f : A -> code answer B)
    (g : A -> prog kmaps B) m :
  seq c m = p m -> (forall x m', p m = Some (x, m') -> seq (f x) m' = g x m') ->
  seq (c ≫= f) m = (p ≫= g) m.
Proof using Type.
  intros Hc Hf. rewrite seq_bind. unfold mbind, prog_bind. rewrite Hc.
  destruct (p m) as [[x m']|] eqn:E; [|done]. by apply Hf.
Qed.

Lemma seq_limit_code m cpu pkt a now len :
  seq (limit_code (has_cell m cpu) cpu pkt a now len) m =
  (k ← plift (classify pkt); rate ← record_stats a now len k; pps ← cfg CFG_PPS;
   if (0 <? pps) && (pps <? rate) then drop_packet cpu else pass_packet cpu) m.
Proof using Type*.
  unfold limit_code. apply seq_bind_prog; [apply seq_clift|].
  intros k m1 E1. assert (m1 = m) as ->.
  { unfold plift in E1. destruct (classify pkt); by simplify_eq/=. }
  apply seq_bind_prog; [apply seq_record_code|]. intros rate m1 E2%record_stats_stats.
  apply seq_bind_prog; [done|]. intros pps m2 [= _ <-].
  assert (has_cell m cpu = has_cell m1 cpu) as -> by (unfold has_cell; by rewrite E2).
  case_match; [apply seq_drop_code|apply seq_pass_code].
Qed.

(** *** The properties *)

(** C17. The program in accesses is the program of [FwProg] when nothing runs
  beside it: the same verdict and the same maps, or the same fault, for every
  frame, processor, time and state. *)
Theorem fw_code_alone pkt cpu now m : seq (fw_code pkt cpu now) m = fw_prog pkt cpu now m.
Proof using Type*.
  unfold fw_code, fw_prog. destruct (Z.of_nat (length pkt) <? 14); [done|].
  rewrite (seq_bind_Some _ _ _ _ (has_cell m cpu) m) by done.
  apply seq_bind_prog; [apply seq_incr_cell|]. intros [] m1 <-%count_has_cell.
  apply seq_bind_prog; [apply seq_clift|]. intros h m2 E2.
  assert (m2 = m1) as ->.
  { unfold plift in E2. destruct (load_int 2 pkt 12); by simplify_eq/=. }
  destruct (negb _); [apply seq_pass_code|].
  destruct (_ <? 34); [apply seq_drop_code|].
  apply seq_bind_prog; [done|]. intros e m2 [= _ <-].
  destruct (e =? 0); [apply seq_pass_code|].
  apply seq_bind_prog; [apply seq_clift|]. intros src m2 E3.
  assert (m2 = m1) as ->.
  { unfold plift in E3. destruct (load_int 4 pkt 26); by simplify_eq/=. }
  unfold filter_code. apply seq_bind_prog; [apply seq_block_code|].
  intros b m2 E4%blocklist_check_stats.
  assert (has_cell m1 cpu = has_cell m2 cpu) as -> by (unfold has_cell; by rewrite E4).
  destruct b; [apply seq_drop_code|].
  apply seq_bind_prog; [done|]. intros r m3 [= _ <-].
  destruct r; [apply seq_drop_code|apply seq_limit_code].
Qed.
End Alone.

(** ** The shape of the program *)

(** The accesses of a frame of source [a] on processor [cpu] from the
    classification on, from the blocklist on, and all of them. *)
Definition limit_op (cpu : nat) (a : Z) (o : op) : Prop :=
  match o with
  | StatLoad c _ | StatStore c _ _ => c = cpu
  | CfgLoad _ => True
  | EntryLookup b | EntryLoad b _ | EntryStore b _ _ | EntryUpdate b _ => b = a
  | _ => False
  end.

Definition filter_op (cpu : nat) (a : Z) (o : op) : Prop :=
  match o with
  | BlockLookup b | BlockDelete b | RangeLookup b => b = a
  | _ => limit_op cpu a o
  end.

Definition frame_op (cpu : nat) (a : Z) (o : op) : Prop :=
  match o with StatLookup c => c = cpu | _ => filter_op cpu a o end.

Lemma limit_filter_op cpu a o : limit_op cpu a o -> filter_op cpu a o.
Proof. by destruct o. Qed.
Lemma filter_frame_op cpu a o : filter_op cpu a o -> frame_op cpu a o.
Proof. by destruct o. Qed.

(** Follow the program and check each access. *)
Ltac shape := repeat first [apply all_ops_bind; [|intros ?] | apply all_ops_act; done
                           | case_match | done | exact I].

Section Shape.
Context `{Endian}.
Implicit Types (a : Z) (cpu : nat).

Lemma incr_cell_ops c cpu a f : all_ops (limit_op cpu a) (incr_cell c cpu f).
Proof using Type. unfold incr_cell. shape. Qed.

Lemma drop_code_ops c cpu a : all_ops (limit_op cpu a) (drop_code c cpu).
Proof using Type. unfold drop_code, incr_cell. shape. Qed.

Lemma pass_code_ops c cpu a : all_ops (limit_op cpu a) (pass_code c cpu).
Proof using Type. unfold pass_code, incr_cell. shape. Qed.

Lemma record_code_ops cpu a now len k : all_ops (limit_op cpu a) (record_code a now len k).
Proof using Type.
  unfold record_code, roll_code, kind_code, add_field, rate_code. shape.
Qed.

Lemma limit_code_ops c cpu pkt a now len :
  34 <= frame_len pkt -> all_ops (limit_op cpu a) (limit_code c cpu pkt a now len).
Proof using Type.
  intros Hl. unfold limit_code. rewrite classify_kind by done.
  apply all_ops_bind; [exact I|]. intros k.
  apply all_ops_bind; [apply record_code_ops|]. intros rate.
  apply all_ops_bind; [by apply all_ops_act|]. intros pps.
  case_match; [apply drop_code_ops|apply pass_code_ops].
Qed.
Lemma block_code_ops cpu a now : all_ops (filter_op cpu a) (block_code a now).
Proof using Type. unfold block_code. shape. Qed.

Lemma filter_code_ops c cpu pkt a now len :
  34 <= frame_len pkt -> all_ops (filter_op cpu a) (filter_code c cpu pkt a now len).
Proof using Type.
  intros Hl. unfold filter_code. apply all_ops_bind; [apply block_code_ops|]. intros b.
  destruct b; [eapply all_ops_mono, drop_code_ops; apply limit_filter_op|].
  apply all_ops_bind; [by apply all_ops_act|]. intros r.
  eapply all_ops_mono; [apply limit_filter_op|].
  destruct r; [apply drop_code_ops|by apply limit_code_ops].
Qed.

(** The loads from the frame are inside it. *)
Lemma frame_loads pkt :
  (14 <= frame_len pkt -> load_int 2 pkt 12 = Some (host_int (sub pkt 12 2))) /\
  (34 <= frame_len pkt -> load_int 4 pkt 26 = Some (src_of pkt)).
Proof using Type. unfold frame_len. split; intros; apply load_int_Some; lia. Qed.

(** The program once the counters are looked up. *)
Definition rest_code (c : bool) (pkt : list Z) (cpu : nat) (now : Z) : code answer xdp_action :=
  h_proto ← clift (load_int 2 pkt 12);
  if negb (h_proto =? htons ETH_P_IP) then pass_code c cpu else
  if Z.of_nat (length pkt) <? 34 then drop_code c cpu else
  enabled ← act (CfgLoad CFG_ENABLED);
  if enabled =? 0 then pass_code c cpu else
  src ← clift (load_int 4 pkt 26);
  filter_code c cpu pkt src now (u32 (Z.of_nat (length pkt))).

Lemma fw_code_rest pkt cpu now :
  fw_code pkt cpu now =
  if frame_len pkt <? 14 then mret XDP_DROP else
  c ← act (StatLookup cpu); _ ← incr_cell c cpu Rx; rest_code c pkt cpu now.
Proof using Type. done. Qed.

Lemma rest_code_ops c pkt cpu now :
  14 <= frame_len pkt -> all_ops (filter_op cpu (src_of pkt)) (rest_code c pkt cpu now).
Proof using Type.
  intros Hl. unfold rest_code. destruct (frame_loads pkt) as [L1 L2].
  rewrite L1 by done. apply all_ops_bind; [exact I|]. intros h.
  destruct (negb _); [eapply all_ops_mono, pass_code_ops; apply limit_filter_op|].
  change (Z.of_nat (length pkt)) with (frame_len pkt).
  case_bool; [eapply all_ops_mono, drop_code_ops; apply limit_filter_op|].
  apply all_ops_bind; [by apply all_ops_act|]. intros e.
  destruct (e =? 0); [eapply all_ops_mono, pass_code_ops; apply limit_filter_op|].
  rewrite L2 by done. by apply filter_code_ops.
Qed.

Lemma fw_code_ops pkt cpu now : all_ops (frame_op cpu (src_of pkt)) (fw_code pkt cpu now).
Proof using Type.
  rewrite fw_code_rest. case_bool; [exact I|].
  apply all_ops_bind; [by apply all_ops_act|]. intros c.
  eapply all_ops_mono; [apply filter_frame_op|].
  apply all_ops_bind; [eapply all_ops_mono, incr_cell_ops; apply limit_filter_op|].
  intros _. by apply rest_code_ops.
Qed.

(** *** How many accesses *)

Lemma incr_cell_steps c cpu f : steps_le 2 (incr_cell c cpu f).
Proof using Type. unfold incr_cell. by destruct c. Qed.

Lemma verdict_steps (v : xdp_action) c cpu f :
  steps_le 2 (_ ← incr_cell c cpu f; mret v).
Proof using Type. apply (steps_le_bind 2 0); [apply incr_cell_steps|done]. Qed.

Lemma record_code_steps a now len k : steps_le 21 (record_code a now len k).
Proof using Type.
  unfold record_code. apply (steps_le_bind 1 20); [done|]. intros [|]; [|done].
  apply (steps_le_bind 11 9).
  { unfold roll_code. apply (steps_le_bind 1 10); [done|]. intros ws. by destruct (_ <=? _). }
  intros _. apply (steps_le_bind 2 7); [done|]. intros _.
  apply (steps_le_bind 2 5); [done|]. intros _. apply (steps_le_bind 2 3); [|done].
  unfold kind_code. by destruct (is_syn k), (is_udp k), (is_icmp k).
Qed.

Lemma filter_code_steps c cpu pkt a now len : steps_le 27 (filter_code c cpu pkt a now len).
Proof using Type.
  unfold filter_code. apply (steps_le_bind 2 25).
  { unfold block_code. apply (steps_le_bind 1 1); [done|]. intros [e|]; [|done]. by destruct (_ || _). }
  intros [|]; [eapply steps_le_weaken, verdict_steps; lia|].
  apply (steps_le_bind 1 24); [done|]. intros [|]; [eapply steps_le_weaken, verdict_steps; lia|].
  unfold limit_code. apply (steps_le_bind 0 24); [by destruct (classify pkt)|]. intros k.
  apply (steps_le_bind 21 3); [apply record_code_steps|]. intros r.
  apply (steps_le_bind 1 2); [done|]. intros pps. by destruct (_ && _); apply verdict_steps.
Qed.

Lemma fw_code_steps pkt cpu now : steps_le 31 (fw_code pkt cpu now).
Proof using Type.
  rewrite fw_code_rest. destruct (_ <? _); [done|].
  apply (steps_le_bind 1 30); [done|]. intros c.
  apply (steps_le_bind 2 28); [apply incr_cell_steps|]. intros _.
  unfold rest_code. apply (steps_le_bind 0 28); [by destruct (load_int 2 pkt 12)|]. intros h.
  destruct (negb _); [eapply steps_le_weaken, verdict_steps; lia|].
  destruct (_ <? _); [eapply steps_le_weaken, verdict_steps; lia|].
  apply (steps_le_bind 1 27); [done|]. intros e.
  destruct (_ =? _); [eapply steps_le_weaken, verdict_steps; lia|].
  apply (steps_le_bind 0 27); [by destruct (load_int 4 pkt 26)|]. intros a.
  apply filter_code_steps.
Qed.
End Shape.

Lemma fw_code_alone_witness :
  let _ := little in seq exec (fw_code udp_frame 0 7) demo_st = fw_prog udp_frame 0 7 demo_st.
Proof. intros en. exact (fw_code_alone udp_frame 0 7 demo_st). Defined.
