(* ===== verification/CStrings.v ===== *)
(** * The C string functions the command line goes through

    [strtol], [strtoull] and the one [sscanf] format of [wall/fw.cpp], from
    the C standard. A C string is a [string] (it holds no NUL). A conversion
    whose value the target type cannot hold is undefined for [sscanf]
    ([None]); [strtol] and [strtoull] clamp. *)

From Stdlib Require Export Ascii.
From stdpp Require Export pretty.
From S2P Require Import Prelude.

Definition is_space (c : ascii) : bool :=
  let n := N_of_ascii c in ((n =? 32) || ((9 <=? n) && (n <=? 13)))%N.

Definition digit (c : ascii) : option Z :=
  let n := Z.of_N (N_of_ascii c) in
  if (48 <=? n) && (n <=? 57) then Some (n - 48) else None.

Fixpoint skip_space (s : string) : string :=
  match s with
  | String c s' => if is_space c then skip_space s' else s
  | EmptyString => s
  end.

(** The value of the longest run of digits at the head of [s], after [acc];
    [None] when there is no digit at all. *)
Fixpoint digits_from (acc : Z) (s : string) : Z :=
  match s with
  | String c s' =>
      match digit c with
      | Some d => digits_from (acc * 10 + d) s'
      | None => acc
      end
  | EmptyString => acc
  end.

Definition digits (s : string) : option Z :=
  match s with
  | String c _ => match digit c with Some _ => Some (digits_from 0 s) | None => None end
  | EmptyString => None
  end.

(** White space, an optional sign, then digits: (negative?, magnitude). *)
Definition scan_int (s : string) : option (bool * Z) :=
  match skip_space s with
  | String "-" s' => (fun v => (true, v)) <$> digits s'
  | String "+" s' => (fun v => (false, v)) <$> digits s'
  | s' => (fun v => (false, v)) <$> digits s'
  end.

Definition LONG_MAX : Z := 2 ^ 63 - 1.
Definition LONG_MIN : Z := - 2 ^ 63.
Definition ULLONG_MAX : Z := 2 ^ 64 - 1.

(** strtol(s, nullptr, 10), for a 64-bit long. *)
Definition strtol (s : string) : Z :=
  match scan_int s with
  | Some (neg, v) => Z.max LONG_MIN (Z.min LONG_MAX (if neg : bool then - v else v))
  | None => 0
  end.

(** strtoull(s, nullptr, 10): a minus sign negates in the unsigned type. *)
Definition strtoull (s : string) : Z :=
  match scan_int s with
  | Some (neg, v) =>
      if ULLONG_MAX <? v then ULLONG_MAX else if neg : bool then u64 (- v) else v
  | None => 0
  end.

(** The characters up to the first '/', at most [n] of them, and the rest. *)
Fixpoint scan_set (n : nat) (s : string) : string * string :=
  match n, s with
  | S n, String c s' =>
      if ascii_dec c "/" then ("", s)
      else let '(a, r) := scan_set n s' in (String c a, r)
  | _, _ => ("", s)
  end.

(** sscanf(s, "%63[^/]/%d", ipstr, &pfx): [None] when the number does not fit
    an int; otherwise the number of conversions made and the two results
    ([pfx] keeps its old value when it was not converted). *)
Definition sscanf_cidr (s : string) (pfx : Z) : option (nat * string * Z) :=
  let '(ipstr, rest) := scan_set 63 s in
  if decide (ipstr = "") then Some (0%nat, "", pfx)
  else match rest with
  | String "/" rest =>
      match scan_int rest with
      | Some (neg, v) =>
          let v := if neg : bool then - v else v in
          if (- 2 ^ 31 <=? v) && (v <? 2 ^ 31) then Some (2%nat, ipstr, v) else None
      | None => Some (1%nat, ipstr, pfx)
      end
  | _ => Some (1%nat, ipstr, pfx)
  end.

(** ** Decimal numbers read back *)

Lemma digit_pretty x : (x < 10)%N -> digit (pretty_N_char x) = Some (Z.of_N x).
Proof.
  intros Hx.
  assert (x ∈ [0;1;2;3;4;5;6;7;8;9]%N) as Hin.
  { destruct (decide (x ∈ [0;1;2;3;4;5;6;7;8;9]%N)); [done|]. set_solver by lia. }
  repeat (apply elem_of_cons in Hin as [->|Hin]; [done|]). by apply not_elem_of_nil in Hin.
Qed.

(** Every character of [s] is a digit. *)
Fixpoint all_digits (s : string) : Prop :=
  match s with
  | String c s => is_Some (digit c) /\ all_digits s
  | EmptyString => True
  end.

Lemma pretty_N_go_digits x s :
  all_digits s ->
  all_digits (pretty_N_go x s) /\
  digits_from 0 (pretty_N_go x s) = digits_from (Z.of_N x) s.
Proof.
  revert s. induction (N.lt_wf_0 x) as [x _ IH]; intros s Hs.
  destruct (decide (x = 0%N)) as [->|Hx].
  { by rewrite pretty_N_go_0. }
  rewrite pretty_N_go_step by lia.
  assert (digit (pretty_N_char (x `mod` 10)) = Some (Z.of_N (x `mod` 10))) as Hd
    by (apply digit_pretty; apply N.mod_lt; lia).
  destruct (IH (x `div` 10)%N ltac:(apply N.div_lt; lia)
    (String (pretty_N_char (x `mod` 10)) s)) as [H1 H2].
  { split; [by eexists|done]. }
  split; [done|]. rewrite H2. cbn [digits_from]. rewrite Hd. f_equal.
  rewrite N2Z.inj_div, N2Z.inj_mod. Z.div_mod_to_equations. lia.
Qed.

Lemma pretty_N_digits n :
  all_digits (pretty n) /\ digits_from 0 (pretty n) = Z.of_N n /\ pretty n <> "".
Proof.
  unfold pretty, pretty_N. case_decide as E; [by subst|].
  destruct (pretty_N_go_digits n "" I) as [H1 H2]. split; [done|]. split; [done|].
  intros E'. rewrite E' in H2. simpl in H2. lia.
Qed.

Lemma scan_int_digits s : all_digits s -> s <> "" -> scan_int s = Some (false, digits_from 0 s).
Proof.
  destruct s as [|c s]; [done|]. intros [[d Hd] Hs] _.
  assert (is_space c = false /\ c <> "-"%char /\ c <> "+"%char) as (Hsp & Hm & Hp).
  { destruct c as [[] [] [] [] [] [] [] []]; done. }
  unfold scan_int. cbn [skip_space]. rewrite Hsp.
  assert (digits (String c s) = Some (digits_from 0 (String c s))) as E.
  { unfold digits. by rewrite Hd. }
  destruct c as [[] [] [] [] [] [] [] []]; try done; by rewrite E.
Qed.

(** A decimal numeral reads back as its value. *)
Lemma scan_int_pretty n : scan_int (pretty n) = Some (false, Z.of_N n).
Proof.
  destruct (pretty_N_digits n) as (H1 & H2 & H3). by rewrite scan_int_digits, H2.
Qed.

(** The result is in the range of its type. *)
Lemma digits_nonneg s v : digits s = Some v -> 0 <= v.
Proof.
  assert (forall s acc, 0 <= acc -> 0 <= digits_from acc s) as Hd.
  { clear. induction s as [|c s IH]; simpl; intros acc Ha; [done|].
    destruct (digit c) as [d|] eqn:E; [|done]. apply IH.
    unfold digit in E. case_match; simplify_eq. lia. }
  destruct s as [|c s]; simpl; [done|]. destruct (digit c) eqn:E; [|done].
  intros [= <-]. pose proof (Hd (String c s) 0 ltac:(lia)) as H. simpl in H. by rewrite E in H.
Qed.

Lemma scan_int_nonneg s neg v : scan_int s = Some (neg, v) -> 0 <= v.
Proof.
  unfold scan_int. intros H.
  repeat case_match; apply fmap_Some in H as (x & Hx & [= _ ->]); by eapply digits_nonneg.
Qed.

Lemma strtoull_range s : uint_ok 64 (strtoull s).
Proof.
  unfold strtoull. destruct (scan_int s) as [[neg v]|] eqn:E; [|unfold uint_ok; lia].
  apply scan_int_nonneg in E. unfold ULLONG_MAX. case_bool; [unfold uint_ok; lia|].
  destruct neg; [apply wrap_range; lia|unfold uint_ok; lia].
Qed.

Lemma strtoull_pretty n : Z.of_N n <= ULLONG_MAX -> strtoull (pretty n) = Z.of_N n.
Proof.
  intros H. unfold strtoull. rewrite scan_int_pretty.
  by rewrite (proj2 (Z.ltb_ge _ _)) by done.
Qed.

Lemma strtol_pretty n : Z.of_N n <= LONG_MAX -> strtol (pretty n) = Z.of_N n.
Proof. intros H. unfold strtol. rewrite scan_int_pretty. unfold LONG_MIN, LONG_MAX in *. lia. Qed.

(** No character of [s] is a slash. *)
Fixpoint no_slash (s : string) : Prop :=
  match s with
  | String c s => c <> "/"%char /\ no_slash s
  | EmptyString => True
  end.

Lemma scan_set_no_slash n s r :
  no_slash s -> (String.length s <= n)%nat ->
  r = "" \/ (exists r', r = String "/" r') ->
  scan_set n (s +:+ r) = (s, r).
Proof.
  revert n. induction s as [|c s IH]; intros n Hs Hl Hr.
  - simpl. destruct Hr as [->|[r' ->]]; destruct n; done.
  - destruct Hs as [Hc Hs]. simpl in Hl. destruct n as [|n]; [lia|].
    change (String c s +:+ r) with (String c (s +:+ r)). cbn [scan_set].
    destruct (ascii_dec c "/"); [done|]. rewrite IH by (done || lia). done.
Qed.

Lemma sscanf_cidr_pretty ip n :
  no_slash ip -> (1 <= String.length ip <= 63)%nat -> Z.of_N n < 2 ^ 31 ->
  sscanf_cidr (ip +:+ String "/" (pretty n)) 32 = Some (2%nat, ip, Z.of_N n).
Proof.
  intros Hs Hl Hn. unfold sscanf_cidr. rewrite scan_set_no_slash by (eauto || lia).
  rewrite decide_False by (intros ->; simpl in Hl; lia).
  rewrite scan_int_pretty.
  rewrite (proj2 (Z.leb_le _ _)) by lia. by rewrite (proj2 (Z.ltb_lt _ _)) by lia.
Qed.

Lemma string_app_nil_r s : s +:+ "" = s.
Proof. induction s as [|c s IH]; [done|]. by change (String c (s +:+ "") = String c s); rewrite IH. Qed.

Lemma sscanf_cidr_plain ip :
  no_slash ip -> (1 <= String.length ip <= 63)%nat ->
  sscanf_cidr ip 32 = Some (1%nat, ip, 32).
Proof.
  intros Hs Hl. unfold sscanf_cidr.
  pose proof (scan_set_no_slash 63 ip "" Hs ltac:(lia) ltac:(by left)) as E.
  rewrite string_app_nil_r in E. rewrite E.
  by rewrite decide_False by (intros ->; simpl in Hl; lia).
Qed.
