(* ===== verification/Detector.v ===== *)
(** * Detector plugins, [wall/detector.hpp] and [wall/detector.cpp]

    A detector is a [Detector]: a name and a predicate on one source's
    statistics. The registry is the list of the registered detectors, in the
    order of registration. [IpStats] is the C++ view of the map value that
    [fw_prog.c] writes as [struct ip_stats]: the two are connected by their
    bytes. *)

From S2P Require Import Prelude FwProg FwSpec FwTrace.

Module Det.

(** struct IpStats *)
Record IpStats := mkIpStats {
  window_start : Z;
  prev_packets : Z;
  packets : Z;
  prev_bytes : Z;
  bytes : Z;
  syn : Z;
  udp : Z;
  icmp : Z;
}.

(** class Detector *)
Record Detector := mkDetector {
  name : string;
  match_ : Z -> IpStats -> bool;
}.

(** ** The built-in detectors *)

Definition RateDetector : Detector := {|
  name := "rate";
  match_ _ s := 10000 <? packets s;
|}.

Definition SynFloodDetector : Detector := {|
  name := "synflood";
  match_ _ s := (50 <? packets s) && (u64 (packets s * 8) <? u64 (syn s * 10));
|}.

Definition UdpFloodDetector : Detector := {|
  name := "udpflood";
  match_ _ s := 5000 <? udp s;
|}.

Definition IcmpFloodDetector : Detector := {|
  name := "icmpflood";
  match_ _ s := 1000 <? icmp s;
|}.

(** ** The registry *)

(** class DetectorRegistry: its state is [detectors_]. *)
Definition registry : Type := list Detector.

(** DetectorRegistry::add *)
Definition add (d : Detector) (detectors_ : registry) : registry := detectors_ ++ [d].

(** DetectorRegistry::all *)
Definition all (detectors_ : registry) : list Detector := detectors_.

(** REGISTER_DETECTOR: the constructor of the static registrar. *)
Definition REGISTER_DETECTOR (detectors_ : registry) (d : Detector) : registry :=
  add d detectors_.

(** The registry once the static objects of [detector.cpp] are built: within a
  translation unit they are initialised in the order of their definitions,
  and [DetectorRegistry::get] builds the empty registry at its first call. *)
Definition builtin : registry :=
  foldl REGISTER_DETECTOR []
  [RateDetector; SynFloodDetector; UdpFloodDetector; IcmpFloodDetector].

(** The loop of cmd_watch over the detectors: the first that matches. *)
Fixpoint first_match (ip : Z) (s : IpStats) (ds : list Detector) : option Detector :=
  match ds with
  | [] => None
  | d :: ds => if match_ d ip s then Some d else first_match ip s ds
  end.

(** ** The shared layout *)

Section Layout.
Context `{Endian}.

(** The 64 bytes of a map value, as fw_prog.c lays out struct ip_stats. *)
Definition ip_stats_bytes (s : ip_stats) : list Z :=
  struct_bytes 8 [FwProg.window_start s; FwProg.prev_packets s; FwProg.packets s;
                FwProg.prev_bytes s; FwProg.bytes s; FwProg.syn s; FwProg.udp s;
                FwProg.icmp s].

(** What detector.hpp's struct IpStats makes of the bytes copied into it. *)
Definition read_IpStats (m : list Z) : option IpStats :=
  ws ← struct_field 8 m 0;
  pp ← struct_field 8 m 1;
  p ← struct_field 8 m 2;
  pb ← struct_field 8 m 3;
  b ← struct_field 8 m 4;
  s ← struct_field 8 m 5;
  u ← struct_field 8 m 6;
  i ← struct_field 8 m 7;
  Some (mkIpStats ws pp p pb b s u i).

(** The same statistics, on the C++ side. *)
Definition view (s : ip_stats) : IpStats :=
  mkIpStats (FwProg.window_start s) (FwProg.prev_packets s) (FwProg.packets s)
  (FwProg.prev_bytes s) (FwProg.bytes s) (FwProg.syn s) (FwProg.udp s) (FwProg.icmp s).

(** Every field is a __u64. *)
Definition fields_u64 (s : ip_stats) : Prop :=
  uint_ok 64 (FwProg.window_start s) /\ uint_ok 64 (FwProg.prev_packets s) /\
  uint_ok 64 (FwProg.packets s) /\ uint_ok 64 (FwProg.prev_bytes s) /\
  uint_ok 64 (FwProg.bytes s) /\ uint_ok 64 (FwProg.syn s) /\
  uint_ok 64 (FwProg.udp s) /\ uint_ok 64 (FwProg.icmp s).

Lemma read_IpStats_bytes s : fields_u64 s -> read_IpStats (ip_stats_bytes s) = Some (view s).
Proof using Type.
  intros (? & ? & ? & ? & ? & ? & ? & ?). unfold read_IpStats, ip_stats_bytes.
  repeat (erewrite struct_field_bytes; [|reflexivity|assumption]; cbn [mbind option_bind]).
  done.
Qed.

(** A value of the map can be read whatever it holds. *)
Lemma read_IpStats_total s : is_Some (read_IpStats (ip_stats_bytes s)).
Proof using Type.
  unfold read_IpStats, ip_stats_bytes.
  repeat (erewrite struct_field_wrap by reflexivity; cbn [mbind option_bind]). done.
Qed.
End Layout.

(** ** What the built-in detectors catch *)

(** The traffic the comments and the README describe. *)
Definition rate_abuse (s : IpStats) : Prop := 10000 < packets s.
Definition syn_flood (s : IpStats) : Prop :=
  50 < packets s /\ 10 * syn s > 8 * packets s.
Definition udp_flood (s : IpStats) : Prop := 5000 < udp s.
Definition icmp_flood (s : IpStats) : Prop := 1000 < icmp s.

#[global] Instance rate_abuse_dec s : Decision (rate_abuse s).
Proof. unfold rate_abuse. apply _. Defined.
#[global] Instance syn_flood_dec s : Decision (syn_flood s).
Proof. unfold syn_flood. apply and_dec; [apply _|apply Z_gt_dec]. Defined.
#[global] Instance udp_flood_dec s : Decision (udp_flood s).
Proof. unfold udp_flood. apply _. Defined.
#[global] Instance icmp_flood_dec s : Decision (icmp_flood s).
Proof. unfold icmp_flood. apply _. Defined.

Lemma first_match_Some ip s ds d :
  first_match ip s ds = Some d <->
  exists l1 l2, ds = l1 ++ d :: l2 /\ match_ d ip s = true /\
  Forall (fun d' => match_ d' ip s = false) l1.
Proof.
  induction ds as [|d' ds IH]; cbn [first_match].
  - split; [done|]. by intros ([] & ? & ? & _).
  - destruct (match_ d' ip s) eqn:E.
    + split.
      * intros [= <-]. by exists [], ds.
      * intros ([|d1 l1] & l2 & [= -> ->] & Hm & Hf); [done|].
        apply Forall_cons in Hf as [Hf _]. congruence.
    + rewrite IH. split.
      * intros (l1 & l2 & -> & Hm & Hf). exists (d' :: l1), l2. auto.
      * intros ([|d1 l1] & l2 & [= -> ->] & Hm & Hf); [congruence|].
        apply Forall_cons in Hf as [_ Hf]. eauto.
Qed.

Lemma first_match_None ip s ds :
  first_match ip s ds = None <-> Forall (fun d => match_ d ip s = false) ds.
Proof.
  induction ds as [|d ds IH]; cbn [first_match]; [done|]. rewrite Forall_cons.
  destruct (match_ d ip s); [split; [done|by intros []]|]. rewrite IH. naive_solver.
Qed.

Lemma SynFlood_exact ip s :
  0 <= packets s < 2 ^ 60 -> 0 <= syn s < 2 ^ 60 ->
  match_ SynFloodDetector ip s = true <-> syn_flood s.
Proof.
  intros Hp Hs. cbn [match_ SynFloodDetector]. unfold syn_flood, u64.
  rewrite !wrap_small by (unfold uint_ok; lia).
  rewrite andb_true_iff, !Z.ltb_lt. lia.
Qed.

(** The detector a source's statistics fall to: the first rule that applies,
  in the order of [detector.cpp]. *)
Definition expected (s : IpStats) : option string :=
  if decide (rate_abuse s) then Some "rate"
  else if decide (syn_flood s) then Some "synflood"
  else if decide (udp_flood s) then Some "udpflood"
  else if decide (icmp_flood s) then Some "icmpflood"
  else None.

Lemma expected_match n ip s :
  entry_wf n s -> n < 2 ^ 60 -> name <$> first_match ip (view s) (all builtin) = expected (view s).
Proof.
  intros (Hp & _ & Hsyn & Hudp & Hicmp & Hsum) Hn.
  pose proof (SynFlood_exact ip (view s) ltac:(simpl; lia) ltac:(simpl; lia)) as Hx.
  unfold expected.
  change (all builtin) with
    [RateDetector; SynFloodDetector; UdpFloodDetector; IcmpFloodDetector].
  cbn [first_match].
  unfold rate_abuse, udp_flood, icmp_flood.
  destruct (match_ SynFloodDetector ip (view s)) eqn:Es;
    cbn [match_ RateDetector UdpFloodDetector IcmpFloodDetector];
    repeat case_decide; repeat case_bool; naive_solver lia.
Qed.
End Det.

Section DetectorProps.
Context `{Endian}.

(** C28. The structure that the control plane copies a map value into has the
  data plane's layout: for every entry of 64-bit fields, each C++ field
  holds the value of the C field of the same name. *)
Theorem ip_stats_layout s :
  Det.fields_u64 s ->
  length (Det.ip_stats_bytes s) = 64%nat /\
  Det.read_IpStats (Det.ip_stats_bytes s) = Some (Det.view s).
Proof using Type.
  intros Hs. split; [|by apply Det.read_IpStats_bytes].
  unfold Det.ip_stats_bytes, struct_bytes. cbn [fmap list_fmap concat].
  by rewrite !length_app, !length_host_bytes.
Qed.

(** C21. On every entry the data plane can produce in fewer than 2^60 frames,
  the registered detectors find exactly the traffic they describe (more than
  10000 packets in the window; more than 50 packets of which over 80% carry
  SYN; more than 5000 UDP packets; more than 1000 ICMP packets), and the
  first of those rules gives the ban its name. The products of the SYN rule
  do not wrap. *)
Theorem builtin_detectors_exact n ip s :
  entry_wf n s -> n < 2 ^ 60 ->
  Det.name <$> Det.first_match ip (Det.view s) (Det.all Det.builtin) =
  Det.expected (Det.view s).
Proof using Type.
  apply Det.expected_match.
Qed.
End DetectorProps.

(** *** Witnesses *)

(** A source that has sent 60 packets, 50 of them SYNs. *)
Definition demo_syn : ip_stats := FwProg.IpStats 0 0 60 0 6000 50 0 0.

Lemma ip_stats_layout_witness :
  let _ := little in
  length (Det.ip_stats_bytes demo_syn) = 64%nat /\
  Det.read_IpStats (Det.ip_stats_bytes demo_syn) = Some (Det.view demo_syn).
Proof.
  intros en. apply (ip_stats_layout demo_syn).
  repeat split; vm_compute; discriminate || reflexivity.
Defined.

Lemma builtin_detectors_exact_witness :
  Det.name <$> Det.first_match demo_src (Det.view demo_syn) (Det.all Det.builtin)
    = Some "synflood".
Proof.
  rewrite (builtin_detectors_exact 60 demo_src demo_syn).
  - reflexivity.
  - unfold entry_wf. simpl. lia.
  - lia.
Defined.
