(* ===== verification/FwCtl.v ===== *)
(** * The control plane, [wall/fw.cpp]

    Every command of the binary is a program over [world]: the files pinned
    under [PIN_DIR], the kernel maps behind them, the XDP attachment, and the
    text printed so far (a [line] per message, without the newline or carriage
    return before or after it). An exit code is a [Z]; [None] is no result:
    undefined behaviour of the C library, or a scan of [watch] that goes on.

    Outside the repository, hence parameters: [inet_pton] and [inet_ntop], the
    monotonic clock ([clock n] is the timespec of its [n]-th reading), and for
    [start] and [watch] the answers of the system ([sys_env]). *)

From S2P Require Import Prelude BpfMaps FwProg FwSpec FwTrace CStrings Detector.
#[local] Open Scope Z_scope.

Definition PIN_DIR : string := "/sys/fs/bpf/falconwall".

Definition MAP_BLOCK : string := "fw_blocklist".
Definition MAP_RANGE : string := "fw_range_drop".
Definition MAP_IPSTATS : string := "fw_ip_stats".
Definition MAP_CONFIG : string := "fw_config".
Definition MAP_STATS : string := "fw_stats".

Definition MAP_NAMES : list string := [MAP_BLOCK; MAP_RANGE; MAP_IPSTATS; MAP_CONFIG; MAP_STATS].

Definition pin_path (name : string) : string := PIN_DIR +:+ "/" +:+ name.

(** A message: on stdout, on stderr, or on stderr followed by
    [strerror(errno)]. *)
Inductive line := Out (s : string) | Err (s : string) | ErrErrno (s : string).

Inductive xdp_mode := DRV_MODE | SKB_MODE.
#[global] Instance xdp_mode_eq_dec : EqDecision xdp_mode.
Proof. solve_decision. Defined.

Record world (BL RD IS : Type) := World {
  w_pins : gset string;                     (* pinned paths *)
  w_maps : kmaps BL RD IS;                  (* the maps behind the pins *)
  w_xdp : option (Z * xdp_mode);            (* the attachment: interface, mode *)
  w_objs : nat;                             (* open bpf_objects *)
  w_tick : nat;                             (* readings of the clock *)
  w_out : list line;
}.
Arguments World {BL RD IS}.
Arguments w_pins {BL RD IS}.
Arguments w_maps {BL RD IS}.
Arguments w_xdp {BL RD IS}.
Arguments w_objs {BL RD IS}.
Arguments w_tick {BL RD IS}.
Arguments w_out {BL RD IS}.

(** The totals of the per-CPU counters, as the control plane adds them up. *)
Definition add_counters (a b : counters) : counters :=
  Counters (u64 (rx a + rx b)) (u64 (dropped a + dropped b)) (u64 (passed a + passed b)).
Definition total_counters (vals : list counters) : counters :=
  foldl add_counters (Counters 0 0 0) vals.

Definition show (z : Z) : string := pretty z.

Definition stats_line (sep : string) (t : counters) : string :=
  "rx=" +:+ show (rx t) +:+ sep +:+ "dropped=" +:+ show (dropped t) +:+ sep +:+
  "passed=" +:+ show (passed t).

Definition USAGE : line := Out
"FalconWall XDP DDoS Mitigator

Usage:
  falconwall start <iface> [-o obj]   load + attach + pin + live stats
  falconwall watch [sec]              run detector plugins, auto-ban (default 60s)
  falconwall block <ip> [sec]         block an IP (sec=0 or omitted = permanent)
  falconwall unblock <ip>             unblock an IP
  falconwall range <cidr>             drop a subnet (e.g. 10.0.0.0/8)
  falconwall unrange <cidr>           remove a dropped subnet
  falconwall ratelimit <pps>          per-IP rate limit (0 = off)
  falconwall enable                   enable mitigation
  falconwall disable                  disable mitigation
  falconwall stats                    print counters once".

Section FwCtl.
Context `{Endian} {BL RD IS : Type}.
Context `{BpfHash BL Z, LpmTrie RD, BpfHash IS ip_stats}.
Context (inet_pton : string -> option Z) (inet_ntop : Z -> string).
Context (clock : nat -> Z * Z).
#[local] Abbreviation kmaps := (kmaps BL RD IS).
#[local] Abbreviation world := (world BL RD IS).
#[local] Abbreviation cmd := (prog world).

Definition print (l : line) : cmd unit :=
  pmodify (fun w => World (w_pins w) (w_maps w) (w_xdp w) (w_objs w) (w_tick w) (w_out w ++ [l])).
Definition set_maps (m : kmaps) : cmd unit :=
  pmodify (fun w => World (w_pins w) m (w_xdp w) (w_objs w) (w_tick w) (w_out w)).
Definition set_pins (p : gset string) : cmd unit :=
  pmodify (fun w => World p (w_maps w) (w_xdp w) (w_objs w) (w_tick w) (w_out w)).
Definition set_xdp (x : option (Z * xdp_mode)) : cmd unit :=
  pmodify (fun w => World (w_pins w) (w_maps w) x (w_objs w) (w_tick w) (w_out w)).
Definition set_objs (f : nat -> nat) : cmd unit :=
  pmodify (fun w => World (w_pins w) (w_maps w) (w_xdp w) (f (w_objs w)) (w_tick w) (w_out w)).

(** The maps, and a write that reports the kernel's answer: 0, or -1. *)
Definition maps : cmd kmaps := w ← pget; mret (w_maps w).
Definition try_set (o : option kmaps) : cmd Z :=
  match o with
  | Some m => _ ← set_maps m; mret 0
  | None => mret (-1)
  end.

(** ** Helpers *)

Definition usage : cmd unit := print USAGE.

(** get_map: whether the map's descriptor was obtained. *)
Definition get_map (name : string) : cmd bool :=
  w ← pget;
  if decide (pin_path name ∈ w_pins w) then mret true
  else
  _ ← print (Err "error: is the daemon running? (falconwall start <iface>)");
  mret false.

Definition now_ns : cmd Z :=
  w ← pget;
  _ ← pmodify (fun w => World (w_pins w) (w_maps w) (w_xdp w) (w_objs w) (S (w_tick w)) (w_out w));
  let '(tv_sec, tv_nsec) := clock (w_tick w) in
  mret (u64 (u64 (tv_sec * 1000000000) + tv_nsec)).

(** parse_ip: [None] for the error code. *)
Definition parse_ip (s : string) : option Z := inet_pton s.

(** parse_cidr: [Some None] for the error code, [Some (Some (prefix, net))]
  for success. *)
Definition parse_cidr (s : string) : option (option (Z * Z)) :=
  '(n, ipstr, pfx) ← sscanf_cidr s 32;
  if Nat.ltb n 1 then Some None
  else if (pfx <? 0) || (32 <? pfx) then Some None
  else match parse_ip ipstr with
  | None => Some None
  | Some ip =>
    let mask := if pfx =? 0 then 0 else htonl (u32 (Z.shiftl 0xFFFFFFFF (32 - pfx))) in
    Some (Some (u32 pfx, Z.land ip mask))
  end.

Definition ip_to_str (ip : Z) : string := inet_ntop ip.

(** bpf_map_update_elem on the config array. *)
Definition config_update (idx val : Z) (m : kmaps) : option kmaps :=
  if idx <? Z.of_nat (length (fw_config m))
  then Some (set_fw_config (<[Z.to_nat idx := val]> (fw_config m)) m) else None.

Definition set_config (idx val : Z) : cmd Z :=
  ok ← get_map MAP_CONFIG;
  if negb ok then mret (-1) else
  m ← maps;
  ret ← try_set (config_update idx val m);
  if negb (ret =? 0) then
  _ ← print (ErrErrno ("error: update config[" +:+ show idx +:+ "]: "));
  mret (-1)
  else mret 0.

(** block_ip: the expiry of a ban of [sec] seconds, and the map update. *)
Definition block_ip (ip sec : Z) : cmd Z :=
  expiry ← (if 0 <? sec then
            t ← now_ns; mret (u64 (t + u64 (u64 sec * 1000000000)))
          else mret 0);
  m ← maps;
  try_set ((fun b => set_blocklist b m) <$> bpf_update (fw_blocklist m) ip expiry).

Definition print_stats : cmd unit :=
  ok ← get_map MAP_STATS;
  if negb ok then mret tt else
  m ← maps;
  print (Out (stats_line " " (total_counters (fw_stats m)))).

(** ** Commands *)

Definition cmd_block (argv : list string) : cmd Z :=
  match argv with
  | [] => _ ← print (Err "usage: falconwall block <ip> [sec]"); mret 1
  | a0 :: rest =>
    match parse_ip a0 with
    | None => _ ← print (Err ("error: bad ip '" +:+ a0 +:+ "'")); mret 1
    | Some ip =>
        let sec := match rest with a1 :: _ => strtol a1 | [] => 0 end in
        ok ← get_map MAP_BLOCK;
        if negb ok then mret 1 else
        ret ← block_ip ip sec;
        if negb (ret =? 0) then _ ← print (ErrErrno "error: "); mret 1
        else
          _ ← print (Out ("blocked " +:+ a0 +:+
                          (if 0 <? sec then " temporarily" else " permanently")));
          mret 0
    end
  end.

Definition cmd_unblock (argv : list string) : cmd Z :=
  match argv with
  | [] => _ ← print (Err "usage: falconwall unblock <ip>"); mret 1
  | a0 :: _ =>
    match parse_ip a0 with
    | None => _ ← print (Err ("error: bad ip '" +:+ a0 +:+ "'")); mret 1
    | Some ip =>
        ok ← get_map MAP_BLOCK;
        if negb ok then mret 1 else
        m ← maps;
        ret ← try_set ((fun b => set_blocklist b m) <$> bpf_delete (fw_blocklist m) ip);
        if negb (ret =? 0) then _ ← print (ErrErrno "error: "); mret 1
        else _ ← print (Out ("unblocked " +:+ a0)); mret 0
    end
  end.

Definition cmd_range (argv : list string) : cmd Z :=
  match argv with
  | [] => _ ← print (Err "usage: falconwall range <cidr>"); mret 1
  | a0 :: _ =>
    p ← plift (parse_cidr a0);
    match p with
    | None => _ ← print (Err ("error: bad cidr '" +:+ a0 +:+ "'")); mret 1
    | Some (prefix, net) =>
        ok ← get_map MAP_RANGE;
        if negb ok then mret 1 else
        m ← maps;
        ret ← try_set ((fun r => set_range_drop r m) <$>
                         lpm_update (fw_range_drop m) (LpmKey prefix net) 1);
        if negb (ret =? 0) then _ ← print (ErrErrno "error: "); mret 1
        else _ ← print (Out ("dropping " +:+ a0)); mret 0
    end
  end.

Definition cmd_unrange (argv : list string) : cmd Z :=
  match argv with
  | [] => _ ← print (Err "usage: falconwall unrange <cidr>"); mret 1
  | a0 :: _ =>
    p ← plift (parse_cidr a0);
    match p with
    | None => _ ← print (Err ("error: bad cidr '" +:+ a0 +:+ "'")); mret 1
    | Some (prefix, net) =>
        ok ← get_map MAP_RANGE;
        if negb ok then mret 1 else
        m ← maps;
        ret ← try_set ((fun r => set_range_drop r m) <$>
                         lpm_delete (fw_range_drop m) (LpmKey prefix net));
        if negb (ret =? 0) then _ ← print (ErrErrno "error: "); mret 1
        else _ ← print (Out ("stopped dropping " +:+ a0)); mret 0
    end
  end.

(** *** The system around a long-running command

  The answers of the system to one run of [start] or [watch]: the interface
  index (0 for none), whether the object opens, loads and has its program,
  whether each mode attaches, which maps the object has and which of them
  can be pinned, the object's fresh maps; at the end, whether the program
  detaches and which pins can be removed; and the life of the process:
  [e_beats] iterations of its loop before a signal, with [e_traffic n] what
  the data plane and the other commands did to the maps before the [n]-th
  one. *)
Record sys_env := {
  e_ifindex : string -> Z;
  e_open : string -> bool;
  e_load : bool;
  e_prog : bool;
  e_attach : xdp_mode -> bool;
  e_has_map : string -> bool;
  e_pin : string -> bool;
  e_fresh : kmaps;
  e_detach : bool;
  e_unpin : string -> bool;
  e_beats : nat;
  e_traffic : nat -> kmaps -> kmaps;
}.

(** *** watch *)

(** One source of the statistics map: the body of the inner loop. A source
  that left the map, or is in the blocklist (expired or not), is skipped. *)
Definition watch_one (detectors : list Det.Detector) (ban_sec key : Z) : cmd unit :=
  m ← maps;
  match bpf_lookup (fw_ip_stats m) key with
  | None => mret tt
  | Some v =>
    s ← plift (Det.read_IpStats (Det.ip_stats_bytes v));
    match bpf_lookup (fw_blocklist m) key with
    | Some _ => mret tt
    | None =>
        match Det.first_match key s detectors with
        | None => mret tt
        | Some d =>
            ret ← block_ip key ban_sec;
            if ret =? 0
            then print (Out ("ban " +:+ ip_to_str key +:+ " (" +:+ Det.name d +:+ ")"))
            else mret tt
        end
    end
  end.

(** The inner loop, from [key] on; false when the fuel runs out. *)
Fixpoint watch_keys (fuel : nat) (detectors : list Det.Detector) (ban_sec key : Z) : cmd bool :=
  match fuel with
  | O => mret false
  | S fuel =>
    _ ← watch_one detectors ban_sec key;
    m ← maps;
    match bpf_next_key (fw_ip_stats m) (Some key) with
    | Some next_key => watch_keys fuel detectors ban_sec next_key
    | None => mret true
    end
  end.

(** One iteration of the outer loop, before its sleep. *)
Definition watch_pass (fuel : nat) (detectors : list Det.Detector) (ban_sec : Z) : cmd bool :=
  m ← maps;
  match bpf_next_key (fw_ip_stats m) None with
  | Some key => watch_keys fuel detectors ban_sec key
  | None => mret true
  end.

(** The outer loop, [beats] iterations of it. The map is scanned with the
  number of its keys as fuel: a scan that has not ended when it has seen as many
  keys as there are goes on for ever, and then there is no result. *)
Fixpoint watch_loop (env : sys_env) (detectors : list Det.Detector) (ban_sec : Z)
  (beats n : nat) : cmd unit :=
  match beats with
  | O => mret tt
  | S beats =>
    m ← maps;
    _ ← set_maps (e_traffic env n m);
    m ← maps;
    ended ← watch_pass (length (bpf_keys (fw_ip_stats m))) detectors ban_sec;
    if ended : bool then watch_loop env detectors ban_sec beats (S n) else plift None
  end.

Fixpoint print_all (ls : list line) : cmd unit :=
  match ls with
  | [] => mret tt
  | l :: ls => _ ← print l; print_all ls
  end.

Definition cmd_watch (env : sys_env) (argv : list string) : cmd Z :=
  let ban_sec := match argv with a0 :: _ => strtol a0 | [] => 60 end in
  stats_ok ← get_map MAP_IPSTATS;
  block_ok ← get_map MAP_BLOCK;
  if negb stats_ok || negb block_ok then mret 1 else
  let detectors := Det.all Det.builtin in
  _ ← print (Out ("watching with " +:+ show (Z.of_nat (length detectors)) +:+
                " detectors, ban=" +:+ show ban_sec +:+ "s"));
  _ ← print_all ((fun d => Out ("  - " +:+ Det.name d)) <$> detectors);
  _ ← watch_loop env detectors ban_sec (e_beats env) 0;
  mret 0.

(** *** start *)

Definition FW_OBJ_PATH : string := "./fw_prog.o".

(** The argument loop: (ifname, obj). *)
Fixpoint start_args (argv : list string) (ifname obj : string) : string * string :=
  match argv with
  | [] => (ifname, obj)
  | a :: rest =>
    match decide (a = "-o"), rest with
    | left _, o :: rest => start_args rest ifname o
    | _, _ => start_args rest (if decide (ifname = "") then a else ifname) obj
    end
  end.

(** Attach in native mode, then in generic mode; the mode that worked. *)
Definition start_attach (env : sys_env) (ifindex : Z) : cmd (option xdp_mode) :=
  if e_attach env DRV_MODE then
  _ ← set_xdp (Some (ifindex, DRV_MODE));
  _ ← print (Out "attached in DRV (native) mode");
  mret (Some DRV_MODE)
  else if e_attach env SKB_MODE then
  _ ← set_xdp (Some (ifindex, SKB_MODE));
  _ ← print (Out "attached in SKB (generic) mode");
  mret (Some SKB_MODE)
  else
  _ ← print (ErrErrno "error: attach failed: ");
  mret None.

(** The pin is gone. *)
Definition unlink (path : string) : cmd unit :=
  w ← pget; set_pins (w_pins w ∖ {[path]}).

(** Pin every map of the object. *)
Fixpoint pin_maps (env : sys_env) (names : list string) : cmd unit :=
  match names with
  | [] => mret tt
  | name :: names =>
    _ ← (if negb (e_has_map env name)
         then print (Err ("warning: map '" +:+ name +:+ "' missing"))
         else
           _ ← unlink (pin_path name);
           if e_pin env name then w ← pget; set_pins (w_pins w ∪ {[pin_path name]})
           else print (ErrErrno ("warning: pin '" +:+ name +:+ "' failed: ")));
    pin_maps env names
  end.

(** Unpin the maps; the answers of [unlink] are ignored. *)
Fixpoint unpin_maps (env : sys_env) (names : list string) : cmd unit :=
  match names with
  | [] => mret tt
  | name :: names =>
    _ ← (if e_unpin env name then unlink (pin_path name) else mret tt);
    unpin_maps env names
  end.

(** The stats loop, [beats] iterations of it. *)
Fixpoint start_loop (env : sys_env) (beats n : nat) : cmd unit :=
  match beats with
  | O => mret tt
  | S beats =>
    m ← maps;
    let m := e_traffic env n m in
    _ ← set_maps m;
    let total := if e_has_map env MAP_STATS then total_counters (fw_stats m)
                 else Counters 0 0 0 in
    _ ← print (Out (stats_line "  " total +:+ "     "));
    start_loop env beats (S n)
  end.

(** Everything before the stats loop: the exit code of a failed start, or the
  interface and mode of a running one. *)
Definition start_up (env : sys_env) (argv : list string) : cmd (Z + Z * xdp_mode) :=
  let '(ifname, obj) := start_args argv "" FW_OBJ_PATH in
  if decide (ifname = "") then _ ← usage; mret (inl 1) else
  let ifindex := e_ifindex env ifname in
  if ifindex =? 0 then
  _ ← print (Err ("error: no such interface '" +:+ ifname +:+ "'")); mret (inl 1) else
  if negb (e_open env obj) then
  _ ← print (Err ("error: open '" +:+ obj +:+ "' failed")); mret (inl 1) else
  _ ← set_objs S;
  if negb (e_load env) then
  _ ← print (Err "error: load failed"); _ ← set_objs pred; mret (inl 1) else
  if negb (e_prog env) then
  _ ← print (Err "error: no 'fw_prog' section in object"); _ ← set_objs pred; mret (inl 1) else
  mode ← start_attach env ifindex;
  match mode with
  | None => _ ← set_objs pred; mret (inl 1)
  | Some mode =>
    _ ← set_maps (e_fresh env);
    _ ← pin_maps env MAP_NAMES;
    _ ← set_config CFG_ENABLED 1;
    _ ← print (Out ("running on " +:+ ifname +:+ " — Ctrl+C to stop"));
    mret (inr (ifindex, mode))
  end.

(** After the signal; the answer of [bpf_xdp_detach] is ignored. *)
Definition start_down (env : sys_env) : cmd Z :=
  _ ← print (Out "stopping...");
  _ ← (if e_detach env then set_xdp None else mret tt);
  _ ← unpin_maps env MAP_NAMES;
  _ ← set_objs pred;
  mret 0.

Definition cmd_start (env : sys_env) (argv : list string) : cmd Z :=
  r ← start_up env argv;
  match r with
  | inl code => mret code
  | inr _ => _ ← start_loop env (e_beats env) 0; start_down env
  end.

(** *** main *)

Definition cmd_ratelimit (argv : list string) : cmd Z :=
  match argv with
  | [] => _ ← print (Err "usage: falconwall ratelimit <pps>"); mret 1
  | v0 :: _ =>
    let pps := strtoull v0 in
    _ ← set_config CFG_PPS pps;
    _ ← print (Out ("rate limit set to " +:+ show pps +:+ " pps"));
    mret 0
  end.

Definition cmd_enable : cmd Z :=
  _ ← set_config CFG_ENABLED 1; _ ← print (Out "mitigation enabled"); mret 0.

Definition cmd_disable : cmd Z :=
  _ ← set_config CFG_ENABLED 0; _ ← print (Out "mitigation disabled"); mret 0.

Definition main (env : sys_env) (argv : list string) : cmd Z :=
  match argv with
  | [] => _ ← usage; mret 1
  | c :: v =>
    if decide (c = "start") then cmd_start env v
    else if decide (c = "watch") then cmd_watch env v
    else if decide (c = "block") then cmd_block v
    else if decide (c = "unblock") then cmd_unblock v
    else if decide (c = "range") then cmd_range v
    else if decide (c = "unrange") then cmd_unrange v
    else if decide (c = "ratelimit") then cmd_ratelimit v
    else if decide (c = "enable") then cmd_enable
    else if decide (c = "disable") then cmd_disable
    else if decide (c = "stats") then _ ← print_stats; mret 0
    else if decide (c ∈ ["help"; "-h"; "--help"]) then _ ← usage; mret 0
    else _ ← usage; mret 1
  end.
End FwCtl.
