(* ===== verification/FwCtlSpec.v ===== *)
(** * What the control plane promises

    The effect of every command of [fw.cpp] on the maps, and the state the
    commands leave for the data plane. *)

From S2P Require Import Prelude BpfMaps FwProg FwSpec RateLimit FwTrace CStrings Detector FwCtl.
#[local] Open Scope Z_scope.

(** ** CIDR ranges *)

Section Cidr.
Context `{Endian}.

Lemma mask_land x k :
  uint_ok 32 x -> 0 <= k <= 32 ->
  Z.land x (u32 (Z.shiftl 0xFFFFFFFF k)) = Z.shiftl (Z.shiftr x k) k.
Proof using Type.
  intros Hx Hk. unfold uint_ok, u32, wrap in *. apply Z.bits_inj'. intros n Hn.
  rewrite Z.land_spec. change 0xFFFFFFFF with (Z.ones 32).
  destruct (Z.ltb_spec n k).
  - rewrite (Z.shiftl_spec_low (Z.shiftr x k)) by lia.
    rewrite Z.mod_pow2_bits_low, Z.shiftl_spec_low by lia. by rewrite andb_false_r.
  - rewrite (Z.shiftl_spec (Z.shiftr x k)), Z.shiftr_spec by lia.
    replace (n - k + k) with n by lia.
    destruct (Z.ltb_spec n 32).
    + rewrite Z.mod_pow2_bits_low, Z.shiftl_spec, Z.ones_spec_low by lia. by rewrite andb_true_r.
    + rewrite <-(Z.mod_small x (2 ^ 32)) by lia.
      by rewrite !Z.mod_pow2_bits_high by lia.
Qed.

(** The network address of a prefix of length [p]: the host bits are zero. *)
Definition network (p a : Z) : Z := Z.shiftl (Z.shiftr (ntohl a) (32 - p)) (32 - p).

Lemma cidr_net p a :
  uint_ok 32 a -> 0 <= p <= 32 ->
  let net := Z.land a (if p =? 0 then 0 else htonl (u32 (Z.shiftl 0xFFFFFFFF (32 - p)))) in
  ntohl net = network p a /\ prefix_bits p net = prefix_bits p a.
Proof using Type.
  intros Ha Hp net.
  assert (ntohl net = network p a) as E.
  { unfold net. assert ((if p =? 0 then 0 else htonl (u32 (Z.shiftl 0xFFFFFFFF (32 - p))))
      = htonl (u32 (Z.shiftl 0xFFFFFFFF (32 - p)))) as ->.
    { destruct (Z.eqb_spec p 0) as [->|]; [|done].
      change (u32 (Z.shiftl 0xFFFFFFFF (32 - 0))) with 0. unfold htonl, hton. by case_match. }
    unfold ntohl, htonl. rewrite hton_land, hton_hton by (apply wrap_range; lia).
    apply mask_land; [by apply hton_range|lia]. }
  split; [done|]. unfold prefix_bits. rewrite E. unfold network.
  by rewrite Z.shiftr_shiftl_l, Z.sub_diag, Z.shiftl_0_r by lia.
Qed.
End Cidr.

(** ** Running a command *)

Lemma in_map_names :
  MAP_BLOCK ∈ MAP_NAMES /\ MAP_RANGE ∈ MAP_NAMES /\ MAP_IPSTATS ∈ MAP_NAMES /\
  MAP_CONFIG ∈ MAP_NAMES /\ MAP_STATS ∈ MAP_NAMES.
Proof. unfold MAP_NAMES. set_solver. Qed.

Section FwCtlSpec.
Context `{Endian} {BL RD IS : Type}.
Context `{BpfHash BL Z, LpmTrie RD, BpfHash IS ip_stats}.
Context (inet_pton : string -> option Z) (inet_ntop : Z -> string) (clock : nat -> Z * Z).
#[local] Abbreviation kmaps := (kmaps BL RD IS).
#[local] Abbreviation world := (world BL RD IS).
Implicit Types (w : world) (m : kmaps).

(** [parse_cidr] on "ip/p": the prefix, and an address with its host bits
  cleared that has the same prefix. *)
Lemma parse_cidr_Some ip a (n : N) :
  no_slash ip -> (1 <= String.length ip <= 63)%nat -> inet_pton ip = Some a -> uint_ok 32 a ->
  (n <= 32)%N ->
  exists net, parse_cidr inet_pton (ip +:+ String "/" (pretty n)) = Some (Some (Z.of_N n, net)) /\
  ntohl net = network (Z.of_N n) a /\ prefix_bits (Z.of_N n) net = prefix_bits (Z.of_N n) a.
Proof using Type.
  intros Hs Hl Ha Hok Hn. unfold parse_cidr.
  rewrite sscanf_cidr_pretty by (done || lia). cbn [mbind option_bind Nat.ltb Nat.leb].
  rewrite !(proj2 (Z.ltb_ge _ _)) by lia. cbn [orb]. unfold parse_ip. rewrite Ha.
  assert (u32 (Z.of_N n) = Z.of_N n) as -> by (apply wrap_small; unfold uint_ok; lia).
  eexists. split; [done|]. apply cidr_net; [done|lia].
Qed.

(** The state after a message, a write of the maps, a reading of the clock. *)
Definition say (ls : list line) w : world :=
  World (w_pins w) (w_maps w) (w_xdp w) (w_objs w) (w_tick w) (w_out w ++ ls).
Definition with_maps m w : world :=
  World (w_pins w) m (w_xdp w) (w_objs w) (w_tick w) (w_out w).
Definition tick w : world :=
  World (w_pins w) (w_maps w) (w_xdp w) (w_objs w) (S (w_tick w)) (w_out w).

(** The daemon is running: every map is pinned. *)
Definition daemon w : Prop := forall name, name ∈ MAP_NAMES -> pin_path name ∈ w_pins w.

(** The value of the clock at its next reading. *)
Definition now_of w : Z :=
  u64 (u64 (fst (clock (w_tick w)) * 1000000000) + snd (clock (w_tick w))).

Definition no_daemon : line := Err "error: is the daemon running? (falconwall start <iface>)".

Lemma bind_Some {A B} (c : prog world A) (k : A -> prog world B) w a w' :
  c w = Some (a, w') -> (c ≫= k) w = k a w'.
Proof using Type. unfold mbind, prog_bind. by intros ->. Qed.

Lemma get_map_ok name w :
  pin_path name ∈ w_pins w -> get_map name w = Some (true, w).
Proof using Type. intros Hp. unfold get_map, mbind, prog_bind, pget. by rewrite decide_True. Qed.

Lemma get_map_fail name w :
  pin_path name ∉ w_pins w -> get_map name w = Some (false, say [no_daemon] w).
Proof using Type. intros Hp. unfold get_map, mbind, prog_bind, pget. by rewrite decide_False. Qed.

Lemma maps_eq w : maps w = Some (w_maps w, w).
Proof using Type. done. Qed.

Lemma print_eq l w : print l w = Some (tt, say [l] w).
Proof using Type. done. Qed.

Lemma try_set_Some m w : try_set (Some m) w = Some (0, with_maps m w).
Proof using Type. done. Qed.

Lemma try_set_None w : try_set None w = Some (-1, w).
Proof using Type. done. Qed.

Lemma now_ns_eq w : now_ns clock w = Some (now_of w, tick w).
Proof using Type.
  unfold now_ns, now_of, mbind, prog_bind, pget, pmodify. by destruct (clock (w_tick w)).
Qed.

(** The expiry [block_ip] writes. *)
Definition expiry_of (sec : Z) w : Z :=
  if 0 <? sec then u64 (now_of w + u64 (u64 sec * 1000000000)) else 0.
Definition after_clock (sec : Z) w : world := if 0 <? sec then tick w else w.

Lemma expiry_of_range sec w : uint_ok 64 (expiry_of sec w).
Proof using Type. unfold expiry_of. case_match; [apply wrap_range; lia|done]. Qed.

Lemma block_ip_eq ip sec w :
  block_ip clock ip sec w =
  match bpf_update (fw_blocklist (w_maps w)) ip (expiry_of sec w) with
  | Some b => Some (0, with_maps (set_blocklist b (w_maps w)) (after_clock sec w))
  | None => Some (-1, after_clock sec w)
  end.
Proof using Type.
  unfold block_ip, expiry_of, after_clock. destruct (0 <? sec).
  - erewrite bind_Some by (erewrite bind_Some by apply now_ns_eq; reflexivity).
    erewrite bind_Some by apply maps_eq. by destruct (bpf_update _ _ _).
  - erewrite bind_Some by reflexivity.
    erewrite bind_Some by apply maps_eq. by destruct (bpf_update _ _ _).
Qed.

Lemma set_config_ok idx val w :
  daemon w -> 0 <= idx < Z.of_nat (length (fw_config (w_maps w))) ->
  set_config idx val w =
  Some (0, with_maps (set_fw_config (<[Z.to_nat idx := val]> (fw_config (w_maps w))) (w_maps w)) w).
Proof using Type.
  intros Hd Hi. unfold set_config.
  erewrite bind_Some by (apply get_map_ok, Hd, in_map_names).
  cbn [negb]. erewrite bind_Some by apply maps_eq. unfold config_update.
  by rewrite (proj2 (Z.ltb_lt _ _)) by lia.
Qed.

Lemma set_config_no_daemon idx val w :
  pin_path MAP_CONFIG ∉ w_pins w -> set_config idx val w = Some (-1, say [no_daemon] w).
Proof using Type. intros Hp. unfold set_config. by erewrite bind_Some by by apply get_map_fail. Qed.
End FwCtlSpec.

(** ** Bans *)

Section Bans.
Context `{Endian} {BL RD IS : Type}.
Context `{BpfHash BL Z, LpmTrie RD, BpfHash IS ip_stats}.
Context `{!BpfHashLaws BL Z, !LpmLaws RD, !BpfHashLaws IS ip_stats}.
Context (inet_pton : string -> option Z) (inet_ntop : Z -> string) (clock : nat -> Z * Z).
#[local] Abbreviation kmaps := (kmaps BL RD IS).
#[local] Abbreviation world := (world BL RD IS).
Implicit Types (w : world) (m : kmaps).

(** The seconds argument of [block]. *)
Definition sec_arg (rest : list string) : Z :=
  match rest with a1 :: _ => strtol a1 | [] => 0 end.

Definition blocked_line (a0 : string) (sec : Z) : line :=
  Out ("blocked " +:+ a0 +:+ (if 0 <? sec then " temporarily" else " permanently")).

Lemma cmd_block_ok a0 rest ip b w :
  daemon w -> inet_pton a0 = Some ip ->
  bpf_update (fw_blocklist (w_maps w)) ip (expiry_of clock (sec_arg rest) w) = Some b ->
  cmd_block inet_pton clock (a0 :: rest) w =
  Some (0, say [blocked_line a0 (sec_arg rest)]
             (with_maps (set_blocklist b (w_maps w)) (after_clock (sec_arg rest) w))).
Proof using Type.
  intros Hd Hip Hu. unfold cmd_block, parse_ip. rewrite Hip. fold (sec_arg rest).
  erewrite bind_Some by (apply get_map_ok, Hd, in_map_names). cbn [negb].
  erewrite bind_Some by (rewrite block_ip_eq, Hu; reflexivity).
  reflexivity.
Qed.

(** The ban that [sec] seconds from the next clock reading make, when the
  64-bit arithmetic does not wrap. *)
Definition no_wrap (sec : Z) w : Prop :=
  0 < sec -> 0 <= now_of clock w /\ now_of clock w + sec * 1000000000 < 2 ^ 64.

Lemma expiry_of_value sec w :
  no_wrap sec w ->
  expiry_of clock sec w = if 0 <? sec then now_of clock w + sec * 1000000000 else 0.
Proof using Type.
  intros Hn. unfold expiry_of. case_bool; [|done]. destruct (Hn ltac:(lia)) as [Ht Hs].
  unfold u64. rewrite (wrap_small _ sec), (wrap_small _ (sec * _)), wrap_small;
    unfold uint_ok; lia.
Qed.

Lemma banned_after sec ip b m t w :
  no_wrap sec w ->
  bpf_update (fw_blocklist m) ip (expiry_of clock sec w) = Some b ->
  banned (set_blocklist b m) ip t <-> sec <= 0 \/ t <= now_of clock w + sec * 1000000000.
Proof using Type*.
  intros Hn Hu. unfold banned. cbn [set_blocklist fw_blocklist].
  rewrite (bpf_update_eq _ _ _ _ Hu), (expiry_of_value _ _ Hn).
  unfold no_wrap in Hn. case_bool; (split; [intros (e & [= <-] & He)|intros He; eexists; split; [done|]]); lia.
Qed.

(** C4. [block ip sec] does what it prints. When it exits with 0 the source is
  banned until [sec] seconds after the command read the clock, or for ever
  when [sec] is absent or not positive; nothing else but the blocklist
  changes and no other source gains a ban; and over every later sequence of
  frames no IPv4 frame of the source passes before the ban expires. *)
Theorem block_enforced a0 rest ip w :
  daemon w -> inet_pton a0 = Some ip ->
  let sec := sec_arg rest in
  no_wrap sec w -> is_Some (bpf_update (fw_blocklist (w_maps w)) ip (expiry_of clock sec w)) ->
  exists w', cmd_block inet_pton clock (a0 :: rest) w = Some (0, w') /\
  w_maps w' = set_blocklist (fw_blocklist (w_maps w')) (w_maps w) /\
  (forall t, banned (w_maps w') ip t <-> sec <= 0 \/ t <= now_of clock w + sec * 1000000000) /\
  (forall a t, a <> ip -> banned (w_maps w') a t -> banned (w_maps w) a t) /\
  (forall t fs vs st', frames_ok fs -> times_from t (f_now <$> fs) ->
     fw_run fs (w_maps w') = Some (vs, st') ->
     Forall (fun x => 0 < sec /\ now_of clock w + sec * 1000000000 < x)
       (passed_from ip (w_maps w') fs vs)).
Proof using Type*.
  intros Hd Hip sec Hn [b Hu].
  eexists. split; [by eapply cmd_block_ok|]. fold sec. cbn [say with_maps w_maps].
  split; [done|]. split; [intros t; by eapply banned_after|]. split.
  - intros a t Hne (e & He & Ht). exists e. split; [|done]. cbn in He.
    by destruct (bpf_update_ne _ _ ip a _ Hu) as [<-|E]; [congruence|done|congruence].
  - intros t fs vs st' Hok Ht Hr.
    eapply Forall_impl; [eapply (banned_run ip (expiry_of clock sec w)); eauto|].
    + cbn. by eapply bpf_update_eq.
    + intros x [He Hx]. rewrite (expiry_of_value _ _ Hn) in He, Hx.
      destruct (Z.ltb_spec 0 sec); lia.
Qed.

Lemma cmd_unblock_ok a0 rest ip w :
  daemon w -> inet_pton a0 = Some ip ->
  cmd_unblock inet_pton (a0 :: rest) w =
  match bpf_delete (fw_blocklist (w_maps w)) ip with
  | Some b =>
      Some (0, say [Out ("unblocked " +:+ a0)] (with_maps (set_blocklist b (w_maps w)) w))
  | None => Some (1, say [ErrErrno "error: "] w)
  end.
Proof using Type.
  intros Hd Hip. unfold cmd_unblock, parse_ip. rewrite Hip.
  erewrite bind_Some by (apply get_map_ok, Hd, in_map_names). cbn [negb].
  erewrite bind_Some by apply maps_eq. by destruct (bpf_delete _ _).
Qed.

(** C26. [unblock ip] lifts the ban, expired or not, and only that one; it
  reports an error and changes nothing when the source is not listed. *)
Theorem unblock_effect a0 rest ip w :
  daemon w -> inet_pton a0 = Some ip ->
  match bpf_lookup (fw_blocklist (w_maps w)) ip with
  | Some _ =>
    exists w', cmd_unblock inet_pton (a0 :: rest) w = Some (0, w') /\
      w_maps w' = set_blocklist (fw_blocklist (w_maps w')) (w_maps w) /\
      (forall t, ~ banned (w_maps w') ip t) /\
      (forall a t, a <> ip -> banned (w_maps w') a t <-> banned (w_maps w) a t)
  | None => cmd_unblock inet_pton (a0 :: rest) w = Some (1, say [ErrErrno "error: "] w)
  end.
Proof using Type*.
  intros Hd Hip. rewrite (cmd_unblock_ok _ _ _ _ Hd Hip).
  destruct (bpf_lookup (fw_blocklist (w_maps w)) ip) as [e|] eqn:El.
  - destruct (bpf_delete (fw_blocklist (w_maps w)) ip) as [b|] eqn:Eb.
    2:{ apply bpf_delete_fail in Eb. congruence. }
  eexists. split; [done|]. cbn. split; [done|]. unfold banned; cbn. split.
  + intros t (e' & He & _). rewrite (bpf_delete_eq _ _ _ Eb) in He. done.
  + intros a t Hne. by rewrite (bpf_delete_ne _ _ ip a Eb).
    - by rewrite (proj2 (bpf_delete_fail _ _) El).
Qed.

(** The expiry is computed modulo 2^64. An argument beyond the range of
  [long] is clamped to [LONG_MAX], whose nanoseconds are -10^9 modulo 2^64:
  the command exits with 0 and prints that it blocked the source, but the
  ban it wrote expired one second before the command ran. *)
Theorem block_overflow a0 a1 rest ip w b :
  daemon w -> inet_pton a0 = Some ip -> strtol a1 = LONG_MAX ->
  1000000000 < now_of clock w < 2 ^ 64 ->
  bpf_update (fw_blocklist (w_maps w)) ip (expiry_of clock LONG_MAX w) = Some b ->
  exists w', cmd_block inet_pton clock (a0 :: a1 :: rest) w = Some (0, w') /\
  w_out w' = w_out w ++ [Out ("blocked " +:+ a0 +:+ " temporarily")] /\
  ~ banned (w_maps w') ip (now_of clock w).
Proof using Type*.
  intros Hd Hip Ha1 Hnow Hu. assert (sec_arg (a1 :: rest) = LONG_MAX) as Hs by done.
  eexists. split; [eapply cmd_block_ok; eauto; by rewrite Hs|]. rewrite Hs. split; [done|].
  intros (e & He & Ht). cbn in He. rewrite (bpf_update_eq _ _ _ _ Hu) in He.
  injection He as <-. revert Ht. unfold expiry_of. change (0 <? LONG_MAX) with true.
  change (u64 (u64 LONG_MAX * 1000000000)) with (2 ^ 64 - 1000000000).
  cbn iota. assert (u64 (now_of clock w + (2 ^ 64 - 1000000000)) = now_of clock w - 1000000000) as ->.
  { unfold u64, wrap. rewrite <-(Z_mod_plus_full _ (-1)), Z.mod_small; lia. }
  lia.
Qed.
End Bans.

(** ** Ranges *)

Section Ranges.
Context `{Endian} {BL RD IS : Type}.
Context `{BpfHash BL Z, LpmTrie RD, BpfHash IS ip_stats}.
Context `{!BpfHashLaws BL Z, !LpmLaws RD, !BpfHashLaws IS ip_stats}.
Context (inet_pton : string -> option Z).
#[local] Abbreviation kmaps := (kmaps BL RD IS).
#[local] Abbreviation world := (world BL RD IS).
Implicit Types (w : world) (m : kmaps).

(** The argument "ip/n", for an address [a]. *)
Definition cidr_arg (ip : string) (a : Z) (n : N) (s : string) : Prop :=
  s = ip +:+ String "/" (pretty n) /\ no_slash ip /\ (1 <= String.length ip <= 63)%nat /\
  inet_pton ip = Some a /\ uint_ok 32 a /\ (n <= 32)%N.

Lemma cidr_arg_parse ip a n s :
  cidr_arg ip a n s ->
  exists net, parse_cidr inet_pton s = Some (Some (Z.of_N n, net)) /\
  key_node (LpmKey (Z.of_N n) net) = (Z.of_N n, prefix_bits (Z.of_N n) a).
Proof using Type.
  intros (-> & ? & ? & ? & ? & ?).
  destruct (parse_cidr_Some inet_pton ip a n) as (net & E & _ & Hp); [done..|].
  exists net. split; [done|]. unfold key_node. simpl. by rewrite Hp.
Qed.

Lemma cmd_range_ok s rest p net w :
  daemon w -> parse_cidr inet_pton s = Some (Some (p, net)) ->
  cmd_range inet_pton (s :: rest) w =
  match lpm_update (fw_range_drop (w_maps w)) (LpmKey p net) 1 with
  | Some r => Some (0, say [Out ("dropping " +:+ s)] (with_maps (set_range_drop r (w_maps w)) w))
  | None => Some (1, say [ErrErrno "error: "] w)
  end.
Proof using Type.
  intros Hd Hp. unfold cmd_range. rewrite Hp.
  erewrite bind_Some by reflexivity. cbn iota.
  erewrite bind_Some by (apply get_map_ok, Hd, in_map_names). cbn [negb].
  erewrite bind_Some by apply maps_eq.
  by destruct (lpm_update _ _ _).
Qed.

Lemma cmd_unrange_ok s rest p net w :
  daemon w -> parse_cidr inet_pton s = Some (Some (p, net)) ->
  cmd_unrange inet_pton (s :: rest) w =
  match lpm_delete (fw_range_drop (w_maps w)) (LpmKey p net) with
  | Some r =>
      Some (0, say [Out ("stopped dropping " +:+ s)] (with_maps (set_range_drop r (w_maps w)) w))
  | None => Some (1, say [ErrErrno "error: "] w)
  end.
Proof using Type.
  intros Hd Hp. unfold cmd_unrange. rewrite Hp.
  erewrite bind_Some by reflexivity. cbn iota.
  erewrite bind_Some by (apply get_map_ok, Hd, in_map_names). cbn [negb].
  erewrite bind_Some by apply maps_eq.
  by destruct (lpm_delete _ _).
Qed.

(** C20. [range ip/n] drops exactly the subnet it names: after it exits with 0
  an address is covered when its first [n] bits are those of [ip], or when
  it was covered before, and over every later sequence of frames no IPv4
  frame from the subnet passes. The exit code is 1 only when the kernel
  refused the update. *)
Theorem range_enforced ip a n s rest w :
  daemon w -> cidr_arg ip a n s ->
  exists code w', cmd_range inet_pton (s :: rest) w = Some (code, w') /\
  (code = 1 /\ w_maps w' = w_maps w \/
   code = 0 /\
   w_maps w' = set_range_drop (fw_range_drop (w_maps w')) (w_maps w) /\
   (forall x, covers (fw_range_drop (w_maps w')) x <->
      prefix_bits (Z.of_N n) x = prefix_bits (Z.of_N n) a \/
      covers (fw_range_drop (w_maps w)) x) /\
   (forall x t fs vs st', prefix_bits (Z.of_N n) x = prefix_bits (Z.of_N n) a ->
      frames_ok fs -> times_from t (f_now <$> fs) ->
      fw_run fs (w_maps w') = Some (vs, st') -> passed_from x (w_maps w') fs vs = [])).
Proof using Type*.
  intros Hd Ha. destruct (cidr_arg_parse _ _ _ _ Ha) as (net & Hp & Hk).
  rewrite (cmd_range_ok _ _ _ _ _ Hd Hp).
  destruct (lpm_update _ _ _) as [r|] eqn:Hu; eexists _, _; (split; [done|]); [right|by left].
  assert (forall x, covers r x <-> prefix_bits (Z.of_N n) x = prefix_bits (Z.of_N n) a \/
    covers (fw_range_drop (w_maps w)) x) as Hc.
  { intros x. destruct Ha as (_ & _ & _ & _ & _ & Hn).
    assert (0 <= prefix_len (LpmKey (Z.of_N n) net) <= 32) as Hpl by (cbn; lia).
    rewrite (covers_update _ _ _ _ x Hpl Hu).
    injection Hk as Hk. cbn [prefix_len data]. by rewrite Hk. }
  split; [done|]. split; [done|]. split; [done|].
  intros x t fs vs st' Hx Hok Ht Hr. eapply covered_run; eauto. apply Hc. by left.
Qed.

(** C27. [unrange] takes back [range]. After a [range] that exits with 0,
  [unrange] with the same text exits with 0, changes no other map, and leaves
  the dropped prefixes that there were before, without the one that was named.
  So when that one was new, the set of dropped prefixes is as before, and so are
  the addresses that are dropped; when it was dropped already, it no longer is:
  the second [range] had added nothing. *)
Theorem range_unrange ip a n s rest rest' w w1 :
  daemon w -> cidr_arg ip a n s ->
  cmd_range inet_pton (s :: rest) w = Some (0, w1) ->
  let before := lpm_nodes (fw_range_drop (w_maps w)) in
  let named := (Z.of_N n, prefix_bits (Z.of_N n) a) in
  exists w2, cmd_unrange inet_pton (s :: rest') w1 = Some (0, w2) /\
  w_maps w2 = set_range_drop (fw_range_drop (w_maps w2)) (w_maps w) /\
  lpm_nodes (fw_range_drop (w_maps w2)) = before ∖ {[named]} /\
  if decide (named ∈ before) then lpm_nodes (fw_range_drop (w_maps w1)) = before
  else lpm_nodes (fw_range_drop (w_maps w2)) = before /\
    forall x, covers (fw_range_drop (w_maps w2)) x <-> covers (fw_range_drop (w_maps w)) x.
Proof using Type*.
  intros Hd Ha Hr before named. destruct (cidr_arg_parse _ _ _ _ Ha) as (net & Hp & Hk).
  rewrite (cmd_range_ok _ _ _ _ _ Hd Hp) in Hr.
  destruct (lpm_update _ _ _) as [r|] eqn:Hu; [|done]. injection Hr as <-.
  match goal with |- context [cmd_unrange _ _ ?w1] =>
    rewrite (cmd_unrange_ok s rest' _ _ w1 Hd Hp) end. cbn [say with_maps w_maps set_range_drop fw_range_drop].
  apply lpm_update_nodes in Hu. rewrite Hk in Hu. fold before named in Hu.
  destruct (lpm_delete r _) as [r2|] eqn:Hdel.
  2:{ apply lpm_delete_fail in Hdel. rewrite Hk, Hu in Hdel. set_solver. }
  eexists. split; [done|]. cbn [say with_maps w_maps set_range_drop fw_range_drop].
  assert (lpm_nodes r2 = before ∖ {[named]}) as E.
  { rewrite (lpm_delete_nodes _ _ _ Hdel), Hk, Hu. fold named. set_solver. }
  split; [by destruct (w_maps w)|]. split; [done|]. case_decide as Hin; [rewrite Hu; set_solver|].
  assert (lpm_nodes r2 = before) as E2 by (rewrite E; set_solver).
  split; [done|]. intros x. unfold covers. by rewrite E2.
Qed.

(** A prefix that is not a number is taken for 32: "ip/x" drops the single
  host [ip] and reports the text it was given as a dropped range. *)
Theorem range_junk_prefix ip a junk rest w r :
  daemon w -> no_slash ip -> (1 <= String.length ip <= 63)%nat ->
  inet_pton ip = Some a -> uint_ok 32 a -> scan_int junk = None ->
  lpm_update (fw_range_drop (w_maps w)) (LpmKey 32 a) 1 = Some r ->
  let s := ip +:+ String "/" junk in
  exists w', cmd_range inet_pton (s :: rest) w = Some (0, w') /\
  w_out w' = w_out w ++ [Out ("dropping " +:+ s)] /\
  forall x, uint_ok 32 x ->
    (covers (fw_range_drop (w_maps w')) x <-> x = a \/ covers (fw_range_drop (w_maps w)) x).
Proof using Type*.
  intros Hd Hs Hl Ha Hok Hj Hu s.
  assert (Z.land a (htonl (u32 (Z.shiftl 4294967295 (32 - 32)))) = a) as Hmask.
  { change (u32 (Z.shiftl 4294967295 (32 - 32))) with (Z.ones 32).
    assert (htonl (Z.ones 32) = Z.ones 32) as -> by (unfold htonl, hton; by case_match).
    rewrite Z.land_ones by lia. by apply wrap_small. }
  assert (parse_cidr inet_pton s = Some (Some (32, a))) as Hp.
  { unfold parse_cidr, sscanf_cidr, s. rewrite scan_set_no_slash by (eauto || lia).
    rewrite decide_False by (intros ->; simpl in Hl; lia).
    rewrite Hj. cbn [mbind option_bind Nat.ltb Nat.leb].
    unfold parse_ip. rewrite Ha. cbn -[Z.shiftl htonl u32 Z.land]. by rewrite Hmask. }
  rewrite (cmd_range_ok _ _ _ _ _ Hd Hp), Hu. eexists. split; [done|]. split; [done|].
  assert (0 <= prefix_len (LpmKey 32 a) <= 32) as Hpl by (cbn; lia).
  intros x Hx. cbn [w_maps say with_maps set_range_drop fw_range_drop].
  rewrite (covers_update _ _ _ _ x Hpl Hu). cbn [prefix_len data].
  unfold prefix_bits. rewrite Z.sub_diag, !Z.shiftr_0_r. split; intros [E|E]; auto; left.
  - by apply (hton_inj 4).
  - by rewrite E.
Qed.
End Ranges.

(** *** Witnesses

    One address, a clock of one second per reading, and a running daemon on
    the maps of [FwProg]. *)

Definition demo_pton (s : string) : option Z :=
  if decide (s = "10.0.0.2") then Some demo_src else None.
Definition demo_clock (n : nat) : Z * Z := (Z.of_nat n + 100, 0).

Definition demo_world : world (gmap Z Z) (gmap (Z * Z) Z) (gmap Z ip_stats) :=
  World (list_to_set (pin_path <$> MAP_NAMES)) demo_st None 0 0 [].

Lemma demo_daemon : daemon demo_world.
Proof.
  intros name Hn. apply (elem_of_list_to_set (C:=gset string)). by apply list_elem_of_fmap_2.
Defined.

Lemma block_enforced_witness :
  let _ := little in
  exists w', cmd_block demo_pton demo_clock ["10.0.0.2"; "60"] demo_world = Some (0, w') /\
    w_maps w' = set_blocklist (fw_blocklist (w_maps w')) (w_maps demo_world) /\
    (forall t, banned (w_maps w') demo_src t <->
       60 <= 0 \/ t <= now_of demo_clock demo_world + 60 * 1000000000) /\
    (forall a t, a <> demo_src -> banned (w_maps w') a t -> banned (w_maps demo_world) a t) /\
    (forall t fs vs st', frames_ok fs -> times_from t (f_now <$> fs) ->
       fw_run fs (w_maps w') = Some (vs, st') ->
       Forall (fun x => 0 < 60 /\ now_of demo_clock demo_world + 60 * 1000000000 < x)
         (passed_from demo_src (w_maps w') fs vs)).
Proof.
  intros en.
  apply (block_enforced demo_pton demo_clock "10.0.0.2" ["60"] demo_src demo_world).
  - exact demo_daemon.
  - reflexivity.
  - intros _. vm_compute. split; [discriminate|reflexivity].
  - by eexists.
Defined.

Definition banned_world : world (gmap Z Z) (gmap (Z * Z) Z) (gmap Z ip_stats) :=
  with_maps (set_blocklist {[demo_src := 0]} demo_st) demo_world.

Lemma unblock_effect_witness :
  let _ := little in
  exists w', cmd_unblock demo_pton ["10.0.0.2"] banned_world = Some (0, w') /\
    w_maps w' = set_blocklist (fw_blocklist (w_maps w')) (w_maps banned_world) /\
    (forall t, ~ banned (w_maps w') demo_src t) /\
    (forall a t, a <> demo_src -> banned (w_maps w') a t <-> banned (w_maps banned_world) a t).
Proof.
  intros en.
  exact (unblock_effect demo_pton "10.0.0.2" [] demo_src banned_world demo_daemon eq_refl).
Defined.

Lemma block_overflow_witness :
  let _ := little in
  exists w', cmd_block demo_pton demo_clock ["10.0.0.2"; "9223372036854775807"] demo_world
      = Some (0, w') /\
    w_out w' = w_out demo_world ++ [Out "blocked 10.0.0.2 temporarily"] /\
    ~ banned (w_maps w') demo_src (now_of demo_clock demo_world).
Proof.
  intros en.
  eapply (block_overflow demo_pton demo_clock "10.0.0.2" "9223372036854775807" [] demo_src).
  - exact demo_daemon.
  - reflexivity.
  - vm_compute. reflexivity.
  - vm_compute. split; reflexivity.
  - reflexivity.
Defined.

Lemma demo_cidr : let _ := little in
  cidr_arg demo_pton "10.0.0.2" demo_src 8 "10.0.0.2/8".
Proof. intros en. repeat split; vm_compute; try discriminate; try reflexivity; try lia; repeat constructor. Defined.

Lemma range_enforced_witness :
  let _ := little in
  exists code w', cmd_range demo_pton ["10.0.0.2/8"] demo_world = Some (code, w') /\
    (code = 1 /\ w_maps w' = w_maps demo_world \/
     code = 0 /\
     w_maps w' = set_range_drop (fw_range_drop (w_maps w')) (w_maps demo_world) /\
     (forall x, covers (fw_range_drop (w_maps w')) x <->
        prefix_bits 8 x = prefix_bits 8 demo_src \/ covers (fw_range_drop (w_maps demo_world)) x) /\
     (forall x t fs vs st', prefix_bits 8 x = prefix_bits 8 demo_src ->
        frames_ok fs -> times_from t (f_now <$> fs) ->
        fw_run fs (w_maps w') = Some (vs, st') -> passed_from x (w_maps w') fs vs = [])).
Proof.
  intros en.
  exact (range_enforced demo_pton "10.0.0.2" demo_src 8 "10.0.0.2/8" [] demo_world
    demo_daemon demo_cidr).
Defined.

Lemma range_unrange_witness :
  let _ := little in
  let before := lpm_nodes (fw_range_drop (w_maps demo_world)) in
  let named := (8, prefix_bits 8 demo_src) in
  exists w1, cmd_range demo_pton ["10.0.0.2/8"] demo_world = Some (0, w1) /\
  exists w2, cmd_unrange demo_pton ["10.0.0.2/8"] w1 = Some (0, w2) /\
    w_maps w2 = set_range_drop (fw_range_drop (w_maps w2)) (w_maps demo_world) /\
    lpm_nodes (fw_range_drop (w_maps w2)) = before ∖ {[named]} /\
    if decide (named ∈ before) then lpm_nodes (fw_range_drop (w_maps w1)) = before
    else lpm_nodes (fw_range_drop (w_maps w2)) = before /\
      forall x, covers (fw_range_drop (w_maps w2)) x <-> covers (fw_range_drop (w_maps demo_world)) x.
Proof.
  intros en before named.
  assert (exists w1, cmd_range demo_pton ["10.0.0.2/8"] demo_world = Some (0, w1)) as [w1 E]
    by (eexists; reflexivity).
  exists w1. split; [exact E|].
  exact (range_unrange demo_pton "10.0.0.2" demo_src 8 "10.0.0.2/8" [] [] demo_world w1 demo_daemon demo_cidr E).
Defined.

Lemma range_junk_prefix_witness :
  let _ := little in
  exists w', cmd_range demo_pton ["10.0.0.2/x"] demo_world = Some (0, w') /\
    w_out w' = w_out demo_world ++ [Out "dropping 10.0.0.2/x"] /\
    forall x, uint_ok 32 x ->
      (covers (fw_range_drop (w_maps w')) x <->
       x = demo_src \/ covers (fw_range_drop (w_maps demo_world)) x).
Proof.
  intros en.
  eapply (range_junk_prefix demo_pton "10.0.0.2" demo_src "x" [] demo_world);
    [exact demo_daemon| | | | | |reflexivity].
  - vm_compute. repeat split; discriminate.
  - vm_compute. lia.
  - reflexivity.
  - vm_compute. split; [discriminate|reflexivity].
  - reflexivity.
Defined.
