(* ===== verification/FwWatch.v ===== *)
(** * The auto-ban loop, [cmd_watch] of [wall/fw.cpp]

    One pass of [watch] over the statistics map, against its specification:
    every source that the detectors match and that is not yet listed gets a
    ban, and nothing else changes. The data plane does not run during a pass
    here; between two passes it may do anything ([e_traffic]). *)

From S2P Require Import Prelude BpfMaps FwProg FwSpec RateLimit FwTrace CStrings Detector FwCtl FwCtlSpec.
#[local] Open Scope Z_scope.

Section Watch.
Context `{Endian} {BL RD IS : Type}.
Context `{BpfHash BL Z, LpmTrie RD, BpfHash IS ip_stats}.
Context `{!BpfHashLaws BL Z, !LpmLaws RD, !BpfHashLaws IS ip_stats}.
Context (inet_ntop : Z -> string) (clock : nat -> Z * Z).
#[local] Abbreviation kmaps := (kmaps BL RD IS).
#[local] Abbreviation world := (world BL RD IS).
Implicit Types (w : world) (m : kmaps) (ds : list Det.Detector).

(** Every entry holds 64-bit fields. *)
Definition stats_u64 m : Prop :=
  forall a s, bpf_lookup (fw_ip_stats m) a = Some s -> Det.fields_u64 s.

(** ** The specification of a pass *)

(** A ban with the value [e] lasts until [E] at least. *)
Definition lasts (E e : Z) : Prop := e = 0 \/ E <= e.

(** The detector that bans the source [a] in a pass over [m]. *)
Definition judge m ds (a : Z) : option Det.Detector :=
  s ← bpf_lookup (fw_ip_stats m) a;
  match bpf_lookup (fw_blocklist m) a with
  | Some _ => None
  | None => Det.first_match a (Det.view s) ds
  end.

(** The expiry of a ban written at the [n]-th reading of the clock. *)
Definition ban_expiry (sec : Z) (n : nat) : Z :=
  if 0 <? sec then
  u64 (u64 (u64 (fst (clock n) * 1000000000) + snd (clock n)) + u64 (u64 sec * 1000000000))
  else 0.

Definition ban_line (a : Z) (d : Det.Detector) : line :=
  Out ("ban " +:+ ip_to_str inet_ntop a +:+ " (" +:+ Det.name d +:+ ")").

(** What a pass over the sources [ks] does, from [w] to [w']. *)
Record passed_over ds sec (ks : list Z) w w' : Prop := {
  po_rest : w' = World (w_pins w) (set_blocklist (fw_blocklist (w_maps w')) (w_maps w))
                 (w_xdp w) (w_objs w) (w_tick w') (w_out w');
  po_tick : (w_tick w <= w_tick w')%nat;
  po_out : w_out w' = w_out w ++
  omap (fun a => ban_line a <$> judge (w_maps w) ds a) ks;
  po_bans a :
  match (if decide (a ∈ ks) then judge (w_maps w) ds a else None) with
  | Some _ => exists n, (w_tick w <= n)%nat /\ (0 < sec -> (n < w_tick w')%nat) /\
      bpf_lookup (fw_blocklist (w_maps w')) a = Some (ban_expiry sec n)
  | None => bpf_lookup (fw_blocklist (w_maps w')) a = bpf_lookup (fw_blocklist (w_maps w)) a
  end;
}.

Lemma ban_expiry_eq sec w : expiry_of clock sec w = ban_expiry sec (w_tick w).
Proof using Type. done. Qed.

Lemma after_clock_fields sec w :
  w_pins (after_clock sec w) = w_pins w /\ w_maps (after_clock sec w) = w_maps w /\
  w_xdp (after_clock sec w) = w_xdp w /\ w_objs (after_clock sec w) = w_objs w /\
  w_out (after_clock sec w) = w_out w /\
  (w_tick w <= w_tick (after_clock sec w))%nat /\
  (0 < sec -> (w_tick w < w_tick (after_clock sec w))%nat).
Proof using Type. unfold after_clock. case_bool; simpl; repeat split; lia. Qed.

Lemma judge_ext m m' ds a :
  fw_ip_stats m' = fw_ip_stats m ->
  bpf_lookup (fw_blocklist m') a = bpf_lookup (fw_blocklist m) a ->
  judge m' ds a = judge m ds a.
Proof using Type. intros Es Eb. unfold judge. by rewrite Es, Eb. Qed.

Lemma passed_over_nothing ds sec k w :
  judge (w_maps w) ds k = None -> passed_over ds sec [k] w w.
Proof using Type.
  intros Hj. split; [by destruct w as [? [] ? ? ? ?]|done| |].
  - simpl. rewrite Hj. simpl. by rewrite app_nil_r.
  - intros a. case_decide as Ha; [|done]. apply list_elem_of_singleton in Ha as ->. by rewrite Hj.
Qed.

Lemma passed_over_nil ds sec w : passed_over ds sec [] w w.
Proof using Type.
  split; [by destruct w as [? [] ? ? ? ?]|done|by rewrite app_nil_r|done].
Qed.

Lemma passed_over_app ds sec k1 k2 w w1 w2 :
  (forall a, a ∈ k1 -> a ∉ k2) ->
  passed_over ds sec k1 w w1 -> passed_over ds sec k2 w1 w2 ->
  passed_over ds sec (k1 ++ k2) w w2.
Proof using Type*.
  intros Hdis [R1 T1 O1 B1] [R2 T2 O2 B2].
  assert (forall a, a ∉ k1 -> judge (w_maps w1) ds a = judge (w_maps w) ds a) as Hj.
  { intros a Ha. apply judge_ext; [by rewrite R1|].
    specialize (B1 a). by rewrite decide_False in B1. }
  split.
  - rewrite R2, R1. done.
  - lia.
  - rewrite O2, O1, <-app_assoc, omap_app. do 2 f_equal.
    apply list_omap_ext, Forall_Forall2_diag, Forall_forall. intros a Ha.
    rewrite Hj; [done|]. intros Ha'. by eapply Hdis.
  - intros a. specialize (B1 a). specialize (B2 a).
    destruct (decide (a ∈ k1)) as [Ha|Ha].
    + rewrite decide_True by set_solver. rewrite decide_False in B2 by auto.
      rewrite B2. destruct (judge (w_maps w) ds a); [|done].
      destruct B1 as (n & ? & ? & ?). exists n. split_and!; [done|lia|done].
    + rewrite <-B1. destruct (decide (a ∈ k2)) as [Ha2|Ha2].
      * rewrite decide_True by set_solver. rewrite Hj in B2 by done.
        destruct (judge (w_maps w) ds a); [|done].
        destruct B2 as (n & ? & ? & ?). exists n. split_and!; [lia|done|done].
      * by rewrite decide_False by set_solver.
Qed.

(** ** One source *)

Lemma watch_one_ok `{!BpfHashKeeps BL Z} ds sec k w :
  stats_u64 (w_maps w) ->
  exists w', watch_one inet_ntop clock ds sec k w = Some (tt, w') /\ passed_over ds sec [k] w w'.
Proof using Type*.
  intros Hu. unfold watch_one. erewrite bind_Some by apply maps_eq.
  destruct (bpf_lookup (fw_ip_stats (w_maps w)) k) as [v|] eqn:Ev.
  2:{ eexists. split; [done|]. apply passed_over_nothing. unfold judge. by rewrite Ev. }
  erewrite bind_Some by (rewrite (Det.read_IpStats_bytes v (Hu _ _ Ev)); reflexivity).
  assert (judge (w_maps w) ds k = match bpf_lookup (fw_blocklist (w_maps w)) k with
    | Some _ => None | None => Det.first_match k (Det.view v) ds end) as Hj
    by (unfold judge; by rewrite Ev).
  destruct (bpf_lookup (fw_blocklist (w_maps w)) k) eqn:Eb.
  { eexists. split; [done|]. by apply passed_over_nothing. }
  destruct (Det.first_match k (Det.view v) ds) as [d|] eqn:Ed.
  2:{ eexists. split; [done|]. by apply passed_over_nothing. }
  destruct (bpf_update_ok (fw_blocklist (w_maps w)) k (expiry_of clock sec w)) as [b Hb].
  erewrite bind_Some by (rewrite block_ip_eq, Hb; reflexivity). cbn [Z.eqb].
  eexists. split; [apply print_eq|].
  pose proof (after_clock_fields sec w) as (F1 & F2 & F3 & F4 & F5 & F6 & F7).
  split; cbn [say with_maps w_maps w_pins w_xdp w_objs w_tick w_out set_blocklist fw_blocklist].
  - unfold say, with_maps; simpl. by rewrite F1, F3, F4, F5.
  - done.
  - rewrite F5. cbn [omap list_omap]. by rewrite Hj.
  - intros a. case_decide as Ha.
    + apply list_elem_of_singleton in Ha as ->. rewrite Hj. exists (w_tick w).
      split_and!; [lia|done|]. by apply bpf_update_eq in Hb.
    + apply (bpf_update_keeps _ _ _ _ _ Hb). set_solver.
Qed.

(** ** A whole pass *)

Lemma watch_keys_ok `{!BpfHashKeeps BL Z} ds sec l1 k l2 w :
  stats_u64 (w_maps w) -> bpf_keys (fw_ip_stats (w_maps w)) = l1 ++ k :: l2 ->
  exists w', watch_keys inet_ntop clock (S (length l2)) ds sec k w = Some (true, w') /\
  passed_over ds sec (k :: l2) w w'.
Proof using Type*.
  revert l1 k w. induction l2 as [|k' l2 IH]; intros l1 k w Hu Hk; cbn [watch_keys];
    destruct (watch_one_ok ds sec k w Hu) as (w1 & E1 & P1);
    assert (fw_ip_stats (w_maps w1) = fw_ip_stats (w_maps w)) as Hst by (by rewrite (po_rest _ _ _ _ _ P1));
    erewrite bind_Some by exact E1; erewrite bind_Some by apply maps_eq;
    rewrite (bpf_next_key_after _ k l1 _) by (by rewrite Hst); cbn [head].
  { by eexists. }
  destruct (IH (l1 ++ [k]) k' w1) as (w2 & E2 & P2).
  { unfold stats_u64. by rewrite Hst. }
  { by rewrite Hst, Hk, <-app_assoc. }
  exists w2. split; [exact E2|]. apply (passed_over_app ds sec [k] (k' :: l2) w w1); [|done..].
  pose proof (bpf_keys_NoDup (fw_ip_stats (w_maps w))) as Hnd. rewrite Hk in Hnd.
  apply NoDup_app in Hnd as (_ & _ & Hnd). apply list.NoDup_cons in Hnd as [Hnd _].
  by intros a ->%list_elem_of_singleton.
Qed.

Lemma watch_pass_ok `{!BpfHashKeeps BL Z} ds sec w :
  stats_u64 (w_maps w) ->
  let keys := bpf_keys (fw_ip_stats (w_maps w)) in
  exists w', watch_pass inet_ntop clock (length keys) ds sec w = Some (true, w') /\
  passed_over ds sec keys w w'.
Proof using Type*.
  intros Hu keys. unfold watch_pass. erewrite bind_Some by apply maps_eq.
  rewrite bpf_next_key_first. fold keys. destruct keys as [|k l] eqn:Ek; cbn [head length].
  - eexists. split; [done|]. apply passed_over_nil.
  - by apply (watch_keys_ok ds sec []).
Qed.

(** The scan ends whatever is in the maps: also when the blocklist is full. *)
Lemma watch_one_ends ds sec k w :
  exists w', watch_one inet_ntop clock ds sec k w = Some (tt, w') /\
  fw_ip_stats (w_maps w') = fw_ip_stats (w_maps w).
Proof using Type.
  unfold watch_one. erewrite bind_Some by apply maps_eq.
  destruct (bpf_lookup (fw_ip_stats (w_maps w)) k) as [v|]; [|by eexists].
  destruct (Det.read_IpStats_total v) as [s Hs]. rewrite Hs.
  erewrite bind_Some by reflexivity.
  destruct (bpf_lookup _ k); [by eexists|]. destruct (Det.first_match k s ds) as [d|]; [|by eexists].
  pose proof (after_clock_fields sec w) as (_ & Hm & _).
  destruct (bpf_update (fw_blocklist (w_maps w)) k (expiry_of clock sec w)) as [b|] eqn:Eb;
    (erewrite bind_Some by (rewrite block_ip_eq, Eb; reflexivity)); cbn [Z.eqb].
  - eexists. split; [apply print_eq|done].
  - eexists. split; [done|]. by rewrite Hm.
Qed.

Lemma watch_keys_ends ds sec l1 k l2 w :
  bpf_keys (fw_ip_stats (w_maps w)) = l1 ++ k :: l2 ->
  exists w', watch_keys inet_ntop clock (S (length l2)) ds sec k w = Some (true, w').
Proof using Type*.
  revert l1 k w. induction l2 as [|k' l2 IH]; intros l1 k w Hk; cbn [watch_keys];
    destruct (watch_one_ends ds sec k w) as (w1 & E1 & Hst);
    erewrite bind_Some by exact E1; erewrite bind_Some by apply maps_eq;
    rewrite (bpf_next_key_after _ k l1 _) by (by rewrite Hst); cbn [head]; [by eexists|].
  apply (IH (l1 ++ [k])). by rewrite Hst, Hk, <-app_assoc.
Qed.

Lemma watch_pass_ends ds sec w :
  exists w', watch_pass inet_ntop clock (length (bpf_keys (fw_ip_stats (w_maps w)))) ds sec w = Some (true, w').
Proof using Type*.
  unfold watch_pass. erewrite bind_Some by apply maps_eq. rewrite bpf_next_key_first.
  destruct (bpf_keys _) as [|k l] eqn:Ek; cbn [head length]; [by eexists|].
  by apply (watch_keys_ends ds sec []).
Qed.

(** The bans after a pass, for any source. *)
Lemma pass_bans ds sec w w' a :
  passed_over ds sec (bpf_keys (fw_ip_stats (w_maps w))) w w' ->
  match judge (w_maps w) ds a with
  | Some _ => exists n, (w_tick w <= n)%nat /\ (0 < sec -> (n < w_tick w')%nat) /\
    bpf_lookup (fw_blocklist (w_maps w')) a = Some (ban_expiry sec n)
  | None => bpf_lookup (fw_blocklist (w_maps w')) a = bpf_lookup (fw_blocklist (w_maps w)) a
  end.
Proof using Type*.
  intros HP. pose proof (po_bans _ _ _ _ _ HP a) as HB. case_decide as Ha; [done|].
  rewrite bpf_keys_lookup in Ha. unfold judge.
  destruct (bpf_lookup (fw_ip_stats (w_maps w)) a); [|done]. exfalso. eauto.
Qed.
End Watch.

(** ** The properties *)

Section WatchProps.
Context `{Endian} {BL RD IS : Type}.
Context `{BpfHash BL Z, LpmTrie RD, BpfHash IS ip_stats}.
Context `{!BpfHashLaws BL Z, !LpmLaws RD, !BpfHashLaws IS ip_stats, !BpfHashKeeps BL Z}.
Context (inet_pton : string -> option Z) (inet_ntop : Z -> string) (clock : nat -> Z * Z).
#[local] Abbreviation kmaps := (kmaps BL RD IS).
#[local] Abbreviation world := (world BL RD IS).
Implicit Types (w : world) (m : kmaps) (ds : list Det.Detector).

Definition all_keys w : list Z := bpf_keys (fw_ip_stats (w_maps w)).

(** C9. A pass of the auto-ban loop is exact. Scanning the statistics map with
  as much fuel as it has keys, it terminates; every source that is not in
  the blocklist and that a detector matches gets a ban that expires [sec]
  seconds after a clock reading taken during the pass (0, permanent, when
  [sec] is not positive); every other source's blocklist entry, the other
  maps, the pins and the attachment are unchanged; and one line is printed
  for each ban, in the order of the scan, naming the detector. *)
Theorem watch_pass_exact ds sec w :
  stats_u64 (w_maps w) ->
  exists w', watch_pass inet_ntop clock (length (all_keys w)) ds sec w = Some (true, w') /\
  w' = World (w_pins w) (set_blocklist (fw_blocklist (w_maps w')) (w_maps w))
         (w_xdp w) (w_objs w) (w_tick w') (w_out w') /\
  w_out w' = w_out w ++ omap (fun a => ban_line inet_ntop a <$> judge (w_maps w) ds a) (all_keys w) /\
  forall a,
    match judge (w_maps w) ds a with
    | Some _ => exists n, (w_tick w <= n)%nat /\ (0 < sec -> (n < w_tick w')%nat) /\
        bpf_lookup (fw_blocklist (w_maps w')) a = Some (ban_expiry clock sec n)
    | None => bpf_lookup (fw_blocklist (w_maps w')) a = bpf_lookup (fw_blocklist (w_maps w)) a
    end.
Proof using Type*.
  intros Hu. destruct (watch_pass_ok inet_ntop clock ds sec w Hu) as (w' & E & P).
  exists w'. split; [done|]. split; [by apply (po_rest _ _ _ _ _ _ _ P)|].
  split; [by apply (po_out _ _ _ _ _ _ _ P)|]. intros a. by eapply pass_bans.
Qed.

(** The clock's values stay far enough from 2^64 for a ban of [sec] seconds. *)
Definition clock_room (sec : Z) : Prop :=
  forall n, 0 <= fst (clock n) /\ 0 <= snd (clock n) /\
  fst (clock n) * 1000000000 + snd (clock n) + sec * 1000000000 < 2 ^ 64.

Definition clock_value (n : nat) : Z := fst (clock n) * 1000000000 + snd (clock n).

Lemma ban_expiry_value sec n :
  0 < sec -> clock_room sec -> ban_expiry clock sec n = clock_value n + sec * 1000000000.
Proof using Type.
  intros Hs Hc. destruct (Hc n) as (? & ? & ?). unfold ban_expiry, clock_value.
  rewrite (proj2 (Z.ltb_lt _ _)) by lia. unfold u64.
  rewrite (wrap_small _ sec), (wrap_small _ (sec * _)), (wrap_small _ (fst (clock n) * _)),
    (wrap_small _ (_ + snd _)), wrap_small; unfold uint_ok; lia.
Qed.

(** C5. The auto-ban loop stops a flood. A source that is not yet listed and
  whose entry shows one of the patterns the detectors describe is banned by
  the next pass, and over every later sequence of frames no IPv4 frame of
  that source passes until [sec] seconds after a clock reading of the pass;
  none ever passes when [sec] is not positive. *)
Theorem watch_stops_flood sec w a s n :
  stats_u64 (w_maps w) -> clock_room sec ->
  bpf_lookup (fw_ip_stats (w_maps w)) a = Some s -> entry_wf n s -> n < 2 ^ 60 ->
  bpf_lookup (fw_blocklist (w_maps w)) a = None ->
  is_Some (Det.expected (Det.view s)) ->
  exists w' k, watch_pass inet_ntop clock (length (all_keys w)) (Det.all Det.builtin) sec w
    = Some (true, w') /\ (w_tick w <= k)%nat /\
  forall t fs vs st', frames_ok fs -> times_from t (f_now <$> fs) ->
    fw_run fs (w_maps w') = Some (vs, st') ->
    Forall (fun x => 0 < sec /\ clock_value k + sec * 1000000000 < x)
      (passed_from a (w_maps w') fs vs).
Proof using Type*.
  intros Hu Hc Hs Hwf Hn Hb Hexp.
  destruct (watch_pass_ok inet_ntop clock (Det.all Det.builtin) sec w Hu) as (w' & E & P).
  pose proof (pass_bans inet_ntop clock _ _ _ _ a P) as HB. unfold judge in HB.
  rewrite Hs in HB. cbn [mbind option_bind] in HB. rewrite Hb in HB.
  rewrite <-(Det.expected_match n a s Hwf Hn), fmap_is_Some in Hexp.
  destruct Hexp as [d Hd]. rewrite Hd in HB. destruct HB as (k & Hk & _ & Hl).
  exists w', k. split; [done|]. split; [done|]. intros t fs vs st' Hok Ht Hr.
  eapply Forall_impl; [eapply (banned_run a (ban_expiry clock sec k)); eauto|].
  cbn. intros x [He Hx]. destruct (Z.ltb_spec 0 sec) as [Hsec|Hsec].
  - rewrite ban_expiry_value in Hx by done. lia.
  - unfold ban_expiry in He. rewrite (proj2 (Z.ltb_ge _ _)) in He by lia. lia.
Qed.

(** [unblock] does not outlive the next pass. Entries of the statistics map
  keep their counts when their source falls silent, so a source whose last
  window matched a detector is banned again by the next pass after it was
  unblocked, without a single frame from it in between. *)
Theorem watch_rebans_unblocked a0 rest sec a s n w w1 :
  daemon w -> stats_u64 (w_maps w) -> inet_pton a0 = Some a ->
  bpf_lookup (fw_ip_stats (w_maps w)) a = Some s -> entry_wf n s -> n < 2 ^ 60 ->
  is_Some (Det.expected (Det.view s)) ->
  cmd_unblock inet_pton (a0 :: rest) w = Some (0, w1) ->
  exists w2 k, watch_pass inet_ntop clock (length (all_keys w1)) (Det.all Det.builtin) sec w1
    = Some (true, w2) /\
  bpf_lookup (fw_blocklist (w_maps w2)) a = Some (ban_expiry clock sec k).
Proof using Type*.
  intros Hd Hu Hip Hs Hwf Hn Hexp E1.
  pose proof (cmd_unblock_ok inet_pton a0 rest a w Hd Hip) as E. rewrite E in E1. clear E.
  destruct (bpf_delete _ _) as [b|] eqn:Eb; [|done]. injection E1 as <-.
  set (w1 := say _ _).
  destruct (watch_pass_ok inet_ntop clock (Det.all Det.builtin) sec w1 Hu) as (w2 & E2 & P).
  pose proof (pass_bans inet_ntop clock _ _ _ _ a P) as HB. unfold judge in HB.
  change (fw_ip_stats (w_maps w1)) with (fw_ip_stats (w_maps w)) in HB.
  change (fw_blocklist (w_maps w1)) with b in HB.
  rewrite Hs in HB. cbn [mbind option_bind] in HB. rewrite (bpf_delete_eq _ _ _ Eb) in HB.
  rewrite <-(Det.expected_match n a s Hwf Hn), fmap_is_Some in Hexp.
  destruct Hexp as [d Hd']. rewrite Hd' in HB. destruct HB as (k & _ & _ & Hl). eauto.
Qed.
End WatchProps.

(** *** Witnesses *)

(** A daemon that has seen a SYN flood from 10.0.0.2. *)
Definition flood_world : world (gmap Z Z) (gmap (Z * Z) Z) (gmap Z ip_stats) :=
  with_maps (set_ip_stats {[demo_src := demo_syn]} demo_st) demo_world.

(** The same, with 10.0.0.2 in the blocklist. *)
Definition flood_banned_world : world (gmap Z Z) (gmap (Z * Z) Z) (gmap Z ip_stats) :=
  with_maps (set_blocklist {[demo_src := 0]} (w_maps flood_world)) flood_world.

Definition demo_ntop (a : Z) : string := if decide (a = demo_src) then "10.0.0.2" else "?".

Lemma flood_stats_u64 : stats_u64 (w_maps flood_world).
Proof.
  intros a s Hs. change (({[demo_src := demo_syn]} : gmap Z ip_stats) !! a = Some s) in Hs.
  apply lookup_singleton_Some in Hs as [_ <-].
  repeat split; vm_compute; discriminate || reflexivity.
Defined.

Lemma demo_syn_wf : entry_wf 60 demo_syn.
Proof. unfold entry_wf. simpl. lia. Defined.

Lemma watch_pass_exact_witness :
  let _ := little in
  exists w', watch_pass demo_ntop demo_clock 1 Det.builtin 60 flood_world = Some (true, w') /\
    w' = World (w_pins flood_world) (set_blocklist (fw_blocklist (w_maps w')) (w_maps flood_world))
           (w_xdp flood_world) (w_objs flood_world) (w_tick w') (w_out w') /\
    w_out w' = w_out flood_world ++
      omap (fun a => ban_line demo_ntop a <$> judge (w_maps flood_world) Det.builtin a)
        (all_keys flood_world) /\
    forall a,
      match judge (w_maps flood_world) Det.builtin a with
      | Some _ => exists n, (0 <= n)%nat /\ (0 < 60 -> (n < w_tick w')%nat) /\
          bpf_lookup (fw_blocklist (w_maps w')) a = Some (ban_expiry demo_clock 60 n)
      | None => bpf_lookup (fw_blocklist (w_maps w')) a =
          bpf_lookup (fw_blocklist (w_maps flood_world)) a
      end.
Proof.
  intros en. exact (watch_pass_exact demo_ntop demo_clock Det.builtin 60 flood_world flood_stats_u64).
Defined.

Lemma watch_stops_flood_witness :
  let _ := little in
  exists w' k, watch_pass demo_ntop (fun _ => (100, 0)) (length (all_keys flood_world)) (Det.all Det.builtin) 60 flood_world
      = Some (true, w') /\ (0 <= k)%nat /\
    forall t fs vs st', frames_ok fs -> times_from t (f_now <$> fs) ->
      fw_run fs (w_maps w') = Some (vs, st') ->
      Forall (fun x => 0 < 60 /\ clock_value (fun _ => (100, 0)) k + 60 * 1000000000 < x)
        (passed_from demo_src (w_maps w') fs vs).
Proof.
  intros en.
  apply (watch_stops_flood demo_ntop (fun _ => (100, 0)) 60 flood_world demo_src demo_syn 60).
  - exact flood_stats_u64.
  - intros n. simpl. lia.
  - reflexivity.
  - exact demo_syn_wf.
  - lia.
  - reflexivity.
  - vm_compute. by eexists.
Defined.

Lemma watch_rebans_unblocked_witness :
  let _ := little in
  exists w1, cmd_unblock demo_pton ["10.0.0.2"] flood_banned_world = Some (0, w1) /\
  exists w2 k, watch_pass demo_ntop demo_clock (length (all_keys w1)) (Det.all Det.builtin) 60 w1
      = Some (true, w2) /\
    bpf_lookup (fw_blocklist (w_maps w2)) demo_src = Some (ban_expiry demo_clock 60 k).
Proof.
  intros en. eexists. split; [reflexivity|].
  apply (watch_rebans_unblocked demo_pton demo_ntop demo_clock "10.0.0.2" [] 60 demo_src
    demo_syn 60 flood_banned_world).
  - exact demo_daemon.
  - exact flood_stats_u64.
  - reflexivity.
  - reflexivity.
  - exact demo_syn_wf.
  - lia.
  - vm_compute. by eexists.
  - reflexivity.
Defined.
