(* ===== verification/FwDaemon.v ===== *)
(** * The life of the daemon, [cmd_start] and [main] of [wall/fw.cpp]

    [start] brings the data plane up (open, load, attach, pin, enable), prints
    the totals until a signal, and takes it down again. The theorems say that
    a failed start leaves nothing behind, what a running daemon has set up,
    that a stopped one cleans up, and what the commands that only write the
    configuration do. *)

From S2P Require Import Prelude BpfMaps FwProg FwSpec RateLimit FwTrace CStrings Detector FwCtl FwCtlSpec FwWatch.
#[local] Open Scope Z_scope.

#[global] Instance pin_path_inj : Inj (=) (=) pin_path.
Proof.
  intros x y E. unfold pin_path in E. by simplify_eq/=.
Qed.

Section Daemon.
Context `{Endian} {BL RD IS : Type}.
Context `{BpfHash BL Z, LpmTrie RD, BpfHash IS ip_stats}.
#[local] Abbreviation kmaps := (kmaps BL RD IS).
#[local] Abbreviation world := (world BL RD IS).
#[local] Abbreviation sys_env := (sys_env (BL:=BL) (RD:=RD) (IS:=IS)).
Implicit Types (w : world) (m : kmaps) (env : sys_env).

Definition with_pins (p : gset string) w : world :=
  World p (w_maps w) (w_xdp w) (w_objs w) (w_tick w) (w_out w).

(** ** Pinning *)

(** The pins after the loop of [start] over [names]. *)
Definition pin_step env (p : gset string) (name : string) : gset string :=
  if e_has_map env name
  then p ∖ {[pin_path name]} ∪ (if e_pin env name then {[pin_path name]} else ∅) else p.
Definition pinned env (names : list string) (p : gset string) : gset string :=
  foldl (pin_step env) p names.

Lemma say_say l1 l2 w : say l2 (say l1 w) = say (l1 ++ l2) w.
Proof using Type. unfold say; simpl. by rewrite app_assoc. Qed.

Lemma say_nil w : say [] w = w.
Proof using Type. destruct w. unfold say; simpl. by rewrite app_nil_r. Qed.

Lemma pin_maps_eq env names w :
  exists ls, pin_maps env names w = Some (tt, say ls (with_pins (pinned env names (w_pins w)) w)).
Proof using Type.
  revert w. induction names as [|n names IH]; intros w; cbn [pin_maps pinned foldl].
  { exists []. rewrite say_nil. by destruct w. }
  unfold pin_step at 2. destruct (e_has_map env n); cbn [negb].
  - destruct (e_pin env n) eqn:Ep.
    + erewrite bind_Some by reflexivity. cbn [w_pins w_maps w_xdp w_objs w_tick w_out].
      destruct (IH (with_pins (w_pins w ∖ {[pin_path n]} ∪ {[pin_path n]}) w)) as [ls E].
      exists ls. exact E.
    + erewrite bind_Some by reflexivity. cbn [w_pins w_maps w_xdp w_objs w_tick w_out].
      rewrite union_empty_r_L.
      destruct (IH (say [ErrErrno ("warning: pin '" +:+ n +:+ "' failed: ")]
        (with_pins (w_pins w ∖ {[pin_path n]}) w))) as [ls E].
      exists (ErrErrno ("warning: pin '" +:+ n +:+ "' failed: ") :: ls).
      etrans; [exact E|]. unfold say, with_pins; simpl. by rewrite <-app_assoc.
  - erewrite bind_Some by reflexivity.
    destruct (IH (say [Err ("warning: map '" +:+ n +:+ "' missing")] w)) as [ls E].
    exists (Err ("warning: map '" +:+ n +:+ "' missing") :: ls).
    etrans; [exact E|]. unfold say, with_pins; simpl. by rewrite <-app_assoc.
Qed.

(** A pin of one of [names] survives from before only when the object has no
  such map; otherwise it is there exactly when pinning it worked. *)
Lemma elem_of_pinned env names p name :
  pin_path name ∈ pinned env names p <->
  if decide (name ∈ names /\ e_has_map env name = true)
  then e_pin env name = true else pin_path name ∈ p.
Proof using Type.
  revert p. induction names as [|n names IH]; intros p; cbn [pinned foldl].
  { case_decide as Hd; [by destruct Hd as [?%not_elem_of_nil _]|done]. }
  fold (pinned env names (pin_step env p n)). rewrite IH. unfold pin_step.
  destruct (e_has_map env name) eqn:Eh.
  - destruct (decide (name = n)) as [->|Hne].
    + rewrite Eh. rewrite (decide_True (P := n ∈ n :: names /\ _)) by (split; [left|done]).
      case_decide; [done|]. destruct (e_pin env n); set_solver.
    + assert (pin_path name <> pin_path n) by (by intros ?%(inj _)).
      assert (name ∈ n :: names <-> name ∈ names) as Hin by set_solver.
      rewrite (decide_ext (name ∈ n :: names /\ true = true) (name ∈ names /\ true = true))
        by (by rewrite Hin).
      case_decide; [done|]. destruct (e_has_map env n), (e_pin env n); set_solver.
  - rewrite !decide_False by (by intros [_ ?]).
    destruct (decide (name = n)) as [->|Hne]; [by rewrite Eh|].
    assert (pin_path name <> pin_path n) by (by intros ?%(inj _)).
    destruct (e_has_map env n), (e_pin env n); set_solver.
Qed.

Lemma pinned_other env names p path :
  path ∉ (pin_path <$> names) -> path ∈ pinned env names p <-> path ∈ p.
Proof using Type.
  revert p. induction names as [|n names IH]; intros p Hn; cbn [pinned foldl]; [done|].
  fold (pinned env names (pin_step env p n)).
  rewrite fmap_cons, not_elem_of_cons in Hn. destruct Hn as [? ?].
  rewrite IH by done. unfold pin_step. destruct (e_has_map env n), (e_pin env n); set_solver.
Qed.

(** The pins that the loop of the shutdown over [names] removes. *)
Definition unpinned env (names : list string) : gset string :=
  list_to_set (pin_path <$> filter (fun name => e_unpin env name = true) names).

Lemma elem_of_unpinned env names name :
  pin_path name ∈ unpinned env names <-> name ∈ names /\ e_unpin env name = true.
Proof using Type.
  unfold unpinned. rewrite elem_of_list_to_set, (list_elem_of_fmap_inj pin_path).
  rewrite list_elem_of_filter. tauto.
Qed.

Lemma unpinned_other env names path :
  path ∉ (pin_path <$> names) -> path ∉ unpinned env names.
Proof using Type.
  intros Hn. unfold unpinned. rewrite elem_of_list_to_set.
  intros (name & -> & [_ ?]%list_elem_of_filter)%list_elem_of_fmap.
  by apply Hn, list_elem_of_fmap_2.
Qed.

Lemma unpin_maps_eq env names w :
  unpin_maps env names w = Some (tt, with_pins (w_pins w ∖ unpinned env names) w).
Proof using Type.
  unfold unpinned. revert w. induction names as [|n names IH]; intros w; cbn [unpin_maps].
  { simpl. rewrite difference_empty_L. by destruct w. }
  rewrite filter_cons. destruct (e_unpin env n) eqn:E.
  - rewrite decide_True by done. erewrite bind_Some by reflexivity. rewrite IH.
    unfold with_pins; simpl. by rewrite difference_difference_l_L.
  - rewrite decide_False by done. by erewrite bind_Some by reflexivity.
Qed.

(** ** Coming up *)

(** The stages of a start that can fail. *)
Definition comes_up env (ifname obj : string) : Prop :=
  ifname <> "" /\ e_ifindex env ifname <> 0 /\ e_open env obj = true /\ e_load env = true /\
  e_prog env = true /\ (e_attach env DRV_MODE = true \/ e_attach env SKB_MODE = true).

(** The mode it attaches in. *)
Definition attach_mode env : xdp_mode := if e_attach env DRV_MODE then DRV_MODE else SKB_MODE.

Definition running_line (ifname : string) : line :=
  Out ("running on " +:+ ifname +:+ " — Ctrl+C to stop").

(** The state of a daemon that came up, up to its messages [ls]. *)
Definition running env (ifname : string) ls w : world :=
  let p := pinned env MAP_NAMES (w_pins w) in
  World p
  (if decide (pin_path MAP_CONFIG ∈ p)
   then default (e_fresh env) (config_update CFG_ENABLED 1 (e_fresh env)) else e_fresh env)
  (Some (e_ifindex env ifname, attach_mode env)) (S (w_objs w)) (w_tick w) (w_out w ++ ls).

Lemma set_config_any idx val w :
  exists code ls, set_config idx val w =
  Some (code, say ls (with_maps
    (if decide (pin_path MAP_CONFIG ∈ w_pins w)
     then default (w_maps w) (config_update idx val (w_maps w)) else w_maps w) w)).
Proof using Type.
  destruct (decide (pin_path MAP_CONFIG ∈ w_pins w)) as [Hp|Hp].
  2:{ exists (-1), [no_daemon]. rewrite set_config_no_daemon by done. by destruct w. }
  unfold set_config. erewrite bind_Some by by apply get_map_ok. cbn [negb].
  erewrite bind_Some by apply maps_eq.
  destruct (config_update idx val (w_maps w)) as [m|] eqn:E; cbn [default].
  - exists 0, []. erewrite bind_Some by reflexivity. cbn [Z.eqb negb]. by rewrite say_nil.
  - exists (-1), [ErrErrno ("error: update config[" +:+ show idx +:+ "]: ")].
    erewrite bind_Some by reflexivity. by destruct w.
Qed.

Lemma start_up_inl env argv w ls code :
  start_up env argv w = Some (inl code, say ls w) -> code = 1 ->
  cmd_start env argv w = Some (1, say ls w).
Proof using Type. intros E ->. unfold cmd_start. by erewrite bind_Some by exact E. Qed.

Lemma start_up_ok env argv w :
  let '(ifname, obj) := start_args argv "" FW_OBJ_PATH in
  comes_up env ifname obj ->
  exists ls, start_up env argv w =
  Some (inr (e_ifindex env ifname, attach_mode env),
        running env ifname (ls ++ [running_line ifname]) w).
Proof using Type.
  unfold start_up. destruct (start_args argv "" FW_OBJ_PATH) as [ifname obj].
  intros (Hn & Hi & Ho & Hl & Hp & Ha).
  rewrite decide_False by done. rewrite (proj2 (Z.eqb_neq _ _)) by done.
  rewrite Ho, Hl, Hp. cbn [negb]. erewrite bind_Some by reflexivity.
  assert (forall w, exists ls, start_attach env (e_ifindex env ifname) w =
    Some (Some (attach_mode env),
      World (w_pins w) (w_maps w) (Some (e_ifindex env ifname, attach_mode env))
        (w_objs w) (w_tick w) (w_out w ++ ls))) as Hatt.
  { intros w0. unfold start_attach, attach_mode. destruct (e_attach env DRV_MODE).
    - by eexists.
    - destruct Ha as [?|Ha]; [done|]. rewrite Ha. by eexists. }
  destruct (Hatt (World (w_pins w) (w_maps w) (w_xdp w) (S (w_objs w)) (w_tick w) (w_out w)))
    as [l1 E1].
  erewrite bind_Some by exact E1. cbv beta iota. erewrite bind_Some by reflexivity.
  edestruct (pin_maps_eq env MAP_NAMES) as [l2 E2]. erewrite bind_Some by exact E2.
  edestruct (set_config_any CFG_ENABLED 1) as (c & l3 & E3). erewrite bind_Some by exact E3.
  erewrite bind_Some by apply print_eq.
  exists (l1 ++ l2 ++ l3).
  unfold running, say, with_pins, with_maps, mret, prog_ret; simpl. by rewrite !app_assoc.
Qed.

Lemma start_up_fail env argv w :
  let '(ifname, obj) := start_args argv "" FW_OBJ_PATH in
  ~ comes_up env ifname obj ->
  exists ls, start_up env argv w = Some (inl 1, say ls w).
Proof using Type.
  unfold start_up. destruct (start_args argv "" FW_OBJ_PATH) as [ifname obj]. intros Hc.
  destruct (decide (ifname = "")) as [|Hn]; [by eexists|].
  destruct (Z.eqb_spec (e_ifindex env ifname) 0) as [|Hi]; [by eexists|].
  destruct (e_open env obj) eqn:Ho; cbn [negb]; [|by eexists].
  erewrite bind_Some by reflexivity.
  destruct (e_load env) eqn:Hl; cbn [negb]; [|by eexists].
  destruct (e_prog env) eqn:Hp; cbn [negb]; [|by eexists].
  unfold start_attach.
  destruct (e_attach env DRV_MODE) eqn:Hd; [exfalso; apply Hc; repeat split; auto|].
  destruct (e_attach env SKB_MODE) eqn:Hs; [exfalso; apply Hc; repeat split; auto|].
  by eexists.
Qed.

Lemma start_loop_ok env beats n w :
  exists m ls, start_loop env beats n w = Some (tt, say ls (with_maps m w)).
Proof using Type.
  revert n w. induction beats as [|beats IH]; intros n w; cbn [start_loop].
  { exists (w_maps w), []. rewrite say_nil. by destruct w. }
  erewrite bind_Some by apply maps_eq. erewrite bind_Some by reflexivity.
  erewrite bind_Some by apply print_eq.
  edestruct (IH (S n)) as (m & ls & E). rewrite E. exists m. eexists.
  unfold say, with_maps; simpl. by rewrite <-app_assoc.
Qed.
End Daemon.

(** ** The properties *)

Section DaemonProps.
Context `{Endian} {BL RD IS : Type}.
Context `{BpfHash BL Z, LpmTrie RD, BpfHash IS ip_stats}.
Context `{!BpfHashLaws BL Z, !LpmLaws RD, !BpfHashLaws IS ip_stats}.
#[local] Abbreviation kmaps := (kmaps BL RD IS).
#[local] Abbreviation world := (world BL RD IS).
#[local] Abbreviation sys_env := (sys_env (BL:=BL) (RD:=RD) (IS:=IS)).
Implicit Types (w : world) (m : kmaps) (env : sys_env).

Lemma cmd_start_ends env argv w :
  let '(ifname, obj) := start_args argv "" FW_OBJ_PATH in
  exists code w', cmd_start env argv w = Some (code, w') /\
  ((~ comes_up env ifname obj /\ code = 1 /\ exists ls, w' = say ls w) \/
   (comes_up env ifname obj /\ code = 0 /\ w_objs w' = w_objs w /\
    w_xdp w' = (if e_detach env then None else Some (e_ifindex env ifname, attach_mode env)) /\
    w_pins w' = pinned env MAP_NAMES (w_pins w) ∖ unpinned env MAP_NAMES)).
Proof using Type*.
  pose proof (start_up_ok env argv w) as Hup. pose proof (start_up_fail env argv w) as Hfail.
  destruct (start_args argv "" FW_OBJ_PATH) as [ifname obj].
  assert (Decision (comes_up env ifname obj)) as Hdec by (unfold comes_up; apply _).
  unfold cmd_start. destruct (decide (comes_up env ifname obj)) as [Hc|Hc].
  - destruct (Hup Hc) as [l1 E1]. erewrite bind_Some by exact E1. cbv beta iota.
    edestruct (start_loop_ok env (e_beats env) 0) as (m & l2 & E2).
    erewrite bind_Some by exact E2. unfold start_down.
    erewrite bind_Some by apply print_eq. destruct (e_detach env);
    (erewrite bind_Some by reflexivity; erewrite bind_Some by apply unpin_maps_eq;
     erewrite bind_Some by reflexivity; eexists _, _; split; [done|]; right;
     cbn [running say with_maps with_pins w_xdp w_objs w_pins pred]; by split_and!).
  - destruct (Hfail Hc) as [ls E]. erewrite bind_Some by exact E. cbv beta iota.
    eexists _, _. split; [done|]. left. eauto.
Qed.

(** C22. [start] never leaves a half-built firewall behind, whatever fails and
  however long it runs. If a stage before the loop fails (no interface name,
  no such interface, the object does not open or load, no program, neither
  attach mode works) it exits with 1 and has changed nothing but its output:
  no object is left open, no pin, no attachment. Otherwise, once a signal
  ends its loop, it exits with 0 and the object closed, the program is
  detached if detaching works (the code does not look; otherwise it stays
  attached, in the mode it was attached in), each of the five pins that can
  be removed is gone, one that cannot is there exactly when it was made, and
  no other pin has changed. *)
Theorem start_lifecycle env argv w :
  let '(ifname, obj) := start_args argv "" FW_OBJ_PATH in
  exists code w', cmd_start env argv w = Some (code, w') /\
  ((~ comes_up env ifname obj /\ code = 1 /\ exists ls, w' = say ls w) \/
   (comes_up env ifname obj /\ code = 0 /\ w_objs w' = w_objs w /\
    (if e_detach env then w_xdp w' = None
     else w_xdp w' = Some (e_ifindex env ifname,
                           if e_attach env DRV_MODE then DRV_MODE else SKB_MODE)) /\
    (forall name, name ∈ MAP_NAMES ->
       if e_unpin env name then pin_path name ∉ w_pins w'
       else if e_has_map env name then pin_path name ∈ w_pins w' <-> e_pin env name = true
       else pin_path name ∈ w_pins w' <-> pin_path name ∈ w_pins w) /\
    (forall path, path ∉ (pin_path <$> MAP_NAMES) -> path ∈ w_pins w' <-> path ∈ w_pins w))).
Proof using Type*.
  pose proof (cmd_start_ends env argv w) as Hs.
  destruct (start_args argv "" FW_OBJ_PATH) as [ifname obj].
  destruct Hs as (code & w' & E & Hs). exists code, w'. split; [done|].
  destruct Hs as [?|(? & ? & ? & Hx & Hp)]; [by left|right]. rewrite Hp. split_and!; try done.
  - by destruct (e_detach env).
  - intros name Hn. pose proof (elem_of_unpinned env MAP_NAMES name) as Hu.
    pose proof (elem_of_pinned env MAP_NAMES (w_pins w) name) as Hi.
    destruct (e_unpin env name); [set_solver|]. destruct (e_has_map env name).
    + rewrite decide_True in Hi by done. set_solver.
    + rewrite decide_False in Hi by (by intros [_ ?]). set_solver.
  - intros path Hn. pose proof (unpinned_other env MAP_NAMES path Hn).
    rewrite elem_of_difference, pinned_other by done. tauto.
Qed.

Lemma config_update_enabled m v :
  length (fw_config m) = 2%nat ->
  exists m', config_update CFG_ENABLED v m = Some m' /\
  m' = set_fw_config (<[0%nat := v]> (fw_config m)) m.
Proof using Type. intros Hl. unfold config_update. rewrite Hl. by eexists. Qed.

(** A start that comes up leaves the data plane filtering: the program is
  attached to the interface that was named, in native mode when the driver
  allows it and in generic mode otherwise; each map is pinned exactly when
  pinning it worked; and when every map was pinned, the other commands find
  the daemon, mitigation is enabled, and the other maps are the object's. *)
Theorem start_brings_up env argv w :
  let '(ifname, obj) := start_args argv "" FW_OBJ_PATH in
  comes_up env ifname obj -> length (fw_config (e_fresh env)) = 2%nat ->
  exists mode w', start_up env argv w = Some (inr (e_ifindex env ifname, mode), w') /\
  w_xdp w' = Some (e_ifindex env ifname, mode) /\ e_attach env mode = true /\
  (mode = SKB_MODE -> e_attach env DRV_MODE = false) /\
  (forall name, name ∈ MAP_NAMES -> e_has_map env name = true ->
     pin_path name ∈ w_pins w' <-> e_pin env name = true) /\
  ((forall name, name ∈ MAP_NAMES -> e_has_map env name = true /\ e_pin env name = true) ->
   daemon w' /\ enabled (w_maps w') /\
   w_maps w' = set_fw_config (fw_config (w_maps w')) (e_fresh env)).
Proof using Type*.
  pose proof (start_up_ok env argv w) as Hup.
  destruct (start_args argv "" FW_OBJ_PATH) as [ifname obj]. intros Hc Hl.
  destruct (Hup Hc) as [ls E]. eexists _, _. split; [exact E|].
  cbn [running w_xdp w_pins w_maps]. split; [done|].
  destruct Hc as (_ & _ & _ & _ & _ & Ha).
  split; [unfold attach_mode; destruct (e_attach env DRV_MODE) eqn:?; naive_solver|].
  split; [unfold attach_mode; by destruct (e_attach env DRV_MODE)|].
  assert (forall name, name ∈ MAP_NAMES -> e_has_map env name = true ->
    pin_path name ∈ pinned env MAP_NAMES (w_pins w) <-> e_pin env name = true) as Hpin.
  { intros name Hn Hm. rewrite elem_of_pinned. by rewrite decide_True by done. }
  split; [done|]. intros Hall.
  assert (daemon (running env ifname (ls ++ [running_line ifname]) w)) as Hd.
  { intros name Hn. apply Hpin; [done|apply Hall, Hn..]. }
  split; [done|]. rewrite decide_True by (apply Hd, in_map_names).
  destruct (config_update_enabled (e_fresh env) 1 Hl) as (m' & Em & ->). rewrite Em.
  cbn [default]. split; [|done].
  unfold enabled. cbn [set_fw_config fw_config].
  by destruct (fw_config (e_fresh env)) as [|? [|]].
Qed.

Lemma disabled_passes pkt cpu now m :
  bytes_ok pkt -> 34 <= frame_len pkt -> ~ enabled m ->
  exists m', fw_prog pkt cpu now m = Some (XDP_PASS, m').
Proof using Type*.
  intros Hb Hl He. destruct (fw_prog_fate pkt cpu now m Hb) as (c & Hf & E).
  rewrite E. destruct Hf; unfold mitigated in *; first [by eexists | exfalso; lia | exfalso; tauto].
Qed.

(** [start] ignores the answer of the write that enables mitigation. When
  the configuration map cannot be pinned, the write finds no map; the
  daemon goes on and says that it is running, attached, but the fresh
  configuration is zero, so every frame that can hold an IPv4 header
  passes, whatever the other maps say. *)
Theorem start_unprotected env argv w :
  let '(ifname, obj) := start_args argv "" FW_OBJ_PATH in
  comes_up env ifname obj -> e_has_map env MAP_CONFIG = true -> e_pin env MAP_CONFIG = false ->
  fw_config (e_fresh env) = [0; 0] ->
  exists mode w', start_up env argv w = Some (inr (e_ifindex env ifname, mode), w') /\
  w_xdp w' = Some (e_ifindex env ifname, mode) /\
  last (w_out w') = Some (running_line ifname) /\
  forall pkt cpu now, bytes_ok pkt -> 34 <= frame_len pkt ->
    exists m', fw_prog pkt cpu now (w_maps w') = Some (XDP_PASS, m').
Proof using Type*.
  pose proof (start_up_ok env argv w) as Hup.
  destruct (start_args argv "" FW_OBJ_PATH) as [ifname obj]. intros Hc Hm Hp Hz.
  destruct (Hup Hc) as [ls E]. eexists _, _. split; [exact E|].
  split; [done|]. split.
  { cbn [running w_out]. by rewrite app_assoc, last_snoc. }
  cbn [running w_maps]. rewrite decide_False.
  2:{ rewrite elem_of_pinned, decide_True by (split; [apply in_map_names|done]). by rewrite Hp. }
  intros pkt cpu now Hb Hl. apply disabled_passes; [done..|].
  unfold enabled. rewrite Hz. intros He. by apply He.
Qed.
End DaemonProps.

(** ** Configuration commands, statistics and [main] *)

Section Commands.
Context `{Endian} {BL RD IS : Type}.
Context `{BpfHash BL Z, LpmTrie RD, BpfHash IS ip_stats}.
Context `{!BpfHashLaws BL Z, !LpmLaws RD, !BpfHashLaws IS ip_stats}.
#[local] Abbreviation kmaps := (kmaps BL RD IS).
#[local] Abbreviation world := (world BL RD IS).
#[local] Abbreviation sys_env := (sys_env (BL:=BL) (RD:=RD) (IS:=IS)).
Implicit Types (w : world) (m : kmaps) (env : sys_env).

(** [w'] differs from [w] in the configuration and the output only. *)
Definition only_config w w' : Prop :=
  exists c ls, w' = say ls (with_maps (set_fw_config c (w_maps w)) w).

Lemma cmd_ratelimit_eq v0 rest w :
  daemon w -> length (fw_config (w_maps w)) = 2%nat ->
  cmd_ratelimit (v0 :: rest) w =
  Some (0, say [Out ("rate limit set to " +:+ show (strtoull v0) +:+ " pps")]
    (with_maps (set_fw_config (<[1%nat := strtoull v0]> (fw_config (w_maps w))) (w_maps w)) w)).
Proof using Type.
  intros Hd Hl. unfold cmd_ratelimit.
  by erewrite bind_Some by (apply set_config_ok; [done|rewrite Hl; unfold CFG_PPS; lia]).
Qed.

Lemma cmd_enable_eq w :
  daemon w -> length (fw_config (w_maps w)) = 2%nat ->
  cmd_enable w = Some (0, say [Out "mitigation enabled"]
  (with_maps (set_fw_config (<[0%nat := 1]> (fw_config (w_maps w))) (w_maps w)) w)).
Proof using Type.
  intros Hd Hl. unfold cmd_enable.
  by erewrite bind_Some by (apply set_config_ok; [done|rewrite Hl; unfold CFG_ENABLED; lia]).
Qed.

Lemma cmd_disable_eq w :
  daemon w -> length (fw_config (w_maps w)) = 2%nat ->
  cmd_disable w = Some (0, say [Out "mitigation disabled"]
  (with_maps (set_fw_config (<[0%nat := 0]> (fw_config (w_maps w))) (w_maps w)) w)).
Proof using Type.
  intros Hd Hl. unfold cmd_disable.
  by erewrite bind_Some by (apply set_config_ok; [done|rewrite Hl; unfold CFG_ENABLED; lia]).
Qed.

(** C25. The configuration commands set what the data plane reads. With the
  daemon running each exits with 0 and changes the configuration only:
  [ratelimit n] makes the limit [n] for every 64-bit number [n] and leaves
  the switch alone; [enable] turns mitigation on and [disable] off, keeping
  the limit; and while it is off every frame that can hold an IPv4 header
  passes. *)
Theorem config_commands (n : N) rest w :
  daemon w -> length (fw_config (w_maps w)) = 2%nat -> (n < 2 ^ 64)%N ->
  (exists w', cmd_ratelimit (pretty n :: rest) w = Some (0, w') /\ only_config w w' /\
   limit (w_maps w') = Z.of_N n /\ (enabled (w_maps w') <-> enabled (w_maps w))) /\
  (exists w', cmd_enable w = Some (0, w') /\ only_config w w' /\
   enabled (w_maps w') /\ limit (w_maps w') = limit (w_maps w)) /\
  (exists w', cmd_disable w = Some (0, w') /\ only_config w w' /\
   ~ enabled (w_maps w') /\ limit (w_maps w') = limit (w_maps w) /\
   forall pkt cpu now, bytes_ok pkt -> 34 <= frame_len pkt ->
     exists m', fw_prog pkt cpu now (w_maps w') = Some (XDP_PASS, m')).
Proof using Type*.
  intros Hd Hl Hn. rewrite cmd_ratelimit_eq, cmd_enable_eq, cmd_disable_eq by done.
  rewrite strtoull_pretty by (unfold ULLONG_MAX; lia).
  destruct (fw_config (w_maps w)) as [|x [|y []]] eqn:Ec; try done.
  split_and!; (eexists; split; [done|]; split; [by eexists _, _|]);
    cbn [say with_maps w_maps]; unfold enabled, limit; cbn [set_fw_config fw_config];
    rewrite ?Ec; cbn; try done.
  split; [by intros He; apply He|]. split; [done|]. intros pkt cpu now Hb Hp.
  apply disabled_passes; [done..|]. unfold enabled. cbn. by intros He; apply He.
Qed.

(** The command complains that there is no daemon, and exits with 0 after it
  printed [msg]; nothing else changes. *)
Definition claims_success (c : prog world Z) (msg : string) w : Prop :=
  c w = Some (0, say [no_daemon; Out msg] w).

(** [ratelimit], [enable] and [disable] report success whatever happened:
  with no daemon each of them exits with 0 and prints, after the error, that
  the setting was made, and nothing was. *)
Theorem config_commands_silent v0 rest w :
  pin_path MAP_CONFIG ∉ w_pins w ->
  claims_success (cmd_ratelimit (v0 :: rest))
    ("rate limit set to " +:+ show (strtoull v0) +:+ " pps") w /\
  claims_success cmd_enable "mitigation enabled" w /\
  claims_success cmd_disable "mitigation disabled" w.
Proof using Type.
  intros Hp. unfold claims_success, cmd_ratelimit, cmd_enable, cmd_disable.
  split_and!; erewrite bind_Some by (by apply set_config_no_daemon);
    (etrans; [erewrite bind_Some by apply print_eq; reflexivity|]); by rewrite say_say.
Qed.
End Commands.

(** *** Witnesses *)

(** A system with one interface, eth0, where everything works except that
    [pin] says which maps can be pinned. *)
Definition demo_fresh : demo_maps := Kmaps ∅ ∅ ∅ [0; 0] [Counters 0 0 0].

Definition demo_env (pin : string -> bool) :
    sys_env (BL:=gmap Z Z) (RD:=gmap (Z * Z) Z) (IS:=gmap Z ip_stats) := {|
  e_ifindex s := if decide (s = "eth0") then 2 else 0;
  e_open _ := true;
  e_load := true;
  e_prog := true;
  e_attach _ := true;
  e_has_map _ := true;
  e_pin := pin;
  e_fresh := demo_fresh;
  e_detach := true;
  e_unpin _ := true;
  e_beats := 2;
  e_traffic _ _ := demo_fresh;
|}.

(** Before the daemon: no pins. *)
Definition bare_world : world (gmap Z Z) (gmap (Z * Z) Z) (gmap Z ip_stats) :=
  World ∅ demo_fresh None 0 0 [].

Lemma demo_comes_up pin : comes_up (demo_env pin) "eth0" FW_OBJ_PATH.
Proof. split; [discriminate|]. split; [discriminate|]. repeat split; by left. Defined.

Lemma start_lifecycle_witness :
  let _ := little in
  exists code w', cmd_start (demo_env (fun _ => true)) ["eth0"] bare_world = Some (code, w') /\
    ((~ comes_up (demo_env (fun _ => true)) "eth0" FW_OBJ_PATH /\ code = 1 /\
      exists ls, w' = say ls bare_world) \/
     (comes_up (demo_env (fun _ => true)) "eth0" FW_OBJ_PATH /\ code = 0 /\
      w_objs w' = w_objs bare_world /\ w_xdp w' = None /\
      (forall name, name ∈ MAP_NAMES -> pin_path name ∉ w_pins w') /\
      (forall path, path ∉ (pin_path <$> MAP_NAMES) ->
         path ∈ w_pins w' <-> path ∈ w_pins bare_world))).
Proof. intros en. exact (start_lifecycle (demo_env (fun _ => true)) ["eth0"] bare_world). Defined.

Lemma start_brings_up_witness :
  let _ := little in
  exists mode w', start_up (demo_env (fun _ => true)) ["eth0"] bare_world = Some (inr (2, mode), w') /\
    w_xdp w' = Some (2, mode) /\ true = true /\
    (mode = SKB_MODE -> true = false) /\
    (forall name, name ∈ MAP_NAMES -> true = true -> pin_path name ∈ w_pins w' <-> true = true) /\
    ((forall name, name ∈ MAP_NAMES -> true = true /\ true = true) ->
     daemon w' /\ enabled (w_maps w') /\
     w_maps w' = set_fw_config (fw_config (w_maps w')) demo_fresh).
Proof.
  intros en.
  exact (start_brings_up (demo_env (fun _ => true)) ["eth0"] bare_world
    (demo_comes_up _) eq_refl).
Defined.

Lemma start_unprotected_witness :
  let _ := little in
  exists mode w', start_up (demo_env (fun _ => false)) ["eth0"] bare_world
      = Some (inr (2, mode), w') /\
    w_xdp w' = Some (2, mode) /\ last (w_out w') = Some (running_line "eth0") /\
    forall pkt cpu now, bytes_ok pkt -> 34 <= frame_len pkt ->
      exists m', fw_prog pkt cpu now (w_maps w') = Some (XDP_PASS, m').
Proof.
  intros en.
  exact (start_unprotected (demo_env (fun _ => false)) ["eth0"] bare_world
    (demo_comes_up _) eq_refl eq_refl eq_refl).
Defined.

Lemma config_commands_witness :
  let _ := little in
  (exists w', cmd_ratelimit ["500"] demo_world = Some (0, w') /\ only_config demo_world w' /\
     limit (w_maps w') = 500 /\ (enabled (w_maps w') <-> enabled (w_maps demo_world))) /\
  (exists w', cmd_enable demo_world = Some (0, w') /\ only_config demo_world w' /\
     enabled (w_maps w') /\ limit (w_maps w') = limit (w_maps demo_world)) /\
  (exists w', cmd_disable demo_world = Some (0, w') /\ only_config demo_world w' /\
     ~ enabled (w_maps w') /\ limit (w_maps w') = limit (w_maps demo_world) /\
     forall pkt cpu now, bytes_ok pkt -> 34 <= frame_len pkt ->
       exists m', fw_prog pkt cpu now (w_maps w') = Some (XDP_PASS, m')).
Proof.
  intros en. apply (config_commands 500 [] demo_world demo_daemon eq_refl). lia.
Defined.

Lemma config_commands_silent_witness :
  claims_success (cmd_ratelimit ["500"]) "rate limit set to 500 pps" bare_world /\
  claims_success cmd_enable "mitigation enabled" bare_world /\
  claims_success cmd_disable "mitigation disabled" bare_world.
Proof. apply (config_commands_silent "500" [] bare_world). vm_compute. discriminate. Defined.
