(* ===== verification/FwMain.v ===== *)
(** * Statistics and the command line, [print_stats] and [main] of [wall/fw.cpp]

    The totals that [stats] prints, against the frames the data plane saw; and
    the whole command line: every command ends ([start] and [watch] once a
    signal comes), and without a daemon none of them changes anything. *)

From S2P Require Import Prelude BpfMaps FwProg FwSpec RateLimit FwTrace CStrings Detector FwCtl FwCtlSpec FwWatch FwDaemon.
#[local] Open Scope Z_scope.

(** ** Sums over the CPUs *)

Definition sumz (l : list Z) : Z := foldr Z.add 0 l.

Lemma sumz_app l k : sumz (l ++ k) = sumz l + sumz k.
Proof. induction l; simpl; lia. Qed.

Lemma sumz_add {A} (f g : A -> Z) l :
  sumz ((fun x => f x + g x) <$> l) = sumz (f <$> l) + sumz (g <$> l).
Proof. induction l as [|x l IH]; [done|]. unfold sumz in *. rewrite !fmap_cons. cbn [foldr]. lia. Qed.

Lemma sumz_0 {A} (f : A -> Z) l : (forall x, x ∈ l -> f x = 0) -> sumz (f <$> l) = 0.
Proof.
  intros Hf. induction l as [|x l IH]; [done|]. rewrite fmap_cons. cbn [sumz foldr].
  fold (sumz (f <$> l)). rewrite IH by (intros; apply Hf; by right). rewrite (Hf x) by left. lia.
Qed.

(** One of [n] CPUs: an indicator summed over them. *)
Lemma sumz_indicator c n (P : nat -> bool) :
  (c < n)%nat -> (forall i, P i = true -> i = c) ->
  sumz ((fun i => if P i then 1 else 0) <$> seq 0 n) = if P c then 1 else 0.
Proof.
  intros Hc HP. replace n with (c + (1 + (n - c - 1)))%nat by lia.
  rewrite !seq_app, !fmap_app, !sumz_app.
  rewrite (sumz_0 _ (seq 0 c)), (sumz_0 _ (seq (0 + c + 1) _));
    [simpl; by destruct (P c)| |];
    intros i [Hi1 Hi2]%elem_of_seq; destruct (P i) eqn:E; try done; apply HP in E; lia.
Qed.

(** The elements of [l] that satisfy [P], counted CPU by CPU. *)
Lemma sumz_count {A} (cpu : A -> nat) (P : A -> Prop) `{forall x, Decision (P x)} n l :
  Forall (fun x => (cpu x < n)%nat) l ->
  sumz ((fun i => Z.of_nat (length (filter (fun x => cpu x = i /\ P x) l))) <$> seq 0 n) =
    Z.of_nat (length (filter P l)).
Proof.
  induction 1 as [|x l Hx _ IH]; [by apply sumz_0|].
  rewrite filter_cons. etrans.
  { apply (f_equal sumz), (list_fmap_ext _ (fun i =>
      (if bool_decide (cpu x = i /\ P x) then 1 else 0) +
      Z.of_nat (length (filter (fun x => cpu x = i /\ P x) l)))).
    intros _ i _. rewrite filter_cons. case_bool_decide; case_decide; try tauto; simpl; lia. }
  rewrite sumz_add, IH, (sumz_indicator (cpu x)); [|done|].
  - case_bool_decide; case_decide; try tauto; simpl; lia.
  - by intros i [? _]%bool_decide_eq_true.
Qed.

Lemma total_counters_sum vals :
  total_counters vals =
    Counters (u64 (sumz (rx <$> vals))) (u64 (sumz (dropped <$> vals)))
      (u64 (sumz (passed <$> vals))).
Proof.
  unfold total_counters.
  assert (forall a b c, foldl add_counters (Counters (u64 a) (u64 b) (u64 c)) vals =
    Counters (u64 (a + sumz (rx <$> vals))) (u64 (b + sumz (dropped <$> vals)))
      (u64 (c + sumz (passed <$> vals)))) as E.
  { induction vals as [|v vals IH]; intros a b c; cbn [foldl fmap list_fmap sumz foldr].
    - by rewrite !Z.add_0_r.
    - unfold add_counters at 2; cbn [rx dropped passed].
      unfold u64. rewrite !wrap_add_l by lia. fold (u64 (a + rx v)) (u64 (b + dropped v)) (u64 (c + passed v)).
      rewrite IH. unfold u64, sumz. f_equal; f_equal; lia. }
  apply (E 0 0 0).
Qed.

Section FwMain.
Context `{Endian} {BL RD IS : Type}.
Context `{BpfHash BL Z, LpmTrie RD, BpfHash IS ip_stats}.
Context `{!BpfHashLaws BL Z, !LpmLaws RD, !BpfHashLaws IS ip_stats}.
#[local] Abbreviation kmaps := (kmaps BL RD IS).
#[local] Abbreviation world := (world BL RD IS).
Implicit Types (w : world) (fs : list frame) (st : kmaps).

(** The frames of all CPUs that were passed, and that were counted as dropped. *)
Definition all_passed fs (vs : list xdp_action) : Z :=
  Z.of_nat (length (filter (fun '(_, v) => v = XDP_PASS) (zip fs vs))).
Definition all_dropped fs (vs : list xdp_action) : Z :=
  Z.of_nat (length (filter (fun '(f, v) =>
  v = XDP_DROP /\ 14 <= frame_len (f_bytes f)) (zip fs vs))).

Definition on_cpus (ncpu : nat) fs : Prop := Forall (fun f => (f_cpu f < ncpu)%nat) fs.

Lemma on_cpus_zip ncpu fs (vs : list xdp_action) :
  on_cpus ncpu fs -> Forall (fun x => (f_cpu (fst x) < ncpu)%nat) (zip fs vs).
Proof using Type.
  intros Hc. revert vs. induction Hc; intros [|v vs]; simpl; constructor; auto.
Qed.

Lemma sum_passed ncpu fs vs :
  on_cpus ncpu fs ->
  sumz ((fun i => n_passed i fs vs) <$> seq 0 ncpu) = all_passed fs vs.
Proof using Type.
  intros Hc. unfold n_passed, all_passed.
  rewrite <-(sumz_count (fun x => f_cpu (fst x)) _ ncpu).
  - f_equal. apply list_fmap_ext. intros _ i _. do 2 f_equal.
    apply list_filter_iff. by intros [].
  - by apply on_cpus_zip.
Qed.

Lemma sum_dropped ncpu fs vs :
  on_cpus ncpu fs ->
  sumz ((fun i => n_dropped i fs vs) <$> seq 0 ncpu) = all_dropped fs vs.
Proof using Type.
  intros Hc. unfold n_dropped, all_dropped.
  rewrite <-(sumz_count (fun x => f_cpu (fst x)) _ ncpu).
  - f_equal. apply list_fmap_ext. intros _ i _. do 2 f_equal.
    apply list_filter_iff. by intros [].
  - by apply on_cpus_zip.
Qed.

Lemma fw_run_length fs st vs st' :
  frames_ok fs -> fw_run fs st = Some (vs, st') ->
  length vs = length fs /\ length (fw_stats st') = length (fw_stats st).
Proof using Type*.
  revert st vs. induction fs as [|f fs IH]; intros st vs Hok Hr; [by injection Hr as <- <-|].
  apply Forall_cons in Hok as [Hb Hok].
  destruct (fw_run_cons f fs st Hb) as (c & _ & E). rewrite E in Hr.
  unfold mbind, prog_bind in Hr.
  destruct (fw_run fs _) as [[vs1 st1]|] eqn:E1; [|done]. injection Hr as <- <-.
  destruct (IH _ _ Hok E1) as [Hl Hs]. split; [simpl; by rewrite Hl|].
  rewrite Hs. cbn [spec_state fw_stats]. apply length_alter.
Qed.

Lemma fw_run_stats ncpu fs st vs st' :
  frames_ok fs -> fw_stats st = replicate ncpu (Counters 0 0 0) ->
  fw_run fs st = Some (vs, st') ->
  fw_stats st' =
  (fun i => count_on (n_passed i fs vs) (n_dropped i fs vs) (Counters 0 0 0)) <$> seq 0 ncpu.
Proof using Type*.
  intros Hok Hz Hr. destruct (fw_run_length fs st vs st' Hok Hr) as [_ Hl].
  rewrite Hz, length_replicate in Hl. apply list_eq_same_length with ncpu; [by rewrite length_fmap, length_seq|done|].
  intros i x y Hi Hx Hy.
  assert (fw_stats st !! i = Some (Counters 0 0 0)) as Hk by (rewrite Hz; by apply lookup_replicate_2).
  destruct (fw_run_count fs st i _ Hok Hk) as (vs1 & st1 & E & _ & Hs); [repeat split; simpl; lia|].
  rewrite Hr in E. injection E as <- <-. rewrite Hs in Hx. injection Hx as <-.
  rewrite list_lookup_fmap, lookup_seq_lt in Hy by done. by injection Hy as <-.
Qed.

Lemma all_counted fs vs :
  length vs = length fs ->
  all_passed fs vs + all_dropped fs vs <= Z.of_nat (length fs).
Proof using Type.
  unfold all_passed, all_dropped. revert vs.
  induction fs as [|f fs IH]; intros [|v vs] Hl; try done. injection Hl as Hl.
  specialize (IH vs Hl). cbn [zip zip_with]. rewrite !filter_cons.
  destruct (decide (v = XDP_PASS)) as [->|Hv]; repeat case_decide;
    try (exfalso; naive_solver); cbn [length]; lia.
Qed.

Lemma counted_on i fs vs :
  length vs = length fs -> n_passed i fs vs + n_dropped i fs vs <= Z.of_nat (length fs).
Proof using Type.
  intros Hl. etrans; [|by apply all_counted]. unfold all_passed, all_dropped, n_passed, n_dropped.
  apply Z.add_le_mono; apply Nat2Z.inj_le, length_filter_mono; intros [f v]; tauto.
Qed.

(** C23. [stats] reports the traffic. When the counters started at zero on
  every CPU and any sequence of fewer than 2^64 frames was then processed on
  those CPUs, [stats] prints as [passed] the number of frames that were
  passed, as [dropped] the number that were dropped (those too short for an
  Ethernet header are not counted), and as [rx] their sum, whatever CPU each
  frame came in on. *)
Theorem stats_account ncpu fs vs st' w :
  frames_ok fs -> on_cpus ncpu fs -> Z.of_nat (length fs) < 2 ^ 64 ->
  pin_path MAP_STATS ∈ w_pins w ->
  fw_stats (w_maps w) = replicate ncpu (Counters 0 0 0) ->
  fw_run fs (w_maps w) = Some (vs, st') ->
  let w' := with_maps st' w in
  let d := all_dropped fs vs in let p := all_passed fs vs in
  print_stats w' = Some (tt, say [Out (stats_line " " (Counters (p + d) d p))] w').
Proof using Type*.
  intros Hok Hc Hn Hp Hz Hr w' d p. unfold print_stats.
  erewrite bind_Some by by apply get_map_ok. cbn [negb].
  erewrite bind_Some by apply maps_eq. rewrite print_eq. do 5 f_equal.
  cbn [w' with_maps w_maps]. rewrite (fw_run_stats _ _ _ _ _ Hok Hz Hr), total_counters_sum.
  destruct (fw_run_length fs _ _ _ Hok Hr) as [Hl _].
  pose proof (all_counted fs vs Hl) as Hle. fold p d in Hle.
  assert (0 <= p /\ 0 <= d) as [? ?] by (unfold p, d, all_passed, all_dropped; lia).
  assert (forall i, uint_ok 64 (n_passed i fs vs) /\ uint_ok 64 (n_dropped i fs vs) /\
    uint_ok 64 (n_passed i fs vs + n_dropped i fs vs)) as Hi.
  { intros i. pose proof (counted_on i fs vs Hl). unfold uint_ok, n_passed, n_dropped in *. lia. }
  assert (forall i, count_on (n_passed i fs vs) (n_dropped i fs vs) (Counters 0 0 0) =
    Counters (n_passed i fs vs + n_dropped i fs vs) (n_dropped i fs vs) (n_passed i fs vs)) as Hco.
  { intros i. destruct (Hi i) as (? & ? & ?). unfold count_on, u64. cbn [rx dropped passed].
    by rewrite !Z.add_0_l, !wrap_small. }
  rewrite (list_fmap_ext _ (fun i => Counters (n_passed i fs vs + n_dropped i fs vs)
    (n_dropped i fs vs) (n_passed i fs vs)) (seq 0 ncpu)) by (intros; apply Hco).
  rewrite <-!list_fmap_compose. unfold compose. cbn [rx dropped passed].
  rewrite sumz_add, sum_passed, sum_dropped by done. fold p d.
  unfold u64. rewrite !wrap_small by (unfold uint_ok; lia). done.
Qed.
End FwMain.

(** ** The command line *)

Section Main.
Context `{Endian} {BL RD IS : Type}.
Context `{BpfHash BL Z, LpmTrie RD, BpfHash IS ip_stats}.
Context `{!BpfHashLaws BL Z, !LpmLaws RD, !BpfHashLaws IS ip_stats}.
Context (inet_pton : string -> option Z) (inet_ntop : Z -> string) (clock : nat -> Z * Z).
#[local] Abbreviation kmaps := (kmaps BL RD IS).
#[local] Abbreviation world := (world BL RD IS).
#[local] Abbreviation sys_env := (sys_env (BL:=BL) (RD:=RD) (IS:=IS)).
#[local] Abbreviation main := (main inet_pton inet_ntop clock).
Implicit Types (w : world) (m : kmaps) (env : sys_env).

(** The command ends, with an exit code of 0 or 1. *)
Definition exits (c : prog world Z) w : Prop :=
  exists code w', c w = Some (code, w') /\ (code = 0 \/ code = 1).

Lemma exits_bind {A} (c : prog world A) (k : A -> prog world Z) w a w' :
  c w = Some (a, w') -> exits (k a) w' -> exits (c ≫= k) w.
Proof using Type. unfold exits. intros E. by rewrite (bind_Some _ _ _ _ _ E). Qed.

Lemma exits_ret code w : code = 0 \/ code = 1 -> exits (mret code) w.
Proof using Type. intros Hc. by exists code, w. Qed.

Lemma exits_print l code w : code = 0 \/ code = 1 -> exits (_ ← print l; mret code) w.
Proof using Type. intros Hc. eapply exits_bind; [done|]. by apply exits_ret. Qed.

Lemma exits_get_map name (k : bool -> prog world Z) w :
  (forall b w', exits (k b) w') -> exits (get_map name ≫= k) w.
Proof using Type.
  intros Hk. destruct (decide (pin_path name ∈ w_pins w)).
  - eapply exits_bind; [by apply get_map_ok|auto].
  - eapply exits_bind; [by apply get_map_fail|auto].
Qed.

Lemma exits_try_set o (k : Z -> prog world Z) w :
  (forall r w', exits (k r) w') -> exits (try_set o ≫= k) w.
Proof using Type. intros Hk. destruct o; (eapply exits_bind; [done|auto]). Qed.

Lemma exits_maps (k : kmaps -> prog world Z) w :
  (forall m, exits (k m) w) -> exits (maps ≫= k) w.
Proof using Type. intros Hk. eapply exits_bind; [done|auto]. Qed.

Lemma exits_block ip sec (k : Z -> prog world Z) w :
  (forall r w', exits (k r) w') -> exits (block_ip clock ip sec ≫= k) w.
Proof using Type.
  intros Hk. pose proof (block_ip_eq clock ip sec w) as E.
  destruct (bpf_update _ _ _); (eapply exits_bind; [exact E|auto]).
Qed.

Lemma exits_config idx v (k : Z -> prog world Z) w :
  (forall r w', exits (k r) w') -> exits (set_config idx v ≫= k) w.
Proof using Type.
  intros Hk. destruct (set_config_any idx v w) as (r & ls & E).
  eapply exits_bind; [exact E|auto].
Qed.

Lemma print_all_ok ls w : print_all ls w = Some (tt, say ls w).
Proof using Type.
  revert w. induction ls as [|l ls IH]; intros w; cbn [print_all].
  - by rewrite say_nil.
  - erewrite bind_Some by apply print_eq. by rewrite IH, say_say.
Qed.

Lemma watch_loop_ok env ds sec beats n w :
  exists w', watch_loop inet_ntop clock env ds sec beats n w = Some (tt, w').
Proof using Type*.
  revert n w. induction beats as [|beats IH]; intros n w; cbn [watch_loop]; [by eexists|].
  erewrite bind_Some by apply maps_eq. erewrite bind_Some by reflexivity.
  erewrite bind_Some by apply maps_eq. cbn [w_maps].
  edestruct (watch_pass_ends inet_ntop clock ds sec) as [w1 E1].
  erewrite bind_Some by exact E1. apply IH.
Qed.

Lemma cmd_watch_exits env argv w :
  exits (cmd_watch inet_ntop clock env argv) w.
Proof using Type*.
  unfold cmd_watch.
  apply exits_get_map. intros b1 w1. apply exits_get_map. intros b2 w2.
  destruct (negb b1 || negb b2); [by apply exits_ret; auto|].
  eapply exits_bind; [apply print_eq|]. eapply exits_bind; [apply print_all_ok|].
  edestruct (watch_loop_ok env (Det.all Det.builtin)) as [w3 E3].
  eapply exits_bind; [exact E3|]. apply exits_ret. auto.
Qed.

Lemma cmd_start_exits env argv w : exits (cmd_start env argv) w.
Proof using Type*.
  pose proof (cmd_start_ends env argv w) as Hs.
  destruct (start_args argv "" FW_OBJ_PATH) as [ifname obj].
  destruct Hs as (code & w' & E & Hs). exists code, w'. split; [done|].
  destruct Hs as [(_ & -> & _)|(_ & -> & _)]; auto.
Qed.

Ltac exits :=
  repeat first
  [ progress intros | apply exits_print; solve [auto] | apply exits_ret; solve [auto]
  | apply exits_get_map | apply exits_maps | apply exits_try_set | apply exits_block
  | apply exits_config
  | match goal with
    | |- exits (if ?b then _ else _) _ => destruct b
    | |- exits (match ?x with _ => _ end) _ => destruct x
    | |- exits (let '_ := ?x in _) _ => destruct x
    end ].

(** The text a range command cannot read: the number of the prefix does not
  fit an int, which [sscanf] leaves undefined. *)
Definition cidr_readable (argv : list string) : Prop :=
  forall c a0 rest, argv = c :: a0 :: rest -> c = "range" \/ c = "unrange" ->
  is_Some (parse_cidr inet_pton a0).

(** C24. Every command line ends, with an exit code of 0 or 1, from every state
  of the system and whatever it answers: for all arguments but a prefix length
  too long for an int, which [sscanf] does not define, and with or without the
  daemon. [start] and [watch] go on until a signal comes; with a signal after
  any number of rounds they end too, whatever happened to the maps between the
  rounds. In particular every scan of [watch] ends, with a full blocklist as
  well, as long as nobody changes the statistics during the scan itself. *)
Theorem main_exits env argv w :
  cidr_readable argv ->
  exists code w', main env argv w = Some (code, w') /\ (code = 0 \/ code = 1).
Proof using Type*.
  intros Hcidr. change (exits (main env argv) w).
  assert (forall (c : string) v (k : option (Z * Z) -> prog world Z), argv = c :: v ->
    c = "range" \/ c = "unrange" ->
    (forall p w', exits (k p) w') ->
    forall a0 rest, v = a0 :: rest -> exits (plift (parse_cidr inet_pton a0) ≫= k) w) as Hlift.
  { intros c v k -> Hc Hk a0 rest ->. destruct (Hcidr c a0 rest eq_refl Hc) as [p Hp].
    rewrite Hp. eapply exits_bind; [done|apply Hk]. }
  unfold FwCtl.main. destruct argv as [|c v]; [by exits|].
  case_decide as Hst; [apply cmd_start_exits|].
  case_decide; [by apply cmd_watch_exits|].
  case_decide; [unfold cmd_block; by exits|].
  case_decide; [unfold cmd_unblock; by exits|].
  case_decide as Hr.
  { unfold cmd_range. destruct v as [|a0 rest] eqn:Ev; [by exits|].
    eapply Hlift; [done|by left| |done]. by exits. }
  case_decide as Hu.
  { unfold cmd_unrange. destruct v as [|a0 rest] eqn:Ev; [by exits|].
    eapply Hlift; [done|by right| |done]. by exits. }
  case_decide; [unfold cmd_ratelimit; by exits|].
  case_decide; [unfold cmd_enable; by exits|].
  case_decide; [unfold cmd_disable; by exits|].
  case_decide.
  { unfold print_stats. destruct (decide (pin_path MAP_STATS ∈ w_pins w)).
    - eapply exits_bind; [|by exits]. by erewrite bind_Some by by apply get_map_ok.
    - eapply exits_bind; [|by exits]. by erewrite bind_Some by by apply get_map_fail. }
  case_decide; by exits.
Qed.

(** Only text was printed. *)
Definition prints (c : prog world Z) w (code : Z) : Prop :=
  exists ls, c w = Some (code, say ls w).

Lemma prints_no_map name (k : bool -> prog world Z) w code :
  pin_path name ∉ w_pins w -> (forall w', w_pins w' = w_pins w -> prints (k false) w' code) ->
  prints (get_map name ≫= k) w code.
Proof using Type.
  intros Hp Hk. unfold prints. erewrite bind_Some by by apply get_map_fail.
  destruct (Hk (say [no_daemon] w)) as [ls E]; [done|]. rewrite E, say_say. by eexists.
Qed.

Lemma prints_ret code w : prints (mret code) w code.
Proof using Type. exists []. by rewrite say_nil. Qed.

Lemma prints_print l code w : prints (_ ← print l; mret code) w code.
Proof using Type. by eexists. Qed.

Lemma prints_config idx v l w :
  pin_path MAP_CONFIG ∉ w_pins w -> prints (_ ← set_config idx v; _ ← print l; mret 0) w 0.
Proof using Type.
  intros Hp. unfold prints. erewrite bind_Some by by apply set_config_no_daemon. eexists.
  erewrite bind_Some by apply print_eq. by rewrite say_say.
Qed.

Lemma prints_lift {A} (o : option A) (k : A -> prog world Z) w code :
  is_Some o -> (forall a, prints (k a) w code) -> prints (plift o ≫= k) w code.
Proof using Type. intros [a ->] Hk. unfold prints. erewrite bind_Some by done. apply Hk. Qed.

(** A command that needs map [name], which is not pinned. *)
Ltac no_map Hp :=
  repeat first
  [ apply prints_print | apply prints_ret | progress intros
  | apply prints_no_map; [solve [by apply Hp]|]
  | apply prints_lift; [by auto|]
  | match goal with
    | |- prints (match ?x with _ => _ end) _ _ => destruct x
    | |- prints (let '_ := ?x in _) _ _ => destruct x
    end ].

(** Without a daemon nothing is changed. When no map is pinned, every
  command except [start] only prints; [block], [unblock], [range], [unrange]
  and [watch] also exit with 1. *)
Theorem main_no_daemon env c v w :
  (forall name, name ∈ MAP_NAMES -> pin_path name ∉ w_pins w) -> c <> "start" ->
  cidr_readable (c :: v) ->
  exists code ls, main env (c :: v) w = Some (code, say ls w) /\
  (c ∈ ["block"; "unblock"; "range"; "unrange"; "watch"] -> code = 1).
Proof using Type*.
  intros Hp Hst Hcidr.
  enough (exists code, prints (main env (c :: v)) w code /\
    (c ∈ ["block"; "unblock"; "range"; "unrange"; "watch"] -> code = 1)) as (code & [ls E] & Hc)
    by eauto.
  pose proof in_map_names as (M1 & M2 & M3 & M4 & M5).
  unfold FwCtl.main. rewrite decide_False by done.
  assert (forall a0 rest, v = a0 :: rest -> c = "range" \/ c = "unrange" ->
    is_Some (parse_cidr inet_pton a0)) as Hc
    by (intros a0 rest ->; by apply (Hcidr c a0 rest)).
  case_decide.
  { exists 1. split; [|done]. unfold cmd_watch. apply prints_no_map; [by apply Hp|].
    intros w1 E1. apply prints_no_map; [rewrite E1; by apply Hp|]. intros. apply prints_ret. }
  case_decide; [exists 1; split; [unfold cmd_block; no_map Hp|done]|].
  case_decide; [exists 1; split; [unfold cmd_unblock; no_map Hp|done]|].
  case_decide.
  { exists 1. split; [|done]. unfold cmd_range. destruct v as [|a0 rest]; [apply prints_print|].
    specialize (Hc a0 rest eq_refl ltac:(auto)). no_map Hp. }
  case_decide.
  { exists 1. split; [|done]. unfold cmd_unrange. destruct v as [|a0 rest]; [apply prints_print|].
    specialize (Hc a0 rest eq_refl ltac:(auto)). no_map Hp. }
  assert (c ∉ ["block"; "unblock"; "range"; "unrange"; "watch"]) as Hnot by set_solver.
  case_decide.
  { unfold cmd_ratelimit. destruct v; [exists 1; split; [apply prints_print|done]|].
    exists 0. split; [by apply prints_config, Hp|done]. }
  case_decide; [exists 0; split; [apply prints_config; by apply Hp|done]|].
  case_decide; [exists 0; split; [apply prints_config; by apply Hp|done]|].
  case_decide; [exists 0; split; [|done]; unfold prints, print_stats|].
  { eexists. erewrite bind_Some by (erewrite bind_Some by (by apply get_map_fail, Hp); reflexivity).
    reflexivity. }
  case_decide; (eexists; split; [apply prints_print|done]).
Qed.
End Main.

(** *** Witnesses *)

Lemma stats_account_witness :
  let _ := little in
  exists vs st', fw_run demo_frames (w_maps demo_world) = Some (vs, st') /\
    print_stats (with_maps st' demo_world) =
      Some (tt, say [Out (stats_line " "
        (Counters (all_passed demo_frames vs + all_dropped demo_frames vs)
           (all_dropped demo_frames vs) (all_passed demo_frames vs)))]
        (with_maps st' demo_world)).
Proof.
  intros en. destruct demo_frames_run as (vs & st' & E). exists vs, st'. split; [exact E|].
  apply (stats_account 1 demo_frames vs st' demo_world).
  - exact demo_frames_ok.
  - repeat constructor.
  - simpl; lia.
  - apply demo_daemon, in_map_names.
  - reflexivity.
  - exact E.
Defined.

Lemma main_exits_witness :
  let _ := little in
  exists code w', main demo_pton demo_ntop demo_clock (demo_env (fun _ => true)) ["watch"; "5"]
      demo_world = Some (code, w') /\ (code = 0 \/ code = 1).
Proof.
  intros en. apply (main_exits demo_pton demo_ntop demo_clock (demo_env (fun _ => true))).
  intros c a0 rest [= <- _ _] [?|?]; discriminate.
Defined.

Lemma main_no_daemon_witness :
  let _ := little in
  exists code ls, main demo_pton demo_ntop demo_clock (demo_env (fun _ => true))
      ["block"; "10.0.0.2"] bare_world = Some (code, say ls bare_world) /\
    ("block" ∈ ["block"; "unblock"; "range"; "unrange"; "watch"] -> code = 1).
Proof.
  intros en.
  apply (main_no_daemon demo_pton demo_ntop demo_clock (demo_env (fun _ => true)) "block").
  - intros name _ Hin. vm_compute in Hin. discriminate.
  - discriminate.
  - intros c a0 rest [= <- _ _] [?|?]; discriminate.
Defined.
