(* ===== verification/FwRaces.v ===== *)
(** * The data plane among others: counters and accesses

    Every processor runs [fw_prog] on the frames it receives, and the commands
    of [fw.cpp] change the maps meanwhile. The accesses of all of them
    interleave in any order ([Interleave.run], with [fw_code] for the program
    and [ctl_effect] for what a command does to the maps, which is one change at
    most: [control_effect]). Whatever the order, the counters are exact, no
    processor faults, and each frame is decided after a bounded number of its
    own accesses. *)

From S2P Require Import Prelude Interleave BpfMaps FwProg FwSpec RateLimit FwTrace FwConc CStrings Detector FwCtl FwCtlSpec FwWatch FwDaemon FwMain.
#[local] Open Scope Z_scope.

(** A frame and the time its program reads. *)
Definition job : Type := list Z * Z.

(** ** What the control plane does at once *)

Section Control.
Context `{Endian} {BL RD IS : Type}.
Context `{BpfHash BL Z, LpmTrie RD, BpfHash IS ip_stats}.
Context (inet_pton : string -> option Z) (inet_ntop : Z -> string) (clock : nat -> Z * Z).
#[local] Abbreviation kmaps := (kmaps BL RD IS).
#[local] Abbreviation world := (world BL RD IS).
Implicit Types (m : kmaps) (w : world).

(** Each command other than [start] and [watch] makes at most one system call
  that changes a map, and so does a pass of [watch] for each ban: to the data
  plane they are atomic. *)
Inductive control m m' : Prop :=
  | control_command env argv w code w' :
      w_maps w = m -> w_maps w' = m' -> head argv ∉ [Some "start"; Some "watch"] ->
      main inet_pton inet_ntop clock env argv w = Some (code, w') -> control m m'
  | control_ban ip sec w code w' :
      w_maps w = m -> w_maps w' = m' -> block_ip clock ip sec w = Some (code, w') ->
      control m m'.

(** The one change a command makes to the maps, if any. *)
Inductive ctl_effect : kmaps -> kmaps -> Prop :=
  | effect_none m : ctl_effect m m
  | effect_block m ip e b :
      uint_ok 64 e -> bpf_update (fw_blocklist m) ip e = Some b -> ctl_effect m (set_blocklist b m)
  | effect_unblock m ip b :
      bpf_delete (fw_blocklist m) ip = Some b -> ctl_effect m (set_blocklist b m)
  | effect_range m k v r :
      lpm_update (fw_range_drop m) k v = Some r -> ctl_effect m (set_range_drop r m)
  | effect_unrange m k r :
      lpm_delete (fw_range_drop m) k = Some r -> ctl_effect m (set_range_drop r m)
  | effect_config m m' i v : uint_ok 64 v -> config_update i v m = Some m' -> ctl_effect m m'.

(** Every run of [c] changes the maps as [R] says. *)
Definition does {A} (R : kmaps -> kmaps -> Prop) (c : prog world A) : Prop :=
  forall w x w', c w = Some (x, w') -> R (w_maps w) (w_maps w').

Lemma does_nothing {A} (c : prog world A) : does eq c -> does ctl_effect c.
Proof using Type. intros Hc w x w' E. rewrite (Hc _ _ _ E). constructor. Qed.

Lemma does_ret {A} (x : A) : does eq (mret x).
Proof using Type. by intros w y w' [= _ <-]. Qed.

Lemma does_bind {A B} R (c : prog world A) (f : A -> prog world B) :
  does eq c -> (forall x, does R (f x)) -> does R (c ≫= f).
Proof using Type.
  intros Hc Hf w y w'. unfold mbind, prog_bind. destruct (c w) as [[x w1]|] eqn:E; [|done].
  intros E2. rewrite (Hc _ _ _ E). by eapply Hf.
Qed.

Lemma does_lift {A} (o : option A) : does eq (plift o).
Proof using Type. unfold plift. intros w x w'. by destruct o; intros [= _ <-]. Qed.

Lemma does_print l : does eq (print l).
Proof using Type. by intros w x w' [= _ <-]. Qed.

Lemma does_get_map name : does eq (get_map name).
Proof using Type.
  unfold get_map. intros w x w'. rewrite pget_bind. case_decide; by intros [= _ <-].
Qed.

Lemma does_maps : does eq maps.
Proof using Type. by intros w x w' [= _ <-]. Qed.

Lemma does_now_ns : does eq (now_ns clock).
Proof using Type. intros w x w'. rewrite now_ns_eq. by intros [= _ <-]. Qed.

(** The one write of a command. *)
Lemma does_update {B} (g : kmaps -> option kmaps) (f : Z -> prog world B) :
  (forall m m', g m = Some m' -> ctl_effect m m') -> (forall x, does eq (f x)) ->
  does ctl_effect (m ← maps; ret ← try_set (g m); f ret).
Proof using Type.
  intros Hg Hf w x w'. unfold maps, mbind, prog_bind, pget, mret, prog_ret, try_set.
  destruct (g (w_maps w)) as [m'|] eqn:E; simpl; intros E2; rewrite <-(Hf _ _ _ _ E2); simpl.
  - by apply Hg.
  - constructor.
Qed.

Lemma does_block_ip ip sec : does ctl_effect (block_ip clock ip sec).
Proof using Type*.
  intros w x w'. rewrite block_ip_eq.
  assert (w_maps (after_clock sec w) = w_maps w) as Ha by (unfold after_clock; by case_match).
  destruct (bpf_update _ _ _) as [b|] eqn:E; intros [= _ <-]; simpl.
  - eapply effect_block; [apply (expiry_of_range clock sec w)|done].
  - rewrite Ha. constructor.
Qed.

Ltac quiet := repeat first
  [ apply does_ret | apply does_print | apply does_get_map | apply does_lift
  | apply does_now_ns | apply does_maps | apply does_bind; [|intros ?] | case_match | done ].

Lemma does_set_config idx val : uint_ok 64 val -> does ctl_effect (set_config idx val).
Proof using Type.
  intros Hv. unfold set_config. apply does_bind; [apply does_get_map|]. intros [|]; simpl.
  - apply (does_update (config_update idx val)); [by intros; eapply effect_config|].
    intros ret. quiet.
  - apply does_nothing. quiet.
Qed.
Lemma does_then {A B} R (c : prog world A) (f : A -> prog world B) :
  does R c -> (forall x, does eq (f x)) -> does R (c ≫= f).
Proof using Type*.
  intros Hc Hf w y w'. unfold mbind, prog_bind. destruct (c w) as [[x w1]|] eqn:E; [|done].
  intros E2. rewrite <-(Hf _ _ _ _ E2). by eapply Hc.
Qed.

(** A command that finds its map, writes to it, and prints. *)
Ltac command := repeat first
  [ eapply does_update; [|intros ?; by quiet]
  | apply does_bind; [by quiet|intros ?] | case_match
  | apply does_then; [apply does_block_ip || (apply does_set_config; done || apply strtoull_range)|intros ?; by quiet]
  | by apply does_nothing; quiet ].

Lemma does_cmd_block argv : does ctl_effect (cmd_block inet_pton clock argv).
Proof using Type*. unfold cmd_block. command. Qed.

Lemma does_cmd_unblock argv : does ctl_effect (cmd_unblock inet_pton argv).
Proof using Type*.
  unfold cmd_unblock. command. intros m m' E.
  destruct (bpf_delete _ _) eqn:Eb; simplify_eq/=. by eapply effect_unblock.
Qed.

Lemma does_cmd_range argv : does ctl_effect (cmd_range inet_pton argv).
Proof using Type*.
  unfold cmd_range. command. intros m m' E.
  destruct (lpm_update _ _ _) eqn:Eb; simplify_eq/=. by eapply effect_range.
Qed.

Lemma does_cmd_unrange argv : does ctl_effect (cmd_unrange inet_pton argv).
Proof using Type*.
  unfold cmd_unrange. command. intros m m' E.
  destruct (lpm_delete _ _) eqn:Eb; simplify_eq/=. by eapply effect_unrange.
Qed.

Lemma does_cmd_ratelimit argv : does ctl_effect (cmd_ratelimit argv).
Proof using Type*. unfold cmd_ratelimit. command. Qed.

Lemma does_main env argv :
  head argv ∉ [Some "start"; Some "watch"] ->
  does ctl_effect (main inet_pton inet_ntop clock env argv).
Proof using Type*.
  intros Hc. unfold main. destruct argv as [|c v]; [command|].
  destruct (decide (c = "start")) as [->|]; [by destruct Hc; left|].
  destruct (decide (c = "watch")) as [->|]; [by destruct Hc; right; left|].
  repeat (case_decide; [first
    [ apply does_cmd_block | apply does_cmd_unblock | apply does_cmd_range
    | apply does_cmd_unrange | apply does_cmd_ratelimit
    | unfold cmd_enable; by command | unfold cmd_disable; by command
    | unfold print_stats; by command ]|]).
  unfold usage; command.
Qed.

Lemma control_effect m m' : control m m' -> ctl_effect m m'.
Proof using Type*.
  intros [env argv w code w' <- <- Hh E|ip sec w code w' <- <- E].
  - by eapply does_main.
  - by eapply does_block_ip.
Qed.
End Control.

(** ** The processors *)

Section Races.
Context `{Endian} {BL RD IS : Type}.
Context `{BpfHash BL Z, LpmTrie RD, BpfHash IS ip_stats, Reclaimed IS}.
Context `{!BpfHashLaws BL Z, !LpmLaws RD, !BpfHashLaws IS ip_stats}.
#[local] Abbreviation kmaps := (kmaps BL RD IS).
#[local] Abbreviation code := (code answer).
#[local] Abbreviation pool := (@pool op answer kmaps job xdp_action).
#[local] Abbreviation label := (@label job xdp_action).
Implicit Types (m : kmaps) (p : pool) (es : list label) (k : counters).

Definition frame_body (cpu : nat) (j : job) : code xdp_action := fw_code (fst j) cpu (snd j).

(** Steps and runs of the machine: processors that receive frames, and a
  control plane that may make any change at any time that a command can make
  ([control_effect]). *)
Definition fw_step : pool -> label -> pool -> Prop := step exec frame_body ctl_effect.
Definition fw_interleaving : pool -> list label -> pool -> Prop := run exec frame_body ctl_effect.

(** *** The cells of the counters *)

Definition own_op (cpu : nat) (o : op) : Prop :=
  match o with StatLookup c | StatLoad c _ | StatStore c _ _ => c = cpu | _ => True end.
Definition no_stat_op (o : op) : Prop :=
  match o with StatLookup _ | StatLoad _ _ | StatStore _ _ _ => False | _ => True end.

Lemma frame_own_op cpu a o : frame_op cpu a o -> own_op cpu o.
Proof using Type. by destruct o. Qed.

Lemma exec_no_stat o m : no_stat_op o -> fw_stats (snd (exec o m)) = fw_stats m.
Proof using Type. destruct o; simpl; try done; by repeat case_match. Qed.

Lemma exec_own o m cpu cpu' :
  own_op cpu' o -> cpu' <> cpu -> fw_stats (snd (exec o m)) !! cpu = fw_stats m !! cpu.
Proof using Type.
  intros Ho Hne. destruct o; try by rewrite exec_no_stat. all: simpl in *; try done.
  subst. by rewrite list_lookup_alter_ne.
Qed.

Lemma effect_stats m m' : ctl_effect m m' -> fw_stats m' = fw_stats m.
Proof using Type. destruct 1 as [| | | | |m m' i v ? E]; try done. unfold config_update in E. by case_match; simplify_eq. Qed.

(** The others leave the cell of [cpu] alone. *)
Definition same_cell (cpu : nat) m m' : Prop := fw_stats m' !! cpu = fw_stats m !! cpu.
#[global] Instance same_cell_preorder cpu : PreOrder (same_cell cpu).
Proof using Type. split; [done|]. intros m1 m2 m3. unfold same_cell. congruence. Qed.

Definition any_change : kmaps -> kmaps -> Prop := fun _ _ => True.

(** [cpu_wp cpu c Q m]: with the cell of [cpu] its own, [c] ends with [Q]. *)
Definition cpu_wp {A} (cpu : nat) (c : code A) (Q : A -> kmaps -> Prop) m : Prop :=
  wp exec (same_cell cpu) any_change c Q m.

Definition cell_is (cpu : nat) k m : Prop := fw_stats m !! cpu = Some k.

Lemma cpu_wp_ret {A} cpu k (x : A) (Q : A -> kmaps -> Prop) m :
  cell_is cpu k m -> (forall m', cell_is cpu k m' -> Q x m') -> cpu_wp cpu (mret x) Q m.
Proof using Type.
  intros Hk HQ m' Hm. apply HQ. unfold cell_is, same_cell in *. congruence.
Qed.

(** Accesses to other maps: the cell stays, the answers are arbitrary. *)
Lemma cpu_wp_silent {A} cpu k (c : code A) (Q : A -> kmaps -> Prop) m :
  all_ops no_stat_op c -> cell_is cpu k m ->
  (forall x m', cell_is cpu k m' -> Q x m') -> cpu_wp cpu c Q m.
Proof using Type.
  intros Hc Hk HQ. revert m Hk. induction c as [x| |o f IH]; intros m Hk m' Hm; [|done|].
  - apply HQ. unfold cell_is, same_cell in *. congruence.
  - destruct Hc as [Ho Hc]. split; [done|]. apply IH; [done|].
    unfold cell_is, same_cell in *. rewrite exec_no_stat by done. congruence.
Qed.

Lemma cpu_wp_incr cpu k f m :
  cell_is cpu k m ->
  cpu_wp cpu (incr_cell true cpu f) (fun _ m' => cell_is cpu (inc_cell f k) m') m.
Proof using Type.
  unfold cell_is. intros Hk m1 Hm1. split; [done|]. intros m2 Hm2. split; [done|]. intros m3 Hm3.
  unfold same_cell in *. rewrite Hm3. cbn. rewrite list_lookup_alter, decide_True by done.
  cbn in Hm2. rewrite Hm2, Hm1, Hk. simpl. by destruct f, k.
Qed.

Lemma cpu_wp_bind {A B} cpu (c : code A) (f : A -> code B) Q m :
  cpu_wp cpu c (fun x => cpu_wp cpu (f x) Q) m -> cpu_wp cpu (c ≫= f) Q m.
Proof using Type. apply wp_bind. apply _. Qed.

Lemma cpu_wp_mono {A} cpu (c : code A) (Q Q' : A -> kmaps -> Prop) m :
  (forall x m, Q x m -> Q' x m) -> cpu_wp cpu c Q m -> cpu_wp cpu c Q' m.
Proof using Type. apply wp_mono. Qed.

(** Count the verdict, return it. *)
Lemma cpu_wp_verdict cpu k f (v : xdp_action) (Q : xdp_action -> kmaps -> Prop) m :
  cell_is cpu k m -> (forall m', cell_is cpu (inc_cell f k) m' -> Q v m') ->
  cpu_wp cpu (_ ← incr_cell true cpu f; mret v) Q m.
Proof using Type.
  intros Hk HQ. apply cpu_wp_bind. eapply cpu_wp_mono; [|by apply cpu_wp_incr].
  intros x m' Hm'. cbn beta in *. by apply (cpu_wp_ret cpu (inc_cell f k)).
Qed.

Lemma record_code_silent a now len l4 : all_ops no_stat_op (record_code a now len l4).
Proof using Type. unfold record_code, roll_code, kind_code, add_field, rate_code. shape. Qed.

Lemma block_code_silent a now : all_ops no_stat_op (block_code a now).
Proof using Type. unfold block_code. shape. Qed.

Definition passes (v : xdp_action) : Z := if decide (v = XDP_PASS) then 1 else 0.
Definition drops (j : job) (v : xdp_action) : Z :=
  if decide (v = XDP_DROP /\ 14 <= frame_len (fst j)) then 1 else 0.

(** The program's own tally: one reception, one verdict. *)
Lemma cpu_wp_rest cpu pkt now k m :
  14 <= frame_len pkt -> cell_is cpu k m ->
  cpu_wp cpu (rest_code true pkt cpu now) (fun v m' =>
    cell_is cpu (match v with XDP_PASS => inc_passed k | XDP_DROP => inc_dropped k end) m') m.
Proof using Type*.
  intros Hl Hk. unfold rest_code. destruct (frame_loads pkt) as [L1 L2]. rewrite L1 by done.
  assert (forall m, cell_is cpu k m -> cpu_wp cpu (pass_code true cpu) (fun v m' =>
    cell_is cpu (match v with XDP_PASS => inc_passed k | XDP_DROP => inc_dropped k end) m') m) as Hpass
    by (intros m1 Hm1; by apply (cpu_wp_verdict cpu k Passed)).
  assert (forall m, cell_is cpu k m -> cpu_wp cpu (drop_code true cpu) (fun v m' =>
    cell_is cpu (match v with XDP_PASS => inc_passed k | XDP_DROP => inc_dropped k end) m') m) as Hdrop
    by (intros m1 Hm1; by apply (cpu_wp_verdict cpu k Dropped)).
  cbn [clift mbind code_mbind code_bind]. change (Z.of_nat (length pkt)) with (frame_len pkt).
  destruct (negb _); [by apply Hpass|]. case_bool; [by apply Hdrop|].
  rewrite L2 by done. apply cpu_wp_bind. eapply cpu_wp_silent; [|done|intros e m1 Hm1];
    [by apply all_ops_act|]. destruct (e =? 0); [by apply Hpass|].
  cbn [clift mbind code_mbind code_bind]. unfold filter_code.
  apply cpu_wp_bind. eapply cpu_wp_silent; [apply block_code_silent|done|intros b m2 Hm2].
  destruct b; [by apply Hdrop|].
  apply cpu_wp_bind. eapply cpu_wp_silent; [by apply all_ops_act|done|intros r m3 Hm3].
  destruct r; [by apply Hdrop|]. unfold limit_code. rewrite classify_kind by done.
  cbn [clift mbind code_mbind code_bind].
  apply cpu_wp_bind. eapply cpu_wp_silent; [apply record_code_silent|done|intros rate m4 Hm4].
  apply cpu_wp_bind. eapply cpu_wp_silent; [by apply all_ops_act|done|intros pps m5 Hm5].
  case_match; [by apply Hdrop|by apply Hpass].
Qed.
Lemma cpu_wp_fw_code cpu j k m :
  cell_is cpu k m -> counters_ok k ->
  cpu_wp cpu (frame_body cpu j)
    (fun v m' => cell_is cpu (count_on (passes v) (drops j v) k) m') m.
Proof using Type*.
  destruct j as [pkt now]. intros Hk Hok. unfold frame_body, drops, passes. cbn [fst snd].
  rewrite fw_code_rest. case_bool.
  { eapply cpu_wp_ret; [done|]. intros m' Hm'. simpl.
    rewrite decide_False by lia. by rewrite count_on_0. }
  intros m1 Hm1. assert (cell_is cpu k m1) as Hk1 by (unfold cell_is, same_cell in *; congruence).
  split; [done|]. change (snd (exec (StatLookup cpu) m1)) with m1.
  assert (fst (exec (StatLookup cpu) m1) = true) as -> by (apply bool_decide_true; by exists k).
  cbv beta. change (code_bind ?f (Ret true)) with (f true). cbv beta.
  apply cpu_wp_bind. eapply cpu_wp_mono; [|by apply cpu_wp_incr]. intros ? m2 Hm2.
  eapply cpu_wp_mono; [|apply cpu_wp_rest; [lia|exact Hm2]].
  intros v m3 Hm3. unfold cell_is in *. rewrite Hm3. destruct Hok as (? & ? & ?), k as [r d p]. simpl in *.
  unfold count_on, inc_passed, inc_dropped, u64; destruct v; simpl.
  all: rewrite ?decide_True by (split; [done|lia]); rewrite ?decide_False by (by intros [? ?]).
  all: unfold inc_rx; simpl; do 2 f_equal; rewrite ?Z.add_0_r; try done; symmetry; by apply wrap_small.
Qed.

(** *** Every processor in a run *)

(** The frames [cpu] passed in [es], and those it dropped after it counted
  them. *)
Fixpoint n_pass (cpu : nat) es : Z :=
  match es with
  | [] => 0
  | Finish c _ v :: es => (if decide (c = cpu) then passes v else 0) + n_pass cpu es
  | _ :: es => n_pass cpu es
  end.
Fixpoint n_drop (cpu : nat) es : Z :=
  match es with
  | [] => 0
  | Finish c j v :: es => (if decide (c = cpu) then drops j v else 0) + n_drop cpu es
  | _ :: es => n_drop cpu es
  end.

(** The invariant for [cpu], whose cell was [k] before [np] frames were passed
  and [nd] dropped: idle, the cell is exact; inside the program, it will be. *)
Record tally_inv (cpu : nat) k (np nd : Z) p : Prop := {
  ti_own : pool_ops own_op p;
  ti_cell :
    match active p !! cpu with
    | None => cell_is cpu (count_on np nd k) (shared p)
    | Some (j, c) => cpu_wp cpu c (fun v m =>
        cell_is cpu (count_on (np + passes v) (nd + drops j v) k) m) (shared p)
    end;
}.

Lemma body_own cpu j : all_ops (own_op cpu) (frame_body cpu j).
Proof using Type. eapply all_ops_mono, fw_code_ops. apply frame_own_op. Qed.

Lemma tally_inv_step cpu k np nd p e p' :
  tally_inv cpu k np nd p -> fw_step p e p' ->
  tally_inv cpu k (np + n_pass cpu [e]) (nd + n_drop cpu [e]) p'.
Proof using Type*.
  intros [Ho Hc] Hs. split; [by eapply pool_ops_step; [apply body_own|..]|].
  destruct Hs as [m ts c j Ht|m ts c j o f Ht|m ts c j v Ht|m m' ts Hct];
    cbn [shared active n_pass n_drop] in *; rewrite ?Z.add_0_r.
  - destruct (decide (c = cpu)) as [->|Hne]; [|by rewrite lookup_insert_ne].
    rewrite lookup_insert_eq. rewrite Ht in Hc. eapply cpu_wp_mono; [|apply cpu_wp_fw_code; [done|]].
    + intros v m' Hm'. by rewrite <-count_on_add.
    + apply counters_ok_count_on.
  - destruct (decide (c = cpu)) as [->|Hne].
    + rewrite lookup_insert_eq. rewrite Ht in Hc. by apply wp_access in Hc as [_ Hc]; [|apply _].
    + rewrite lookup_insert_ne by done. destruct (Ho _ _ _ Ht) as [Hown _].
      assert (same_cell cpu m (snd (exec o m))) as Hsame by (by eapply exec_own).
      destruct (ts !! cpu) as [[j' c']|]; [by eapply wp_stable; [apply _|..]|].
      unfold cell_is, same_cell in *. congruence.
  - destruct (decide (c = cpu)) as [->|Hne].
    + rewrite lookup_delete_eq. rewrite Ht in Hc. rewrite ?Z.add_0_r. by apply Hc.
    + rewrite lookup_delete_ne by done. by rewrite ?Z.add_0_r.
  - apply effect_stats in Hct.
    assert (same_cell cpu m m') as Hsame by (unfold same_cell; by rewrite Hct).
    destruct (ts !! cpu) as [[j' c']|]; [by eapply wp_stable; [apply _|..]|].
    unfold cell_is, same_cell in *. congruence.
Qed.

Lemma n_pass_cons cpu e es : n_pass cpu (e :: es) = n_pass cpu [e] + n_pass cpu es.
Proof using Type. destruct e; simpl; lia. Qed.
Lemma n_drop_cons cpu e es : n_drop cpu (e :: es) = n_drop cpu [e] + n_drop cpu es.
Proof using Type. destruct e; simpl; lia. Qed.

Lemma tally_inv_run cpu k np nd p es p' :
  tally_inv cpu k np nd p -> fw_interleaving p es p' ->
  tally_inv cpu k (np + n_pass cpu es) (nd + n_drop cpu es) p'.
Proof using Type*.
  intros Hi Hr. revert np nd Hi. induction Hr as [p|p1 p2 p3 e es Hs Hr IH]; intros np nd Hi.
  - simpl. by rewrite !Z.add_0_r.
  - rewrite n_pass_cons, n_drop_cons, !Z.add_assoc. by eapply IH, tally_inv_step.
Qed.

(** *** The properties *)

(** C13. The counters need no atomic operations. However the accesses of the
  processors and the commands of the control plane interleave, a processor
  that is between two frames has in its cell exactly the frames it has
  finished: [passed] and [dropped] have grown by those it passed and dropped
  (after counting them), and [rx] by their sum. *)
Theorem counters_interleaved m es p cpu k :
  fw_interleaving (Pool m ∅) es p -> active p !! cpu = None ->
  fw_stats m !! cpu = Some k -> counters_ok k ->
  fw_stats (shared p) !! cpu = Some (Counters
    (u64 (rx k + (n_pass cpu es + n_drop cpu es)))
    (u64 (dropped k + n_drop cpu es)) (u64 (passed k + n_pass cpu es))).
Proof using Type*.
  intros Hr Hi Hk Hok.
  destruct (tally_inv_run cpu k 0 0 (Pool m ∅) es p) as [_ Hc]; [|done|].
  - split; [apply pool_ops_empty|].
    cbn [shared active]. rewrite lookup_empty. unfold cell_is. by rewrite count_on_0.
  - by rewrite Hi in Hc.
Qed.
(** C15. Every frame is decided. However the accesses interleave, a processor
  that runs the program on a frame never faults and never waits for another:
  it makes at most 31 accesses of its own, and from any point on its remaining
  accesses, whether or not the others go on, lead to a verdict. *)
Theorem frame_decided m es1 cpu j es2 p :
  fw_interleaving (Pool m ∅) (es1 ++ Arrive cpu j :: es2) p ->
  Forall (fun e => ~ finishes cpu e) es2 ->
  exists i v p',
    (length (filter (is_access cpu) es2) + i <= 31)%nat /\
    fw_interleaving p (replicate i (Access cpu) ++ [Finish cpu j v]) p'.
Proof using Type*.
  intros Hr Hf. destruct (run_app_inv _ _ _ _ _ _ _ Hr) as (p0 & Hr0 & Hr1).
  assert (pool_ops own_op p) as Ho
    by (eapply pool_ops_run; [apply body_own|apply pool_ops_empty|exact Hr]).
  inversion Hr1 as [|? p1 ? ? ? Hs Hr2]; subst. inversion Hs as [s ts ? ? Ht| | |]; subst.
  destruct (run_accesses _ _ _ cpu j (frame_body cpu j) 31 _ _ _ (lookup_insert_eq _ _ _)
    (fw_code_steps _ _ _) Hr2 Hf) as (n & c & Hn & Hc & Hle).
  destruct p as [s' ts']. cbn [active] in Hc.
  destruct (run_to_finish exec frame_body ctl_effect (own_op cpu) cpu j c n s' ts' Hc (Ho _ _ _ Hc) Hle)
    as (i & v & p' & Hi & Hrun).
  exists i, v, p'. split; [lia|exact Hrun].
Qed.
End Races.

(** ** What interleaving breaks

    Two processors, the firewall on with a limit of 1 packet per window, no
    entries; and with a limit of 1000, and an entry with 5 packets whose window
    is about to end. *)

Definition race_st : demo_maps := Kmaps ∅ ∅ ∅ [1; 1] [Counters 0 0 0; Counters 0 0 0].
Definition late_st : demo_maps :=
  Kmaps ∅ ∅ {[demo_src := IpStats 0 0 5 0 300 0 5 0]} [1; 1000] [Counters 0 0 0; Counters 0 0 0].

Definition demo_pool (m : demo_maps) : @pool op answer demo_maps job xdp_action := Pool m ∅.
Definition demo_schedule (cs : list (choice (J := job))) (m : demo_maps) :=
  let _ := little in schedule exec frame_body cs (demo_pool m).

(** The run a schedule makes. *)
Lemma demo_runs cs m es :
  let _ := little in
  fst <$> demo_schedule cs m = Some es ->
  exists p, fw_interleaving (demo_pool m) es p /\
    demo_schedule cs m = Some (es, p).
Proof.
  intros en. unfold demo_schedule. destruct (schedule _ _ _ _) as [[es' p]|] eqn:E; [|done].
  intros [= <-]. exists p. split; [by eapply (schedule_run exec frame_body)|done].
Defined.

(** The fates of the frames in a run, in the order in which they finish. *)
Definition verdicts (es : list (@label job xdp_action)) : list (nat * xdp_action) :=
  omap (fun e => match e with Finish cpu _ v => Some (cpu, v) | _ => None end) es.

(** Both processors look the source up before either adds its entry: two frames
    pass at once, and one of them is not counted. One after the other, the
    second would be dropped. *)
Definition limit_race : list (choice (J := job)) :=
  Begin 0 (udp_frame, 7) :: Begin 1 (udp_frame, 7) ::
  replicate 7 (Go 0) ++ replicate 7 (Go 1) ++ replicate 5 (Go 0) ++ replicate 5 (Go 1).

Lemma limit_raced :
  let _ := little in
  exists es p, fw_interleaving (demo_pool race_st) es p /\
    active p = ∅ /\ verdicts es = [(0%nat, XDP_PASS); (1%nat, XDP_PASS)] /\ limit race_st = 1 /\
    packets <$> bpf_lookup (fw_ip_stats (shared p)) demo_src = Some 1 /\
    fst <$> fw_run [Frame udp_frame 0 7; Frame udp_frame 1 7] race_st = Some [XDP_PASS; XDP_DROP].
Proof.
  intros en. destruct (demo_schedule limit_race race_st) as [[es p]|] eqn:E.
  2:{ vm_compute in E. discriminate. }
  exists es, p. split; [by eapply (schedule_run exec frame_body)|].
  vm_compute in E. injection E as <- <-. repeat split; vm_compute; reflexivity.
Qed.

(** A processor that reads its clock just before the window ends and another
    that starts the next window meanwhile: the first subtracts a later start
    from its time, and the rate it computes is enormous. Its frame, the source's
    seventh packet, is dropped by a limit of 1000. *)
Definition late_race : list (choice (J := job)) :=
  Begin 0 (udp_frame, 2 ^ 30 - 1) :: replicate 8 (Go 0) ++
  Begin 1 (udp_frame, 2 ^ 30) :: replicate 31 (Go 1) ++ replicate 13 (Go 0).

Lemma late_raced :
  let _ := little in
  exists es p, fw_interleaving (demo_pool late_st) es p /\
    active p = ∅ /\ verdicts es = [(1%nat, XDP_PASS); (0%nat, XDP_DROP)] /\ limit late_st = 1000 /\
    (fun s => (prev_packets s, packets s)) <$> bpf_lookup (fw_ip_stats (shared p)) demo_src
      = Some (5, 2).
Proof.
  intros en. destruct (demo_schedule late_race late_st) as [[es p]|] eqn:E.
  2:{ vm_compute in E. discriminate. }
  exists es, p. split; [by eapply (schedule_run exec frame_body)|].
  vm_compute in E. injection E as <- <-. repeat split; vm_compute; reflexivity.
Qed.

(** *** Witnesses *)

Lemma counters_interleaved_witness :
  let _ := little in
  exists es p, fw_interleaving (demo_pool late_st) es p /\
    fw_stats (shared p) !! 0%nat = Some (Counters
      (u64 (0 + (n_pass 0 es + n_drop 0 es))) (u64 (0 + n_drop 0 es)) (u64 (0 + n_pass 0 es))) /\
    n_pass 0 es = 0 /\ n_drop 0 es = 1.
Proof.
  intros en. destruct (demo_schedule late_race late_st) as [[es p]|] eqn:E.
  2:{ vm_compute in E. discriminate. }
  assert (fw_interleaving (demo_pool late_st) es p) as Hr
    by (by eapply (schedule_run exec frame_body)).
  exists es, p. split; [exact Hr|].
  vm_compute in E. injection E as Ees Ep. split; [|rewrite <-Ees; by vm_compute].
  apply (counters_interleaved late_st es p 0 (Counters 0 0 0)).
  - exact Hr.
  - rewrite <-Ep. reflexivity.
  - reflexivity.
  - repeat split; simpl; lia.
Defined.

Lemma frame_decided_witness :
  let _ := little in
  exists p, fw_interleaving (demo_pool late_st)
      ([] ++ Arrive 0 (udp_frame, 7) :: replicate 8 (Access 0)) p /\
  exists i v p',
    (length (filter (is_access 0) (replicate 8 (Access (J := job) (A := xdp_action) 0))) + i <= 31)%nat /\
    fw_interleaving p
      (replicate i (Access 0) ++ [Finish 0 (udp_frame, 7) v]) p'.
Proof.
  intros en.
  destruct (demo_runs (Begin 0 (udp_frame, 7) :: replicate 8 (Go 0)) late_st
    ([] ++ Arrive 0 (udp_frame, 7) :: replicate 8 (Access 0))) as (p & Hr & _).
  { vm_compute. reflexivity. }
  exists p. split; [exact Hr|].
  apply (frame_decided late_st [] 0 (udp_frame, 7)
    (replicate 8 (Access 0)) p Hr).
  repeat constructor; simpl; tauto.
Defined.
