(* ===== verification/FwTyped.v ===== *)
(** * The types of the maps' values

    Every value in the maps fits the C type of its field, and stays so while
    the processors and the control plane change the maps in any order
    ([maps_typed]). The commands that print statistics and the detectors read
    the values by these types. *)

From S2P Require Import Prelude Interleave BpfMaps FwProg FwSpec RateLimit FwTrace FwConc CStrings Detector FwCtl FwCtlSpec FwWatch FwDaemon FwMain FwRaces.
#[local] Open Scope Z_scope.

(** The memory of an evicted entry belongs to an entry of the same type: a load
    reads a __u64 there, and a store changes at most the same field of the
    entry that has got it. *)
Class ReclaimedOk (IS : Type) `{BpfHash IS ip_stats, Reclaimed IS} : Prop := {
  stale_load_u64 (i : IS) a f : uint_ok 64 (stale_load i a f);
  stale_store_at (i : IS) a f v b s :
    bpf_lookup (stale_store i a f v) b = Some s ->
    exists s0, bpf_lookup i b = Some s0 /\ (s = s0 \/ s = set_field f v s0);
}.

#[global] Instance gmap_reclaimed_ok : ReclaimedOk (gmap Z ip_stats).
Proof. split; [done|]. intros i a f v b s Hs. exists s. split; [done|by left]. Qed.

Section Typed.
Context `{Endian} {BL RD IS : Type}.
Context `{BpfHash BL Z, LpmTrie RD, BpfHash IS ip_stats, Reclaimed IS}.
Context `{!BpfHashLaws BL Z, !LpmLaws RD, !BpfHashLaws IS ip_stats, !ReclaimedOk IS}.
#[local] Abbreviation kmaps := (kmaps BL RD IS).
#[local] Abbreviation code := (code answer).
Implicit Types (m : kmaps).

(** Every value is a __u64: the expiry of a ban, the fields of an entry, the
    cells of the configuration and of the counters. *)
Record typed m : Prop := {
  ty_bans a e : bpf_lookup (fw_blocklist m) a = Some e -> uint_ok 64 e;
  ty_entries : stats_u64 m;
  ty_config : Forall (uint_ok 64) (fw_config m);
  ty_counters : Forall counters_ok (fw_stats m);
}.

(** *** Values through a map *)

Lemma update_typed {M V} `{BpfHashLaws M V} (P : V -> Prop) (x x' : M) k v :
  (forall a e, bpf_lookup x a = Some e -> P e) -> P v -> bpf_update x k v = Some x' ->
  forall a e, bpf_lookup x' a = Some e -> P e.
Proof using Type.
  intros Hx Hv Hu a e Ha. destruct (decide (k = a)) as [->|Hne].
  - apply bpf_update_eq in Hu. congruence.
  - destruct (bpf_update_ne _ _ _ _ _ Hu Hne) as [E|E]; [|congruence]. apply (Hx a). congruence.
Qed.

Lemma delete_typed {M V} `{BpfHashLaws M V} (P : V -> Prop) (x x' : M) k :
  (forall a e, bpf_lookup x a = Some e -> P e) -> bpf_delete x k = Some x' ->
  forall a e, bpf_lookup x' a = Some e -> P e.
Proof using Type.
  intros Hx Hd a e Ha. destruct (decide (k = a)) as [->|Hne].
  - apply bpf_delete_eq in Hd. congruence.
  - apply (Hx a). by rewrite <-(bpf_delete_ne _ _ _ _ Hd Hne).
Qed.

Lemma write_typed {M V} `{BpfHashLaws M V} (P : V -> Prop) (x : M) k v0 v :
  (forall a e, bpf_lookup x a = Some e -> P e) -> P v -> bpf_lookup x k = Some v0 ->
  forall a e, bpf_lookup (bpf_write x k v) a = Some e -> P e.
Proof using Type.
  intros Hx Hv Hk a e Ha. destruct (decide (k = a)) as [->|Hne].
  - rewrite (bpf_write_eq _ _ _ _ Hk) in Ha. congruence.
  - apply (Hx a). by rewrite bpf_write_ne in Ha.
Qed.

Lemma get_field_typed f s : Det.fields_u64 s -> uint_ok 64 (get_field f s).
Proof using Type. intros (? & ? & ? & ? & ? & ? & ? & ?). by destruct f. Qed.

Lemma set_field_typed f v s : uint_ok 64 v -> Det.fields_u64 s -> Det.fields_u64 (set_field f v s).
Proof using Type.
  intros Hv (? & ? & ? & ? & ? & ? & ? & ?). destruct f, s; unfold Det.fields_u64; simpl in *; tauto.
Qed.

Lemma set_cell_typed f v k : uint_ok 64 v -> counters_ok k -> counters_ok (set_cell f v k).
Proof using Type. intros Hv (? & ? & ?). destruct f; unfold counters_ok; simpl; tauto. Qed.

(** *** Accesses *)

(** The values a program stores, and those that loads return, are typed. *)
Definition stores_u64 (o : op) : Prop :=
  match o with
  | StatStore _ _ v | EntryStore _ _ v => uint_ok 64 v
  | EntryUpdate _ s => Det.fields_u64 s
  | _ => True
  end.
Definition loads_u64 (o : op) : answer o -> Prop :=
  match o return answer o -> Prop with
  | StatLoad _ _ | EntryLoad _ _ | CfgLoad _ => uint_ok 64
  | _ => fun _ => True
  end.

Lemma exec_typed o m :
  stores_u64 o -> typed m -> loads_u64 o (fst (exec o m)) /\ typed (snd (exec o m)).
Proof using Type*.
  intros Ho Hm. pose proof Hm as [Hb He Hc Hk].
  destruct o as [cpu|cpu f|cpu f v|i|a|a|a|a|a f|a f v|a s]; simpl in *; (split; [try done|try exact Hm]).
  - destruct (fw_stats m !! cpu) as [k|] eqn:E; [|done].
    destruct (Forall_lookup_1 _ _ _ _ Hk E) as (? & ? & ?). by destruct f.
  - split; [done..|]. apply Forall_alter; [done|]. intros k _. by apply set_cell_typed.
  - destruct (fw_config m !! Z.to_nat i) as [v|] eqn:E; [|done]. by apply (Forall_lookup_1 _ _ _ _ Hc E).
  - destruct (bpf_delete _ _) as [b|] eqn:E; [|done]. split; [|done..]. by eapply delete_typed.
  - destruct (bpf_lookup (fw_ip_stats m) a) as [s|] eqn:E; [by eapply get_field_typed, He|].
    apply stale_load_u64.
  - destruct (bpf_lookup (fw_ip_stats m) a) as [s|] eqn:E; (split; [done| |done..]).
    + intros b s'. eapply write_typed; [exact He| |exact E]. by eapply set_field_typed, He.
    + intros b s' Hs. cbn [fw_ip_stats set_ip_stats] in Hs.
      apply stale_store_at in Hs as (s0 & Hs0 & [->| ->]); [by eapply He|].
      by eapply set_field_typed, He.
  - destruct (bpf_update _ _ _) as [i|] eqn:E; [|done]. split; [done| |done..].
    intros b s'. by eapply update_typed.
Qed.

Lemma effect_typed m m' : ctl_effect m m' -> typed m -> typed m'.
Proof using Type*.
  intros Hc Hm. pose proof Hm as [Hb He Hg Hk].
  destruct Hc as [|m ip e b Hx Hu|m ip b Hd| | |m m' i v Hv E]; try (by split); [..|].
  - split; [|done..]. by eapply update_typed.
  - split; [|done..]. by eapply delete_typed.
  - unfold config_update in E. case_match; simplify_eq. split; [done..| |done].
    by apply Forall_insert.
Qed.

(** *** The program *)

#[local] Abbreviation ok := (ops_when stores_u64 loads_u64).

Lemma u64_ok z : uint_ok 64 (u64 z).
Proof using Type. by apply wrap_range. Qed.

(** Follow the program; a stored value is wrapped, loaded or given. *)
Ltac stored := repeat first
  [ apply ops_when_act; [first [done | apply u64_ok]|intros ? ?]
  | apply ops_when_last; first [done | apply u64_ok]
  | apply ops_when_bind; [|intros ?] | case_match | done | exact I ].

Lemma incr_cell_typed c cpu f : ok (incr_cell c cpu f).
Proof using Type. unfold incr_cell. stored. Qed.

Lemma verdict_typed (v : xdp_action) c cpu f : ok (_ ← incr_cell c cpu f; mret v).
Proof using Type. apply ops_when_bind; [apply incr_cell_typed|done]. Qed.

Lemma record_code_typed a now len k :
  uint_ok 64 now -> uint_ok 64 len -> ok (record_code a now len k).
Proof using Type.
  intros Hn Hl. unfold record_code, roll_code, kind_code, add_field, rate_code.
  apply ops_when_act; [done|]. intros [|] _; [stored|].
  apply ops_when_act; [|done]. unfold stores_u64, Det.fields_u64. simpl.
  split_and!; repeat case_match; done.
Qed.

Lemma fw_code_typed pkt cpu now : uint_ok 64 now -> ok (fw_code pkt cpu now).
Proof using Type.
  intros Hn. rewrite fw_code_rest. case_bool; [exact I|].
  apply ops_when_act; [done|]. intros c _. apply ops_when_bind; [apply incr_cell_typed|]. intros [].
  unfold rest_code. destruct (frame_loads pkt) as [L1 L2]. rewrite L1 by lia.
  cbn [clift mbind code_mbind code_bind]. destruct (negb _); [apply verdict_typed|].
  change (Z.of_nat (length pkt)) with (frame_len pkt).
  case_bool; [apply verdict_typed|]. rewrite L2 by lia.
  apply ops_when_act; [done|]. intros e _. destruct (_ =? _); [apply verdict_typed|].
  cbn [clift mbind code_mbind code_bind]. unfold filter_code.
  apply ops_when_bind; [unfold block_code; stored|]. intros [|]; [apply verdict_typed|].
  apply ops_when_act; [done|]. intros [|] _; [apply verdict_typed|].
  unfold limit_code. rewrite classify_kind by lia. cbn [clift mbind code_mbind code_bind].
  apply ops_when_bind; [apply record_code_typed; [done|]|intros rate].
  - pose proof (wrap_range 32 ltac:(lia) (frame_len pkt)) as Hr. unfold uint_ok, u32 in *. lia.
  - apply ops_when_act; [done|]. intros pps _. destruct (_ && _); apply verdict_typed.
Qed.

Lemma frame_typed cpu (j : job) m :
  uint_ok 64 (snd j) -> typed m ->
  wp exec (keeps typed) (keeps typed) (frame_body cpu j) (fun _ => typed) m.
Proof using Type*.
  intros Hj Hm. eapply wp_keeps_when; [|by apply fw_code_typed|done]. intros o m2. apply exec_typed.
Qed.

(** In every state the processors come to, the programs keep this so. *)
Lemma typed_pool m es p :
  typed m -> fw_interleaving (Pool m ∅) es p ->
  Forall (arrives (fun _ (j : job) => uint_ok 64 (snd j))) es ->
  pool_ok exec (keeps typed) typed (fun _ _ _ => typed) p.
Proof using Type*.
  intros Hm Hr Ha.
  refine (proj1 (pool_ok_run exec frame_body ctl_effect (keeps typed) typed
    (fun _ (j : job) => uint_ok 64 (snd j)) (fun _ _ _ => typed) _ _ _ (Pool m ∅) es p _ Ha Hr)).
  - done.
  - intros m1 m2 Hc Ht. by eapply effect_typed.
  - intros cpu j m1 Hj Hm1. by apply frame_typed.
  - by apply pool_ok_empty.
Qed.

(** *** The property *)

(** C14. The maps are well-typed. From well-typed maps, however the accesses of
  the processors and the commands of the control plane interleave, and even
  when a processor goes on using an entry that was evicted under it, every
  value in the maps fits its __u64, and no program reaches a memory error. So
  the views that [watch] and [stats] take of the maps are always defined. *)
Theorem maps_typed m es p :
  typed m -> fw_interleaving (Pool m ∅) es p ->
  Forall (arrives (fun _ (j : job) => uint_ok 64 (snd j))) es ->
  typed (shared p) /\ forall cpu j c, active p !! cpu = Some (j, c) -> c <> Fault.
Proof using Type*.
  intros Hm Hr Ha. pose proof (typed_pool m es p Hm Hr Ha) as Hok.
  split; [apply Hok|]. intros cpu j c Hc ->.
  by destruct (pool_ok_progress _ _ _ _ _ _ _ _ Hok Hc) as [(? & ? & ?)|(? & ? & ?)].
Qed.
End Typed.

(** *** Witness *)

Lemma maps_typed_witness :
  let _ := little in
  exists es p, typed late_st /\
    fw_interleaving (demo_pool late_st) es p /\ length es = 54%nat /\
    typed (shared p) /\ forall cpu j c, active p !! cpu = Some (j, c) -> c <> Fault.
Proof.
  intros en.
  destruct (demo_schedule late_race late_st) as [[es p]|] eqn:E.
  2:{ vm_compute in E. discriminate. }
  assert (fw_interleaving (demo_pool late_st) es p) as Hr
    by (by eapply (schedule_run exec frame_body)).
  assert (typed late_st) as Ht.
  { split; [by intros a e| |repeat constructor; done|repeat constructor; done].
    intros a s Hs.
    change (({[demo_src := IpStats 0 0 5 0 300 0 5 0]} : gmap Z ip_stats) !! a = Some s) in Hs.
    apply lookup_singleton_Some in Hs as [_ <-]. repeat split; done. }
  exists es, p. split; [exact Ht|]. split; [exact Hr|].
  vm_compute in E. injection E as Ees _. split; [by rewrite <-Ees|].
  apply (maps_typed late_st es p Ht Hr).
  rewrite <-Ees. repeat (constructor; [done|]). constructor.
Defined.
