(* ===== verification/FwBanRace.v ===== *)
(** * Bans while the data plane runs

    A ban is written by a command or by [watch] while processors are inside
    [fw_prog]. Once it is in the map, every frame of its source that arrives
    later is dropped, however the accesses interleave ([ban_interleaved]) -
    unless a processor had already found the source's previous ban expired
    and is about to delete it: then the new ban is deleted instead
    ([ban_lost]). *)

From S2P Require Import Prelude Interleave BpfMaps FwProg FwSpec RateLimit FwTrace FwConc CStrings Detector FwCtl FwCtlSpec FwWatch FwDaemon FwMain FwRaces.
#[local] Open Scope Z_scope.

Section BanRace.
Context `{Endian} {BL RD IS : Type}.
Context `{BpfHash BL Z, LpmTrie RD, BpfHash IS ip_stats, Reclaimed IS}.
Context `{!BpfHashLaws BL Z, !LpmLaws RD, !BpfHashLaws IS ip_stats}.
#[local] Abbreviation kmaps := (kmaps BL RD IS).
#[local] Abbreviation code := (code answer).
#[local] Abbreviation pool := (@pool op answer kmaps job xdp_action).
#[local] Abbreviation label := (@label job xdp_action).
Implicit Types (m : kmaps) (p : pool) (es : list label).

(** The firewall is on and [a] is banned until [E] at least. *)
Definition ban_on (a E : Z) m : Prop :=
  (exists e, bpf_lookup (fw_blocklist m) a = Some e /\ lasts E e) /\ enabled m.

(** The next access of the program deletes the ban of [a]. *)
Definition deletes (a : Z) (c : code xdp_action) : Prop :=
  exists k, c = Do (BlockDelete a) k.

(** The frame's time is not after [E], when the frame is from [a]. *)
Definition job_in_force (a E : Z) (j : job) : Prop := src_of (fst j) = a -> snd j <= E.

Definition keeps_op (a : Z) (o : op) : Prop := o <> BlockDelete a.

Lemma exec_keeps_ban a e o m : keeps_op a o -> keeps (ban_on a e) m (snd (exec o m)).
Proof using Type*.
  intros Ho [(e0 & Hl & Hlast) He].
  destruct o; simpl; try (by split; [exists e0|]); try (by case_match; split; [exists e0|done|exists e0|]).
  destruct (bpf_delete _ _) as [b|] eqn:E; [|by split; [exists e0|]]. split; [|done].
  exists e0. split; [|done]. cbn [fw_blocklist set_blocklist].
  rewrite (bpf_delete_ne _ _ _ _ E); [done|]. intros ->. by apply Ho.
Qed.

Lemma limit_keeps_op cpu b a o : limit_op cpu b o -> keeps_op a o.
Proof using Type. by intros Ho ->. Qed.

(** [ban_wp]: what a program does while the others keep the ban. *)
Definition ban_wp {A} (a e : Z) (c : code A) (Q : A -> Prop) m : Prop :=
  wp exec (keeps (ban_on a e)) (keeps (ban_on a e)) c (fun x _ => Q x) m.

Lemma ban_wp_bind {A B} a e (c : code A) (f : A -> code B) Q m :
  all_ops (keeps_op a) c -> ban_on a e m ->
  (forall x m, ban_on a e m -> ban_wp a e (f x) Q m) -> ban_wp a e (c ≫= f) Q m.
Proof using Type*.
  intros Hc Hm Hf. apply wp_bind; [apply _|].
  eapply wp_mono; [|by eapply wp_keeps; [intros; by apply exec_keeps_ban|..]]. auto.
Qed.

Lemma ban_wp_ops {A} a e (c : code A) m :
  all_ops (keeps_op a) c -> ban_on a e m -> ban_wp a e c (fun _ => True) m.
Proof using Type*.
  intros Hc Hm. eapply wp_mono; [|by eapply wp_keeps; [intros; by apply exec_keeps_ban|..]]. done.
Qed.

Lemma ban_wp_verdict (v : xdp_action) c cpu f (Q : xdp_action -> Prop) a e m :
  Q v -> ban_on a e m -> ban_wp a e (_ ← incr_cell c cpu f; mret v) Q m.
Proof using Type*.
  intros Hv Hm. apply ban_wp_bind; [|done|].
  - eapply all_ops_mono, (incr_cell_ops c cpu 0). intros o. apply limit_keeps_op.
  - intros ? m1 Hm1 m2 Hm2. done.
Qed.

(** A well-formed IPv4 frame of [a]. *)
Definition frame_of (a : Z) (pkt : list Z) : Prop :=
  bytes_ok pkt /\ 34 <= frame_len pkt /\ ethertype pkt = 0x0800 /\ src_of pkt = a.

Definition drops_frame (a : Z) (j : job) (v : xdp_action) : Prop :=
  frame_of a (fst j) -> v = XDP_DROP.

Lemma ban_wp_filter a e c cpu pkt now len Q m :
  now <= e -> ban_on a e m -> Q XDP_DROP ->
  ban_wp a e (filter_code c cpu pkt a now len) Q m.
Proof using Type*.
  intros Hf Hm HQ m1 Hm1. destruct (Hm1 Hm) as [(e0 & Hl & Hlast) He]. split; [done|].
  cbn [exec fst snd]. rewrite Hl.
  assert ((e0 =? 0) || (now <=? e0) = true) as Hb
    by (apply orb_true_iff; rewrite Z.eqb_eq, Z.leb_le; unfold lasts in Hlast; lia).
  cbn [mbind code_mbind code_bind]. rewrite Hb. apply ban_wp_verdict; [done|by apply Hm1].
Qed.

Lemma ban_wp_rest a e c cpu pkt now m :
  14 <= frame_len pkt -> src_of pkt = a -> now <= e -> ban_on a e m ->
  ban_wp a e (rest_code c pkt cpu now) (drops_frame a (pkt, now)) m.
Proof using Type*.
  intros Hl Ha Hf Hm. unfold rest_code. destruct (frame_loads pkt) as [L1 L2].
  rewrite L1 by done. cbn [clift mbind code_mbind code_bind].
  change (Z.of_nat (length pkt)) with (frame_len pkt).
  destruct (negb _) eqn:Et.
  { apply ban_wp_verdict; [|done]. intros (Hok & _ & Hip & _). exfalso.
    cbn [fst] in *. rewrite ethertype_test in Et by done. by rewrite Hip in Et. }
  case_bool; [by apply ban_wp_verdict|].
  rewrite L2, Ha by done. intros m1 Hm1. specialize (Hm1 Hm). split; [done|].
  pose proof Hm1 as [_ He]. cbn [exec fst snd mbind code_mbind code_bind clift].
  rewrite (proj2 (Z.eqb_neq (default 0 (fw_config m1 !! Z.to_nat CFG_ENABLED)) 0) He). by apply ban_wp_filter.
Qed.

Lemma ban_wp_frame a e cpu j m :
  src_of (fst j) = a -> snd j <= e -> ban_on a e m ->
  ban_wp a e (frame_body cpu j) (drops_frame a j) m.
Proof using Type*.
  destruct j as [pkt now]. intros Ha Hf Hm. unfold frame_body. cbn [fst snd] in *.
  rewrite fw_code_rest. case_bool; [intros m1 _ (_ & ? & _); simpl in *; lia|].
  apply ban_wp_bind; [by apply all_ops_act|done|]. intros c m1 Hm1.
  apply ban_wp_bind; [|done|].
  - eapply all_ops_mono, (incr_cell_ops c cpu 0). intros o. apply limit_keeps_op.
  - intros ? m2 Hm2. by apply ban_wp_rest.
Qed.

Lemma ban_wp_job a e cpu j m :
  job_in_force a e j -> ban_on a e m -> ban_wp a e (frame_body cpu j) (drops_frame a j) m.
Proof using Type*.
  intros Hj Hm. destruct (decide (src_of (fst j) = a)) as [Ha|Ha].
  - apply ban_wp_frame; auto.
  - eapply wp_mono; [|apply (ban_wp_ops a e); [|done]].
    + intros v _ _ (_ & _ & _ & ?). done.
    + eapply all_ops_mono, fw_code_ops. intros o Ho ->. by apply Ha.
Qed.

(** *** Programs in flight *)

(** Whatever is left of a program deletes the ban at once, or never does. *)
Definition benign (a e : Z) (c : code xdp_action) : Prop :=
  deletes a c \/ forall m, ban_on a e m -> ban_wp a e c (fun _ => True) m.

Lemma benign_ops a e c : all_ops (keeps_op a) c -> everywhere (benign a e) c.
Proof using Type*.
  apply everywhere_ops. intros c' Hc'. right. intros m Hm. by apply ban_wp_ops.
Qed.

Lemma benign_bind {A} a e (c : code A) (f : A -> code xdp_action) :
  all_ops (keeps_op a) c -> (forall x m, ban_on a e m -> ban_wp a e (f x) (fun _ => True) m) ->
  (forall x, everywhere (benign a e) (f x)) -> everywhere (benign a e) (c ≫= f).
Proof using Type*.
  intros Hc Hf He. apply (everywhere_bind (all_ops (keeps_op a))); [|by eapply everywhere_ops|done].
  intros c' Hc'. right. intros m Hm. by apply ban_wp_bind.
Qed.

Lemma benign_filter a e c cpu pkt now len :
  34 <= frame_len pkt -> now <= e -> everywhere (benign a e) (filter_code c cpu pkt a now len).
Proof using Type*.
  intros Hl Hf. assert (forall b : bool, all_ops (keeps_op a)
    (if b then drop_code c cpu else
     r ← act (RangeLookup a); if r : bool then drop_code c cpu else limit_code c cpu pkt a now len))
    as Htail.
  { assert (all_ops (keeps_op a) (drop_code c cpu)) as Hd
      by (eapply all_ops_mono, (drop_code_ops c cpu a); intros o; apply limit_keeps_op).
    intros [|]; [done|]. apply all_ops_bind; [by apply all_ops_act|]. intros [|]; [done|].
    eapply all_ops_mono, limit_code_ops; [intros o; apply limit_keeps_op|done]. }
  split.
  - right. intros m Hm. by apply ban_wp_filter.
  - intros [exp|]; cbn [mbind code_mbind code_bind]; [|apply benign_ops, (Htail false)].
    destruct (_ || _); [apply benign_ops, (Htail true)|].
    split; [left; by eexists|]. intros []. apply benign_ops, (Htail false).
Qed.

Lemma benign_rest a e c cpu pkt now :
  14 <= frame_len pkt -> src_of pkt = a -> now <= e ->
  everywhere (benign a e) (rest_code c pkt cpu now).
Proof using Type*.
  intros Hl Ha Hf. unfold rest_code. destruct (frame_loads pkt) as [L1 L2].
  rewrite L1 by done. cbn [clift mbind code_mbind code_bind].
  assert (everywhere (benign a e) (pass_code c cpu) /\ everywhere (benign a e) (drop_code c cpu))
    as [Hp Hd].
  { split; eapply benign_ops, all_ops_mono;
      [intros o; apply (limit_keeps_op cpu a)|apply pass_code_ops
      |intros o; apply (limit_keeps_op cpu a)|apply drop_code_ops]. }
  change (Z.of_nat (length pkt)) with (frame_len pkt).
  destruct (negb _); [done|]. case_bool; [done|]. rewrite L2, Ha by done.
  apply benign_bind; [by apply all_ops_act| |].
  - intros x m Hm. cbn [clift mbind code_mbind code_bind].
    destruct (x =? 0); [by apply ban_wp_verdict|by apply ban_wp_filter].
  - intros x. cbn [clift mbind code_mbind code_bind].
    destruct (x =? 0); [done|by apply benign_filter].
Qed.

Lemma benign_frame a e cpu j : job_in_force a e j -> everywhere (benign a e) (frame_body cpu j).
Proof using Type*.
  destruct j as [pkt now]. intros Hj. unfold job_in_force, frame_body in *. cbn [fst snd] in *.
  destruct (decide (src_of pkt = a)) as [Ha|Ha].
  2:{ apply benign_ops. eapply all_ops_mono, fw_code_ops.
      intros o Ho ->. by apply Ha. }
  specialize (Hj Ha). rewrite fw_code_rest. case_bool; [by apply benign_ops|].
  assert (forall c, all_ops (keeps_op a) (incr_cell c cpu Rx)) as Hi.
  { intros c. eapply all_ops_mono, (incr_cell_ops c cpu 0). intros o. apply limit_keeps_op. }
  assert (forall c m, ban_on a e m -> ban_wp a e (rest_code c pkt cpu now) (fun _ => True) m) as Hw.
  { intros c m Hm. eapply wp_mono; [|by apply ban_wp_rest]. done. }
  apply benign_bind; [by apply all_ops_act| |].
  - intros c m Hm. apply ban_wp_bind; auto.
  - intros c. apply benign_bind; [done|auto|]. intros _. by apply benign_rest.
Qed.
(** Commands that leave the ban of [a] and the switch alone. *)
Definition keeping_control (a e : Z) m m' : Prop :=
  ctl_effect m m' /\ keeps (ban_on a e) m m'.

Definition in_force_arrivals (a e : Z) es : Prop :=
  Forall (arrives (fun _ => job_in_force a e)) es.

(** No processor is about to delete the ban of [a]. *)
Definition nobody_deletes (a : Z) p : Prop :=
  forall cpu j c, active p !! cpu = Some (j, c) -> ~ deletes a c.

Lemma pool_ok_ban m es a e p :
  fw_interleaving (Pool m ∅) es p -> in_force_arrivals a e es ->
  ban_on a e (shared p) -> nobody_deletes a p ->
  pool_ok exec (keeps (ban_on a e)) (ban_on a e) (fun _ _ _ _ => True) p.
Proof using Type*.
  intros Hr Ha Hb Hn. split; [done|]. intros cpu j c Hc.
  assert (everywhere (benign a e) c) as Hl.
  { eapply (pool_left_run exec frame_body _ _ (fun _ => job_in_force a e)); [|exact Ha| |exact Hr|done].
    - intros cpu' j'. apply benign_frame.
    - intros cpu' j' c'. cbn [active]. by rewrite lookup_empty. }
  apply everywhere_here in Hl as [Hd|Hw]; [by destruct (Hn _ _ _ Hc)|by apply Hw].
Qed.

Lemma ban_holds m es0 p0 a e es1 cpu j es2 v p :
  fw_interleaving (Pool m ∅) es0 p0 ->
  ban_on a e (shared p0) -> nobody_deletes a p0 ->
  run exec frame_body (keeping_control a e) p0 (es1 ++ Arrive cpu j :: es2 ++ [Finish cpu j v]) p ->
  Forall (fun l => ~ finishes cpu l) es2 ->
  in_force_arrivals a e (es0 ++ es1 ++ Arrive cpu j :: es2) ->
  ban_on a e (shared p) /\ (frame_of a (fst j) -> v = XDP_DROP).
Proof using Type*.
  intros Hr0 Hb Hn Hr Hf Ha. apply Forall_app in Ha as [Ha0 Ha].
  apply Forall_app in Ha as [Ha1 Ha2].
  pose proof (pool_ok_ban _ _ _ _ _ Hr0 Ha0 Hb Hn) as Hok.
  assert (forall m m', keeping_control a e m m' -> keeps (ban_on a e) m m') as Hctl by by intros ?? [].
  apply run_app_inv in Hr as (p1 & Hr1 & Hr2).
  assert (forall m m', keeps (ban_on a e) m m' -> ban_on a e m -> ban_on a e m') as HI by done.
  destruct (pool_ok_run exec frame_body _ (keeps (ban_on a e)) (ban_on a e)
    (fun _ => job_in_force a e) (fun _ _ _ _ => True) HI Hctl
    (fun c j' m' Hj Hm => wp_mono _ _ _ _ _ _ _ (fun _ _ _ => I) (ban_wp_job a e c j' m' Hj Hm))
    _ _ _ Hok Ha1 Hr1) as [Hok1 _].
  set (Q := fun cpu' j' v' (_ : kmaps) => cpu' = cpu -> drops_frame a j' v').
  assert (pool_ok exec (keeps (ban_on a e)) (ban_on a e) Q p1) as HokQ.
  { inversion Hr2 as [|? ? ? ? ? Hs _]; subst. inversion Hs as [? ts ? ? Ht| | |]; subst.
    destruct Hok1 as [Hi Hp]. split; [done|]. intros cpu' j' c Hc.
    eapply wp_mono; [|by eapply Hp]. intros v' _ _ ->. cbn [active] in Hc. congruence. }
  destruct (pool_ok_run exec frame_body (keeping_control a e) (keeps (ban_on a e)) (ban_on a e)
    (fun _ => job_in_force a e) Q HI Hctl) with (p := p1) (es := Arrive cpu j :: es2 ++ [Finish cpu j v])
    (p' := p) as [[Hi _] Hfin]; [|done| |done|].
  - intros c j' m' Hj Hm. eapply wp_mono; [|by apply ban_wp_job]. intros v' ? Hd _. exact Hd.
  - apply Forall_cons in Ha2 as [Ha2 Ha3]. apply Forall_cons. split; [done|].
    apply Forall_app. split; [done|]. by apply Forall_singleton.
  - split; [done|]. apply Forall_cons in Hfin as [_ Hfin]. apply Forall_app in Hfin as [_ Hfin].
    apply Forall_cons in Hfin as [(m' & _ & Hfin) _]. exact (Hfin eq_refl).
Qed.

(** C10. A ban holds while the data plane runs. Take any state the processors
  and the control plane can reach in which the firewall is on, [a] is banned
  until [e], and no processor is about to delete the ban of [a] that was there
  before. From then on, while no command shortens that ban, every well-formed
  IPv4 frame of [a] that arrives before [e] is dropped, on whichever processor
  and however the accesses interleave, and the ban stays. *)
Theorem ban_interleaved m es0 p0 a e es1 cpu j es2 v p :
  fw_interleaving (Pool m ∅) es0 p0 ->
  ban_on a e (shared p0) -> nobody_deletes a p0 ->
  run exec frame_body (keeping_control a e) p0 (es1 ++ Arrive cpu j :: es2 ++ [Finish cpu j v]) p ->
  Forall (fun l => ~ finishes cpu l) es2 ->
  in_force_arrivals a e (es0 ++ es1 ++ Arrive cpu j :: es2) ->
  ban_on a e (shared p) /\ (frame_of a (fst j) -> v = XDP_DROP).
Proof using Type*. apply ban_holds. Qed.

Context (inet_pton : string -> option Z) (clock : nat -> Z * Z).

(** C18. A ban can be lost. When a processor has found the previous ban of [a]
  expired and is about to delete it, [block] succeeds and the new ban is in the
  map, permanent or not; then the processor's next access removes it, and [a]
  is not in the blocklist although the command said that it is blocked. *)
Theorem ban_lost p cpu j a (k : unit -> code xdp_action) a0 rest (w : world BL RD IS) :
  active p !! cpu = Some (j, Do (BlockDelete a) k) ->
  w_maps w = shared p -> daemon w -> inet_pton a0 = Some a ->
  is_Some (bpf_update (fw_blocklist (w_maps w)) a (expiry_of clock (sec_arg rest) w)) ->
  exists w' p',
    cmd_block inet_pton clock (a0 :: rest) w = Some (0, w') /\
    bpf_lookup (fw_blocklist (w_maps w')) a = Some (expiry_of clock (sec_arg rest) w) /\
    fw_interleaving p [Control; Access cpu] p' /\
    shared p' = set_blocklist (fw_blocklist (shared p')) (w_maps w') /\
    bpf_lookup (fw_blocklist (shared p')) a = None.
Proof using Type*.
  intros Hc Hw Hd Hip [b Hb]. destruct p as [m ts]. cbn [shared active] in *.
  pose proof (cmd_block_ok inet_pton clock a0 rest a b w Hd Hip Hb) as E.
  set (w' := say _ _) in E. set (m' := w_maps w').
  exists w', (Pool (snd (exec (BlockDelete a) m')) (<[cpu := (j, k tt)]> ts)).
  split; [done|]. split; [by apply bpf_update_eq in Hb|]. split; [|split].
  - eapply run_cons; [|eapply run_cons; [|apply run_nil]].
    + apply step_control. rewrite <-Hw. eapply effect_block; [|exact Hb]. apply (expiry_of_range clock _ w).
    + by apply step_access.
  - change (w_maps w') with m'. clearbody m'. cbn [shared exec snd]. destruct (bpf_delete (fw_blocklist m') a); [done|by destruct m'].
  - clearbody m'. cbn [shared exec snd]. destruct (bpf_delete (fw_blocklist m') a) as [b'|] eqn:Ed.
    + by apply bpf_delete_eq in Ed.
    + by apply bpf_delete_fail in Ed.
Qed.
End BanRace.

(** *** Witnesses *)

(** 10.0.0.2 banned for ever, and banned until time 5. *)
Definition banned_st : demo_maps := set_blocklist {[demo_src := 0]} demo_st.
Definition expired_st : demo_maps := set_blocklist {[demo_src := 5]} demo_st.

Lemma ban_interleaved_witness :
  let _ := little in
  exists p, run exec frame_body (keeping_control demo_src 7)
      (demo_pool banned_st)
      ([] ++ Arrive 0 (udp_frame, 7) :: replicate 7 (Access 0) ++ [Finish 0 (udp_frame, 7) XDP_DROP]) p /\
    ban_on demo_src 7 (shared p) /\ (frame_of demo_src udp_frame -> XDP_DROP = XDP_DROP).
Proof.
  intros en.
  destruct (demo_runs (Begin 0 (udp_frame, 7) :: replicate 8 (Go 0)) banned_st
    ([] ++ Arrive 0 (udp_frame, 7) :: replicate 7 (Access 0) ++ [Finish 0 (udp_frame, 7) XDP_DROP]))
    as (p & _ & E).
  { vm_compute. reflexivity. }
  exists p. assert (run exec frame_body (keeping_control demo_src 7)
    (demo_pool banned_st)
    ([] ++ Arrive 0 (udp_frame, 7) :: replicate 7 (Access 0) ++ [Finish 0 (udp_frame, 7) XDP_DROP]) p)
    as Hr by (by eapply (schedule_run exec frame_body)).
  split; [exact Hr|].
  apply (ban_interleaved banned_st [] (demo_pool banned_st) demo_src 7
    [] 0 (udp_frame, 7) (replicate 7 (Access 0)) XDP_DROP p).
  - apply run_nil.
  - split; [exists 0; split; [reflexivity|by left]|]. vm_compute. discriminate.
  - intros cpu j c Hc. vm_compute in Hc. discriminate.
  - exact Hr.
  - repeat constructor; simpl; tauto.
  - repeat constructor; intros _; simpl; lia.
Defined.

(** The next operation of a program. *)
Definition next_op (c : code answer xdp_action) : option op :=
  match c with Do o _ => Some o | _ => None end.

Lemma next_delete c a :
  next_op c = Some (BlockDelete a) -> exists k : unit -> code answer xdp_action, c = Do (BlockDelete a) k.
Proof. destruct c as [| |o k]; [done..|]. intros [= ->]. by exists k. Defined.

(** Up to the lookup of the expired ban. *)
Definition expired_run : list (choice (J := job)) := Begin 0 (udp_frame, 10) :: replicate 5 (Go 0).

Lemma ban_lost_witness :
  let _ := little in
  exists p w w' p',
    fw_interleaving (demo_pool expired_st)
      (Arrive 0 (udp_frame, 10) :: replicate 5 (Access 0)) p /\
    cmd_block demo_pton demo_clock ["10.0.0.2"] w = Some (0, w') /\
    bpf_lookup (fw_blocklist (w_maps w')) demo_src = Some (expiry_of demo_clock 0 w) /\
    fw_interleaving p [Control; Access 0] p' /\
    shared p' = set_blocklist (fw_blocklist (shared p')) (w_maps w') /\
    bpf_lookup (fw_blocklist (shared p')) demo_src = None.
Proof.
  intros en.
  destruct (demo_runs expired_run expired_st (Arrive 0 (udp_frame, 10) :: replicate 5 (Access 0)))
    as (p & Hr & E).
  { vm_compute. reflexivity. }
  assert (((fun jc => next_op (snd jc)) <$> active p !! 0%nat) = Some (Some (BlockDelete demo_src))) as Hn.
  { apply (f_equal (fmap (fun x => (fun jc => next_op (snd jc)) <$> active (snd x) !! 0%nat))) in E.
    cbn [fmap option_fmap option_map snd] in E. apply (inj Some). rewrite <-E. vm_compute. reflexivity. }
  destruct (active p !! 0%nat) as [[j c]|] eqn:Ec; [|discriminate].
  apply (inj Some), next_delete in Hn as [k Hk]. cbn [snd] in Hk. rewrite Hk in Ec.
  set (w := with_maps (shared p) demo_world).
  destruct (ban_lost demo_pton demo_clock p 0 j demo_src k "10.0.0.2" [] w)
    as (w' & p' & Hcmd & Hl & Hrun & Hsh & Hnone).
  - exact Ec.
  - reflexivity.
  - exact demo_daemon.
  - reflexivity.
  - by eexists.
  - exists p, w, w', p'. split; [exact Hr|]. repeat split; [exact Hcmd|exact Hl|exact Hrun|exact Hsh|exact Hnone].
Defined.
