(* ===== verification/FwPinned.v ===== *)
(** * The rate limit on several processors

    Two processors that handle frames of one source at a time can both pass
    a frame the limit does not cover, and can drop one it covers
    ([FwRaces.limit_raced], [FwRaces.late_raced]). A network card whose
    receive queues are chosen by a hash of the addresses sends all frames of a
    source to one processor. Then the limit of [RateLimit] holds, however the
    accesses of that processor, those of the others and the commands of the
    control plane interleave ([rate_limit_interleaved]): nobody else touches
    the entry of the source. *)

From S2P Require Import Prelude Interleave BpfMaps FwProg FwSpec RateLimit FwTrace FwConc CStrings FwCtl FwRaces FwBanRace.
#[local] Open Scope Z_scope.

Lemma filter_sublist_mono {A} (P : A -> Prop) `{!forall x, Decision (P x)} (l1 l2 : list A) :
  l1 `sublist_of` l2 -> filter P l1 `sublist_of` filter P l2.
Proof.
  induction 1 as [|x l1 l2 _ IH|x l1 l2 _ IH]; [done|..]; rewrite !filter_cons; case_decide; try done.
  - by apply sublist_skip.
  - by apply sublist_cons.
Qed.

Section Pinned.
Context `{Endian} {BL RD IS : Type}.
Context `{BpfHash BL Z, LpmTrie RD, BpfHash IS ip_stats, Reclaimed IS}.
Context `{!BpfHashLaws BL Z, !LpmLaws RD, !BpfHashLaws IS ip_stats, !BpfHashKeeps IS ip_stats}.
#[local] Abbreviation kmaps := (kmaps BL RD IS).
#[local] Abbreviation code := (code answer).
#[local] Abbreviation access := (act (ans := answer)).
#[local] Abbreviation pool := (@pool op answer kmaps job xdp_action).
#[local] Abbreviation label := (@label job xdp_action).
Implicit Types (m : kmaps) (p : pool) (es : list label) (a pps now : Z) (cpu : nat).

(** ** What the processors promise each other *)

(** The firewall is on, with a limit of at most [pps]. *)
Definition guarded pps m : Prop := enabled m /\ 0 < limit m <= pps.

Definition has_entry m b : Prop := is_Some (bpf_lookup (fw_ip_stats m) b).

(** Entries stay, and so does the limit. *)
Record persists pps m m' : Prop := {
  ps_entry b : has_entry m b -> has_entry m' b;
  ps_guarded : guarded pps m -> guarded pps m';
}.

(** And nothing happens to the entry of [a]. *)
Definition quiet pps a m m' : Prop :=
  persists pps m m' /\ bpf_lookup (fw_ip_stats m') a = bpf_lookup (fw_ip_stats m) a.

#[local] Instance persists_preorder pps : PreOrder (persists pps).
Proof using Type.
  split; [by split|]. intros m1 m2 m3 [E1 G1] [E2 G2]. split; auto.
Qed.

#[local] Instance quiet_preorder pps a : PreOrder (quiet pps a).
Proof using Type.
  split; [by split|]. intros m1 m2 m3 [P1 E1] [P2 E2].
  split; [by etrans|]. congruence.
Qed.

Definition no_entry_op (o : op) : Prop :=
  match o with
  | EntryLookup _ | EntryLoad _ _ | EntryStore _ _ _ | EntryUpdate _ _ => False
  | _ => True
  end.

(** The accesses to the entry of [b] once it is found. *)
Definition found_op (b : Z) (o : op) : Prop :=
  match o with EntryLoad c _ | EntryStore c _ _ => c = b | _ => False end.

Lemma same_maps_quiet pps a m m' :
  fw_ip_stats m' = fw_ip_stats m -> fw_config m' = fw_config m -> quiet pps a m m'.
Proof using Type.
  intros E1 E2. split; [split|]; unfold has_entry, guarded, enabled, limit; by rewrite ?E1, ?E2.
Qed.

Lemma exec_no_entry pps a o m : no_entry_op o -> quiet pps a m (snd (exec o m)).
Proof using Type.
  intros Ho. apply same_maps_quiet; destruct o; simpl; try done; by repeat case_match.
Qed.

Lemma set_ip_stats_persists pps m i :
  (forall b, has_entry m b -> is_Some (bpf_lookup i b)) -> persists pps m (set_ip_stats i m).
Proof using Type. by split. Qed.

Lemma write_persists pps m b s0 s :
  bpf_lookup (fw_ip_stats m) b = Some s0 ->
  persists pps m (set_ip_stats (bpf_write (fw_ip_stats m) b s) m).
Proof using Type*.
  intros Hs. apply set_ip_stats_persists. intros c Hc. destruct (decide (b = c)) as [<-|Hne].
  - by erewrite bpf_write_eq.
  - by rewrite bpf_write_ne.
Qed.

Lemma update_persists pps m b s i :
  bpf_update (fw_ip_stats m) b s = Some i -> persists pps m (set_ip_stats i m).
Proof using Type*.
  intros Hu. apply set_ip_stats_persists. intros c Hc. destruct (decide (b = c)) as [<-|Hne].
  - by erewrite bpf_update_eq.
  - by rewrite (bpf_update_keeps _ _ _ _ _ Hu Hne).
Qed.

(** An access to the entry of another source. *)
Lemma exec_found pps a b o m :
  found_op b o -> b <> a -> has_entry m b -> quiet pps a m (snd (exec o m)).
Proof using Type*.
  intros Ho Hne [s Hs]. destruct o; simpl in Ho; try done; subst.
  cbn [exec snd]. rewrite Hs. split; [by eapply write_persists|]. by apply bpf_write_ne.
Qed.

Lemma exec_update_other pps a b s m :
  b <> a -> quiet pps a m (snd (exec (EntryUpdate b s) m)).
Proof using Type*.
  intros Hne. cbn [exec snd]. destruct (bpf_update _ _ _) as [i|] eqn:E; [|reflexivity].
  split; [by eapply update_persists|]. by eapply bpf_update_keeps.
Qed.

Lemma effect_quiet pps a m m' :
  ctl_effect m m' -> guarded pps m' -> quiet pps a m m'.
Proof using Type.
  intros Hc Hg. destruct Hc as [m|m ip e b ? ?|m ip b ?|m k v r ?|m k r ?|m m' i v ? E];
    [reflexivity|by apply same_maps_quiet..|].
  unfold config_update in E. case_match; simplify_eq. by split; [split|].
Qed.

(** ** Frames of other sources *)

(** [away_wp a c]: whatever the others do, [c] leaves the entry of [a] alone. *)
Definition away_wp {A} pps a (c : code A) m : Prop :=
  wp exec (persists pps) (quiet pps a) c (fun _ _ => True) m.

Lemma away_bind {A B} pps a (c : code A) (f : A -> code B) m :
  all_ops no_entry_op c -> (forall x m', away_wp pps a (f x) m') -> away_wp pps a (c ≫= f) m.
Proof using Type.
  intros Hc Hf. apply wp_bind; [apply _|]. revert m.
  induction c as [x| |o k IH]; intros m; [|done|].
  - intros m' _. apply Hf.
  - destruct Hc as [Ho Hc]. intros m' _. split; [by apply exec_no_entry|]. by apply IH.
Qed.

(** Once the entry of [b] is found, it stays, and so do the others' entries. *)
Lemma away_found {A} pps a b (c : code A) m :
  b <> a -> has_entry m b -> all_ops (found_op b) c -> away_wp pps a c m.
Proof using Type*.
  intros Hne. revert m. induction c as [x| |o k IH]; intros m Hb; [done|done|].
  intros [Ho Hc] m' Hm'. assert (has_entry m' b) as Hb' by by apply Hm'.
  assert (quiet pps a m' (snd (exec o m'))) as Hq by by eapply exec_found.
  split; [done|]. apply IH; [by apply Hq|done].
Qed.

Lemma record_found b now len k :
  all_ops (found_op b) (_ ← roll_code b now; _ ← add_field b Packets 1; _ ← add_field b Bytes len;
                        _ ← kind_code b k; rate_code b now).
Proof using Type. unfold roll_code, kind_code, add_field, rate_code. shape. Qed.

Lemma away_bind_any {A B} pps a (c : code A) (f : A -> code B) m :
  away_wp pps a c m -> (forall x m', away_wp pps a (f x) m') -> away_wp pps a (c ≫= f) m.
Proof using Type. intros Hc Hf. apply wp_bind; [apply _|]. eapply wp_mono; [|exact Hc]. intros x m1 _. apply Hf. Qed.

Lemma away_record pps a b now len k m : b <> a -> away_wp pps a (record_code b now len k) m.
Proof using Type*.
  intros Hne m1 _. split; [by apply same_maps_quiet|].
  change (snd (exec (EntryLookup b) m1)) with m1. change (fst (exec (EntryLookup b) m1))
    with (bool_decide (has_entry m1 b)). cbn [mbind code_mbind code_bind].
  case_bool_decide as Hb; [by apply (away_found pps a b); [..|apply record_found]|].
  intros m2 _. split; [by apply exec_update_other|done].
Qed.

(** A frame that is not an IPv4 frame of [a] never comes to its entry. *)
Lemma away_frame pps a cpu j m :
  bytes_ok (fst j) -> ~ frame_of a (fst j) -> away_wp pps a (frame_body cpu j) m.
Proof using Type*.
  destruct j as [pkt now]. unfold frame_body. cbn [fst snd]. intros Hok Hn.
  assert (forall c f, all_ops no_entry_op (incr_cell c cpu f)) as Hi
    by (intros c f; unfold incr_cell; shape).
  assert (forall c (v : xdp_action) f m, away_wp pps a (_ ← incr_cell c cpu f; mret v) m) as Hv
    by (intros; by apply away_bind).
  rewrite fw_code_rest. case_bool; [done|].
  apply away_bind; [by apply all_ops_act|]. intros c m1.
  apply away_bind; [done|]. intros ? m2. unfold rest_code.
  destruct (frame_loads pkt) as [L1 L2]. rewrite L1 by lia.
  cbn [clift mbind code_mbind code_bind]. change (Z.of_nat (length pkt)) with (frame_len pkt).
  destruct (negb _) eqn:Et; [apply Hv|]. case_bool; [apply Hv|].
  rewrite L2 by lia. apply away_bind; [by apply all_ops_act|]. intros e m3.
  destruct (e =? 0); [apply Hv|]. cbn [clift mbind code_mbind code_bind]. unfold filter_code.
  apply away_bind; [unfold block_code; shape|]. intros b m4. destruct b; [apply Hv|].
  apply away_bind; [by apply all_ops_act|]. intros r m5. destruct r; [apply Hv|].
  unfold limit_code. rewrite classify_kind by lia. cbn [clift mbind code_mbind code_bind].
  apply away_bind_any.
  { apply away_record. intros Ha. apply Hn. rewrite ethertype_test in Et by (done || lia).
    apply negb_false_iff, Z.eqb_eq in Et. by repeat split; [|lia|..]. }
  intros rate m6. apply away_bind; [by apply all_ops_act|]. intros lim m7.
  case_match; apply Hv.
Qed.

(** ** Frames of the source *)

Definition holds pps a (o : option ip_stats) m : Prop :=
  guarded pps m /\ bpf_lookup (fw_ip_stats m) a = o.

(** [own_wp a c]: what [c] does while the others leave the entry of [a] alone. *)
Definition own_wp {A} pps a (c : code A) (Q : A -> kmaps -> Prop) m : Prop :=
  wp exec (quiet pps a) (persists pps) c Q m.

Lemma holds_quiet pps a o m m' : quiet pps a m m' -> holds pps a o m -> holds pps a o m'.
Proof using Type. intros [[_ Hg] E] [? ?]. split; [auto|congruence]. Qed.

Lemma own_bind {A B} pps a (c : code A) (f : A -> code B) Q P m :
  own_wp pps a c P m -> (forall x m', P x m' -> own_wp pps a (f x) Q m') ->
  own_wp pps a (c ≫= f) Q m.
Proof using Type. intros Hc Hf. apply wp_bind; [apply _|]. by eapply wp_mono. Qed.

Lemma own_ret {A} pps a o (x : A) (Q : A -> kmaps -> Prop) m :
  holds pps a o m -> (forall m', holds pps a o m' -> Q x m') -> own_wp pps a (mret x) Q m.
Proof using Type. intros Hm HQ m' Hq. by eapply HQ, holds_quiet. Qed.

Lemma own_silent {A} pps a o (c : code A) m :
  all_ops no_entry_op c -> holds pps a o m -> own_wp pps a c (fun _ => holds pps a o) m.
Proof using Type.
  intros Hc. revert m. induction c as [x| |op k IH]; intros m Hm; [by eapply own_ret|done|].
  destruct Hc as [Ho Hc]. intros m' Hq. assert (quiet pps a m' (snd (exec op m'))) as Hq'
    by by apply exec_no_entry.
  split; [apply Hq'|]. apply IH; [done|]. eapply holds_quiet; [exact Hq'|]. by eapply holds_quiet.
Qed.

Lemma own_verdict pps a o c cpu f (v : xdp_action) (Q : xdp_action -> kmaps -> Prop) m :
  holds pps a o m -> (forall m', holds pps a o m' -> Q v m') ->
  own_wp pps a (_ ← incr_cell c cpu f; mret v) Q m.
Proof using Type.
  intros Hm HQ. eapply own_bind; [apply own_silent; [unfold incr_cell; shape|exact Hm]|].
  intros ? m' Hm'. by apply (own_ret pps a o).
Qed.

Lemma own_load {A} pps a s f (k : Z -> code A) Q m :
  holds pps a (Some s) m ->
  (forall m', holds pps a (Some s) m' -> own_wp pps a (k (get_field f s)) Q m') ->
  own_wp pps a (x ← access (EntryLoad a f); k x) Q m.
Proof using Type.
  intros Hm Hk m1 Hq. pose proof (holds_quiet _ _ _ _ _ Hq Hm) as Hm1. split; [done|].
  cbn [exec fst snd]. rewrite (proj2 Hm1). by apply Hk.
Qed.

Lemma own_store {A} pps a s f v (k : unit -> code A) Q m :
  holds pps a (Some s) m ->
  (forall m', holds pps a (Some (set_field f v s)) m' -> own_wp pps a (k tt) Q m') ->
  own_wp pps a (x ← access (EntryStore a f v); k x) Q m.
Proof using Type*.
  intros Hm Hk m1 Hq. pose proof (holds_quiet _ _ _ _ _ Hq Hm) as [Hg Hs].
  cbn [exec fst snd]. rewrite Hs. split; [by eapply write_persists|]. apply Hk.
  split; [done|]. by eapply bpf_write_eq.
Qed.

Lemma own_store_last pps a s f v m :
  holds pps a (Some s) m ->
  own_wp pps a (access (EntryStore a f v)) (fun _ => holds pps a (Some (set_field f v s))) m.
Proof using Type*.
  intros Hm. change (access (EntryStore a f v)) with (x ← access (EntryStore a f v); mret x).
  eapply own_store; [exact Hm|]. intros m' Hm'. by eapply own_ret.
Qed.

Lemma own_roll pps a now s m :
  holds pps a (Some s) m ->
  own_wp pps a (roll_code a now) (fun _ => holds pps a (Some (roll_window now s))) m.
Proof using Type*.
  intros Hm. unfold roll_code, roll_window. eapply own_load; [exact Hm|]. intros m1 Hm1.
  cbn [get_field]. destruct (WINDOW_NS <=? _); [|by eapply own_ret].
  eapply own_load; [exact Hm1|]. intros m2 Hm2. eapply own_store; [exact Hm2|]. intros m3 Hm3.
  eapply own_load; [exact Hm3|]. intros m4 Hm4.
  do 6 (eapply own_store; [eassumption|]; intros ? ?).
  eapply wp_mono; [|by apply own_store_last]. by destruct s.
Qed.

Lemma own_add pps a s f d m :
  holds pps a (Some s) m ->
  own_wp pps a (add_field a f d)
    (fun _ => holds pps a (Some (set_field f (u64 (get_field f s + d)) s))) m.
Proof using Type*.
  intros Hm. eapply own_load; [exact Hm|]. intros m1 Hm1. by apply own_store_last.
Qed.

(** What is left of [count_packet] after the packets and the bytes. *)
Lemma own_kind pps a k len r m :
  (let s := set_field Packets (u64 (packets r + 1)) r in
   holds pps a (Some (set_field Bytes (u64 (get_field Bytes s + len)) s)) m) ->
  own_wp pps a (kind_code a k) (fun _ => holds pps a (Some (count_packet len k r))) m.
Proof using Type*.
  intros Hm. unfold kind_code, count_packet.
  destruct (is_syn k); [|destruct (is_udp k); [|destruct (is_icmp k)]].
  all: try (eapply wp_mono; [|by eapply own_add]; by destruct r).
  eapply own_ret; [exact Hm|]. by destruct r.
Qed.

Lemma own_rate pps a now s m :
  holds pps a (Some s) m ->
  own_wp pps a (rate_code a now)
    (fun rate m' => holds pps a (Some s) m' /\ rate = sliding_rate now s) m.
Proof using Type*.
  intros Hm. unfold rate_code. do 3 (eapply own_load; [eassumption|]; intros ? ?).
  by eapply own_ret.
Qed.

(** The program's work on the entry is that of [next_entry]. *)
Lemma own_record pps a now len k o m :
  holds pps a o m ->
  own_wp pps a (record_code a now len k)
    (fun rate m' => holds pps a (Some (fst (next_entry o now len k))) m' /\
       rate = snd (next_entry o now len k)) m.
Proof using Type*.
  intros Hm m1 Hq. split; [done|]. pose proof (holds_quiet _ _ _ _ _ Hq Hm) as Hm1.
  change (snd (exec (EntryLookup a) m1)) with m1. change (fst (exec (EntryLookup a) m1))
    with (bool_decide (is_Some (bpf_lookup (fw_ip_stats m1) a))).
  cbn [mbind code_mbind code_bind]. rewrite (proj2 Hm1). destruct o as [s|].
  - rewrite bool_decide_true by by eexists.
    eapply own_bind; [by apply own_roll|]. intros ? m2 Hm2. set (r := roll_window now s) in *.
    eapply own_bind; [apply own_add, Hm2|]. intros ? m3 Hm3.
    eapply own_bind; [apply own_add, Hm3|]. intros ? m4 Hm4.
    eapply own_bind; [apply (own_kind _ _ _ len), Hm4|]. intros ? m5 Hm5.
    apply own_rate, Hm5.
  - rewrite bool_decide_false by by intros [].
    intros m2 Hq2. pose proof (holds_quiet _ _ _ _ _ Hq2 Hm1) as [Hg _]. cbn [exec fst snd].
    destruct (bpf_update_ok (fw_ip_stats m2) a (fresh_stats now len k)) as [i Hu]. rewrite Hu.
    split; [by eapply update_persists|]. eapply own_ret; [|done].
    split; [done|]. by eapply bpf_update_eq.
Qed.

(** What became of a frame: it left the entry [o] of [a] as it was, or it was
    one packet of [a]. *)
Definition settled pps a (o : option ip_stats) (j : job) (v : xdp_action) m : Prop :=
  (holds pps a o m /\ (frame_of a (fst j) -> v = XDP_DROP)) \/
  (frame_of a (fst j) /\ exists e, ev_now e = snd j /\
     let out := source_step pps o e in
     holds pps a (Some (o_entry out)) m /\ (v = XDP_PASS -> o_pass out = true)).

(** From the classification on. *)
Lemma own_limit pps a c cpu pkt now len o m :
  frame_of a pkt -> holds pps a o m ->
  own_wp pps a (limit_code c cpu pkt a now len) (settled pps a o (pkt, now)) m.
Proof using Type*.
  intros Hf Hm. pose proof Hf as (_ & Hl & _). unfold limit_code.
  rewrite classify_kind by done. cbn [clift mbind code_mbind code_bind].
  eapply own_bind; [by apply own_record|]. intros rate m1 [Hm1 ->].
  set (e := Event now len (kind_of pkt)).
  assert (Hout : source_step pps o e = Outcome now (fst (next_entry o now len (kind_of pkt)))
    (under_limit pps (snd (next_entry o now len (kind_of pkt)))))
    by (unfold source_step, e; cbn [ev_now ev_len ev_kind]; by destruct (next_entry _ _ _ _)).
  destruct (next_entry o now len (kind_of pkt)) as [s rate]. cbn [fst snd] in *.
  intros m2 Hq2. pose proof (holds_quiet _ _ _ _ _ Hq2 Hm1) as Hm2. split; [done|].
  cbn [exec fst snd]. set (lim := default 0 _). assert (0 < lim <= pps) as Hlim by apply Hm2.
  assert (forall v m', holds pps a (Some s) m' -> (v = XDP_PASS -> under_limit pps rate = true) ->
    settled pps a o (pkt, now) v m') as Hs.
  { intros v m' Hm' Hv. right. split; [done|]. exists e. split; [done|]. cbn zeta.
    by rewrite Hout. }
  cbn [mbind code_mbind code_bind].
  destruct (_ && _) eqn:E; (eapply own_verdict; [exact Hm2|]; intros m3 Hm3; apply Hs; [done|]); [done|].
  intros _. unfold under_limit. apply negb_true_iff, andb_false_iff. rewrite !Z.ltb_ge.
  apply andb_false_iff in E. rewrite !Z.ltb_ge in E. lia.
Qed.

Lemma own_filter pps a c cpu pkt now len o m :
  frame_of a pkt -> holds pps a o m ->
  own_wp pps a (filter_code c cpu pkt a now len) (settled pps a o (pkt, now)) m.
Proof using Type*.
  intros Hf Hm. unfold filter_code.
  assert (forall m, holds pps a o m ->
    own_wp pps a (drop_code c cpu) (settled pps a o (pkt, now)) m) as Hdrop
    by (intros m0 Hm0; eapply own_verdict; [exact Hm0|]; by left).
  eapply own_bind; [apply own_silent; [unfold block_code; shape|exact Hm]|].
  intros b m1 Hm1. destruct b; [by apply Hdrop|].
  eapply own_bind; [apply own_silent; [by apply all_ops_act|exact Hm1]|].
  intros r m2 Hm2. destruct r; [by apply Hdrop|by apply own_limit].
Qed.

Lemma own_frame pps a cpu j o m :
  frame_of a (fst j) -> holds pps a o m ->
  own_wp pps a (frame_body cpu j) (settled pps a o j) m.
Proof using Type*.
  destruct j as [pkt now]. unfold frame_body. cbn [fst snd]. intros Hf Hm.
  pose proof Hf as (Hok & Hl & Hip & Ha).
  rewrite fw_code_rest. case_bool; [lia|].
  eapply own_bind; [apply own_silent; [by apply all_ops_act|exact Hm]|]. intros c m1 Hm1.
  eapply own_bind; [apply own_silent; [unfold incr_cell; shape|exact Hm1]|]. intros ? m2 Hm2.
  unfold rest_code. destruct (frame_loads pkt) as [L1 L2]. rewrite L1 by lia.
  cbn [clift mbind code_mbind code_bind]. change (Z.of_nat (length pkt)) with (frame_len pkt).
  rewrite ethertype_test, Hip by (done || lia). rewrite Z.eqb_refl. cbn [negb].
  case_bool; [lia|]. rewrite L2, Ha by lia.
  intros m3 Hq3. pose proof (holds_quiet _ _ _ _ _ Hq3 Hm2) as Hm3. split; [done|].
  pose proof (proj1 (proj1 Hm3)) as He. cbn [exec fst snd mbind code_mbind code_bind clift].
  rewrite (proj2 (Z.eqb_neq (default 0 (fw_config m3 !! Z.to_nat CFG_ENABLED)) 0) He).
  by apply own_filter.
Qed.

(** On the processor of [a], frames of other sources leave its entry alone. *)
Lemma own_other pps a cpu j o m :
  bytes_ok (fst j) -> ~ frame_of a (fst j) -> holds pps a o m ->
  own_wp pps a (frame_body cpu j) (settled pps a o j) m.
Proof using Type*.
  intros Hok Hn Hm. eapply wp_mono; [|eapply wp_track; [apply _|..|by apply away_frame]].
  - intros v m' [_ Hq]. left. by split; [eapply holds_quiet|].
  - by intros ? ? [? _].
  - intros m1 m2 Hq. by split; [|apply Hq].
Qed.

(** ** Every processor in a run *)

#[global] Instance frame_of_dec a pkt : Decision (frame_of a pkt).
Proof using Type. unfold frame_of, bytes_ok, byte_ok. apply _. Defined.

(** The times of the IPv4 frames of [a] that arrive, and of those that pass. *)
Definition own_time a (j : job) : list Z := if decide (frame_of a (fst j)) then [snd j] else [].
Fixpoint arrivals a es : list Z :=
  match es with
  | [] => []
  | Arrive _ j :: es => own_time a j ++ arrivals a es
  | _ :: es => arrivals a es
  end.
Fixpoint passes_of a es : list Z :=
  match es with
  | [] => []
  | Finish _ j XDP_PASS :: es => own_time a j ++ passes_of a es
  | _ :: es => passes_of a es
  end.

(** Frames are bytes, and those of [a] go to processor [c0]. *)
Definition pinned a (c0 : nat) (e : label) : Prop :=
  match e with
  | Arrive cpu j => bytes_ok (fst j) /\ (frame_of a (fst j) -> cpu = c0)
  | _ => True
  end.

#[global] Instance pinned_dec a c0 e : Decision (pinned a c0 e).
Proof using Type. destruct e; unfold pinned, bytes_ok, byte_ok; apply _. Defined.

(** Commands of all kinds, but the firewall stays on with a limit of at most
    [pps]. *)
Definition guarded_effect pps m m' : Prop := ctl_effect m m' /\ guarded pps m'.

(** The invariant, when the frames of [a] have arrived at the times [T] and
    passed at the times [L]: the entry of [a] is the one after a sequence of
    its packets at times among [T], and [L] are times at which the limiter
    let some of them pass. *)
Definition own_ok pps a (o : option ip_stats) (T L : list Z) (x : option (job * code xdp_action)) m : Prop :=
  exists evs, L `sublist_of` passed_times (source_run pps o evs) /\
    match x with
    | None => (ev_now <$> evs) `sublist_of` T /\ holds pps a (entry_after pps o evs) m
    | Some (j, c) => (ev_now <$> evs) ++ own_time a j `sublist_of` T /\
        own_wp pps a c (settled pps a (entry_after pps o evs) j) m
    end.

(** Every other processor leaves the entry of [a] alone. *)
Definition others_ok pps a (c0 : nat) (ts : gmap nat (job * code xdp_action)) m : Prop :=
  forall cpu j c, ts !! cpu = Some (j, c) -> cpu <> c0 -> ~ frame_of a (fst j) /\ away_wp pps a c m.

Record pinned_inv pps a (c0 : nat) (o : option ip_stats) (T L : list Z) p : Prop := {
  pi_guarded : guarded pps (shared p);
  pi_others : others_ok pps a c0 (active p) (shared p);
  pi_own : own_ok pps a o T L (active p !! c0) (shared p);
}.

Lemma own_ok_quiet pps a o T L x m m' : quiet pps a m m' -> own_ok pps a o T L x m -> own_ok pps a o T L x m'.
Proof using Type.
  intros Hq (evs & Hl & Hx). exists evs. split; [done|]. destruct x as [[j c]|].
  - destruct Hx. split; [done|]. by eapply wp_stable; [apply _|..].
  - destruct Hx. split; [done|]. by eapply holds_quiet.
Qed.

Lemma others_ok_persists pps a c0 ts m m' :
  persists pps m m' -> others_ok pps a c0 ts m -> others_ok pps a c0 ts m'.
Proof using Type.
  intros Hp Ho cpu j c Hc Hne. destruct (Ho cpu j c Hc Hne). split; [done|].
  by eapply wp_stable; [apply _|..].
Qed.

Lemma others_ok_insert pps a c0 ts cpu j c m :
  (cpu <> c0 -> ~ frame_of a (fst j) /\ away_wp pps a c m) -> others_ok pps a c0 ts m ->
  others_ok pps a c0 (<[cpu := (j, c)]> ts) m.
Proof using Type.
  intros Hc Ho cpu' j' c'. rewrite lookup_insert_Some.
  intros [[<- [= <- <-]]|[_ Hl]] Hne; [by apply Hc|by eapply Ho].
Qed.

Lemma own_time_not a j : ~ frame_of a (fst j) -> own_time a j = [].
Proof using Type. intros Hn. unfold own_time. by rewrite decide_False. Qed.

(** A frame arrives at the processor of [a]. *)
Lemma own_arrive pps a cpu j o T L m :
  bytes_ok (fst j) -> own_ok pps a o T L None m ->
  own_ok pps a o (T ++ own_time a j) L (Some (j, frame_body cpu j)) m.
Proof using Type*.
  intros Hok (evs & Hl & Ht & Hm). exists evs. split; [done|]. split; [by apply sublist_app|].
  destruct (decide (frame_of a (fst j))); [by apply own_frame|by apply own_other].
Qed.

(** It finishes. *)
Lemma own_finish pps a cpu j v o T L m :
  own_ok pps a o T L (Some (j, Ret v)) m ->
  own_ok pps a o T (L ++ passes_of a [Finish cpu j v]) None m.
Proof using Type*.
  intros (evs & Hl & Ht & Hw). specialize (Hw m ltac:(reflexivity)). unfold settled in Hw.
  destruct Hw as [[Hm Hv]|(Hf & e & He & Hm & Hv)].
  - assert (passes_of a [Finish cpu j v] = []) as ->.
    { simpl. destruct v; [done|]. unfold own_time. case_decide as Hf; [|done].
      by specialize (Hv Hf). }
    exists evs. rewrite app_nil_r. split; [done|]. split; [|done].
    etrans; [|exact Ht]. by apply sublist_inserts_r.
  - exists (evs ++ [e]). rewrite source_run_app, passed_times_app, entry_after_app, fmap_app.
    unfold own_time in Ht. rewrite decide_True in Ht by done. simpl in *. rewrite He.
    split; [|done]. apply sublist_app; [done|]. rewrite passed_times_one, source_step_now, He.
    unfold own_time. rewrite decide_True by done.
    destruct v; [apply sublist_nil_l|]. by rewrite Hv.
Qed.

Lemma pinned_inv_step pps a c0 o T L p e p' :
  pinned_inv pps a c0 o T L p -> pinned a c0 e ->
  step exec frame_body (guarded_effect pps) p e p' ->
  pinned_inv pps a c0 o (T ++ arrivals a [e]) (L ++ passes_of a [e]) p'.
Proof using Type*.
  intros [Hg Ho Hw] He Hs.
  destruct Hs as [m ts c j Ht|m ts c j op k Ht|m ts c j v Ht|m m' ts [Hc Hg']];
    cbn [shared active arrivals pinned] in *; rewrite ?app_nil_r.
  - destruct He as [Hok Hcpu]. cbn [passes_of]. rewrite ?app_nil_r. split; [done| |].
    + apply others_ok_insert; [|done]. intros Hne.
      assert (~ frame_of a (fst j)) by tauto. by split; [|apply away_frame].
    + destruct (decide (c = c0)) as [->|Hne].
      * cbn [active shared]. rewrite lookup_insert_eq. rewrite Ht in Hw. by apply own_arrive.
      * cbn [active shared]. rewrite lookup_insert_ne by done. rewrite own_time_not by tauto.
        by rewrite app_nil_r.
  - cbn [passes_of]. rewrite ?app_nil_r. destruct (decide (c = c0)) as [->|Hne].
    + rewrite Ht in Hw. destruct Hw as (evs & Hl & Hsub & Hw).
      destruct (wp_access _ _ _ _ _ _ _ Hw) as [Hp Hk]. split; cbn [shared active].
      * by apply Hp.
      * apply others_ok_insert; [done|]. by eapply others_ok_persists.
      * rewrite lookup_insert_eq. by exists evs.
    + destruct (Ho _ _ _ Ht Hne) as [Hn Hw']. destruct (wp_access _ _ _ _ _ _ _ Hw') as [Hq Hk].
      split; cbn [shared active].
      * by apply Hq.
      * apply others_ok_insert; [done|]. eapply others_ok_persists; [apply Hq|done].
      * rewrite lookup_insert_ne by done. by eapply own_ok_quiet.
  - split; cbn [shared active]; [done| |].
    + intros c' j' k' [_ Hl]%lookup_delete_Some. by apply Ho.
    + destruct (decide (c = c0)) as [->|Hne].
      * rewrite lookup_delete_eq. rewrite Ht in Hw. by apply own_finish.
      * rewrite lookup_delete_ne by done. destruct (Ho _ _ _ Ht Hne) as [Hn _].
        destruct v; simpl; rewrite ?own_time_not by done; by rewrite app_nil_r.
  - cbn [passes_of]. rewrite ?app_nil_r. pose proof (effect_quiet pps a m m' Hc Hg') as Hq.
    split; cbn [shared active]; [done| |by eapply own_ok_quiet].
    eapply others_ok_persists; [apply Hq|done].
Qed.

Lemma arrivals_cons a e es : arrivals a (e :: es) = arrivals a [e] ++ arrivals a es.
Proof using Type. destruct e; simpl; by rewrite ?app_nil_r. Qed.
Lemma passes_of_cons a e es : passes_of a (e :: es) = passes_of a [e] ++ passes_of a es.
Proof using Type. destruct e as [| |? ? []|]; simpl; by rewrite ?app_nil_r. Qed.

Lemma pinned_inv_run pps a c0 o T L p es p' :
  pinned_inv pps a c0 o T L p -> Forall (pinned a c0) es ->
  run exec frame_body (guarded_effect pps) p es p' ->
  pinned_inv pps a c0 o (T ++ arrivals a es) (L ++ passes_of a es) p'.
Proof using Type*.
  intros Hi He Hr. revert T L Hi He. induction Hr as [p|p1 p2 p3 e es Hs Hr IH]; intros T L Hi He.
  - simpl. by rewrite !app_nil_r.
  - apply Forall_cons in He as [He Hes]. rewrite arrivals_cons, passes_of_cons, !app_assoc.
    by eapply IH, Hes; eapply pinned_inv_step.
Qed.

(** The rate limit under interleaving. While the frames of a source
  arrive at one processor, at non-decreasing times, and the firewall is on
  with a limit of at most [pps], at most [2 * pps] of its IPv4 frames pass in
  any interval of the window's length - however the accesses of that processor
  interleave with those of the others, whatever their frames, and with
  commands, bans and changes of the limit up to [pps]. As in [FwTrace], the map
  of entries has room ([BpfHashKeeps]). *)
Theorem rate_limit_interleaved pps a c0 t0 t n m es p :
  run exec frame_body (guarded_effect pps) (Pool m ∅) es p ->
  guarded pps m -> Forall (pinned a c0) es ->
  times_from t (arrivals a es) -> source_ok n t (bpf_lookup (fw_ip_stats m) a) ->
  n + Z.of_nat (length (arrivals a es)) < 2 ^ 53 ->
  Z.of_nat (length (filter (fun x => t0 <= x < t0 + WINDOW_NS) (passes_of a es))) <= 2 * pps.
Proof using Type*.
  intros Hr Hg He Ht Ho Hn.
  destruct (pinned_inv_run pps a c0 (bpf_lookup (fw_ip_stats m) a) [] [] (Pool m ∅) es p)
    as [_ _ (evs & Hl & Hsub)]; [|done..|].
  { split; [done|by intros ? ? ?; cbn [active]; rewrite lookup_empty|].
    exists []. by cbn [active]; rewrite lookup_empty. }
  simpl in Hl, Hsub.
  assert ((ev_now <$> evs) `sublist_of` arrivals a es) as Hev.
  { destruct (active p !! c0) as [[j c]|]; destruct Hsub as [Hsub _]; [|done].
    etrans; [|exact Hsub]. by apply sublist_inserts_r. }
  pose proof (sublist_length _ _ Hev) as Hlen. rewrite length_fmap in Hlen.
  etrans; [|eapply (interval_pass_bound pps t0 evs n t); [|exact Ho|lia|]].
  - apply inj_le, sublist_length, filter_sublist_mono, Hl.
  - destruct Hg. lia.
  - by eapply times_from_sublist.
Qed.
End Pinned.

(** *** Witness

    A limit of 1. Processor 0 takes two frames of a source; between its
    accesses, processor 1 takes a frame of another source. *)
Definition other_frame : list Z := <[26%nat := 99]> udp_frame.
Definition pinned_schedule : list (choice (J := job)) :=
  Begin 0 (udp_frame, 7) :: replicate 7 (Go 0) ++
  Begin 1 (other_frame, 7) :: replicate 8 (Go 1) ++ replicate 5 (Go 0) ++
  Begin 0 (udp_frame, 8) :: replicate 15 (Go 0) ++ replicate 4 (Go 1) ++ replicate 6 (Go 0).

Lemma rate_limit_interleaved_witness :
  let _ := little in
  exists es p, run exec frame_body (guarded_effect 1) (demo_pool race_st) es p /\
    verdicts es = [(0%nat, XDP_PASS); (1%nat, XDP_PASS); (0%nat, XDP_DROP)] /\
    passes_of demo_src es = [7] /\
    Z.of_nat (length (filter (fun x => 0 <= x < 0 + WINDOW_NS) (passes_of demo_src es))) <= 2 * 1.
Proof.
  intros en. destruct (demo_schedule pinned_schedule race_st) as [[es p]|] eqn:E.
  2:{ vm_compute in E. discriminate. }
  assert (run exec frame_body (guarded_effect 1) (demo_pool race_st) es p) as Hr
    by (by eapply (schedule_run exec frame_body)).
  exists es, p. split; [exact Hr|]. vm_compute in E. injection E as Ees _.
  split; [rewrite <-Ees; by vm_compute|]. split; [rewrite <-Ees; by vm_compute|].
  apply (rate_limit_interleaved 1 demo_src 0 0 0 0 race_st es p Hr).
  - by vm_compute.
  - rewrite <-Ees. apply (bool_decide_unpack _). by vm_compute.
  - rewrite <-Ees. by vm_compute.
  - split; lia.
  - rewrite <-Ees. by vm_compute.
Defined.
