(* ===== verification/FwWatchRace.v ===== *)
(** * The auto-ban loop while the data plane runs

    Between two system calls of a pass of [watch] the data plane and the other
    commands may do anything to the maps. [watch_code] is the pass as the
    sequence of its system calls; alone it is [watch_pass]
    ([watch_code_alone]). Beside traffic, a source that no detector matches is
    not banned ([watch_innocent]), and a source that one matches throughout is,
    when the pass is not disturbed in its scan ([watch_catches]); entries of
    other sources may come and go meanwhile, if they keep their side of the
    source in the order of the iteration: a pass that ends has then come past it
    ([sided_watch]). A scan that is disturbed need not end ([watch_unending]):
    the key it stands on may be evicted, and then it starts again. *)

From S2P Require Import Prelude Interleave BpfMaps FwProg FwSpec RateLimit FwTrace CStrings Detector FwCtl FwCtlSpec FwWatch.
#[local] Open Scope Z_scope.

(** ** System calls *)

Inductive call :=
  | NextKey (k : option Z)                  (* bpf_map_get_next_key(stats_fd, ..) *)
  | StatsLookup (k : Z)                     (* bpf_map_lookup_elem(stats_fd, &key, &s) *)
  | BlockedLookup (k : Z)                   (* bpf_map_lookup_elem(block_fd, &key, &exp) *)
  | ReadClock                               (* now_ns() *)
  | BanUpdate (k exp : Z)                   (* bpf_map_update_elem(block_fd, ..) *)
  | PrintLine (l : line).

Definition reply (c : call) : Type :=
  match c with
  | NextKey _ => option Z
  | StatsLookup _ => option ip_stats
  | BlockedLookup _ => bool
  | ReadClock => Z
  | BanUpdate _ _ => bool
  | PrintLine _ => unit
  end.

Section WatchRace.
Context `{Endian} {BL RD IS : Type}.
Context `{BpfHash BL Z, LpmTrie RD, BpfHash IS ip_stats}.
Context (inet_ntop : Z -> string) (clock : nat -> Z * Z).
#[local] Abbreviation kmaps := (kmaps BL RD IS).
#[local] Abbreviation world := (world BL RD IS).
#[local] Abbreviation code := (code reply).
#[local] Abbreviation call_ := (act (ans := reply)).
Implicit Types (w : world) (m : kmaps) (ds : list Det.Detector).

Definition perform (c : call) w : reply c * world :=
  match c return reply c * world with
  | NextKey k => (bpf_next_key (fw_ip_stats (w_maps w)) k, w)
  | StatsLookup k => (bpf_lookup (fw_ip_stats (w_maps w)) k, w)
  | BlockedLookup k => (bool_decide (is_Some (bpf_lookup (fw_blocklist (w_maps w)) k)), w)
  | ReadClock => (now_of clock w, tick w)
  | BanUpdate k exp =>
      match bpf_update (fw_blocklist (w_maps w)) k exp with
      | Some b => (true, with_maps (set_blocklist b (w_maps w)) w)
      | None => (false, w)
      end
  | PrintLine l => (tt, say [l] w)
  end.

(** block_ip: true for success. *)
Definition ban_code (ip sec : Z) : code bool :=
  expiry ← (if 0 <? sec then t ← call_ ReadClock; mret (u64 (t + u64 (u64 sec * 1000000000)))
            else mret 0);
  call_ (BanUpdate ip expiry).

(** The body of the inner loop. *)
Definition watch_one_code ds (ban_sec key : Z) : code unit :=
  o ← call_ (StatsLookup key);
  match o with
  | None => mret tt
  | Some v =>
    s ← clift (Det.read_IpStats (Det.ip_stats_bytes v));
    already_blocked ← call_ (BlockedLookup key);
    if already_blocked : bool then mret tt else
    match Det.first_match key s ds with
    | None => mret tt
    | Some d =>
        ok ← ban_code key ban_sec;
        if ok : bool then call_ (PrintLine (ban_line inet_ntop key d)) else mret tt
    end
  end.

Fixpoint watch_keys_code (fuel : nat) ds (ban_sec key : Z) : code bool :=
  match fuel with
  | O => mret false
  | S fuel =>
    _ ← watch_one_code ds ban_sec key;
    next ← call_ (NextKey (Some key));
    match next with
    | Some next_key => watch_keys_code fuel ds ban_sec next_key
    | None => mret true
    end
  end.

Definition watch_code (fuel : nat) ds (ban_sec : Z) : code bool :=
  first ← call_ (NextKey None);
  match first with
  | Some key => watch_keys_code fuel ds ban_sec key
  | None => mret true
  end.
End WatchRace.

Section WatchAlone.
Context `{Endian} {BL RD IS : Type}.
Context `{BpfHash BL Z, LpmTrie RD, BpfHash IS ip_stats}.
Context (inet_ntop : Z -> string) (clock : nat -> Z * Z).
#[local] Abbreviation world := (world BL RD IS).
#[local] Abbreviation seq := (@Interleave.seq call reply world (perform clock) _).
Implicit Types (w : world) (ds : list Det.Detector).

Lemma seq_ban_code ip sec w :
  seq (ban_code ip sec) w =
  match bpf_update (fw_blocklist (w_maps w)) ip (expiry_of clock sec w) with
  | Some b => Some (true, with_maps (set_blocklist b (w_maps w)) (after_clock sec w))
  | None => Some (false, after_clock sec w)
  end.
Proof using Type.
  unfold ban_code, expiry_of, after_clock.
  destruct (0 <? sec); cbn -[bpf_update]; by destruct (bpf_update _ _ _).
Qed.

Lemma seq_watch_one ds sec key w :
  seq (watch_one_code inet_ntop ds sec key) w = watch_one inet_ntop clock ds sec key w.
Proof using Type.
  unfold watch_one_code, watch_one. erewrite bind_Some by apply maps_eq.
  rewrite (seq_bind_Some _ _ _ _ (bpf_lookup (fw_ip_stats (w_maps w)) key) w) by done.
  destruct (bpf_lookup (fw_ip_stats (w_maps w)) key) as [v|]; [|done].
  destruct (Det.read_IpStats (Det.ip_stats_bytes v)) as [s|] eqn:Es; [|done].
  rewrite (plift_Some _ s) by done. cbn [clift].
  change (seq (Ret s ≫= ?f) w) with (seq (f s) w). cbv beta.
  rewrite (seq_bind_Some _ _ _ _ (bool_decide (is_Some (bpf_lookup (fw_blocklist (w_maps w)) key))) w)
    by done.
  destruct (bpf_lookup (fw_blocklist (w_maps w)) key) as [e|]; [by rewrite bool_decide_true|].
  rewrite bool_decide_false by (by intros []).
  destruct (Det.first_match key s ds) as [d|]; [|done].
  pose proof (seq_ban_code key sec w) as Hb.
  destruct (bpf_update (fw_blocklist (w_maps w)) key (expiry_of clock sec w)) as [b|] eqn:Eu;
    erewrite seq_bind_Some by exact Hb; by erewrite bind_Some by (rewrite block_ip_eq, Eu; reflexivity).
Qed.

Lemma seq_watch_keys fuel ds sec key w :
  seq (watch_keys_code inet_ntop fuel ds sec key) w = watch_keys inet_ntop clock fuel ds sec key w.
Proof using Type.
  revert key w. induction fuel as [|fuel IH]; intros key w; [done|]. cbn [watch_keys_code watch_keys].
  rewrite seq_bind. unfold mbind at 1 3, prog_bind at 1 2. rewrite seq_watch_one.
  destruct (watch_one _ _ _ _ _ _) as [[[] w1]|]; [|done].
  erewrite bind_Some by apply maps_eq.
  rewrite (seq_bind_Some _ _ _ _ (bpf_next_key (fw_ip_stats (w_maps w1)) (Some key)) w1) by done.
  destruct (bpf_next_key _ _) as [k|]; [apply IH|done].
Qed.

(** The pass as a sequence of system calls is the pass of [FwCtl] when
  nothing happens between two of them: the same bans, the same output, the
  same readings of the clock. *)
Theorem watch_code_alone fuel ds sec w :
  seq (watch_code inet_ntop fuel ds sec) w = watch_pass inet_ntop clock fuel ds sec w.
Proof using Type.
  unfold watch_code, watch_pass. erewrite bind_Some by apply maps_eq.
  rewrite (seq_bind_Some _ _ _ _ (bpf_next_key (fw_ip_stats (w_maps w)) None) w) by done.
  destruct (bpf_next_key _ _) as [k|]; [apply seq_watch_keys|done].
Qed.
End WatchAlone.

(** ** Beside traffic *)

Section WatchTraffic.
Context `{Endian} {BL RD IS : Type}.
Context `{BpfHash BL Z, LpmTrie RD, BpfHash IS ip_stats}.
Context `{!BpfHashLaws BL Z, !LpmLaws RD, !BpfHashLaws IS ip_stats}.
Context (inet_ntop : Z -> string) (clock : nat -> Z * Z).
#[local] Abbreviation world := (world BL RD IS).
#[local] Abbreviation code := (code reply).
#[local] Abbreviation pool := (@pool call reply world (nat * Z) bool).
Implicit Types (w : world) (ds : list Det.Detector) (p : pool).

(** A run of [watch] makes passes with fuel [fst j] and bans of [snd j]
  seconds; several may run at once. *)
Definition watch_body ds (cpu : nat) (j : nat * Z) : code bool :=
  watch_code inet_ntop (fst j) ds (snd j).

(** *** A source that nobody accuses *)

(** No detector matches the entry of [a], if it has one, and [a] is not in the
  blocklist. *)
Record innocent ds (a : Z) w : Prop := {
  in_u64 : stats_u64 (w_maps w);
  in_free : bpf_lookup (fw_blocklist (w_maps w)) a = None;
  in_entry s : bpf_lookup (fw_ip_stats (w_maps w)) a = Some s ->
               Det.first_match a (Det.view s) ds = None;
}.

Definition bans_other (a : Z) (c : call) : Prop :=
  match c with BanUpdate k _ => k <> a | _ => True end.

Lemma perform_innocent ds a c w :
  bans_other a c -> keeps (innocent ds a) w (snd (perform clock c w)).
Proof using Type*.
  intros Hc [Hu Hf He]. destruct c; simpl in *; try by split.
  destruct (bpf_update _ _ _) as [b|] eqn:E; [|by split].
  split; simpl; [done| |done]. destruct (bpf_update_ne _ _ _ _ _ E Hc) as [->| ->]; done.
Qed.

#[local] Abbreviation innocent_wp ds a c :=
  (wp (perform clock) (keeps (innocent ds a)) (keeps (innocent ds a)) c (fun _ => innocent ds a)).

Lemma innocent_wp_ops {A} ds a (c : code A) w :
  all_ops (bans_other a) c -> innocent ds a w -> innocent_wp ds a c w.
Proof using Type*. intros Hc Hw. by eapply wp_keeps; [intros; by apply perform_innocent|..]. Qed.

Lemma ban_code_ops a k sec : k <> a -> all_ops (bans_other a) (ban_code k sec).
Proof using Type. intros Hk. unfold ban_code. destruct (0 <? sec); simpl; auto. Qed.

Lemma innocent_watch_one ds a sec k w :
  innocent ds a w -> innocent_wp ds a (watch_one_code inet_ntop ds sec k) w.
Proof using Type*.
  intros Hw w1 Hw1. specialize (Hw1 Hw). split; [done|]. cbn [perform fst snd].
  destruct (bpf_lookup (fw_ip_stats (w_maps w1)) k) as [v|] eqn:Ev; [|by apply innocent_wp_ops].
  cbn [mbind code_mbind code_bind].
  rewrite (Det.read_IpStats_bytes v) by exact (in_u64 _ _ _ Hw1 _ _ Ev).
  apply innocent_wp_ops; [|done]. split; [done|]. intros [|]; [exact I|].
  destruct (Det.first_match k (Det.view v) ds) as [d|] eqn:Ed; [|exact I].
  apply all_ops_bind.
  - apply ban_code_ops. intros ->. by rewrite (in_entry _ _ _ Hw1 _ Ev) in Ed.
  - by intros [|]; [apply all_ops_act|].
Qed.

Lemma innocent_watch_keys ds a fuel sec k w :
  innocent ds a w -> innocent_wp ds a (watch_keys_code inet_ntop fuel ds sec k) w.
Proof using Type*.
  revert k w. induction fuel as [|fuel IH]; intros k w Hw; [by apply innocent_wp_ops|].
  cbn [watch_keys_code]. apply wp_bind; [apply _|].
  eapply wp_mono; [|by apply innocent_watch_one]. intros [] w1 Hw1 w2 Hw2. specialize (Hw2 Hw1).
  split; [done|]. cbn [perform fst snd]. destruct (bpf_next_key _ _); [by apply IH|].
  by apply innocent_wp_ops.
Qed.

(** C16. An innocent source is not banned. While any number of [watch] processes
  run, with their system calls interleaved with each other and with anything
  else that happens to the maps, a source whose entry no detector matches and
  that nobody else bans is not in the blocklist at any time, even when the
  maps evict. No process faults. *)
Theorem watch_innocent ds a w es p :
  innocent ds a w ->
  run (perform clock) (watch_body ds) (keeps (innocent ds a)) (Pool w ∅) es p ->
  innocent ds a (shared p) /\
  forall cpu j c, active p !! cpu = Some (j, c) -> c <> Fault.
Proof using Type*.
  intros Hw Hr.
  destruct (pool_ok_run (perform clock) (watch_body ds) (keeps (innocent ds a)) (keeps (innocent ds a))
    (innocent ds a) (fun _ _ => True) (fun _ _ _ => innocent ds a))
    with (p := Pool w ∅ : pool) (es := es) (p' := p) as [Hok _].
  - done.
  - done.
  - intros cpu [fuel sec] w1 _ Hw1 w2 Hw2. specialize (Hw2 Hw1). split; [done|].
    cbn [perform fst snd]. destruct (bpf_next_key _ _); [by apply innocent_watch_keys|].
    by apply innocent_wp_ops.
  - by apply pool_ok_empty.
  - apply Forall_forall. by intros [].
  - exact Hr.
  - split; [apply Hok|]. intros cpu j c Hc ->.
    by destruct (pool_ok_progress _ _ _ _ _ _ _ _ Hok Hc) as [(? & ? & ?)|(? & ? & ?)].
Qed.

(** *** A source that a detector accuses *)

(** [E]: until when a ban is meant to last; [n0]: how often the clock had been
  read when the pass began. *)
Context (E : Z) (n0 : nat).

Definition listed (a : Z) w : Prop := is_Some (bpf_lookup (fw_blocklist (w_maps w)) a).

(** The keys that the scan goes over are as [K] says, a detector matches the
  entry of [a], and if [a] is banned, then for long enough. *)
Record accused ds (K : list Z -> Prop) (a : Z) w : Prop := {
  ac_u64 : stats_u64 (w_maps w);
  ac_keys : K (bpf_keys (fw_ip_stats (w_maps w)));
  ac_entry : exists s, bpf_lookup (fw_ip_stats (w_maps w)) a = Some s /\
                       is_Some (Det.first_match a (Det.view s) ds);
  ac_ban e : bpf_lookup (fw_blocklist (w_maps w)) a = Some e -> lasts E e;
  ac_tick : (n0 <= w_tick w)%nat;
}.

(** [a] is banned until [E] at least. *)
Definition held (a : Z) w : Prop :=
  exists e, bpf_lookup (fw_blocklist (w_maps w)) a = Some e /\ lasts E e.

Lemma accused_held ds K a w : accused ds K a w -> listed a w -> held a w.
Proof using Type. intros Ha [e He]. exists e. split; [done|]. by eapply ac_ban. Qed.

(** Changes that leave this so, and do not unblock [a]. *)
Definition undisturbed ds K a w w' : Prop :=
  keeps (accused ds K a) w w' /\ keeps (listed a) w w'.
#[global] Instance undisturbed_preorder ds K a : PreOrder (undisturbed ds K a).
Proof using Type.
  split; [by split|]. intros w1 w2 w3 [? ?] [? ?]. unfold undisturbed, keeps in *. auto.
Qed.

(** Bans of [sec] seconds, made after the pass began, last until [E]. *)
Definition enough (sec : Z) : Prop := forall n, (n0 <= n)%nat -> lasts E (ban_expiry clock sec n).

Definition bans_enough (a : Z) (c : call) : Prop :=
  match c with BanUpdate k e => k = a -> lasts E e | _ => True end.

Context `{!BpfHashKeeps BL Z}.

Lemma perform_undisturbed ds K a c w :
  bans_enough a c -> undisturbed ds K a w (snd (perform clock c w)).
Proof using Type*.
  intros Hc. destruct c as [| | | |k e|]; try (split; intros Hw; [|exact Hw]);
    try (destruct Hw; split; simpl; try done; lia); simpl.
  destruct (bpf_update (fw_blocklist (w_maps w)) k e) as [b|] eqn:Eu; [|done].
  destruct (decide (k = a)) as [->|Hne].
  - apply bpf_update_eq in Eu. split; intros Hw; [|by eexists].
    destruct Hw; split; simpl; try done. intros e' He'. rewrite Eu in He'. injection He' as <-. by apply Hc.
  - pose proof (bpf_update_keeps _ _ _ _ _ Eu Hne) as Ek.
    split; intros Hw; [destruct Hw; split; simpl; try done|]; unfold listed in *; simpl; by rewrite Ek.
Qed.

#[local] Abbreviation accused_wp ds K a c Q :=
  (wp (perform clock) (undisturbed ds K a) (undisturbed ds K a) c Q).

Lemma accused_wp_ops {A} ds K a (c : code A) w :
  all_ops (bans_enough a) c -> accused_wp ds K a c (fun _ => undisturbed ds K a w) w.
Proof using Type*.
  intros Hc. apply (wp_ops _ _ _ (bans_enough a)); [|done].
  intros o s Ho. by split; apply perform_undisturbed.
Qed.

Lemma ban_code_other a k sec : k <> a -> all_ops (bans_enough a) (ban_code k sec).
Proof using Type. intros Hk. unfold ban_code. destruct (0 <? sec); simpl; repeat split; intros; congruence || done. Qed.

(** The expiry that block_ip computes. *)
Lemma accused_expiry ds K a sec w :
  accused ds K a w -> enough sec ->
  accused_wp ds K a
    (if 0 <? sec then t ← act (ans := reply) ReadClock; mret (u64 (t + u64 (u64 sec * 1000000000))) else mret 0)
    (fun e w' => undisturbed ds K a w w' /\ lasts E e) w.
Proof using Type*.
  intros Hw Hs. destruct (0 <? sec) eqn:Es.
  - intros w1 Hw1. split; [by apply perform_undisturbed|]. intros w2 Hw2.
    assert (undisturbed ds K a w1 (tick w1)) as Ht by by apply (perform_undisturbed ds K a ReadClock w1).
    split; [by rewrite Hw1, Ht|].
    specialize (Hs (w_tick w1) (ac_tick _ _ _ _ (proj1 Hw1 Hw))).
    rewrite <-ban_expiry_eq in Hs. unfold expiry_of in Hs. by rewrite Es in Hs.
  - intros w1 Hw1. split; [done|]. by left.
Qed.

(** block_ip puts the source in the blocklist. *)
Lemma accused_ban ds K a sec w :
  accused ds K a w -> enough sec ->
  accused_wp ds K a (ban_code a sec) (fun ok w' => undisturbed ds K a w w' /\ listed a w') w.
Proof using Type*.
  intros Hw Hs. unfold ban_code. apply wp_bind; [apply _|].
  eapply wp_mono; [|by apply accused_expiry].
  intros e w1 [Hw1 He] w2 Hw2. split; [apply perform_undisturbed; by intros _|]. cbn [perform].
  destruct (bpf_update_ok (fw_blocklist (w_maps w2)) a e) as [b Hb]. rewrite Hb. cbn [fst snd].
  assert (listed a (with_maps (set_blocklist b (w_maps w2)) w2)) as Hl
    by (apply bpf_update_eq in Hb; by eexists).
  assert (undisturbed ds K a w2 (with_maps (set_blocklist b (w_maps w2)) w2)) as Hu.
  { pose proof (perform_undisturbed ds K a (BanUpdate a e) w2 (fun _ => He)) as Hp. simpl in Hp.
    by rewrite Hb in Hp. }
  intros w3 Hw3. split; [|by apply Hw3]. by rewrite Hw1, Hw2, Hu.
Qed.

Lemma accused_watch_one ds K a sec k w :
  accused ds K a w -> enough sec ->
  accused_wp ds K a (watch_one_code inet_ntop ds sec k)
    (fun _ w' => undisturbed ds K a w w' /\ (k = a -> listed a w')) w.
Proof using Type*.
  intros Hw Hsec w1 Hw1. pose proof (proj1 Hw1 Hw) as Ha. split; [done|]. cbn [perform fst snd].
  destruct (bpf_lookup (fw_ip_stats (w_maps w1)) k) as [v|] eqn:Ev.
  2:{ intros w2 Hw2. split; [by rewrite Hw1|]. intros ->.
      destruct (ac_entry _ _ _ _ Ha) as (? & ? & _). congruence. }
  cbn [mbind code_mbind code_bind].
  rewrite (Det.read_IpStats_bytes v) by exact (ac_u64 _ _ _ _ Ha _ _ Ev).
  intros w2 Hw2. split; [done|]. cbn [perform fst snd mbind code_mbind code_bind].
  assert (undisturbed ds K a w w2) as Hw02 by by rewrite Hw1.
  case_bool_decide as Hb.
  { intros w3 Hw3. split; [by rewrite Hw02|]. intros ->. by apply Hw3. }
  destruct (Det.first_match k (Det.view v) ds) as [d|] eqn:Ed.
  2:{ intros w3 Hw3. split; [by rewrite Hw02|]. intros ->.
      destruct (ac_entry _ _ _ _ Ha) as (s & Hs & Hm). rewrite Ev in Hs. injection Hs as <-.
      rewrite Ed in Hm. by destruct Hm. }
  apply (wp_bind _ _ _ (ban_code k sec)).
  destruct (decide (k = a)) as [->|Hne].
  - eapply wp_mono; [|by apply accused_ban; [apply Hw02|]]. intros ok w3 [Hw3 Hl].
    eapply wp_mono; [|apply accused_wp_ops; by destruct ok; simpl].
    intros ? w4 Hw4. split; [by rewrite Hw02, Hw3|]. intros _. by apply Hw4.
  - eapply wp_mono; [|by apply accused_wp_ops, ban_code_other]. intros ok w3 Hw3.
    eapply wp_mono; [|apply accused_wp_ops; by destruct ok; simpl].
    intros ? w4 Hw4. split; [by rewrite Hw02, Hw3|done].
Qed.

Lemma accused_watch_keys ds ks a sec l1 k l2 w :
  ks = l1 ++ k :: l2 -> accused ds (eq ks) a w -> enough sec -> (a ∈ l1 -> listed a w) ->
  accused_wp ds (eq ks) a (watch_keys_code inet_ntop (S (length l2)) ds sec k)
    (fun b w' => b = true /\ held a w') w.
Proof using Type*.
  revert l1 k w. induction l2 as [|k' l2 IH]; intros l1 k w Hk Hw Hs Hl; cbn [watch_keys_code length];
    apply wp_bind; [apply _| |apply _|]; (eapply wp_mono; [|by apply accused_watch_one]);
    intros [] w1 [Hw1 Hl1] w2 Hw2; (split; [done|]); cbn [perform fst snd];
    assert (accused ds (eq ks) a w2) as Ha by (apply Hw2, Hw1, Hw);
    assert (a ∈ l1 ++ [k] -> listed a w2) as Hl2
      by (intros [?| ->%list_elem_of_singleton]%elem_of_app; apply Hw2; [by apply Hw1, Hl|by apply Hl1]);
    rewrite (bpf_next_key_after _ k l1 _) by (by rewrite <-(ac_keys _ _ _ _ Ha)); cbn [head].
  - intros w3 Hw3. split; [done|]. eapply accused_held; [by apply Hw3|]. apply Hw3, Hl2.
    destruct (ac_entry _ _ _ _ Ha) as (s & Hes & _).
    rewrite <-Hk, (ac_keys _ _ _ _ Ha), bpf_keys_lookup. by eexists.
  - apply (IH (l1 ++ [k])); [by rewrite <-app_assoc|done..].
Qed.

(** What is asked of the passes that are started: fuel for the keys, and bans
  that last. *)
Definition strong_pass (ks : list Z) (j : nat * Z) : Prop := fst j = length ks /\ enough (snd j).

Lemma accused_watch ds ks a cpu j w :
  strong_pass ks j -> accused ds (eq ks) a w ->
  accused_wp ds (eq ks) a (watch_body ds cpu j) (fun b w' => b = true /\ held a w') w.
Proof using Type*.
  destruct j as [fuel sec]. intros [Hj Hs] Hw w1 Hw1. simpl in *. subst fuel.
  pose proof (proj1 Hw1 Hw) as Ha.
  split; [done|]. cbn [perform fst snd mbind code_mbind code_bind].
  rewrite bpf_next_key_first, <-(ac_keys _ _ _ _ Ha). destruct ks as [|k ks]; cbn [head length].
  - exfalso. destruct (ac_entry _ _ _ _ Ha) as (s & Hes & _).
    assert (a ∈ bpf_keys (fw_ip_stats (w_maps w1))) as Hin by (apply bpf_keys_lookup; by eexists).
    rewrite <-(ac_keys _ _ _ _ Ha) in Hin. by apply elem_of_nil in Hin.
  - apply (accused_watch_keys ds (k :: ks) a sec [] k ks); [done..|]. by intros ?%elem_of_nil.
Qed.

(** In every state that they come to, the passes promise that. *)
Lemma accused_pool ds ks a w es p :
  accused ds (eq ks) a w ->
  run (perform clock) (watch_body ds) (undisturbed ds (eq ks) a) (Pool w ∅) es p ->
  Forall (arrives (fun _ => strong_pass ks)) es ->
  pool_ok (perform clock) (undisturbed ds (eq ks) a) (accused ds (eq ks) a)
    (fun _ _ b w' => b = true /\ held a w') p.
Proof using Type*.
  intros Hw Hr Ha.
  refine (proj1 (pool_ok_run (perform clock) (watch_body ds) (undisturbed ds (eq ks) a)
    (undisturbed ds (eq ks) a) (accused ds (eq ks) a) (fun _ => strong_pass ks)
    (fun _ _ b w' => b = true /\ held a w') _ _ _ (Pool w ∅ : pool) _ p _ Ha Hr)).
  - by intros s s' [Hs _].
  - done.
  - intros c' j' s Hj Hs. by apply accused_watch.
  - by apply pool_ok_empty.
Qed.

(** When one of them is through, [a] is banned. *)
Lemma caught ds ks a w es cpu j b p :
  accused ds (eq ks) a w ->
  run (perform clock) (watch_body ds) (undisturbed ds (eq ks) a) (Pool w ∅) (es ++ [Finish cpu j b]) p ->
  Forall (arrives (fun _ => strong_pass ks)) es -> b = true /\ held a (shared p).
Proof using Type*.
  intros Hw (p1 & Hr & Hs)%run_app_inv Ha.
  destruct (accused_pool ds ks a w es p1 Hw Hr Ha) as [_ Hok].
  inversion Hs as [|? ? ? ? ? Hf Hn]; subst. inversion Hn; subst.
  inversion Hf as [| |s ts ? ? ? Hc|]; subst. by apply (Hok _ _ _ Hc s).
Qed.

(** *** While entries come and go *)

(** Whenever they are there, the keys in [early] are before [a] in the order of
    the iteration, and the others are after it. *)
Definition sided (early : Z -> Prop) (a : Z) (ks : list Z) : Prop :=
  forall l1 l2, ks = l1 ++ a :: l2 -> Forall early l1 /\ Forall (fun k => ~ early k) l2.

(** What follows a key before [a], or one that is gone, is not after [a]. *)
Lemma next_not_after early a (m : IS) k :
  sided early a (bpf_keys m) -> is_Some (bpf_lookup m a) -> early k \/ k ∉ bpf_keys m -> k <> a ->
  exists k', bpf_next_key m (Some k) = Some k' /\ (early k' \/ k' = a).
Proof using Type*.
  intros Hs Ha Hk Hne. apply bpf_keys_lookup in Ha.
  apply list_elem_of_split in Ha as (l1 & l2 & El). destruct (Hs _ _ El) as [He1 He2].
  assert (forall l, Forall early l -> exists k', head (l ++ a :: l2) = Some k' /\ (early k' \/ k' = a)) as Hhead.
  { intros [|x l]; [by exists a; auto|]. intros [? _]%Forall_cons. exists x. auto. }
  destruct (decide (k ∈ bpf_keys m)) as [Hin|Hin]; [|by rewrite bpf_next_key_lost, El by done; apply Hhead].
  destruct Hk as [Hk|]; [|done]. rewrite El in Hin.
  apply elem_of_app in Hin as [Hin|[->|Hin]%elem_of_cons]; [|done|].
  - apply list_elem_of_split in Hin as (m1 & m2 & ->). rewrite <-app_assoc in El.
    rewrite (bpf_next_key_after _ k m1 (m2 ++ a :: l2)) by done. apply Hhead.
    by apply Forall_app in He1 as [_ [_ He1]%Forall_cons].
  - rewrite Forall_forall in He2. by destruct (He2 k Hin).
Qed.

(** A scan that is through has met [a], whatever else came or went. *)
Lemma sided_watch_keys ds early a fuel sec k w :
  accused ds (sided early a) a w -> enough sec -> early k \/ k = a \/ listed a w ->
  accused_wp ds (sided early a) a (watch_keys_code inet_ntop fuel ds sec k)
    (fun b w' => b = true -> held a w') w.
Proof using Type*.
  revert k w. induction fuel as [|fuel IH]; intros k w Hw Hs Hk; cbn [watch_keys_code].
  { by intros w1 Hw1. }
  apply wp_bind; [apply _|]. eapply wp_mono; [|by apply accused_watch_one].
  intros [] w1 [Hw1 Hl1] w2 Hw2. split; [done|]. cbn [perform fst snd].
  assert (accused ds (sided early a) a w2) as Ha by (apply Hw2, Hw1, Hw).
  assert (early k /\ k <> a \/ listed a w2) as Hk2.
  { destruct Hk as [Hk|[->|Hk]]; [|by right; apply Hw2, Hl1|by right; apply Hw2, Hw1].
    destruct (decide (k = a)) as [->|]; [by right; apply Hw2, Hl1|by left]. }
  destruct Hk2 as [[Hk2 Hne]|Hk2].
  - destruct (ac_entry _ _ _ _ Ha) as (s & Hes & _).
    destruct (next_not_after early a _ k (ac_keys _ _ _ _ Ha) (ex_intro _ s Hes) (or_introl Hk2) Hne) as (k' & -> & Hk').
    apply IH; [done..|]. naive_solver.
  - destruct (bpf_next_key _ _) as [k'|]; [apply IH; auto|].
    intros w3 Hw3 _. eapply accused_held; [by apply Hw3|by apply Hw3].
Qed.

Lemma sided_watch ds early a cpu j w :
  enough (snd j) -> accused ds (sided early a) a w ->
  accused_wp ds (sided early a) a (watch_body ds cpu j) (fun b w' => b = true -> held a w') w.
Proof using Type*.
  destruct j as [fuel sec]. intros Hs Hw w1 Hw1. simpl in *. pose proof (proj1 Hw1 Hw) as Ha.
  split; [done|]. cbn [perform fst snd mbind code_mbind code_bind]. rewrite bpf_next_key_first.
  destruct (ac_entry _ _ _ _ Ha) as (s & Hes & _).
  assert (a ∈ bpf_keys (fw_ip_stats (w_maps w1))) as Hin by (apply bpf_keys_lookup; by eexists).
  apply list_elem_of_split in Hin as (l1 & l2 & El).
  destruct (ac_keys _ _ _ _ Ha _ _ El) as [He _]. rewrite El.
  destruct l1 as [|x l1]; cbn [head app].
  - apply sided_watch_keys; auto.
  - apply Forall_cons in He as [? _]. apply sided_watch_keys; auto.
Qed.

(** When a pass is through, [a] is banned. *)
Lemma swept ds early a w es cpu j p :
  accused ds (sided early a) a w ->
  run (perform clock) (watch_body ds) (undisturbed ds (sided early a) a) (Pool w ∅) (es ++ [Finish cpu j true]) p ->
  Forall (arrives (fun _ j => enough (snd j))) es -> held a (shared p).
Proof using Type*.
  intros Hw (p1 & Hr & Hs)%run_app_inv Ha.
  assert (pool_ok (perform clock) (undisturbed ds (sided early a) a) (accused ds (sided early a) a)
    (fun _ _ b w' => b = true -> held a w') p1) as [_ Hok].
  { refine (proj1 (pool_ok_run (perform clock) (watch_body ds) (undisturbed ds (sided early a) a)
      (undisturbed ds (sided early a) a) (accused ds (sided early a) a) (fun _ j => enough (snd j))
      (fun _ _ b w' => b = true -> held a w') _ _ _ (Pool w ∅ : pool) _ p1 _ Ha Hr)).
    - by intros s s' [? _].
    - done.
    - intros c' j' s Hj Hs'. by apply sided_watch.
    - by apply pool_ok_empty. }
  inversion Hs as [|? ? ? ? ? Hf Hn]; subst. inversion Hn; subst.
  inversion Hf as [| |s ts ? ? ? Hc|]; subst. by apply (Hok _ _ _ Hc s).
Qed.

(** A pass makes at most six system calls for a key, and one before. *)
Lemma watch_one_steps ds sec k : steps_le 5 (watch_one_code inet_ntop ds sec k).
Proof using Type.
  intros [v|]; [|exact I]. cbn [mbind code_mbind code_bind].
  destruct (Det.read_IpStats _) as [s|]; [|exact I]. intros [|]; [exact I|].
  destruct (Det.first_match k s ds) as [d|]; [|exact I].
  apply (steps_le_bind 2 1); [|by intros []; simpl].
  unfold ban_code. destruct (0 <? sec); simpl; auto.
Qed.

Lemma watch_code_steps ds fuel sec : steps_le (1 + 6 * fuel) (watch_code inet_ntop fuel ds sec).
Proof using Type.
  assert (forall k, steps_le (6 * fuel) (watch_keys_code inet_ntop fuel ds sec k)) as Hk.
  { induction fuel as [|fuel IH]; intros k; [exact I|].
    replace (6 * S fuel)%nat with (5 + S (6 * fuel))%nat by lia.
    apply steps_le_bind; [apply watch_one_steps|]. intros []. intros [k'|]; [apply IH|].
    by destruct (6 * fuel)%nat. }
  intros [k|]; [apply Hk|]. by destruct (6 * fuel)%nat.
Qed.

(** C11. A pass ends, and bans whom a detector accuses. Let a pass of [watch] be
  started beside other processes and traffic that neither add nor remove
  entries, keep a detector matching the entry of [a], and do not unblock [a];
  entries may be rewritten, other sources banned and unblocked. However its
  calls have been interleaved so far, it can go on, it is through after at most
  six system calls for an entry and one more, and then [a] is in the blocklist
  until [E] at least, where [E] is any time until which bans of the passes'
  length last that are made from the beginning on. *)
Theorem watch_catches ds ks a w cpu j es1 es2 p :
  accused ds (eq ks) a w ->
  run (perform clock) (watch_body ds) (undisturbed ds (eq ks) a) (Pool w ∅)
    (es1 ++ Arrive cpu j :: es2) p ->
  Forall (arrives (fun _ => strong_pass ks)) (es1 ++ Arrive cpu j :: es2) ->
  Forall (fun e => ~ finishes cpu e) es2 ->
  exists i p',
    (length (filter (is_access cpu) es2) + i <= 1 + 6 * length ks)%nat /\
    run (perform clock) (watch_body ds) (undisturbed ds (eq ks) a) p
      (replicate i (Access cpu) ++ [Finish cpu j true]) p' /\
    held a (shared p').
Proof using Type*.
  intros Hw Hr Ha Hf.
  destruct (accused_pool ds ks a w _ p Hw Hr Ha) as [_ Hok].
  apply run_app_inv in Hr as (p1 & _ & Hr).
  apply Forall_app in Ha as [_ Ha]. apply Forall_cons in Ha as [[Hj _] _].
  inversion Hr as [|? p2 ? ? ? Hs Hr2]; subst. inversion Hs; subst.
  destruct (run_accesses (perform clock) (watch_body ds) (undisturbed ds (eq ks) a) cpu j
    (watch_body ds cpu j) (1 + 6 * fst j) _ _ _ (lookup_insert_eq _ _ _) (watch_code_steps _ _ _) Hr2 Hf)
    as (m & c & Hm & Hc & Hn).
  destruct p as [w1 ts1]. cbn [shared active] in *.
  destruct (wp_to_finish (perform clock) (watch_body ds) (undisturbed ds (eq ks) a) (undisturbed ds (eq ks) a)
    (fun b w' => b = true /\ held a w') cpu j c m w1 ts1 Hc (Hok _ _ _ Hc) Hn)
    as (i & b & p' & Hi & [-> Hl] & Hrun).
  exists i, p'. split; [lia|done].
Qed.
End WatchTraffic.

(** ** Beside a flood of new sources *)

Section WatchFlooded.
Context `{Endian} {BL RD : Type} {N : positive}.
Context `{BpfHash BL Z, LpmTrie RD}.
Context (inet_ntop : Z -> string) (clock : nat -> Z * Z).
#[local] Abbreviation world := (world BL RD (lru N ip_stats)).
#[local] Abbreviation pool := (@pool call reply world (nat * Z) bool).
#[local] Abbreviation size := (Pos.to_nat N).
Implicit Types (w : world) (p : pool) (l : list Z).

Definition new_entry : ip_stats := fresh_stats 0 60 (L4 false false false).

(** The first frame of a source: [fw_prog] creates its entry. *)
Definition new_source w w' : Prop :=
  exists a s, bpf_lookup (fw_ip_stats (w_maps w)) a = None /\
    bpf_update (fw_ip_stats (w_maps w)) a new_entry = Some s /\
    w' = with_maps (set_ip_stats s (w_maps w)) w.

Definition entries l : lru N ip_stats := (fun a => (a, new_entry)) <$> l.

#[local] Abbreviation flood_run := (run (perform clock) (watch_body inet_ntop Det.builtin) new_source).

(** The table holds the sources [l], and nobody is banned. *)
Record holds l w : Prop := {
  ho_entries : fw_ip_stats (w_maps w) = entries l;
  ho_free a : bpf_lookup (fw_blocklist (w_maps w)) a = None;
}.

Lemma entries_fst l : (entries l).*1 = l.
Proof using Type. unfold entries. rewrite <-list_fmap_compose. apply list_fmap_id. Qed.

Lemma lookup_entries_None l a : a ∉ l -> bpf_lookup (entries l) a = None.
Proof using Type.
  intros Ha. apply eq_None_not_Some. intros Hs. apply Ha.
  apply bpf_keys_lookup in Hs. simpl in Hs. rewrite entries_fst in Hs.
  by rewrite elem_of_remove_dups in Hs.
Qed.

Lemma assoc_del_entries l a : a ∉ l -> assoc_del (entries l) a = entries l.
Proof using Type.
  intros Ha. induction l as [|x l IH]; [done|]. apply not_elem_of_cons in Ha as [Hx Ha].
  simpl. rewrite decide_False by done. f_equal. by apply IH.
Qed.

Lemma update_entries l a : a ∉ l ->
  bpf_update (entries l) a new_entry = Some (entries (take size (a :: l))).
Proof using Type.
  intros Ha. simpl. rewrite assoc_del_entries by done. unfold entries. by rewrite fmap_take.
Qed.

Lemma remove_dups_NoDup l : NoDup l -> remove_dups l = l.
Proof using Type.
  induction 1 as [|x l Hx _ IH]; [done|]. simpl. by case_match; [|f_equal].
Qed.

Lemma first_entry l : NoDup l -> bpf_next_key (entries l) None = head l.
Proof using Type. intros Hl. simpl. by rewrite entries_fst, remove_dups_NoDup. Qed.

Lemma next_entry l a b : a ∉ l -> head l = Some b -> NoDup l -> bpf_next_key (entries l) (Some a) = Some b.
Proof using Type.
  intros Ha Hb Hl. simpl. rewrite entries_fst.
  rewrite remove_dups_NoDup by done.
  enough (after a l = None) as -> by done.
  clear -Ha. induction l as [|x l IH]; [done|]. apply not_elem_of_cons in Ha as [Hx Ha].
  simpl. rewrite decide_False by done. auto.
Qed.

(** As many new sources as there are places take them all. *)
Lemma flooded l l0 w ts :
  NoDup l -> (forall a, a ∈ l -> a ∉ l0) -> holds (take size l0) w ->
  exists w', flood_run (Pool w ts) (replicate (length l) Control) (Pool w' ts) /\
    holds (take size (reverse l ++ l0)) w'.
Proof using Type.
  revert l0 w. induction l as [|a l IH]; intros l0 w Hnd Hl Hw.
  { exists w. split; [constructor|]. done. }
  apply list.NoDup_cons in Hnd as [Ha Hnd].
  assert (a ∉ take size l0) as Hat
    by (intros Hin; apply (Hl a); [left|]; by eapply subseteq_take).
  set (w1 := with_maps (set_ip_stats (entries (take size (a :: l0))) (w_maps w)) w).
  destruct (IH (a :: l0) w1) as (w' & Hr & Hw'); [done| | |].
  - intros x Hx. apply not_elem_of_cons. split; [by intros ->|]. apply Hl. by right.
  - split; [done|]. intros x. apply (ho_free _ _ Hw).
  - exists w'. split; [|by rewrite reverse_cons, <-app_assoc].
    simpl. eapply run_cons; [|exact Hr]. apply step_control.
    exists a, (entries (take size (a :: l0))). rewrite (ho_entries _ _ Hw).
    split; [by apply lookup_entries_None|]. split; [|done].
    rewrite update_entries by done. do 2 f_equal.
    destruct size; [done|]. cbn [take]. simpl. f_equal. by rewrite take_take; f_equal; lia.
Qed.

(** Two sets of sources, each of which fills the table. *)
Definition first (b : bool) : Z := if b then Z.pos N else 0.
Definition block (b : bool) : list Z := seqZ (first b) (Z.pos N).

Lemma block_head b : head (block b) = Some (first b).
Proof using Type. unfold block. by rewrite seqZ_cons by lia. Qed.

Lemma block_disjoint b a : a ∈ block (negb b) -> a ∉ block b.
Proof using Type. unfold block. rewrite !elem_of_seqZ. destruct b; simpl; lia. Qed.

(** Between its look at an entry and its step to the next, the table is filled
  with other sources, and the scan begins again with them. *)
Lemma flooded_round b n j sec w ts :
  holds (block b) w ->
  exists es w',
    flood_run (Pool w (<[0%nat := (j, watch_keys_code inet_ntop (S n) Det.builtin sec (first b))]> ts)) es
      (Pool w' (<[0%nat := (j, watch_keys_code inet_ntop n Det.builtin sec (first (negb b)))]> ts)) /\
    holds (block (negb b)) w'.
Proof using Type.
  intros Hw. assert (first b ∈ block b) as Hin by (unfold block; rewrite elem_of_seqZ; lia).
  assert (length (block b) = size) as Hlen by (unfold block; rewrite length_seqZ; lia).
  assert (length (block (negb b)) = size) as Hlen' by (unfold block; rewrite length_seqZ; lia).
  assert (bpf_lookup (entries (block b)) (first b) = Some new_entry) as Hfirst
    by (unfold block; rewrite seqZ_cons by lia; simpl; by rewrite decide_True).
  destruct (flooded (reverse (block (negb b))) (block b) w
    (<[0%nat := (j, _ ← Ret tt; next ← act (NextKey (Some (first b)));
       match next with
       | Some k => watch_keys_code inet_ntop n Det.builtin sec k
       | None => mret true
       end)]> ts)) as (w' & Hr & Hw').
  - rewrite reverse_Permutation. apply NoDup_seqZ.
  - intros a. rewrite elem_of_reverse. apply block_disjoint.
  - by rewrite take_ge by lia.
  - rewrite reverse_involutive, take_app_length' in Hw' by done.
    eexists (Access 0 :: Access 0 :: _ ++ [Access 0]), w'. split; [|done].
    eapply run_access; [cbn [perform]; rewrite (ho_entries _ _ Hw), Hfirst; reflexivity|].
    cbn [mbind code_mbind code_bind].
    rewrite Det.read_IpStats_bytes by (repeat split; vm_compute; discriminate || reflexivity).
    eapply run_access; [cbn [perform]; rewrite (ho_free _ _ Hw); reflexivity|].
    eapply run_app; [exact Hr|]. eapply run_access with (x := Some (first (negb b))) (s' := w'); [|constructor].
    cbn [perform]. rewrite (ho_entries _ _ Hw').
    rewrite (next_entry _ _ (first (negb b))); [done| |apply block_head|apply NoDup_seqZ].
    intros Hin'. by eapply block_disjoint.
Qed.

(** C19. A pass of [watch] need not end. However many entries it goes over, there
  is an interleaving with first frames of new sources, as a flood with forged
  addresses brings them, in which it goes over more: each time the table evicts
  the entry that the scan stands on, and bpf_map_get_next_key answers the first
  key again. *)
Theorem watch_unending fuel sec w :
  holds (block false) w ->
  exists es p, flood_run (Pool w ∅) (Arrive 0 (fuel, sec) :: es ++ [Finish 0 (fuel, sec) false]) p.
Proof using Type.
  intros Hw. set (j := (fuel, sec)).
  assert (forall b n w, holds (block b) w -> exists es w',
    flood_run (Pool w (<[0%nat := (j, watch_keys_code inet_ntop n Det.builtin sec (first b))]> ∅)) es
      (Pool w' (<[0%nat := (j, Ret false)]> ∅))) as Hscan.
  { intros b n. revert b. induction n as [|n IH]; intros b w1 Hw1.
    { exists [], w1. constructor. }
    destruct (flooded_round b n j sec w1 ∅ Hw1) as (es1 & w2 & Hr1 & Hw2).
    destruct (IH _ _ Hw2) as (es2 & w3 & Hr2). exists (es1 ++ es2), w3. by eapply run_app. }
  destruct (Hscan false fuel w Hw) as (es & w' & Hr).
  exists (Access 0 :: es), (Pool w' (delete 0%nat (<[0%nat := (j, Ret false)]> ∅))).
  eapply run_cons; [by apply step_arrive|]. simpl. eapply run_access.
  - cbn [perform]. rewrite (ho_entries _ _ Hw), first_entry, block_head by apply NoDup_seqZ.
    reflexivity.
  - eapply run_app; [exact Hr|].
    eapply run_cons; [apply step_finish, lookup_insert_eq|constructor].
Qed.
End WatchFlooded.

(** *** Witnesses *)

(** Two processes scan the entries, and the second bans the flooding source
    between the first one's look at the blocklist and its own update. *)
Definition demo_watchers : list (choice (J := nat * Z)) :=
  Begin 0 (1%nat, 60) :: Begin 1 (1%nat, 60) :: replicate 3 (Go 0) ++ replicate 7 (Go 1) ++ replicate 4 (Go 0).

Lemma watcher_runs clock cs es :
  let _ := little in
  fst <$> schedule (perform clock) (watch_body demo_ntop Det.builtin) cs (Pool flood_world ∅) = Some es ->
  exists p, forall control, run (perform clock) (watch_body demo_ntop Det.builtin) control
    (Pool flood_world ∅) es p.
Proof.
  intros en. destruct (schedule _ _ _ _) as [[es' p]|] eqn:E; [|done].
  intros [= <-]. exists p. intros control. by eapply schedule_run.
Defined.

(** A clock that shows 100 seconds. *)
Definition stopped_clock (n : nat) : Z * Z := (100, 0).

Lemma watch_innocent_witness :
  let _ := little in
  exists es p, innocent Det.builtin (demo_src + 1) flood_world /\
    run (perform demo_clock) (watch_body demo_ntop Det.builtin)
      (keeps (innocent Det.builtin (demo_src + 1))) (Pool flood_world ∅) es p /\ length es = 16%nat /\
    innocent Det.builtin (demo_src + 1) (shared p) /\
    forall cpu j c, active p !! cpu = Some (j, c) -> c <> Fault.
Proof.
  intros en.
  assert (innocent Det.builtin (demo_src + 1) flood_world) as Hi.
  { split; [exact flood_stats_u64|reflexivity|]. intros s Hs. vm_compute in Hs. discriminate. }
  edestruct (watcher_runs demo_clock demo_watchers) as [p Hr]; [vm_compute; reflexivity|].
  eexists _, p. split; [exact Hi|]. split; [apply Hr|]. split; [reflexivity|].
  eapply (watch_innocent demo_ntop demo_clock Det.builtin (demo_src + 1) flood_world _ p Hi), Hr.
Defined.

Lemma enough_stopped : enough stopped_clock 160000000000 0 60.
Proof. intros n _. right. vm_compute. discriminate. Defined.

Lemma watch_catches_witness :
  let _ := little in
  let steady := undisturbed 160000000000 0 Det.builtin (eq [demo_src]) demo_src in
  exists p,
    run (perform stopped_clock) (watch_body demo_ntop Det.builtin) steady (Pool flood_world ∅)
      ([] ++ Arrive 0 (1%nat, 60) :: replicate 3 (Access 0)) p /\
  exists i p',
    (length (filter (is_access 0) (replicate 3 (Access (J := nat * Z) (A := bool) 0))) + i
     <= 1 + 6 * length [demo_src])%nat /\
    run (perform stopped_clock) (watch_body demo_ntop Det.builtin) steady p
      (replicate i (Access 0) ++ [Finish 0 (1%nat, 60) true]) p' /\
    held 160000000000 demo_src (shared p').
Proof.
  intros en steady.
  destruct (watcher_runs stopped_clock (Begin 0 (1%nat, 60) :: replicate 3 (Go 0))
    ([] ++ Arrive 0 (1%nat, 60) :: replicate 3 (Access 0))) as [p Hr]; [vm_compute; reflexivity|].
  exists p. split; [apply Hr|].
  apply (watch_catches demo_ntop stopped_clock 160000000000 0 Det.builtin [demo_src] demo_src flood_world
    0 (1%nat, 60) [] (replicate 3 (Access 0)) p).
  - split; [exact flood_stats_u64|reflexivity| |done|simpl; lia].
    exists demo_syn. split; [reflexivity|by eexists].
  - apply Hr.
  - apply Forall_cons. split; [split; [done|apply enough_stopped]|by repeat constructor].
  - repeat constructor; simpl; tauto.
Defined.

Lemma watch_unending_witness :
  let _ := little in
  let w := with_maps (set_ip_stats (entries (N := 2) [0; 1]) (Kmaps ∅ ∅ [] [1; 3] [Counters 0 0 0]))
    (World ∅ (Kmaps ∅ ∅ [] [1; 3] [Counters 0 0 0]) None 0 0 []) in
  holds (BL := gmap Z Z) (RD := gmap (Z * Z) Z) (block (N := 2) false) w /\
  exists es p, run (perform demo_clock) (watch_body demo_ntop Det.builtin) new_source (Pool w ∅)
    (Arrive 0 (100%nat, 60) :: es ++ [Finish 0 (100%nat, 60) false]) p.
Proof.
  intros en w. assert (holds (block (N := 2) false) w) as Hw by (split; [reflexivity|done]).
  split; [exact Hw|]. exact (watch_unending demo_ntop demo_clock 100 60 w Hw).
Defined.
