(* ===== verification/FwSystem.v ===== *)
(** * The firewall as one system

    Processors that run [fw_prog] on the frames they receive, processes that
    run [watch], and the other commands, all on the same maps, with the
    accesses of the ones and the system calls of the others interleaved in any
    order. To the data plane, the processes of [watch] are commands
    ([system_data_plane]), so what [FwRaces], [FwTyped] and [FwBanRace] show of
    it holds beside them, and the limit of [FwPinned] too ([firewall_limit]).
    Together the two do what the firewall is for: a
    source that floods is banned by the pass of [watch] that sees it, and no
    frame of it passes from then on ([flood_ended]). *)

From S2P Require Import Prelude Interleave Compose BpfMaps FwProg FwSpec RateLimit FwTrace FwConc CStrings Detector FwCtl FwCtlSpec FwWatch FwDaemon FwMain FwRaces FwTyped FwBanRace FwPinned FwWatchRace.
#[local] Open Scope Z_scope.

(** ** The clock under commands *)

Section Ticks.
Context `{Endian} {BL RD IS : Type}.
Context `{BpfHash BL Z, LpmTrie RD, BpfHash IS ip_stats}.
Context (inet_pton : string -> option Z) (inet_ntop : Z -> string) (clock : nat -> Z * Z).
#[local] Abbreviation world := (world BL RD IS).

(** The clock is not set back. *)
Definition ticks {A} (c : prog world A) : Prop :=
  forall w x w', c w = Some (x, w') -> (w_tick w <= w_tick w')%nat.

Lemma ticks_ret {A} (x : A) : ticks (mret x).
Proof using Type. by intros w y w' [= _ <-]. Qed.

Lemma ticks_get : ticks pget.
Proof using Type. by intros w y w' [= _ <-]. Qed.

Lemma ticks_modify f : (forall w, (w_tick w <= w_tick (f w))%nat) -> ticks (pmodify f).
Proof using Type. intros Hf w y w' [= _ <-]. apply Hf. Qed.

Lemma ticks_lift {A} (o : option A) : ticks (plift o).
Proof using Type. unfold plift. intros w x w'. by destruct o; intros [= _ <-]. Qed.

Lemma ticks_bind {A B} (c : prog world A) (f : A -> prog world B) :
  ticks c -> (forall x, ticks (f x)) -> ticks (c ≫= f).
Proof using Type.
  intros Hc Hf w y w'. unfold mbind, prog_bind. destruct (c w) as [[x w1]|] eqn:E; [|done].
  intros E2. etrans; [by eapply Hc|by eapply Hf].
Qed.

Lemma ticks_try_set (o : option (kmaps BL RD IS)) : ticks (try_set o).
Proof using Type. destruct o; [|by intros w x w' [= _ <-]]. by intros w x w' [= _ <-]. Qed.

Ltac ticking := repeat first
  [ apply ticks_try_set | apply ticks_bind; [|intros ?] | apply ticks_ret | apply ticks_get | apply ticks_lift
  | apply ticks_modify; intros ?; simpl; lia | case_match ].

Lemma ticks_main env argv :
  head argv ∉ [Some "start"; Some "watch"] -> ticks (main inet_pton inet_ntop clock env argv).
Proof using Type.
  intros Hc. unfold main. destruct argv as [|c v]; [unfold usage, print; ticking|].
  destruct (decide (c = "start")) as [->|]; [by destruct Hc; left|].
  destruct (decide (c = "watch")) as [->|]; [by destruct Hc; right; left|].
  repeat (case_decide; [
    unfold cmd_block, cmd_unblock, cmd_range, cmd_unrange, cmd_ratelimit, cmd_enable, cmd_disable,
      print_stats, set_config, get_map, print, maps, usage;
    ticking|]).
  unfold usage, print; ticking.
Qed.
End Ticks.

(** ** The system *)

Section System.
Context `{Endian} {BL RD IS : Type}.
Context `{BpfHash BL Z, LpmTrie RD, BpfHash IS ip_stats, Reclaimed IS}.
Context `{!BpfHashLaws BL Z, !LpmLaws RD, !BpfHashLaws IS ip_stats, !ReclaimedOk IS}.
Context (inet_pton : string -> option Z) (inet_ntop : Z -> string) (clock : nat -> Z * Z).
Context (ds : list Det.Detector).
#[local] Abbreviation kmaps := (kmaps BL RD IS).
#[local] Abbreviation world := (world BL RD IS).
#[local] Abbreviation system := (@system world op answer job xdp_action call reply (nat * Z) bool).
#[local] Abbreviation event := (@Compose.event job xdp_action (nat * Z) bool).
Implicit Types (w : world) (x : system) (m : kmaps) (e : event).

(** An access of the data plane leaves the rest of the world alone. *)
Definition frame_exec : forall o : op, world -> answer o * world := on_part w_maps with_maps exec.

(** A command other than [start] and [watch], from beginning to end. *)
Definition command w w' : Prop :=
  exists env argv code, (head argv ∉ [Some "start"; Some "watch"]) /\
    main inet_pton inet_ntop clock env argv w = Some (code, w').

Definition firewall_run : (world -> event -> world -> Prop) -> system -> list event -> system -> Prop :=
  sys_run frame_exec frame_body (perform clock) (watch_body inet_ntop ds) command.

(** The processors and what is left of their programs. *)
Definition data_plane x : @pool op answer kmaps job xdp_action := Pool (w_maps (state x)) (lefts x).

Lemma command_effect w w' : command w w' -> ctl_effect (w_maps w) (w_maps w').
Proof using Type*.
  intros (env & argv & code & Hh & E). eapply (control_effect inet_pton inet_ntop clock).
  by eapply control_command.
Qed.

Lemma command_ticks w w' : command w w' -> (w_tick w <= w_tick w')%nat.
Proof using Type. intros (env & argv & code & Hh & E). by eapply ticks_main. Qed.

(** *** The processes of watch, to the data plane *)

(** What is written to the blocklist fits its type. *)
Definition wide (c : call) : Prop := match c with BanUpdate _ e => uint_ok 64 e | _ => True end.

Lemma ban_code_wide a sec : everywhere (next_ok wide) (ban_code a sec).
Proof using Type.
  unfold ban_code. destruct (0 <? sec); simpl; [|done].
  split; [done|]. intros t. split; [by apply wrap_range|done].
Qed.

Lemma watch_body_wide pid j : everywhere (next_ok wide) (watch_body inet_ntop ds pid j).
Proof using Type.
  destruct j as [fuel sec]. unfold watch_body, watch_code. simpl.
  split; [done|]. intros [key|]; [|done]. revert key.
  induction fuel as [|fuel IH]; intros key; [done|]. cbn [watch_keys_code].
  apply everywhere_next_bind.
  - unfold watch_one_code. split; [done|]. intros [v|]; [|done].
    cbn [mbind code_mbind code_bind]. destruct (Det.read_IpStats _) as [s|]; [|done].
    split; [done|]. intros [|]; [done|]. destruct (Det.first_match key s ds) as [d|]; [|done].
    apply everywhere_next_bind; [apply ban_code_wide|]. by intros [|].
  - intros []. split; [done|]. intros [k|]; [apply IH|done].
Qed.

Lemma perform_effect c w : wide c -> ctl_effect (w_maps w) (w_maps (snd (perform clock c w))).
Proof using Type.
  intros Hc. destruct c as [| | | |k e|]; simpl; try constructor.
  destruct (bpf_update _ _ _) as [b|] eqn:E; [by eapply effect_block|constructor].
Qed.

(** What every process of [watch] still has to do. *)
Definition rights_wide x : Prop := pool_left (next_ok wide) (right_pool x).

(** A step that is not the data plane's own. *)
Definition outside (e : event) : Prop := forall l, e <> L l.

Lemma outside_effect x e x' :
  rights_wide x -> sys_step frame_exec frame_body (perform clock) (watch_body inet_ntop ds) command x e x' ->
  rights_wide x' /\ (outside e -> ctl_effect (w_maps (state x)) (w_maps (state x'))).
Proof using Type*.
  intros Hx Hs. destruct Hs as [w l r e w' l' Hs|w l r e w' r' Hs|w l r w' Hs]; cbn [state].
  - split; [done|]. intros Ho. by destruct (Ho e).
  - split.
    + eapply (pool_left_run _ _ _ _ (fun _ _ => True)); [intros; apply (watch_body_wide 0)| |exact Hx|
        eapply run_cons; [exact Hs|constructor]].
      apply Forall_singleton. by destruct e.
    + intros _. inversion Hs; subst; try constructor.
      * apply perform_effect.
        match goal with Ht : _ !! _ = Some _ |- _ => exact (everywhere_here _ _ (Hx _ _ _ Ht)) end.
      * match goal with Hn : nothing _ _ |- _ => destruct Hn end.
  - split; [done|]. intros _. by apply command_effect.
Qed.

(** The run of the data plane inside a run of the system. *)
Lemma firewall_lefts (P : world -> event -> world -> Prop) (C : kmaps -> kmaps -> Prop) x es x' :
  (forall w e w', P w e w' -> outside e -> ctl_effect (w_maps w) (w_maps w') -> C (w_maps w) (w_maps w')) ->
  rights_wide x -> firewall_run P x es x' ->
  rights_wide x' /\ run exec frame_body C (data_plane x) (left_label <$> es) (data_plane x').
Proof using Type*.
  intros HC Hx Hr.
  destruct (sys_run_inv frame_exec frame_body (perform clock) (watch_body inet_ntop ds) command
    rights_wide (fun _ => True) P (fun w e w' => outside e -> C (w_maps w) (w_maps w')) x es x') as [Hx' Hr'].
  - intros x1 e x2 Hx1 _ Hs Hp. destruct (outside_effect x1 e x2 Hx1 Hs) as [? He].
    split; [done|]. intros Ho. eapply HC; [exact Hp|done|by apply He].
  - done.
  - by apply Forall_forall.
  - done.
  - split; [done|]. apply (run_lefts _ _ _ _ _ _ (fun w w' => C (w_maps w) (w_maps w'))) in Hr'; [|by intros s e s' Hc Ho; apply Hc].
    exact (run_part w_maps with_maps exec frame_body _ C _ _ _ (fun _ _ => eq_refl) (fun _ _ Hc => Hc) Hr').
Qed.

Lemma no_rights_wide w l : rights_wide (System w l ∅).
Proof using Type. intros pid j c. unfold right_pool. cbn [active rights]. by rewrite lookup_empty. Qed.

Lemma firewall_data_plane (P : world -> event -> world -> Prop) x es x' :
  rights x = ∅ -> firewall_run P x es x' ->
  rights_wide x' /\ fw_interleaving (data_plane x) (left_label <$> es) (data_plane x').
Proof using Type*.
  intros Hx. apply firewall_lefts; [done|]. destruct x as [w l r]. simpl in Hx. subst r.
  apply no_rights_wide.
Qed.

(** C12. The data plane is refined by the system. Every run of the whole firewall,
  its accesses and system calls in any order, contains the run that its
  processors make beside a control plane: the processes of [watch] and the
  commands change the maps only as commands may. *)
Theorem system_data_plane w es x :
  firewall_run any_step (System w ∅ ∅) es x ->
  fw_interleaving (Pool (w_maps w) ∅) (left_label <$> es) (data_plane x).
Proof using Type*.
  intros Hr. by destruct (firewall_data_plane any_step (System w ∅ ∅) es x eq_refl Hr).
Qed.

(** Commands and passes of [watch] do not lift the limit. *)
Definition limit_stays pps w (e : event) w' : Prop := outside e -> guarded pps (w_maps w').

(** C6. The rate limit of the whole firewall. While the firewall is on with a
  limit between 1 and [pps], and the frames of a source arrive at one processor
  at non-decreasing times, at most [2 * pps] of its IPv4 frames pass in any
  interval of the window's length: however the accesses of that processor, of
  the other processors with any frames, the system calls of any number of
  processes of [watch], and commands of all kinds interleave. The map of entries
  has room ([BpfHashKeeps]), as in [FwTrace]. *)
Theorem firewall_limit `{!BpfHashKeeps IS ip_stats} pps b c0 t0 t n w es x :
  firewall_run (limit_stays pps) (System w ∅ ∅) es x -> guarded pps (w_maps w) ->
  Forall (pinned b c0) (left_label <$> es) -> times_from t (arrivals b (left_label <$> es)) ->
  source_ok n t (bpf_lookup (fw_ip_stats (w_maps w)) b) ->
  n + Z.of_nat (length (arrivals b (left_label <$> es))) < 2 ^ 53 ->
  Z.of_nat (length (filter (fun y => t0 <= y < t0 + WINDOW_NS) (passes_of b (left_label <$> es))))
  <= 2 * pps.
Proof using Type*.
  intros Hr Hg He Ht Ho Hn.
  destruct (firewall_lefts (limit_stays pps) (guarded_effect pps) (System w ∅ ∅) es x) as [_ Hl];
    [by intros ? ? ? Hs Hout Hc; split; [|apply Hs]|apply no_rights_wide|exact Hr|].
  by eapply rate_limit_interleaved.
Qed.

(** *** A ban that is meant to last *)

(** As in [FwWatchRace]: until [E], from the [n0]-th reading of the clock on. *)
Context (E : Z) (n0 : nat) (early : Z -> Prop) (a : Z).

Definition sound w : Prop := typed (w_maps w) /\ (n0 <= w_tick w)%nat.

(** What a process of [watch] may ask for, and what it is told. *)
Definition lasting (c : call) : Prop :=
  match c with BanUpdate k e => uint_ok 64 e /\ (k = a -> lasts E e) | _ => True end.
Definition truthful (c : call) : reply c -> Prop :=
  match c return reply c -> Prop with
  | StatsLookup _ => fun o => forall s, o = Some s -> Det.fields_u64 s
  | ReadClock => fun t =>
      exists n, (n0 <= n)%nat /\ t = u64 (u64 (fst (clock n) * 1000000000) + snd (clock n))
  | _ => fun _ => True
  end.
#[local] Abbreviation lasting_code := (ops_when lasting truthful).

Lemma ban_code_lasting k sec : enough clock E n0 sec -> lasting_code (ban_code k sec).
Proof using Type.
  intros Hs. unfold ban_code. unfold enough, ban_expiry in Hs. destruct (0 <? sec); simpl.
  - split; [done|]. intros t (n & Hn & ->). split; [|done].
    split; [by apply wrap_range|]. intros _. by apply Hs.
  - split; [|done]. split; [done|]. intros _. by left.
Qed.

Lemma watch_body_lasting pid j : enough clock E n0 (snd j) -> lasting_code (watch_body inet_ntop ds pid j).
Proof using Type.
  destruct j as [fuel sec]. simpl. intros Hs. unfold watch_body, watch_code. simpl.
  split; [done|]. intros [key|] _; [|done]. revert key.
  induction fuel as [|fuel IH]; intros key; [done|]. cbn [watch_keys_code].
  apply ops_when_bind.
  - unfold watch_one_code. apply ops_when_act; [done|]. intros [v|] Hv; [|done].
    rewrite (Det.read_IpStats_bytes v (Hv v eq_refl)). cbn [clift mbind code_mbind code_bind].
    apply ops_when_act; [done|]. intros [|] _; [done|].
    destruct (Det.first_match key (Det.view v) ds) as [d|]; [|done].
    apply ops_when_bind; [by apply ban_code_lasting|]. by intros [|].
  - intros []. apply ops_when_act; [done|]. intros [k|] _; [apply IH|done].
Qed.

Context `{!BpfHashKeeps BL Z}.

(** What such a process promises: it does not shorten a ban of [a] that lasts
    until [E], and does not turn the firewall off. *)
Definition promise m m' : Prop := keeps (ban_on a E) m m' /\ keeps enabled m m'.

(** A system call of such a process tells the truth. *)
Lemma perform_lasting c w :
  lasting c -> sound w ->
  truthful c (fst (perform clock c w)) /\ sound (snd (perform clock c w)) /\
  promise (w_maps w) (w_maps (snd (perform clock c w))).
Proof using Type*.
  intros Hc Hw. pose proof Hw as [Ht Hn]. destruct c as [k|k|k| |k e|l]; simpl in *; try done.
  - split; [|done]. intros s. apply (ty_entries _ Ht).
  - split; [by exists (w_tick w)|]. split; [split; [done|simpl; lia]|done].
  - split; [done|]. destruct Hc as [He Hk].
    destruct (bpf_update (fw_blocklist (w_maps w)) k e) as [b|] eqn:Eb; [|done].
    split; [split; [|done]; eapply effect_typed; [by eapply effect_block|done]|].
    split; [|by intros Hen]. intros [(e0 & Hl & Hlast) Hen]. split; [|done]. simpl. destruct (decide (k = a)) as [->|Hne].
    + exists e. split; [by eapply bpf_update_eq|auto].
    + exists e0. split; [|done]. by rewrite (bpf_update_keeps _ _ _ _ _ Eb Hne).
Qed.

(** *** The invariant of the system *)

Record orderly x : Prop := {
  or_sound : sound (state x);
  or_frames : pool_ok exec (keeps typed) typed (fun _ _ _ => typed) (data_plane x);
  or_passes pid j c : rights x !! pid = Some (j, c) -> lasting_code c;
}.

(** The times of the frames of [a] are not after [E]; the bans of the passes
    last until then. *)
Definition in_time (cpu : nat) (j : job) : Prop := uint_ok 64 (snd j) /\ job_in_force a E j.
Definition long_ban (pid : nat) (j : nat * Z) : Prop := enough clock E n0 (snd j).

#[local] Abbreviation firewall_step :=
  (sys_step frame_exec frame_body (perform clock) (watch_body inet_ntop ds) command).

Lemma frame_step_tick p l p' :
  step frame_exec frame_body nothing p l p' -> w_tick (shared p') = w_tick (shared p).
Proof using Type. by destruct 1. Qed.

Lemma orderly_frame x l x' :
  orderly x -> arrives in_time l -> firewall_step x (L l) x' -> orderly x'.
Proof using Type*.
  intros [[Ht Hn] Hf Hp] Ha Hs. inversion Hs as [w ts r e w' ts' Hstep| |]; subst.
  pose proof (frame_step_tick _ _ _ Hstep) as Htick. cbn [shared state] in *.
  assert (pool_ok exec (keeps typed) typed (fun _ _ _ => typed) (data_plane (System w' ts' r))) as Hf'.
  { refine (proj1 (pool_ok_run exec frame_body nothing (keeps typed) typed in_time (fun _ _ _ => typed)
      _ _ _ _ [l] _ Hf (proj2 (Forall_singleton _ _) Ha) _)); [done|by intros ? ? []| |].
    - intros cpu j m [Hj _] Hm. by apply frame_typed.
    - exact (run_part w_maps with_maps exec frame_body nothing nothing _ _ _
        (fun _ _ => eq_refl) (fun _ _ Hc => Hc) (run_cons _ _ _ _ _ _ _ _ Hstep (run_nil _ _ _ _))). }
  split; [|done..]. split; [apply Hf'|]. cbn [state]. by rewrite Htick.
Qed.

(** The frames in flight do not mind another's change. *)
Lemma frames_others w w' ts :
  typed (w_maps w') -> pool_ok exec (keeps typed) typed (fun _ _ _ => typed) (Pool (w_maps w) ts) ->
  pool_ok exec (keeps typed) typed (fun (_ : nat) (_ : job) (_ : xdp_action) => typed) (Pool (w_maps w') ts).
Proof using Type.
  intros Ht. apply (pool_ok_others exec (keeps typed) typed _ (fun _ _ Hk => Hk)). by intros _.
Qed.

Lemma orderly_pass x l x' :
  orderly x -> arrives long_ban l -> firewall_step x (R l) x' ->
  orderly x' /\ promise (w_maps (state x)) (w_maps (state x')).
Proof using Type*.
  intros [Hx Hf Hp] Ha Hs. inversion Hs as [|w ts r e w' r' Hstep|]; subst. cbn [state rights] in *.
  inversion Hstep as [s ts1 pid j Hj|s ts1 pid j c k Hj|s ts1 pid j b Hj|? ? ? []]; subst.
  - split; [split; [done..|]|done]. intros pid' j' c'. cbn [rights]. rewrite lookup_insert_Some.
    intros [[<- [= <- <-]]|[_ Hl]]; [by apply watch_body_lasting|by eapply Hp].
  - destruct (Hp _ _ _ Hj) as [Hc Hk]. destruct (perform_lasting c w Hc Hx) as (Htr & Hsd & Hb).
    split; [split; [done| |]|done].
    + apply (frames_others w); [apply Hsd|exact Hf].
    + intros pid' j' c'. cbn [rights]. rewrite lookup_insert_Some.
      intros [[<- [= <- <-]]|[_ Hl]]; [by apply Hk|by eapply Hp].
  - split; [split; [done..|]|done]. intros pid' j' c'. cbn [rights]. intros [_ Hl]%lookup_delete_Some. by eapply Hp.
Qed.

Lemma orderly_command x x' : orderly x -> firewall_step x Env x' -> orderly x'.
Proof using Type*.
  intros [[Ht Hn] Hf Hp] Hs. inversion Hs as [| |w ts r w' Hc]; subst. cbn [state rights] in *.
  assert (typed (w_maps w')) as Ht' by (eapply effect_typed; [by apply command_effect|done]).
  split; [split; [done|]| |done].
  - cbn [state]. pose proof (command_ticks _ _ Hc). lia.
  - by apply (frames_others w).
Qed.

(** The system stays so, and the processes of [watch] keep their promise. *)
Lemma orderly_run P x es x' :
  orderly x -> Forall (sys_arrives in_time long_ban) es -> firewall_run P x es x' ->
  orderly x' /\
  firewall_run (fun w e w' => P w e w' /\
    ((exists r, e = R r) -> promise (w_maps w) (w_maps w'))) x es x'.
Proof using Type*.
  intros Hx Ha. apply (sys_run_inv _ _ _ _ _ orderly (sys_arrives in_time long_ban)); [|done..].
  intros x1 e x2 Hx1 He Hs Hp. destruct e as [l|l|].
  - split; [by eapply orderly_frame|]. split; [done|]. by intros [].
  - destruct (orderly_pass x1 l x2 Hx1 He Hs) as [? ?]. done.
  - split; [by eapply orderly_command|]. split; [done|]. by intros [].
Qed.

(** *** The property *)

(** What traffic and commands do until a pass has seen the flood: the entry of
    [a] stays and a detector goes on matching it, the other entries come and go
    but stay on their side of it, nobody unblocks [a], bans it for less, or turns
    the firewall off. *)
Definition steady w (e : event) w' : Prop :=
  match e with
  | R _ => True
  | _ => undisturbed E n0 ds (sided early a) a w w' /\ (enabled (w_maps w) -> enabled (w_maps w'))
  end.

(** What commands do afterwards: nobody unblocks [a], shortens its ban, or turns
    the firewall off. *)
Definition keeping w (e : event) w' : Prop := e = Env -> keeps (ban_on a E) (w_maps w) (w_maps w').

(** After any run, the frames in flight and those to come keep the types. *)
Lemma orderly_after w es x :
  typed (w_maps w) -> firewall_run any_step (System w ∅ ∅) es x -> Forall (sys_arrives in_time (fun _ _ => True)) es ->
  rights x = ∅ -> (n0 <= w_tick (state x))%nat ->
  orderly x /\ fw_interleaving (Pool (w_maps w) ∅) (left_label <$> es) (data_plane x).
Proof using Type*.
  intros Hw Hr Ha Hx Hn.
  destruct (firewall_data_plane any_step (System w ∅ ∅) es x eq_refl Hr) as [_ Hl].
  assert (pool_ok exec (keeps typed) typed (fun _ _ _ => typed) (data_plane x)) as Hf.
  { eapply typed_pool; [exact Hw|exact Hl|]. eapply left_arrives, sys_arrives_mono; [..|exact Ha]; [|done].
    by intros ? ? []. }
  split; [split|done].
  - split; [apply Hf|done].
  - done.
  - intros pid j c. by rewrite Hx, lookup_empty.
Qed.

(** A pass that is through has banned the source. *)
Lemma flood_caught x1 es pid k x2 :
  orderly x1 -> rights x1 = ∅ -> accused E n0 ds (sided early a) a (state x1) -> enabled (w_maps (state x1)) ->
  firewall_run steady x1 (es ++ [R (Finish pid k true)]) x2 ->
  Forall (sys_arrives in_time long_ban) es ->
  orderly x2 /\ ban_on a E (w_maps (state x2)).
Proof using Type*.
  intros Hx Hn Hac Hen Hr Ha.
  assert (Forall (sys_arrives in_time long_ban) (es ++ [R (Finish pid k true)])) as Ha'
    by (apply Forall_app_2; [done|by apply Forall_singleton]).
  destruct (orderly_run _ _ _ _ Hx Ha' Hr) as [Hx2 Hr'].
  pose proof (run_rights _ _ _ _ _ steady (undisturbed E n0 ds (sided early a) a) _ _ _
    (fun s e s' => match e with R _ => fun _ Hne => match Hne _ eq_refl with end | _ => fun Hs _ => proj1 Hs end)
    Hr) as Hright.
  destruct x1 as [w1 l1 r1]. simpl in *. subst r1.
  rewrite fmap_app in Hright.
  pose proof (swept inet_ntop clock E n0 ds early a _ _ _ _ _ Hac Hright (right_arrives _ _ _ Ha)) as Hh.
  split; [done|]. split; [exact Hh|].
  refine (proj1 (sys_run_inv _ _ _ _ _ (fun x => enabled (w_maps (state x))) (fun _ => True) _ any_step
    (System w1 l1 ∅) _ _ _ Hen _ Hr')); [|by apply Forall_true].
  intros y1 e y2 He _ _ [Hs Hp]. split; [|done].
  destruct e; [by apply Hs|by apply Hp; [eexists|]|by apply Hs].
Qed.

(** From then on, commands and passes leave the ban alone. *)
Lemma flood_over x2 es x3 :
  orderly x2 -> rights_wide x2 -> Forall (sys_arrives in_time long_ban) es -> firewall_run keeping x2 es x3 ->
  run exec frame_body (keeping_control a E) (data_plane x2) (left_label <$> es) (data_plane x3).
Proof using Type*.
  intros Hx2 Hwide Ha Hr. destruct (orderly_run keeping _ _ _ Hx2 Ha Hr) as [_ Hr'].
  eapply firewall_lefts; [|exact Hwide|exact Hr']. intros w e w' [Hk Hp] Ho Hc. split; [done|].
  destruct e as [l|r|]; [by destruct (Ho l)|apply Hp; by eexists|by apply Hk].
Qed.

End System.

(** *** Witnesses *)

#[local] Abbreviation demo_system_run := (firewall_run demo_pton demo_ntop stopped_clock Det.builtin).

(** A pass of [watch] over the entry of the flooding source; then a frame of
    it. *)
Definition flood_pass : list (choice (J := nat * Z)) := Begin 0 (1%nat, 60) :: replicate 8 (Go 0).
Definition flood_frame : job := (udp_frame, 150000000000).
Definition flood_choices : list (choice (J := job)) := Begin 0 flood_frame :: replicate 8 (Go 0).

Definition pass_run :=
  let _ := little in
  schedule (perform stopped_clock) (watch_body demo_ntop Det.builtin) flood_pass (Pool flood_world ∅).
Definition after_pass : world (gmap Z Z) (gmap (Z * Z) Z) (gmap Z ip_stats) :=
  from_option (fun r => shared (snd r)) flood_world pass_run.
Definition frame_run :=
  let _ := little in schedule frame_exec frame_body flood_choices (Pool after_pass ∅).
Definition after_frame : world (gmap Z Z) (gmap (Z * Z) Z) (gmap Z ip_stats) :=
  from_option (fun r => shared (snd r)) flood_world frame_run.

Lemma ran_out {Op S J A} {ans : Op -> Type}
    (o : option (list (label (J := J) (A := A)) * @pool Op ans S J A)) es (s : S) :
  fst <$> o = Some es -> (fun r : _ * @pool Op ans S J A => size (active (snd r))) <$> o = Some 0%nat ->
  o = Some (es, Pool (from_option (fun r => shared (snd r)) s o) ∅).
Proof.
  destruct o as [[es' [s' ts]]|]; [|done]. intros [= ->] [= Ht]. by apply map_size_empty_inv in Ht as ->.
Qed.

Lemma pass_runs P :
  let _ := little in
  (forall w e w', P w (R e) w') ->
  demo_system_run P (System flood_world ∅ ∅)
    ((R <$> (Arrive 0 (1%nat, 60) :: replicate 7 (Access 0))) ++ [R (Finish 0 (1%nat, 60) true)])
    (System after_pass ∅ ∅).
Proof.
  intros en HP. change [R (Finish 0 (1%nat, 60) true)]
    with (R (J1 := job) (A1 := xdp_action) <$> [Finish 0 (1%nat, 60) true]).
  rewrite <-fmap_app. eapply rights_run; [|by intros]. eapply schedule_run.
  apply (ran_out pass_run); vm_compute; reflexivity.
Qed.

Lemma frame_runs P :
  let _ := little in
  (forall w e w', P w (L e) w') ->
  demo_system_run P (System after_pass ∅ ∅)
    ([] ++ L (Arrive 0 flood_frame) :: (L <$> replicate 7 (Access 0)) ++ [L (Finish 0 flood_frame XDP_DROP)])
    (System after_frame ∅ ∅).
Proof.
  intros en HP.
  change ([] ++ L (Arrive 0 flood_frame) :: (L <$> replicate 7 (Access 0)) ++ [L (Finish 0 flood_frame XDP_DROP)])
    with (L (J2 := nat * Z) (A2 := bool) <$>
      (Arrive 0 flood_frame :: replicate 7 (Access 0) ++ [Finish 0 flood_frame XDP_DROP])).
  eapply lefts_run; [|by intros]. eapply schedule_run.
  apply (ran_out frame_run); vm_compute; reflexivity.
Qed.

Lemma flood_typed : typed (w_maps flood_world).
Proof.
  split; [by intros a e|exact flood_stats_u64|repeat constructor; done|repeat constructor; done].
Qed.

Lemma system_data_plane_witness :
  let _ := little in
  exists es x, demo_system_run any_step (System flood_world ∅ ∅) es x /\ length es = 18%nat /\
    fw_interleaving (Pool (w_maps flood_world) ∅) (left_label <$> es) (data_plane x).
Proof.
  intros en. eexists _, (System after_frame ∅ ∅).
  assert (demo_system_run any_step (System flood_world ∅ ∅) _ (System after_frame ∅ ∅)) as Hr
    by (eapply sys_run_app; [by apply pass_runs|by apply frame_runs]).
  split; [exact Hr|]. split; [reflexivity|].
  exact (system_data_plane demo_pton demo_ntop stopped_clock Det.builtin flood_world _ _ Hr).
Defined.

(** The frames of [pinned_schedule], on a machine whose limit is 1. *)
Definition limit_world : world (gmap Z Z) (gmap (Z * Z) Z) (gmap Z ip_stats) := with_maps race_st flood_world.
Definition limit_run :=
  let _ := little in schedule frame_exec frame_body pinned_schedule (Pool limit_world ∅).

Lemma firewall_limit_witness :
  let _ := little in
  exists es x, demo_system_run (limit_stays 1) (System limit_world ∅ ∅) es x /\
    passes_of demo_src (left_label <$> es) = [7] /\ length (arrivals demo_src (left_label <$> es)) = 2%nat /\
    Z.of_nat (length (filter (fun y => 0 <= y < 0 + WINDOW_NS) (passes_of demo_src (left_label <$> es)))) <= 2 * 1.
Proof.
  intros en. destruct limit_run as [[ls p]|] eqn:E; [|vm_compute in E; discriminate].
  assert (demo_system_run (limit_stays 1) (System limit_world ∅ ∅) (L <$> ls) (System (shared p) (active p) ∅)) as Hr.
  { eapply lefts_run; [|by intros l w w' Ho; destruct (Ho l)].
    destruct p as [w ts]. eapply schedule_run. exact E. }
  exists (L <$> ls), (System (shared p) (active p) ∅). split; [exact Hr|].
  vm_compute in E. injection E as Els _.
  split; [rewrite <-Els; by vm_compute|]. split; [rewrite <-Els; by vm_compute|].
  apply (firewall_limit demo_pton demo_ntop stopped_clock Det.builtin 1 demo_src 0 0 0 0 limit_world _ _ Hr).
  - by vm_compute.
  - rewrite <-Els. apply (bool_decide_unpack _). by vm_compute.
  - rewrite <-Els. by vm_compute.
  - split; lia.
  - rewrite <-Els. by vm_compute.
Defined.

(** The flooding source is alone in the map. *)
Lemma flood_sided : sided (fun _ => False) demo_src (bpf_keys (fw_ip_stats (w_maps flood_world))).
Proof.
  intros l1 l2 El. change ([demo_src] = l1 ++ demo_src :: l2) in El.
  destruct l1 as [|x [|y l1]]; [|discriminate..].
  destruct l2; [by split|discriminate].
Qed.

