(* ===== verification/Parser.v ===== *)
(** * The zero-copy parsers, [benchmark/include/falcon/parser/*.hpp]

    A header is a view of the buffer: a parser returns the position of the
    next layer and reads header fields in place. [m] is the memory the buffer
    lies in and [data] the position of the layer in it; a load outside [m] is
    a memory error ([None]). Every length is a [size_t], so a difference of
    lengths wraps modulo 2^64. The result of a parser is the pointer it
    returns: [None] is [nullptr]. *)

From S2P Require Import Prelude FwProg FwSpec.

(** size_t arithmetic. *)
Definition size_sub (a b : Z) : Z := u64 (a - b).

Module EtherHdr.
Definition kSize : Z := 14.
Definition ethertype `{Endian} (m : list Z) (hdr : Z) : option Z := load_int 2 m (hdr + 12).
End EtherHdr.

Definition kEthTypeIpv4 : Z := 0x0800.
Definition kEthTypeArp : Z := 0x0806.
Definition kEthTypeIpv6 : Z := 0x86DD.

Definition parse_ethernet (data len : Z) : option Z :=
  if len <? EtherHdr.kSize then None else Some (data + EtherHdr.kSize).

Module Ipv4Hdr.
Definition kSize : Z := 20.
Definition version_ihl (m : list Z) (hdr : Z) : option Z := load8 m hdr.
Definition total_len `{Endian} (m : list Z) (hdr : Z) : option Z := load_int 2 m (hdr + 2).
Definition protocol (m : list Z) (hdr : Z) : option Z := load8 m (hdr + 9).
Definition src `{Endian} (m : list Z) (hdr : Z) : option Z := load_int 4 m (hdr + 12).
Definition dst `{Endian} (m : list Z) (hdr : Z) : option Z := load_int 4 m (hdr + 16).

(** The member functions, of the byte [version_ihl]. *)
Definition version (b : Z) : Z := Z.shiftr b 4.
Definition ihl (b : Z) : Z := Z.land b 0x0F.
Definition header_len (b : Z) : Z := ihl b * 4.
End Ipv4Hdr.

Definition kProtoIcmp : Z := 1.
Definition kProtoTcp : Z := 6.
Definition kProtoUdp : Z := 17.

Definition parse_ipv4 (m : list Z) (data len : Z) : option (option Z) :=
  if len <? Ipv4Hdr.kSize then Some None else
  b ← Ipv4Hdr.version_ihl m data;
  Some (Some (data + Ipv4Hdr.header_len b)).

Module TcpHdr.
Definition kSize : Z := 20.
Definition offset_ns (m : list Z) (hdr : Z) : option Z := load8 m (hdr + 12).
Definition flags (m : list Z) (hdr : Z) : option Z := load8 m (hdr + 13).
Definition data_offset (b : Z) : Z := Z.shiftr b 4.
Definition header_len (b : Z) : Z := data_offset b * 4.
End TcpHdr.

Definition parse_tcp (m : list Z) (data len : Z) : option (option Z) :=
  if len <? TcpHdr.kSize then Some None else
  b ← TcpHdr.offset_ns m data;
  Some (Some (data + TcpHdr.header_len b)).

Module UdpHdr.
Definition kSize : Z := 8.
Definition dst_port `{Endian} (m : list Z) (hdr : Z) : option Z := load_int 2 m (hdr + 2).
Definition len_ `{Endian} (m : list Z) (hdr : Z) : option Z := load_int 2 m (hdr + 4).
Definition payload_len (total : Z) : Z := if kSize <? total then total - kSize else 0.
End UdpHdr.

Definition parse_udp (data len : Z) : option Z :=
  if len <? UdpHdr.kSize then None else Some (data + UdpHdr.kSize).

(** enum class FrameLayer *)
Inductive FrameLayer := kL2Ethernet | kL4Payload.

Section Walk.
Context `{Endian}.
Implicit Types (m pkt : list Z).

(** frame_ts of [bench_main.cpp]: the timestamp in a frame at [data] of [len]
  bytes, 0 when it cannot be located. *)
Definition frame_ts (layer : FrameLayer) m (data len : Z) : option Z :=
  match layer with
  | kL4Payload => load_int 8 m data
  | kL2Ethernet =>
    match parse_ethernet data len with
    | None => Some 0
    | Some p =>
        ethertype ← EtherHdr.ethertype m data;
        if negb (ntohs ethertype =? kEthTypeIpv4) then Some 0 else
        let ip := p in
        r ← parse_ipv4 m p (size_sub len EtherHdr.kSize);
        match r with
        | None => Some 0
        | Some p =>
            protocol ← Ipv4Hdr.protocol m ip;
            if negb (protocol =? kProtoUdp) then Some 0 else
            version_ihl ← Ipv4Hdr.version_ihl m ip;
            match parse_udp p (size_sub (size_sub len EtherHdr.kSize)
                                 (Ipv4Hdr.header_len version_ihl)) with
            | None => Some 0
            | Some p => load_int 8 m p
            end
        end
    end
  end.

(** ** What the walk finds *)

(** An IPv4/UDP frame: the two fields the walk looks at say so. *)
Definition is_udp4 pkt : Prop :=
  34 <= frame_len pkt /\ FwSpec.ethertype pkt = 0x0800 /\ ip_proto pkt = 17.
#[global] Instance is_udp4_dec pkt : Decision (is_udp4 pkt).
Proof. unfold is_udp4. apply _. Defined.

(** The length of the IPv4 header, as the frame gives it. *)
Definition ip_hlen pkt : Z := ip_ihl pkt * 4.

Lemma ip_ihl_range pkt : 0 <= ip_ihl pkt < 16.
Proof using Type.
  unfold ip_ihl. change 15 with (Z.ones 4). rewrite Z.land_ones by lia.
  apply Z.mod_pos_bound. lia.
Qed.

(** The unsigned comparison of parse_udp passes: there is room for a UDP header
  after the IPv4 header, or the IPv4 header is longer than the frame. *)
Definition udp_accepts pkt : Prop :=
  14 + ip_hlen pkt + 8 <= frame_len pkt \/ frame_len pkt < 14 + ip_hlen pkt.
#[global] Instance udp_accepts_dec pkt : Decision (udp_accepts pkt).
Proof. unfold udp_accepts. apply or_dec; apply _. Defined.

Lemma size_sub_small a b : 0 <= b <= a -> a < 2 ^ 64 -> size_sub a b = a - b.
Proof using Type. intros. unfold size_sub, u64. apply wrap_small. unfold uint_ok. lia. Qed.

Lemma parse_udp_accepts pkt p :
  34 <= frame_len pkt < 2 ^ 64 ->
  parse_udp p (size_sub (size_sub (frame_len pkt) 14) (ip_hlen pkt)) =
  if decide (udp_accepts pkt) then Some (p + 8) else None.
Proof using Type.
  intros Hl. pose proof (ip_ihl_range pkt) as Hi. unfold parse_udp.
  rewrite (size_sub_small (frame_len pkt)) by lia.
  assert (size_sub (frame_len pkt - 14) (ip_hlen pkt) =
    if decide (frame_len pkt < 14 + ip_hlen pkt) then frame_len pkt - 14 - ip_hlen pkt + 2 ^ 64
    else frame_len pkt - 14 - ip_hlen pkt) as ->.
  { unfold size_sub, u64, wrap, ip_hlen in *. case_decide.
    - rewrite <-(Z_mod_plus_full _ 1), Z.mod_small; lia.
    - rewrite Z.mod_small; lia. }
  unfold UdpHdr.kSize, udp_accepts, ip_hlen in *.
  repeat case_decide; case_bool; try done; lia.
Qed.

(** The reads and calls of a walk over an IPv4/UDP frame, up to parse_udp. *)
Lemma udp4_walk pkt :
  bytes_ok pkt -> frame_len pkt < 2 ^ 64 -> is_udp4 pkt ->
  parse_ethernet 0 (frame_len pkt) = Some 14 /\
  (exists ty, EtherHdr.ethertype pkt 0 = Some ty /\ (ntohs ty =? kEthTypeIpv4) = true) /\
  parse_ipv4 pkt 14 (size_sub (frame_len pkt) EtherHdr.kSize) = Some (Some (14 + ip_hlen pkt)) /\
  Ipv4Hdr.protocol pkt 14 = Some kProtoUdp /\
  (exists b, Ipv4Hdr.version_ihl pkt 14 = Some b /\ Ipv4Hdr.header_len b = ip_hlen pkt).
Proof using Type.
  intros Hok Hl (H34 & He & Hp). unfold frame_len in *. split_and!.
  - unfold parse_ethernet, EtherHdr.kSize. by rewrite (proj2 (Z.ltb_ge _ _)) by lia.
  - eexists. split; [apply load_int_Some; simpl; lia|].
    unfold ntohs. rewrite ntoh_host_int by (auto using sub_ok; apply length_sub; simpl; lia).
    by apply Z.eqb_eq.
  - unfold parse_ipv4, Ipv4Hdr.kSize, EtherHdr.kSize, Ipv4Hdr.version_ihl.
    rewrite size_sub_small, (proj2 (Z.ltb_ge _ _)) by lia. by rewrite load8_Some by lia.
  - unfold Ipv4Hdr.protocol. rewrite load8_Some by lia. unfold kProtoUdp. by rewrite <-Hp.
  - eexists. split; [apply load8_Some; lia|done].
Qed.

(** The timestamp of any frame, in the memory that holds just the frame. *)
Lemma frame_ts_spec pkt :
  bytes_ok pkt -> frame_len pkt < 2 ^ 64 ->
  frame_ts kL2Ethernet pkt 0 (frame_len pkt) =
  if decide (is_udp4 pkt /\ udp_accepts pkt)
  then load_int 8 pkt (14 + ip_hlen pkt + 8) else Some 0.
Proof using Type.
  intros Hok Hl. unfold frame_ts, parse_ethernet, EtherHdr.kSize.
  unfold frame_len in *.
  case_bool; [by rewrite decide_False by (unfold is_udp4, frame_len; lia)|].
  unfold EtherHdr.ethertype. rewrite load_int_Some by (simpl; lia). cbn [mbind option_bind].
  change (0 + 12) with 12.
  unfold ntohs. rewrite ntoh_host_int by (auto using sub_ok; apply length_sub; simpl; lia).
  fold (FwSpec.ethertype pkt). unfold kEthTypeIpv4.
  destruct (Z.eqb_spec (FwSpec.ethertype pkt) 0x0800) as [He|He]; cbn [negb];
    [|by rewrite decide_False by (unfold is_udp4; tauto)].
  unfold parse_ipv4. rewrite size_sub_small by lia. unfold Ipv4Hdr.kSize.
  case_bool; [by rewrite decide_False by (unfold is_udp4, frame_len; lia)|].
  unfold Ipv4Hdr.version_ihl, Ipv4Hdr.protocol.
  rewrite !load8_Some by (simpl; lia). cbn [mbind option_bind].
  change (0 + 14) with 14. change (14 + 9) with 23. fold (ip_proto pkt).
  unfold kProtoUdp. destruct (Z.eqb_spec (ip_proto pkt) 17) as [Hp|Hp]; cbn [negb];
    [|by rewrite decide_False by (unfold is_udp4; tauto)].
  assert (is_udp4 pkt) as Hu by (unfold is_udp4, frame_len; lia).
  change (Ipv4Hdr.header_len (le_int (sub pkt 14 1))) with (ip_hlen pkt).
  rewrite <-(size_sub_small _ 14) by lia. fold (frame_len pkt).
  rewrite parse_udp_accepts by (unfold frame_len in *; lia).
  destruct (decide (udp_accepts pkt)).
  - by rewrite decide_True by done.
  - by rewrite decide_False by tauto.
Qed.

(** The walk to the timestamp is right on every well-formed frame. When the
  IPv4 header fits in the frame, [frame_ts] reads the eight bytes that
  follow the Ethernet, IPv4 (options included) and UDP headers if the frame
  is IPv4/UDP with a complete UDP header, and gives 0 for any other frame;
  it reads outside the frame only when the UDP payload is shorter than the
  eight bytes of a timestamp. *)
Theorem frame_ts_walk pkt :
  bytes_ok pkt -> frame_len pkt < 2 ^ 64 ->
  (is_udp4 pkt -> 14 + ip_hlen pkt <= frame_len pkt) ->
  let p := 14 + ip_hlen pkt + 8 in
  frame_ts kL2Ethernet pkt 0 (frame_len pkt) =
  if decide (is_udp4 pkt /\ p <= frame_len pkt) then
    if decide (p + 8 <= frame_len pkt) then Some (host_int (sub pkt p 8)) else None
  else Some 0.
Proof using Type.
  intros Hok Hl Hfit p. rewrite frame_ts_spec by done.
  pose proof (ip_ihl_range pkt) as Hi.
  rewrite (decide_ext (is_udp4 pkt /\ udp_accepts pkt) (is_udp4 pkt /\ p <= frame_len pkt)).
  2:{ unfold udp_accepts. subst p. split; intros [Hu ?]; (split; [done|]); specialize (Hfit Hu); lia. }
  case_decide as Hd; [|done]. unfold frame_len, ip_hlen in *. case_decide.
  - apply load_int_Some; simpl; lia.
  - unfold load_int. rewrite load_bytes_None by (simpl; lia). done.
Qed.

(** A truncated IPv4 header is accepted. [parse_ipv4] promises [nullptr]
  for a truncated header but checks for 20 bytes only, and the subtraction
  that gives the rest of the frame wraps: when the header length field
  reaches past the end of an IPv4/UDP frame, the UDP header is taken to be
  there and [frame_ts] reads outside the frame. *)
Theorem ipv4_truncated_overread pkt :
  bytes_ok pkt -> frame_len pkt < 2 ^ 64 -> is_udp4 pkt -> frame_len pkt < 14 + ip_hlen pkt ->
  parse_ipv4 pkt 14 (frame_len pkt - 14) = Some (Some (14 + ip_hlen pkt)) /\
  frame_ts kL2Ethernet pkt 0 (frame_len pkt) = None.
Proof using Type.
  intros Hok Hl Hu Hs. pose proof Hu as (H34 & _ & _). split.
  - unfold parse_ipv4, Ipv4Hdr.version_ihl, Ipv4Hdr.kSize.
    rewrite (proj2 (Z.ltb_ge _ _)) by lia.
    by rewrite load8_Some by (unfold frame_len in *; lia).
  - rewrite frame_ts_spec by done. rewrite decide_True by (unfold udp_accepts; tauto).
    unfold load_int. rewrite load_bytes_None; [done|]. unfold frame_len in *. simpl. lia.
Qed.
End Walk.

(** *** Witnesses *)

(** A 60-byte frame whose IPv4 header claims 60 bytes. *)
Definition truncated_frame : list Z := <[14%nat := 0x4F]> udp_frame.

Lemma frame_ts_walk_witness :
  let _ := little in
  frame_ts kL2Ethernet udp_frame 0 60 = Some (host_int (sub udp_frame 42 8)).
Proof.
  intros en. change 60 with (frame_len udp_frame). etrans.
  - apply frame_ts_walk.
    + exact udp_frame_ok.
    + vm_compute. reflexivity.
    + intros _. vm_compute. discriminate.
  - vm_compute. reflexivity.
Defined.

Lemma ipv4_truncated_overread_witness :
  let _ := little in
  parse_ipv4 truncated_frame 14 46 = Some (Some 74) /\
  frame_ts kL2Ethernet truncated_frame 0 60 = None.
Proof.
  intros en. apply (ipv4_truncated_overread truncated_frame).
  - by apply (bool_decide_unpack _).
  - vm_compute. reflexivity.
  - repeat split; vm_compute; discriminate || reflexivity.
  - vm_compute. reflexivity.
Defined.
