(* ===== verification/BenchFrame.v ===== *)
(** * The frames the benchmark sends, [benchmark/bench/bench_main.cpp]

    [ip_checksum] and [build_frame], with each write to the buffer as the code
    makes it, against the bytes a correct IPv4/UDP frame has. [buf] is the
    caller's buffer; a write outside it is a memory error ([None]). *)

From S2P Require Import Prelude FwProg FwSpec Parser.

(** memset(m + off, c, n) *)
Definition memset (m : list Z) (off c n : Z) : option (list Z) :=
  if (0 <=? off) && (0 <=? n) && (off + n <=? Z.of_nat (length m))
  then store_bytes m off (replicate (Z.to_nat n) c) else None.

(** ** The checksum *)

(** The first loop of ip_checksum, [n] words of it. *)
Fixpoint sum_words (m : list Z) (hdr : Z) (n : nat) (sum : Z) : option Z :=
  match n with
  | O => Some sum
  | S n =>
      a ← load8 m hdr;
      b ← load8 m (hdr + 1);
      sum_words m (hdr + 2) n (u32 (sum + Z.lor (Z.shiftl a 8) b))
  end.

(** The second loop; [None] when the fuel runs out. *)
Fixpoint fold_sum (fuel : nat) (sum : Z) : option Z :=
  match fuel with
  | O => None
  | S fuel =>
      if Z.shiftr sum 16 =? 0 then Some sum
      else fold_sum fuel (u32 (Z.land sum 0xFFFF + Z.shiftr sum 16))
  end.

Definition ip_checksum (m : list Z) (hdr len : Z) : option Z :=
  sum ← sum_words m hdr (Z.to_nat (len / 2)) 0;
  sum ← fold_sum 3 sum;
  Some (u16 (Z.lnot sum)).

Section Build.
Context `{Endian}.

Definition build_frame (buf : list Z) (payload_size ts port src_ip dst_ip : Z) :
  option (list Z * Z) :=
  let dst_mac := [0xff; 0xff; 0xff; 0xff; 0xff; 0xff] in
  let src_mac := [0x02; 0x00; 0x00; 0x00; 0x00; 0x02] in
  buf ← store_bytes buf 0 dst_mac;
  buf ← store_bytes buf 6 src_mac;
  buf ← store_bytes buf 12 [0x08; 0x00];
  let total := u16 (20 + 8 + payload_size) in
  let ip := 14 in
  buf ← store_bytes buf ip [0x45; 0; Z.shiftr total 8; Z.land total 0xFF; 0; 0; 0x40; 0; 64;
                          kProtoUdp; 0; 0];
  buf ← store_bytes buf (ip + 12) (host_bytes 4 src_ip);
  buf ← store_bytes buf (ip + 16) (host_bytes 4 dst_ip);
  csum ← ip_checksum buf ip 20;
  buf ← store_bytes buf (ip + 10) [Z.shiftr csum 8; Z.land csum 0xFF];
  let udp := ip + 20 in
  let sport := 50000 in
  let ulen := u16 (8 + payload_size) in
  buf ← store_bytes buf udp [Z.shiftr sport 8; Z.land sport 0xFF; Z.shiftr port 8;
                           Z.land port 0xFF; Z.shiftr ulen 8; Z.land ulen 0xFF; 0; 0];
  let off := udp + 8 in
  buf ← store_bytes buf off (host_bytes 8 ts);
  buf ← memset buf (off + 8) 0 (size_sub payload_size 8);
  Some (buf, off + payload_size).
End Build.

(** ** The one's-complement sum *)

(** The sum of the 16-bit words of a byte string (network byte order). *)
Fixpoint words_sum (bs : list Z) : Z :=
  match bs with
  | a :: b :: bs => 256 * a + b + words_sum bs
  | _ => 0
  end.

Lemma lor_shiftl8 a b : byte_ok b -> Z.lor (Z.shiftl a 8) b = 256 * a + b.
Proof.
  intros Hb. unfold byte_ok, uint_ok in Hb. rewrite Z.shiftl_mul_pow2 by lia.
  rewrite <-Z.add_nocarry_lor; [lia|].
  apply Z.bits_inj'. intros n Hn. rewrite Z.land_spec, Z.bits_0.
  destruct (Z.ltb_spec n 8).
  - by rewrite Z.mul_pow2_bits_low.
  - rewrite <-(Z.mod_small b (2 ^ 8)) by lia. rewrite Z.mod_pow2_bits_high by lia. apply andb_false_r.
Qed.

Lemma words_sum_bound bs :
  bytes_ok bs -> 0 <= words_sum bs <= 32768 * Z.of_nat (length bs).
Proof.
  revert bs. fix IH 1. intros [|a [|b bs]] Hok; cbn [words_sum length]; [lia|lia|].
  apply Forall_cons in Hok as [Ha Hok]. apply Forall_cons in Hok as [Hb Hok].
  specialize (IH bs Hok). unfold byte_ok, uint_ok in *. lia.
Qed.

(** Two rounds fold any 32-bit sum into 16 bits, without changing it modulo
    65535 and without making a positive sum zero. *)
Lemma fold_sum_ok sum :
  uint_ok 32 sum ->
  exists r, fold_sum 3 sum = Some r /\ uint_ok 16 r /\ r mod 65535 = sum mod 65535 /\
    (0 < sum -> 0 < r).
Proof.
  intros Hs.
  assert (forall s, uint_ok 32 s ->
    u32 (Z.land s 0xFFFF + Z.shiftr s 16) = s mod 65536 + s / 65536 /\
    (s mod 65536 + s / 65536) mod 65535 = s mod 65535) as Hstep.
  { intros s Hs'. unfold uint_ok in Hs'. change 0xFFFF with (Z.ones 16).
    rewrite Z.land_ones, Z.shiftr_div_pow2 by lia. change (2 ^ 16) with 65536.
    split; [word|]. rewrite (Z.div_mod s 65536) at 3 by lia.
    replace (65536 * (s / 65536) + s mod 65536) with
      (s mod 65536 + s / 65536 + (s / 65536) * 65535) by lia.
    by rewrite Z_mod_plus_full. }
  assert (forall s, uint_ok 32 s -> Z.shiftr s 16 = 0 <-> s < 65536) as Hz.
  { intros s Hs'. unfold uint_ok in Hs'. rewrite Z.shiftr_div_pow2 by lia.
    change (2 ^ 16) with 65536. Z.div_mod_to_equations. lia. }
  unfold fold_sum.
  destruct (Z.eqb_spec (Z.shiftr sum 16) 0) as [H0|H0].
  { apply Hz in H0; [|done]. exists sum. unfold uint_ok in *. split_and!; [done|lia|lia|done|done]. }
  destruct (Hstep sum Hs) as [-> E1]. set (s1 := sum mod 65536 + sum / 65536) in *.
  assert (0 < s1 <= 131070) as B1.
  { rewrite Hz in H0 by done. subst s1. unfold uint_ok in Hs. pow2_consts. Z.div_mod_to_equations. lia. }
  assert (uint_ok 32 s1) as U1 by (unfold uint_ok; lia).
  destruct (Z.eqb_spec (Z.shiftr s1 16) 0) as [H1|H1].
  { apply Hz in H1; [|done]. exists s1. unfold uint_ok in *. split_and!; [done|lia|lia|done|lia]. }
  destruct (Hstep s1 U1) as [-> E2]. set (s2 := s1 mod 65536 + s1 / 65536) in *.
  assert (0 < s2 < 65536) as B2.
  { rewrite Hz in H1 by done. subst s2. Z.div_mod_to_equations. lia. }
  rewrite (proj2 (Z.eqb_eq _ _)) by (apply Hz; unfold uint_ok; lia).
  exists s2. unfold uint_ok. split_and!; [done|lia|lia|congruence|lia].
Qed.

Lemma sub_cons m off n :
  0 <= off < Z.of_nat (length m) ->
  exists b, m !! Z.to_nat off = Some b /\ load8 m off = Some b /\
    sub m off (S n) = b :: sub m (off + 1) n.
Proof.
  intros Ho. destruct (lookup_lt_is_Some_2 m (Z.to_nat off)) as [b Hb]; [lia|].
  exists b. split; [done|]. rewrite load8_Some by lia. unfold sub.
  replace (Z.to_nat (off + 1)) with (S (Z.to_nat off)) by lia.
  rewrite (drop_S m b) by done. split; [|done]. apply f_equal. simpl. lia.
Qed.

(** The first loop adds the words up, while the sum fits 32 bits. *)
Lemma sum_words_ok n (m : list Z) hdr sum :
  bytes_ok m -> 0 <= hdr -> 0 <= sum -> hdr + 2 * Z.of_nat n <= Z.of_nat (length m) ->
  sum + 65536 * Z.of_nat n < 2 ^ 32 ->
  sum_words m hdr n sum = Some (sum + words_sum (sub m hdr (2 * n))).
Proof.
  intros Hok. revert hdr sum. induction n as [|n IH]; intros hdr sum Hh Hs Hl Hb; cbn [sum_words].
  { unfold sub. rewrite Nat.mul_0_r, take_0. cbn. f_equal. lia. }
  replace (2 * S n)%nat with (S (S (2 * n))) by lia.
  destruct (sub_cons m hdr (S (2 * n))) as (a & Ha & -> & ->); [lia|].
  destruct (sub_cons m (hdr + 1) (2 * n)) as (b & Hb' & -> & ->); [lia|].
  cbn [mbind option_bind words_sum].
  assert (byte_ok a /\ byte_ok b) as [Ba Bb].
  { split; eapply Forall_lookup_1; eauto. }
  rewrite lor_shiftl8 by done. unfold byte_ok, uint_ok in Ba, Bb.
  unfold u32. rewrite wrap_small by (unfold uint_ok; lia).
  rewrite IH by lia. replace (hdr + 1 + 1) with (hdr + 2) by lia. f_equal. lia.
Qed.

(** ip_checksum of an even number of bytes: the complement of the folded sum. *)
Lemma ip_checksum_ok m hdr n :
  bytes_ok m -> 0 <= hdr -> hdr + 2 * Z.of_nat n <= Z.of_nat (length m) -> Z.of_nat n <= 60000 ->
  exists r, ip_checksum m hdr (2 * Z.of_nat n) = Some (65535 - r) /\ uint_ok 16 r /\
    r mod 65535 = words_sum (sub m hdr (2 * n)) mod 65535 /\
    (0 < words_sum (sub m hdr (2 * n)) -> 0 < r).
Proof.
  intros Hok Hh Hl Hn. unfold ip_checksum.
  replace (Z.to_nat (2 * Z.of_nat n / 2)) with n by (rewrite Z.mul_comm, Z.div_mul by lia; lia).
  rewrite sum_words_ok by (done || lia). cbn [mbind option_bind]. rewrite Z.add_0_l.
  pose proof (words_sum_bound (sub m hdr (2 * n)) (sub_ok _ _ _ Hok)) as Hb.
  rewrite length_sub in Hb by lia.
  destruct (fold_sum_ok (words_sum (sub m hdr (2 * n)))) as (r & -> & Hr & Hm & Hp);
    [unfold uint_ok; lia|].
  exists r. split; [|done]. cbn [mbind option_bind]. f_equal. unfold Z.lnot, uint_ok in *. word.
Qed.

(** ** The bytes of a frame *)

Lemma store_next pre rest bs :
  (length bs <= length rest)%nat ->
  store_bytes (pre ++ rest) (Z.of_nat (length pre)) bs =
    Some ((pre ++ bs) ++ drop (length bs) rest).
Proof.
  intros Hl. unfold store_bytes. rewrite length_app.
  rewrite !(proj2 (Z.leb_le _ _)) by lia. cbn [andb]. rewrite Nat2Z.id, take_app_length.
  by rewrite drop_app_add, <-app_assoc.
Qed.

Lemma store_mid pre old rest bs :
  length old = length bs ->
  store_bytes (pre ++ old ++ rest) (Z.of_nat (length pre)) bs = Some (pre ++ bs ++ rest).
Proof.
  intros Hl. rewrite store_next by (rewrite length_app; lia).
  by rewrite <-Hl, drop_app_length, <-app_assoc.
Qed.

Lemma store_bytes_None m off bs :
  Z.of_nat (length m) < off + Z.of_nat (length bs) -> store_bytes m off bs = None.
Proof. intros Hl. unfold store_bytes. by rewrite (proj2 (Z.leb_gt _ _) Hl), andb_false_r. Qed.

Lemma store_bytes_length m off bs m' : store_bytes m off bs = Some m' -> length m' = length m.
Proof.
  unfold store_bytes. case_match eqn:E; [|done]. intros [= <-]. bool_hyps.
  rewrite !length_app, length_take, length_drop. lia.
Qed.

Section Bytes.
Context `{Endian}.
Implicit Types (payload_size ts port src_ip dst_ip csum : Z).

Definition byte_hi (z : Z) : Z := Z.shiftr z 8.
Definition byte_lo (z : Z) : Z := Z.land z 0xFF.

Definition eth_bytes : list Z :=
  [0xff; 0xff; 0xff; 0xff; 0xff; 0xff; 0x02; 0; 0; 0; 0; 0x02; 0x08; 0x00].

(** The IPv4 header, up to its checksum. *)
Definition ip_start total : list Z :=
  [0x45; 0; byte_hi total; byte_lo total; 0; 0; 0x40; 0; 64; 17].

Definition ip_bytes total csum src_ip dst_ip : list Z :=
  ip_start total ++ [byte_hi csum; byte_lo csum] ++ host_bytes 4 src_ip ++ host_bytes 4 dst_ip.

Definition udp_bytes port ulen : list Z :=
  [byte_hi 50000; byte_lo 50000; byte_hi port; byte_lo port; byte_hi ulen; byte_lo ulen; 0; 0].

Definition frame_bytes payload_size ts port src_ip dst_ip csum : list Z :=
  eth_bytes ++ ip_bytes (28 + payload_size) csum src_ip dst_ip ++
  udp_bytes port (8 + payload_size) ++ host_bytes 8 ts ++
  replicate (Z.to_nat (payload_size - 8)) 0.

(** The header checksum that belongs in a frame. *)
Definition frame_csum payload_size src_ip dst_ip : Z :=
  default 0 (ip_checksum (ip_bytes (28 + payload_size) 0 src_ip dst_ip) 0 20).

Lemma byte_hi_ok z : uint_ok 16 z -> byte_ok (byte_hi z).
Proof using Type.
  unfold byte_ok, uint_ok, byte_hi. intros Hz. rewrite Z.shiftr_div_pow2 by lia.
  pow2_consts. Z.div_mod_to_equations. lia.
Qed.

Lemma byte_lo_ok z : byte_ok (byte_lo z).
Proof using Type.
  unfold byte_ok, uint_ok, byte_lo. change 0xFF with (Z.ones 8). rewrite Z.land_ones by lia.
  apply Z.mod_pos_bound. lia.
Qed.

Lemma byte_hi_lo z : 256 * byte_hi z + byte_lo z = z.
Proof using Type.
  unfold byte_hi, byte_lo. change 0xFF with (Z.ones 8).
  rewrite Z.shiftr_div_pow2, Z.land_ones by lia. change (2 ^ 8) with 256.
  pose proof (Z.div_mod z 256). lia.
Qed.

Lemma length_ip_bytes total csum src_ip dst_ip : length (ip_bytes total csum src_ip dst_ip) = 20%nat.
Proof using Type. unfold ip_bytes. rewrite !length_app, !length_host_bytes. done. Qed.

Lemma ip_bytes_ok total csum src_ip dst_ip :
  uint_ok 16 total -> uint_ok 16 csum -> bytes_ok (ip_bytes total csum src_ip dst_ip).
Proof using Type.
  intros Ht Hc. unfold ip_bytes, ip_start, bytes_ok.
  repeat first [apply Forall_app; split | apply host_bytes_ok | apply Forall_cons; split
    | apply Forall_nil; exact I];
    first [by apply byte_hi_ok | apply byte_lo_ok | vm_compute; split; discriminate || reflexivity | done].
Qed.

Lemma ip_checksum_sub m hdr :
  bytes_ok m -> 0 <= hdr -> hdr + 20 <= Z.of_nat (length m) ->
  ip_checksum m hdr 20 = ip_checksum (sub m hdr 20) 0 20.
Proof using Type.
  intros Hok Hh Hl. unfold ip_checksum. change (Z.to_nat (20 / 2)) with 10%nat.
  rewrite !sum_words_ok; try lia; try done; auto using sub_ok.
  - by replace (sub (sub m hdr 20) 0 (2 * 10)) with (sub m hdr (2 * 10))
      by (unfold sub; by rewrite drop_0, take_take).
  - rewrite length_sub by lia. lia.
Qed.

(** One write of the builder, at the end of what was written before. *)
Lemma store_at off pre rest bs :
  off = Z.of_nat (length pre) -> (length bs <= length rest)%nat ->
  store_bytes (pre ++ rest) off bs = Some ((pre ++ bs) ++ drop (length bs) rest).
Proof using Type. intros ->. apply store_next. Qed.

Ltac store_step :=
  rewrite store_at by (rewrite ?length_app, ?length_drop, ?length_host_bytes; simpl; lia);
  cbn [mbind option_bind]; rewrite ?drop_drop, ?length_host_bytes.

(** The headers as they stand when the checksum is computed. *)
Lemma frame_csum_ok payload_size src_ip dst_ip :
  8 <= payload_size <= 65507 ->
  exists r, ip_checksum (ip_bytes (28 + payload_size) 0 src_ip dst_ip) 0 20 = Some (65535 - r) /\
  frame_csum payload_size src_ip dst_ip = 65535 - r /\ uint_ok 16 r /\
  r mod 65535 = words_sum (ip_bytes (28 + payload_size) 0 src_ip dst_ip) mod 65535.
Proof using Type.
  intros Hp. set (bs := ip_bytes (28 + payload_size) 0 src_ip dst_ip).
  assert (bytes_ok bs) as Hok by (apply ip_bytes_ok; unfold uint_ok; lia).
  assert (length bs = 20%nat) as Hl by apply length_ip_bytes.
  destruct (ip_checksum_ok bs 0 10 Hok) as (r & E & Hr & Hm & _); [lia|lia|lia|].
  exists r. change (2 * Z.of_nat 10) with 20 in E. split; [done|].
  split; [unfold frame_csum; fold bs; by rewrite E|]. split; [done|]. rewrite Hm. f_equal. f_equal.
  unfold sub. rewrite drop_0. apply take_ge. lia.
Qed.

Lemma build_frame_eq buf payload_size ts port src_ip dst_ip :
  bytes_ok buf -> Z.of_nat (length buf) = 42 + payload_size -> 8 <= payload_size <= 65507 ->
  build_frame buf payload_size ts port src_ip dst_ip =
  Some (frame_bytes payload_size ts port src_ip dst_ip (frame_csum payload_size src_ip dst_ip),
        42 + payload_size).
Proof using Type.
  intros Hok Hl Hp. unfold build_frame. cbv zeta.
  assert (u16 (20 + 8 + payload_size) = 28 + payload_size) as -> by word.
  assert (u16 (8 + payload_size) = 8 + payload_size) as -> by word.
  rewrite <-(app_nil_l buf). do 6 store_step.
  match goal with |- (ip_checksum ?m _ _ ≫= _) = _ => assert (m = eth_bytes ++
    ip_bytes (28 + payload_size) 0 src_ip dst_ip ++ drop 34 buf) as -> by
    (unfold ip_bytes; by rewrite <-!app_assoc) end.
  destruct (frame_csum_ok payload_size src_ip dst_ip Hp) as (r & E & -> & _ & _).
  rewrite ip_checksum_sub.
  2:{ apply Forall_app; split; [by apply (bool_decide_unpack _)|]. apply Forall_app; split;
    [apply ip_bytes_ok; unfold uint_ok; lia|by apply Forall_drop]. }
  2:{ lia. }
  2:{ rewrite !length_app, length_ip_bytes. simpl. lia. }
  assert (sub (eth_bytes ++ ip_bytes (28 + payload_size) 0 src_ip dst_ip ++ drop 34 buf) 14 20
    = ip_bytes (28 + payload_size) 0 src_ip dst_ip) as ->.
  { unfold sub. change (Z.to_nat 14) with (length eth_bytes). rewrite drop_app_length.
    rewrite <-(length_ip_bytes (28 + payload_size) 0 src_ip dst_ip). apply take_app_length. }
  rewrite E. cbn [mbind option_bind]. set (csum := 65535 - r).
  assert (eth_bytes ++ ip_bytes (28 + payload_size) 0 src_ip dst_ip ++ drop 34 buf =
    (eth_bytes ++ ip_start (28 + payload_size)) ++ [0; 0] ++
      (host_bytes 4 src_ip ++ host_bytes 4 dst_ip ++ drop 34 buf)) as ->
    by (unfold ip_bytes; by rewrite <-!app_assoc).
  change (14 + 10) with (Z.of_nat (length (eth_bytes ++ ip_start (28 + payload_size)))).
  rewrite store_mid by done. cbn [mbind option_bind].
  match goal with |- (store_bytes ?m _ _ ≫= _) = _ => assert (m = (eth_bytes ++
    ip_bytes (28 + payload_size) csum src_ip dst_ip) ++ drop 34 buf) as -> by
    (unfold ip_bytes; by rewrite <-!app_assoc) end.
  assert (length (ip_bytes (28 + payload_size) csum src_ip dst_ip) = 20%nat) as Hip
    by apply length_ip_bytes.
  rewrite store_at by (rewrite ?length_app, ?length_drop, ?Hip; simpl; lia). cbn [mbind option_bind].
  rewrite store_at by (rewrite ?length_app, ?length_drop, ?length_host_bytes, ?Hip; simpl; lia).
  cbn [mbind option_bind]. rewrite !drop_drop, length_host_bytes.
  unfold memset. rewrite size_sub_small by lia.
  rewrite !(proj2 (Z.leb_le _ _)).
  2:{ rewrite !length_app, length_drop, length_host_bytes, Hip. simpl. lia. }
  2:{ lia. }
  2:{ lia. }
  cbn [andb].
  rewrite store_at by
    (rewrite ?length_app, ?length_drop, ?length_host_bytes, ?length_replicate, ?Hip; simpl; lia).
  cbn [mbind option_bind]. apply f_equal, f_equal2; [|lia].
  rewrite drop_ge by (rewrite length_drop, length_replicate; simpl; lia).
  unfold frame_bytes. by rewrite app_nil_r, <-!app_assoc.
Qed.
(** ** The fields of a built frame *)

Ltac on_bytes :=
  unfold frame_bytes, ip_bytes, host_bytes; destruct big_endian; reflexivity.

Lemma frame_bytes_fields payload_size ts port src_ip dst_ip csum :
  let frame := frame_bytes payload_size ts port src_ip dst_ip csum in
  sub frame 12 2 = [8; 0] /\ sub frame 14 1 = [0x45] /\
  sub frame 16 2 = [byte_hi (28 + payload_size); byte_lo (28 + payload_size)] /\
  sub frame 23 1 = [17] /\ sub frame 14 20 = ip_bytes (28 + payload_size) csum src_ip dst_ip /\
  sub frame 26 4 = host_bytes 4 src_ip /\
  sub frame 36 2 = [byte_hi port; byte_lo port] /\
  sub frame 38 2 = [byte_hi (8 + payload_size); byte_lo (8 + payload_size)] /\
  sub frame 42 8 = host_bytes 8 ts.
Proof using Type. intros frame. subst frame. repeat split; try reflexivity; on_bytes. Qed.

Lemma length_frame_bytes payload_size ts port src_ip dst_ip csum :
  8 <= payload_size ->
  frame_len (frame_bytes payload_size ts port src_ip dst_ip csum) = 42 + payload_size.
Proof using Type.
  intros Hp. unfold frame_len, frame_bytes.
  rewrite !length_app, length_ip_bytes, length_host_bytes, length_replicate. simpl. lia.
Qed.

Lemma frame_bytes_ok payload_size ts port src_ip dst_ip csum :
  8 <= payload_size <= 65507 -> uint_ok 16 port -> uint_ok 16 csum ->
  bytes_ok (frame_bytes payload_size ts port src_ip dst_ip csum).
Proof using Type.
  intros Hp Hport Hc. unfold frame_bytes, udp_bytes, bytes_ok.
  assert (uint_ok 16 (8 + payload_size)) by (unfold uint_ok; lia).
  assert (uint_ok 16 (28 + payload_size)) by (unfold uint_ok; lia).
  repeat first [apply Forall_app; split | apply host_bytes_ok | apply Forall_cons; split
    | apply Forall_nil; exact I | apply Forall_replicate];
    first [by apply byte_hi_ok | apply byte_lo_ok | by apply (bool_decide_unpack _)
    | apply ip_bytes_ok; unfold uint_ok in *; lia ].
Qed.

Lemma be_int_hi_lo z : be_int [byte_hi z; byte_lo z] = z.
Proof using Type. pose proof (byte_hi_lo z). unfold be_int. cbn. lia. Qed.

(** The checksum makes the header sum to zero. *)
Lemma header_csum_zero payload_size src_ip dst_ip :
  8 <= payload_size <= 65507 ->
  ip_checksum (ip_bytes (28 + payload_size) (frame_csum payload_size src_ip dst_ip) src_ip dst_ip)
  0 20 = Some 0.
Proof using Type.
  intros Hp. destruct (frame_csum_ok payload_size src_ip dst_ip Hp) as (r & _ & -> & Hr & Hm).
  set (csum := 65535 - r). unfold uint_ok in Hr.
  set (bs := ip_bytes (28 + payload_size) csum src_ip dst_ip).
  assert (words_sum bs = words_sum (ip_bytes (28 + payload_size) 0 src_ip dst_ip) + csum) as Hw.
  { pose proof (byte_hi_lo csum) as Hc. subst bs. unfold ip_bytes, ip_start.
    change (byte_hi 0) with 0. change (byte_lo 0) with 0. cbn [app words_sum]. lia. }
  assert (0 < words_sum bs) as Hpos.
  { pose proof (words_sum_bound (ip_bytes (28 + payload_size) 0 src_ip dst_ip)) as Hb.
    assert (17664 <= words_sum (ip_bytes (28 + payload_size) 0 src_ip dst_ip)); [|lia].
    unfold ip_bytes, ip_start. cbn [app words_sum].
    match goal with |- context [words_sum ?l] =>
      assert (0 <= words_sum l) by (apply words_sum_bound, Forall_app; split; apply host_bytes_ok) end.
    pose proof (byte_hi_ok (28 + payload_size) ltac:(unfold uint_ok; lia)).
    pose proof (byte_lo_ok (28 + payload_size)).
    unfold byte_ok, uint_ok in *. change (byte_hi 0) with 0. change (byte_lo 0) with 0. lia. }
  assert (bytes_ok bs) as Hok by (apply ip_bytes_ok; unfold uint_ok; lia).
  assert (length bs = 20%nat) as Hl by apply length_ip_bytes.
  destruct (ip_checksum_ok bs 0 10 Hok) as (r' & E & Hr' & Hm' & Hp'); [lia|lia|lia|].
  assert (sub bs 0 (2 * 10) = bs) as Hs by (unfold sub; rewrite drop_0; apply take_ge; lia).
  rewrite Hs in Hm', Hp'. change (2 * Z.of_nat 10) with 20 in E. rewrite E. f_equal.
  specialize (Hp' Hpos). unfold uint_ok in Hr'. rewrite Hw in Hm'.
  subst csum. pow2_consts. Z.div_mod_to_equations. lia.
Qed.

(** C29. The frames that the benchmark crafts are well-formed IPv4/UDP. For every
  payload size the command line accepts, [build_frame] writes the whole
  buffer and nothing outside it: the length, protocol, address and port
  fields are those asked for, the UDP and IPv4 lengths agree with the frame,
  the header has no options, and its checksum verifies (the receiver's
  one's-complement sum over the header is zero); and the firewall's data
  plane counts it as UDP traffic of the source address. *)
Theorem build_frame_wellformed buf payload_size ts port src_ip dst_ip :
  bytes_ok buf -> Z.of_nat (length buf) = 42 + payload_size -> 8 <= payload_size <= 1400 ->
  uint_ok 16 port -> uint_ok 32 src_ip ->
  exists frame, build_frame buf payload_size ts port src_ip dst_ip = Some (frame, 42 + payload_size) /\
  frame_len frame = 42 + payload_size /\ bytes_ok frame /\
  FwSpec.ethertype frame = 0x0800 /\ ip_ihl frame = 5 /\ ip_proto frame = 17 /\
  be_int (sub frame 16 2) = 28 + payload_size /\ ip_checksum frame 14 20 = Some 0 /\
  src_of frame = src_ip /\ be_int (sub frame 36 2) = port /\
  be_int (sub frame 38 2) = 8 + payload_size /\ kind_of frame = L4 false true false.
Proof using Type.
  intros Hok Hl Hp Hport Hsrc. eexists. split; [apply build_frame_eq; [done..|lia]|].
  set (csum := frame_csum _ _ _). set (frame := frame_bytes _ _ _ _ _ _).
  assert (uint_ok 16 csum) as Hc.
  { destruct (frame_csum_ok payload_size src_ip dst_ip) as (r & _ & E & Hr & _); [lia|].
    unfold csum. rewrite E. unfold uint_ok in *. lia. }
  assert (bytes_ok frame) as Hfok by (apply frame_bytes_ok; [lia|done..]).
  assert (frame_len frame = 42 + payload_size) as Hfl by (apply length_frame_bytes; lia).
  destruct (frame_bytes_fields payload_size ts port src_ip dst_ip csum)
    as (F1 & F2 & F3 & F4 & F5 & F6 & F7 & F8 & F9). fold frame in F1, F2, F3, F4, F5, F6, F7, F8, F9.
  unfold FwSpec.ethertype, kind_of, ip_ihl, ip_proto, src_of. rewrite F1, F2, F3, F4, F6, F7, F8.
  split_and!; try done; try apply be_int_hi_lo.
  - rewrite ip_checksum_sub by (done || lia || (unfold frame_len in Hfl; lia)).
    rewrite F5. apply header_csum_zero. lia.
  - rewrite host_int_host_bytes. by apply wrap_small.
Qed.

Lemma frame_ts_built buf payload_size ts port src_ip dst_ip frame n :
  bytes_ok buf -> Z.of_nat (length buf) = 42 + payload_size -> 8 <= payload_size <= 1400 ->
  uint_ok 16 port -> uint_ok 64 ts ->
  build_frame buf payload_size ts port src_ip dst_ip = Some (frame, n) ->
  frame_ts kL2Ethernet frame 0 n = Some ts.
Proof using Type.
  intros Hok Hl Hp Hport Hts E.
  rewrite build_frame_eq in E by (done || lia). injection E as <- <-.
  set (csum := frame_csum _ _ _). set (frame := frame_bytes _ _ _ _ _ _).
  assert (uint_ok 16 csum) as Hc.
  { destruct (frame_csum_ok payload_size src_ip dst_ip) as (r & _ & E & Hr & _); [lia|].
    unfold csum. rewrite E. unfold uint_ok in *. lia. }
  assert (bytes_ok frame) as Hfok by (apply frame_bytes_ok; [lia|done..]).
  assert (frame_len frame = 42 + payload_size) as Hfl by (apply length_frame_bytes; lia).
  destruct (frame_bytes_fields payload_size ts port src_ip dst_ip csum)
    as (F1 & F2 & F3 & F4 & F5 & F6 & F7 & F8 & F9). fold frame in F1, F2, F4, F9.
  rewrite <-Hfl, frame_ts_spec by (done || lia).
  assert (ip_hlen frame = 20) as -> by (unfold ip_hlen, ip_ihl; by rewrite F2).
  rewrite decide_True.
  - rewrite load_int_Some by (unfold frame_len in Hfl; change (Z.of_nat 8) with 8; lia).
    change (14 + 20 + 8) with 42. rewrite F9, host_int_host_bytes. f_equal. by apply wrap_small.
  - unfold is_udp4, udp_accepts, FwSpec.ethertype, ip_proto, ip_hlen, ip_ihl. rewrite F1, F2, F4.
    change (Z.land (le_int [69]) 15) with 5. change (be_int [8; 0]) with 2048.
    change (le_int [17]) with 17. lia.
Qed.

(** Timestamps survive the wire. The receiver's [frame_ts] on the frame that
  [build_frame] made gives back the sender's 64-bit timestamp, for every
  payload size the command line accepts. *)
Theorem frame_ts_build_frame buf payload_size ts port src_ip dst_ip frame n :
  bytes_ok buf -> Z.of_nat (length buf) = 42 + payload_size -> 8 <= payload_size <= 1400 ->
  uint_ok 16 port -> uint_ok 64 ts ->
  build_frame buf payload_size ts port src_ip dst_ip = Some (frame, n) ->
  frame_ts kL2Ethernet frame 0 n = Some ts.
Proof using Type. apply frame_ts_built. Qed.

(** [tx] mode skips the check of the payload size that the other modes
  make. With fewer than 8 bytes of payload the frame buffer ends before the
  timestamp does, and the size of the zero padding wraps to almost 2^64:
  [build_frame] writes outside its buffer. *)
Theorem build_frame_small buf payload_size ts port src_ip dst_ip :
  Z.of_nat (length buf) = 42 + payload_size -> 0 <= payload_size < 8 ->
  build_frame buf payload_size ts port src_ip dst_ip = None.
Proof using Type.
  intros Hl Hp. unfold build_frame. cbv zeta.
  rewrite <-(app_nil_l buf). do 6 store_step.
  match goal with |- (?c ≫= _) = None => destruct c as [csum|] end; [|done].
  cbn [mbind option_bind].
  destruct (store_bytes _ (14 + 10) _) as [b1|] eqn:E1; [|done]. cbn [mbind option_bind].
  destruct (store_bytes b1 _ _) as [b2|] eqn:E2; [|done]. cbn [mbind option_bind].
  apply store_bytes_length in E1. apply store_bytes_length in E2.
  rewrite store_bytes_None; [done|].
  rewrite length_host_bytes, E2, E1, !length_app, !length_drop, !length_host_bytes.
  simpl length. lia.
Qed.
End Bytes.

(** *** Witnesses *)

Definition demo_buf : list Z := replicate 50 0.

Lemma demo_buf_ok : bytes_ok demo_buf.
Proof. by apply (bool_decide_unpack _). Defined.

Lemma build_frame_wellformed_witness :
  let _ := little in
  exists frame, build_frame demo_buf 8 7 9100 demo_src 0x0100000a = Some (frame, 50) /\
    frame_len frame = 50 /\ bytes_ok frame /\
    FwSpec.ethertype frame = 0x0800 /\ ip_ihl frame = 5 /\ ip_proto frame = 17 /\
    be_int (sub frame 16 2) = 36 /\ ip_checksum frame 14 20 = Some 0 /\
    src_of frame = demo_src /\ be_int (sub frame 36 2) = 9100 /\
    be_int (sub frame 38 2) = 16 /\ kind_of frame = L4 false true false.
Proof.
  intros en. apply (build_frame_wellformed demo_buf 8 7 9100 demo_src 0x0100000a).
  - exact demo_buf_ok.
  - reflexivity.
  - lia.
  - vm_compute. split; [discriminate|reflexivity].
  - vm_compute. split; [discriminate|reflexivity].
Defined.

Lemma frame_ts_build_frame_witness :
  let _ := little in
  exists frame n, build_frame demo_buf 8 7 9100 demo_src 0x0100000a = Some (frame, n) /\
    frame_ts kL2Ethernet frame 0 n = Some 7.
Proof.
  intros en.
  destruct (build_frame demo_buf 8 7 9100 demo_src 0x0100000a) as [[frame n]|] eqn:E.
  - exists frame, n. split; [reflexivity|].
    apply (frame_ts_build_frame demo_buf 8 7 9100 demo_src 0x0100000a frame n).
    + exact demo_buf_ok.
    + reflexivity.
    + lia.
    + vm_compute. split; [discriminate|reflexivity].
    + vm_compute. split; [discriminate|reflexivity].
    + exact E.
  - vm_compute in E. discriminate.
Defined.

Lemma build_frame_small_witness :
  let _ := little in build_frame (replicate 46 0) 4 7 9100 demo_src 0x0100000a = None.
Proof. intros en. apply build_frame_small; [reflexivity|lia]. Defined.
