(* ===== verification/Percentile.v ===== *)
(** * The percentiles of [benchmark/bench/bench_main.cpp]

    [run_bench] sorts the latencies and reports the elements at [size / 2] and
    at [size * 0.99], which is computed in floating point. A double that is an
    integer, or an integer over a power of two, is an integer here: [round53]
    is the rounding of IEEE 754 (to nearest, ties to even) to the 53 bits of a
    double's mantissa. The multiplication by 0.99 is exact on every size below
    2^45: the error that 0.99 has as a double is undone by the rounding of the
    product ([p99_index_exact]). *)

From S2P Require Import Prelude.

(** ** Doubles *)

(** The nearest integer multiple of [2 ^ e], ties to even. *)
Definition round_at (e m : Z) : Z :=
  let q := m / 2 ^ e in
  let r := m mod 2 ^ e in
  let half := 2 ^ (e - 1) in
  if (half <? r) || ((r =? half) && Z.odd q) then (q + 1) * 2 ^ e else q * 2 ^ e.

(** The double nearest to a natural number. *)
Definition round53 (m : Z) : Z := if m <? 2 ^ 53 then m else round_at (Z.log2 m - 52) m.

(** The literal 0.99, in units of 2^-52: the nearest double. *)
Definition c099 : Z := 4458563631096791.

(** static_cast<size_t>(v.size() * 0.99) *)
Definition p99_index (size : Z) : Z := round53 (round53 size * c099) / 2 ^ 52.

(** ** Order statistics *)

Definition sort : list Z -> list Z := merge_sort Z.le.

(** BenchResult's p50_ns and p99_ns, as doubles; [None] is a read outside the
    vector. *)
Definition percentiles (latencies : list Z) : option (Z * Z) :=
  match latencies with
  | [] => Some (0, 0)
  | _ =>
    let v := sort latencies in
    let size := Z.of_nat (length v) in
    x ← v !! Z.to_nat (size / 2);
    y ← v !! Z.to_nat (p99_index size);
    Some (round53 x, round53 y)
  end.

(** ** Rounding *)

Lemma c099_near : 100 * c099 = 99 * 2 ^ 52 - 4.
Proof. reflexivity. Qed.

Lemma round53_small m : m < 2 ^ 53 -> round53 m = m.
Proof. intros Hm. unfold round53. by rewrite (proj2 (Z.ltb_lt _ _)). Qed.

(** Within half a unit, and on a multiple that is nearer than that. *)
Lemma round_at_near e m : 1 <= e -> - 2 ^ e <= 2 * (round_at e m - m) <= 2 ^ e.
Proof.
  intros He. unfold round_at.
  assert (2 ^ e = 2 * 2 ^ (e - 1)) as E by (rewrite <-Z.pow_succ_r by lia; f_equal; lia).
  assert (0 < 2 ^ (e - 1)) as Hp by (apply Z.pow_pos_nonneg; lia).
  pose proof (Z.div_mod m (2 ^ e) ltac:(lia)) as Hd. pose proof (Z.mod_pos_bound m (2 ^ e) ltac:(lia)) as Hr.
  revert Hd Hr. generalize (m / 2 ^ e) (m mod 2 ^ e). rewrite E. intros q r Hd Hr.
  destruct ((2 ^ (e - 1) <? r) || ((r =? 2 ^ (e - 1)) && Z.odd q)) eqn:Eb; nia.
Qed.

Lemma round_at_multiple e m k :
  1 <= e -> - 2 ^ e < 2 * (k * 2 ^ e - m) < 2 ^ e -> round_at e m = k * 2 ^ e.
Proof.
  intros He Hk. pose proof (round_at_near e m He) as Hn.
  assert (exists j, round_at e m = j * 2 ^ e) as [j Hj]
    by (unfold round_at; destruct (_ || _); by eexists).
  rewrite Hj in Hn |- *. assert (0 < 2 ^ e) by (apply Z.pow_pos_nonneg; lia).
  assert (- 2 ^ e < (j - k) * 2 ^ e < 2 ^ e) as Hjk by lia. enough (j = k) by congruence. nia.
Qed.

(** The unit of a rounded number is small beside it. *)
Lemma round53_unit m :
  2 ^ 53 <= m ->
  exists e, 1 <= e /\ round53 m = round_at e m /\ 2 ^ e * 2 ^ 52 <= m < 2 ^ e * 2 ^ 53.
Proof.
  intros Hm. exists (Z.log2 m - 52). unfold round53. rewrite (proj2 (Z.ltb_ge _ _)) by done.
  assert (53 <= Z.log2 m) as Hl by (apply Z.log2_le_pow2; lia).
  split; [lia|]. split; [done|]. rewrite <-!Z.pow_add_r by lia.
  replace (Z.log2 m - 52 + 52) with (Z.log2 m) by lia.
  replace (Z.log2 m - 52 + 53) with (Z.succ (Z.log2 m)) by lia. apply Z.log2_spec. lia.
Qed.

(** ** The index of the 99th percentile *)

(** The floating-point index is the exact one. For every size below 2^45 the
  product of the size and the double 0.99, rounded and cut off, is the largest
  integer not above 99 hundredths of the size; the vector is read inside. *)
Theorem p99_index_exact size : 0 <= size < 2 ^ 45 -> p99_index size = 99 * size / 100.
Proof.
  intros Hs. unfold p99_index. rewrite (round53_small size) by (pow2_consts; lia).
  pose proof c099_near as Hc. set (m := size * c099).
  assert (100 * m = 99 * 2 ^ 52 * size - 4 * size) as Hm by (unfold m; lia). clearbody m.
  pose proof (Z.div_mod (99 * size) 100 ltac:(lia)) as Hk.
  pose proof (Z.mod_pos_bound (99 * size) 100 ltac:(lia)) as Hr.
  revert Hk Hr. generalize (99 * size / 100) ((99 * size) mod 100). intros k r Hk Hr.
  symmetry. apply Z.div_unique with (r := round53 m - 2 ^ 52 * k); [left|lia].
  destruct (Z.ltb_spec m (2 ^ 53)) as [Hlt|Hge].
  { rewrite round53_small by done. pow2_consts. lia. }
  destruct (round53_unit m Hge) as (e & He & -> & Hunit).
  assert (e < 52) as He'.
  { apply (Z.pow_lt_mono_r_iff 2); [lia|lia|]. pow2_consts. lia. }
  destruct (decide (r = 0)) as [->|Hr0].
  - assert (2 ^ 52 = 2 ^ (52 - e) * 2 ^ e) as Hp by (rewrite <-Z.pow_add_r by lia; f_equal; lia).
    assert (k * 2 ^ (52 - e) * 2 ^ e = 2 ^ 52 * k) as Hk2 by (rewrite Hp; lia).
    rewrite (round_at_multiple e m (k * 2 ^ (52 - e))); rewrite ?Hk2; [lia|done|]. clear Hp Hk2.
    pow2_consts. lia.
  - pose proof (round_at_near e m He). pow2_consts. lia.
Qed.

(** ** The elements of a sorted list *)

Lemma sort_sorted l : StronglySorted Z.le (sort l).
Proof. apply StronglySorted_merge_sort; apply _. Qed.

Lemma sort_perm l : sort l ≡ₚ l.
Proof. apply merge_sort_Permutation. Qed.

(** How many elements are not above, and not below, [x]. *)
Definition n_le (x : Z) (l : list Z) : Z := Z.of_nat (length (filter (fun y => y <= x) l)).
Definition n_ge (x : Z) (l : list Z) : Z := Z.of_nat (length (filter (fun y => x <= y) l)).

Lemma sorted_split (v : list Z) k x :
  StronglySorted Z.le v -> v !! k = Some x ->
  Forall (fun y => y <= x) (take (S k) v) /\ Forall (fun y => x <= y) (drop k v).
Proof.
  intros Hv. revert k. induction Hv as [|y v Hv IH Hy]; intros k Hx; [done|].
  destruct k as [|k]; simpl in Hx.
  - injection Hx as ->. split; [by repeat constructor|]. by constructor.
  - destruct (IH k Hx) as [Ht Hd]. split; [|done]. simpl. constructor; [|done].
    apply (proj1 (Forall_forall _ _) Hy). by eapply list_elem_of_lookup_2.
Qed.

Lemma filter_every {A} (P : A -> Prop) `{!forall x, Decision (P x)} l : Forall P l -> filter P l = l.
Proof. induction 1 as [|x l Hx _ IH]; [done|]. by rewrite filter_cons_True, IH. Qed.

(** The element at [k] has at least [k + 1] elements not above it, and all but
    [k] not below it. *)
Lemma order_statistic l k x :
  sort l !! k = Some x ->
  x ∈ l /\ Z.of_nat k + 1 <= n_le x l /\ Z.of_nat (length l) - Z.of_nat k <= n_ge x l.
Proof.
  intros Hx. split; [rewrite <-(sort_perm l); by eapply list_elem_of_lookup_2|].
  pose proof (lookup_lt_Some _ _ _ Hx) as Hk.
  destruct (sorted_split _ _ _ (sort_sorted l) Hx) as [Ht Hd].
  unfold n_le, n_ge. rewrite <-(sort_perm l). revert Hk Ht Hd. generalize (sort l). intros v Hk Ht Hd.
  split.
  - rewrite <-(take_drop (S k) v), filter_app, length_app, filter_every by done. rewrite length_take. lia.
  - rewrite <-(take_drop k v) at 2. rewrite filter_app, !length_app, (filter_every _ (drop k v)) by done.
    rewrite length_drop, <-(take_drop k v) at 1. rewrite length_app, length_take, length_drop. lia.
Qed.

(** The vector is read inside. *)
Lemma percentiles_defined l : Z.of_nat (length l) < 2 ^ 45 -> is_Some (percentiles l).
Proof.
  intros Hn. unfold percentiles. rewrite (Permutation_length (sort_perm l)).
  destruct l as [|l0 l]; [by eexists|]. set (l1 := l0 :: l) in *.
  pose proof (Permutation_length (sort_perm l1)) as Hlen.
  assert (0 < Z.of_nat (length l1)) as Hpos by (simpl; lia).
  rewrite p99_index_exact by lia.
  destruct (lookup_lt_is_Some_2 (sort l1) (Z.to_nat (Z.of_nat (length l1) / 2))) as [x ->]; [word|].
  destruct (lookup_lt_is_Some_2 (sort l1) (Z.to_nat (99 * Z.of_nat (length l1) / 100))) as [y ->]; [word|].
  by eexists.
Qed.

(** The reported percentiles are the percentiles. For latencies below 2^53 ns,
  at least one, the program reads two of them: of all latencies more than half
  are not above the first and at least half are not below it, more than 99 in
  100 are not above the second and at least one in 100 is not below it. *)
Theorem percentiles_exact l :
  l <> [] -> Z.of_nat (length l) < 2 ^ 45 -> Forall (fun x => x < 2 ^ 53) l ->
  exists x y, percentiles l = Some (x, y) /\ x ∈ l /\ y ∈ l /\
  Z.of_nat (length l) < 2 * n_le x l /\ Z.of_nat (length l) <= 2 * n_ge x l /\
  99 * Z.of_nat (length l) < 100 * n_le y l /\ Z.of_nat (length l) <= 100 * n_ge y l.
Proof.
  intros Hl Hn Hsm. set (n := Z.of_nat (length l)) in *.
  assert (0 < n) as Hpos by (destruct l; [done|]; unfold n; simpl; lia).
  pose proof (Permutation_length (sort_perm l)) as Hlen.
  destruct (lookup_lt_is_Some_2 (sort l) (Z.to_nat (n / 2))) as [x Hx]; [word|].
  destruct (lookup_lt_is_Some_2 (sort l) (Z.to_nat (99 * n / 100))) as [y Hy]; [word|].
  destruct (order_statistic _ _ _ Hx) as (Hx1 & Hx2 & Hx3), (order_statistic _ _ _ Hy) as (Hy1 & Hy2 & Hy3).
  assert (percentiles l = Some (x, y)) as ->.
  { unfold percentiles. rewrite Hlen. fold n. destruct l as [|l0 l]; [done|].
    rewrite Hx. cbn [mbind option_bind]. rewrite p99_index_exact, Hy by lia. cbn [mbind option_bind].
    rewrite Forall_forall in Hsm. by rewrite !round53_small by auto. }
  exists x, y. split; [done|]. split; [done|]. split; [done|].
  fold n in Hx3, Hy3. rewrite Z2Nat.id in Hx2, Hx3, Hy2, Hy3 by word.
  split_and!; word.
Qed.

Example percentiles_demo : percentiles [30; 10; 20] = Some (20, 30).
Proof. reflexivity. Qed.
