(* ===== verification/BenchRun.v ===== *)
(** * The measurement of falcon-bench, [run_bench] of [bench_main.cpp]

    The receiver asks its backend for frames until its time is over or, with a
    burst, until it has timed as many. A turn of the loop is what [recv]
    returned, each frame with the reading of the clock that its latency is
    computed from, and the reading at the end of the turn; all readings in
    nanoseconds. The comparisons of a duration with [cfg.seconds] and
    [cfg.window_sec] are made in floating point: they are the parameters
    [over] and [window_over]. Of what is printed the integers are modelled, and
    the durations they are divided by. *)

From S2P Require Import Prelude FwProg FwSpec Parser BenchFrame Percentile.

(** How a function of the benchmark ends: it returns, it throws, its inputs do
    not end its loop, or it reaches a memory error. *)
Inductive outcome (A : Type) := Returns (a : A) | Throws | Goes_on | Crashes.
Arguments Returns {A} a.
Arguments Throws {A}.
Arguments Goes_on {A}.
Arguments Crashes {A}.

(** A frame: the memory it is in, from its first byte on, its length, and the
    clock when its timestamp has been read. *)
Record arrival := Arrival { a_mem : list Z; a_len : Z; a_now : Z }.
Record bench_turn := BenchTurn { bt_frames : list arrival; bt_now : Z }.

(** A line of the statistics: elapsed time, packets and length of the window,
    packets and bytes in total. *)
Record window_line := WindowOf { wl_elapsed : Z; wl_packets : Z; wl_window : Z; wl_total : Z; wl_bytes : Z }.

(** The local variables of run_bench. *)
Record bench := Bench {
  r_packets : Z;
  r_bytes : Z;
  latencies : list Z;
  win_packets : Z;
  win_start : Z;
}.

(** struct BenchResult; its pps and cpu_pct are floating-point quotients. *)
Record BenchResult := Result { br_packets : Z; br_bytes : Z; br_elapsed : Z; br_p50 : Z; br_p99 : Z }.

Section Run.
Context `{Endian} (layer : FrameLayer) (over window_over : Z -> bool) (burst t0 : Z).
Implicit Types (f : arrival) (t : bench_turn) (ts : list bench_turn) (b : bench).

Definition bench0 : bench := Bench 0 0 [] 0 t0.

(** The body of the inner loop. *)
Definition take_frame b f : option bench :=
  ts ← frame_ts layer (a_mem f) 0 (a_len f);
  Some (Bench (r_packets b) (u64 (r_bytes b + a_len f))
    (if ts =? 0 then latencies b else latencies b ++ [u64 (a_now f - ts)])
    (win_packets b) (win_start b)).

Fixpoint take_frames (fs : list arrival) b : option bench :=
  match fs with
  | [] => Some b
  | f :: fs => b ← take_frame b f; take_frames fs b
  end.

(** The statistics of a window that is over. *)
Definition close_window (now : Z) b : bench * list window_line :=
  if window_over (now - win_start b)
  then (Bench (r_packets b) (r_bytes b) (latencies b) 0 now,
        [WindowOf (now - t0) (win_packets b) (now - win_start b) (r_packets b) (r_bytes b)])
  else (b, []).

(** The conditions on which the loop ends. *)
Definition bench_done (now : Z) (timed : nat) : bool :=
  over (now - t0) || ((0 <? burst) && (burst <=? Z.of_nat timed)).

(** One turn: the variables after it and the line it prints. *)
Definition take_turn t b : option (bench * list window_line) :=
  b ← take_frames (bt_frames t) b;
  let got := Z.of_nat (length (bt_frames t)) in
  Some (close_window (bt_now t)
    (Bench (u64 (r_packets b + got)) (r_bytes b) (latencies b) (u64 (win_packets b + got)) (win_start b))).

(** [sender]: whether the process that sends, if there is one, ended well;
    [t_end]: the last reading of the clock. *)
Definition bench_result (sender : option bool) (t_end : Z) b : outcome BenchResult :=
  if decide (sender = Some false) then Throws else
  match percentiles (latencies b) with
  | Some (p50, p99) => Returns (Result (r_packets b) (r_bytes b) (t_end - t0) p50 p99)
  | None => Crashes
  end.

Fixpoint bench_loop (sender : option bool) (t_end : Z) ts b : outcome BenchResult * list window_line :=
  match ts with
  | [] => (Goes_on, [])
  | t :: ts =>
    match take_turn t b with
    | None => (Crashes, [])
    | Some (b, ls) =>
      if bench_done (bt_now t) (length (latencies b)) then (bench_result sender t_end b, ls)
      else let '(r, ls') := bench_loop sender t_end ts b in (r, ls ++ ls')
    end
  end.

Definition run_bench (sender : option bool) (t_end : Z) ts : outcome BenchResult * list window_line :=
  bench_loop sender t_end ts bench0.
End Run.

(** ** What a run has received *)

Section Spec.
Context `{Endian} (layer : FrameLayer) (over window_over : Z -> bool) (burst t0 : Z).
Implicit Types (f : arrival) (t : bench_turn) (ts : list bench_turn) (b : bench).

Definition all_frames ts : list arrival := ts ≫= bt_frames.
Definition n_arrived ts : Z := Z.of_nat (length (all_frames ts)).
Definition bytes_of (fs : list arrival) : Z := foldr (fun f n => a_len f + n) 0 fs.

(** The latency of a frame that carries a timestamp. *)
Definition latency f : option Z :=
  match frame_ts layer (a_mem f) 0 (a_len f) with
  | Some ts => if ts =? 0 then None else Some (u64 (a_now f - ts))
  | None => None
  end.
Definition timed ts : list Z := omap latency (all_frames ts).

(** The timestamp of a frame is read inside its memory. *)
Definition readable f : Prop := is_Some (frame_ts layer (a_mem f) 0 (a_len f)).

(** The loop ends after these turns. *)
Definition bench_over ts : bool :=
  match last ts with
  | Some t => bench_done over burst t0 (bt_now t) (length (timed ts))
  | None => false
  end.

(** The lines printed for the turns [ts], whose windows follow one another: each
    tells the frames of its own turns, and all until then. *)
Inductive windows : list bench_turn -> list window_line -> Prop :=
  | no_window : windows [] []
  | next_window ts out g l :
      windows ts out -> wl_packets l = u64 (n_arrived g) -> wl_total l = u64 (n_arrived (ts ++ g)) ->
      wl_bytes l = u64 (bytes_of (all_frames (ts ++ g))) -> windows (ts ++ g) (out ++ [l]).

(** The variables after the turns [ts] and the lines [out]. *)
Record bench_account ts b (out : list window_line) : Prop := {
  ba_packets : r_packets b = u64 (n_arrived ts);
  ba_bytes : r_bytes b = u64 (bytes_of (all_frames ts));
  ba_latencies : latencies b = timed ts;
  ba_windows : exists pre rest, ts = pre ++ rest /\ windows pre out /\ win_packets b = u64 (n_arrived rest);
}.

Lemma all_frames_snoc ts t : all_frames (ts ++ [t]) = all_frames ts ++ bt_frames t.
Proof using Type. unfold all_frames. rewrite bind_app. simpl. by rewrite app_nil_r. Qed.

Lemma n_arrived_snoc ts t : u64 (u64 (n_arrived ts) + Z.of_nat (length (bt_frames t))) = u64 (n_arrived (ts ++ [t])).
Proof using Type.
  unfold n_arrived. rewrite all_frames_snoc, length_app, Nat2Z.inj_add. by apply wrap_add_l.
Qed.

Lemma bytes_of_app fs1 fs2 : bytes_of (fs1 ++ fs2) = bytes_of fs1 + bytes_of fs2.
Proof using Type. induction fs1 as [|f fs1 IH]; simpl; [done|]. rewrite IH. lia. Qed.

Lemma timed_snoc ts t : timed (ts ++ [t]) = timed ts ++ omap latency (bt_frames t).
Proof using Type. unfold timed. by rewrite all_frames_snoc, omap_app. Qed.

Lemma take_frames_eq fs b x :
  Forall readable fs -> r_bytes b = u64 x ->
  take_frames layer fs b = Some (Bench (r_packets b) (u64 (x + bytes_of fs)) (latencies b ++ omap latency fs)
    (win_packets b) (win_start b)).
Proof using Type.
  intros Hr. revert b x. induction Hr as [|f fs [ts Hts] _ IH]; intros b x Hb; cbn [take_frames].
  { simpl. rewrite Z.add_0_r, app_nil_r, <-Hb. by destruct b. }
  unfold take_frame. rewrite Hts. cbn [mbind option_bind].
  rewrite (IH _ (x + a_len f)) by (simpl; rewrite Hb; by apply wrap_add_l). f_equal.
  cbn [r_packets latencies win_packets win_start bytes_of foldr]. f_equal; [f_equal; unfold bytes_of; lia|].
  simpl. unfold latency at 2. rewrite Hts. destruct (ts =? 0); [done|]. by rewrite <-app_assoc.
Qed.

Lemma bench_turn_account ts b out t :
  bench_account ts b out -> Forall readable (bt_frames t) ->
  exists b' ls, take_turn layer window_over t0 t b = Some (b', ls) /\ bench_account (ts ++ [t]) b' (out ++ ls).
Proof using Type.
  intros [Hp Hb Hl (pre & rest & Hts & Hw & Hwp)] Hr. unfold take_turn.
  rewrite (take_frames_eq _ _ _ Hr Hb). cbn [mbind option_bind r_packets win_packets r_bytes latencies win_start].
  rewrite Hp, Hl, Hwp, !n_arrived_snoc, <-bytes_of_app, <-all_frames_snoc, <-timed_snoc.
  unfold close_window. cbn [r_packets win_packets r_bytes latencies win_start].
  destruct (window_over _); (eexists _, _; split; [reflexivity|split; [done..|]]).
  - exists (pre ++ (rest ++ [t])), []. rewrite app_nil_r. split; [by rewrite Hts, app_assoc|]. split; [|done].
    constructor; [done|done|simpl; by rewrite Hts, app_assoc|simpl; by rewrite Hts, app_assoc].
  - rewrite app_nil_r. exists pre, (rest ++ [t]). split; [by rewrite Hts, app_assoc|done].
Qed.

Lemma bench_loop_account sender t_end ts b out pre t post :
  bench_account ts b out -> (forall k, (0 < k <= length pre)%nat -> bench_over (ts ++ take k pre) = false) ->
  bench_over (ts ++ pre ++ [t]) = true -> Forall readable (all_frames (pre ++ [t])) ->
  exists b' ls, bench_account (ts ++ pre ++ [t]) b' (out ++ ls) /\
    bench_loop layer over window_over burst t0 sender t_end (pre ++ t :: post) b =
    (bench_result t0 sender t_end b', ls).
Proof using Type.
  revert ts b out. induction pre as [|u pre IH]; intros ts b out Ha Hn Hf Hr; cbn [app bench_loop] in *.
  - unfold all_frames in Hr. simpl in Hr. rewrite app_nil_r in Hr. destruct (bench_turn_account ts b out t Ha Hr) as (b' & ls & -> & Ha').
    exists b', ls. split; [done|]. unfold bench_over in Hf. rewrite last_snoc in Hf.
    by rewrite (ba_latencies _ _ _ Ha'), Hf.
  - unfold all_frames in Hr. simpl in Hr. apply Forall_app in Hr as [Hu Hr].
    destruct (bench_turn_account ts b out u Ha Hu) as (b' & ls & -> & Ha').
    pose proof (Hn 1%nat ltac:(simpl; lia)) as H1. cbn [take] in H1. rewrite firstn_O in H1.
    unfold bench_over in H1. rewrite last_snoc in H1. rewrite (ba_latencies _ _ _ Ha'), H1.
    destruct (IH (ts ++ [u]) b' (out ++ ls) Ha') as (b2 & ls' & Ha2 & ->).
    + intros k Hk. rewrite <-app_assoc. apply (Hn (S k)). simpl. lia.
    + by rewrite <-app_assoc.
    + done.
    + exists b2, (ls ++ ls'). by rewrite <-!app_assoc in *.
Qed.

(** What run_bench reports. *)
Lemma run_bench_account sender t_end pre t post :
  (forall k, (0 < k <= length pre)%nat -> bench_over (take k pre) = false) ->
  bench_over (pre ++ [t]) = true -> Forall readable (all_frames (pre ++ [t])) ->
  sender <> Some false -> Z.of_nat (length (timed (pre ++ [t]))) < 2 ^ 45 ->
  exists p50 p99 out past rest,
    percentiles (timed (pre ++ [t])) = Some (p50, p99) /\ pre ++ [t] = past ++ rest /\ windows past out /\
    run_bench layer over window_over burst t0 sender t_end (pre ++ t :: post) =
    (Returns (Result (u64 (n_arrived (pre ++ [t]))) (u64 (bytes_of (all_frames (pre ++ [t])))) (t_end - t0) p50 p99),
     out).
Proof using Type.
  intros Hn Hf Hr Hs Hlen. unfold run_bench.
  destruct (bench_loop_account sender t_end [] (bench0 t0) [] pre t post) as (b & ls & [Hp Hb Hl Hw] & ->);
    [|done..|].
  { split; [done..|]. exists [], []. split; [done|]. split; [constructor|done]. }
  destruct Hw as (past & rest & Hts & Hw & _). simpl in *.
  destruct (percentiles_defined _ Hlen) as ([p50 p99] & Hperc).
  exists p50, p99, ls, past, rest. split; [done|]. split; [done|]. split; [done|].
  unfold bench_result. by rewrite decide_False, Hl, Hperc, Hp, Hb.
Qed.
End Spec.

(** ** What is measured *)

(** A frame that left the sender of the benchmark at [ts] and is timed [d] ns
    later: crafted by [build_frame], or the payload of a datagram in the
    buffer of the socket backend. *)
Inductive sent `{Endian} : FrameLayer -> arrival -> Z -> Prop :=
  | sent_raw buf payload_size ts port src_ip dst_ip frame n d :
      bytes_ok buf -> Z.of_nat (length buf) = 42 + payload_size -> 8 <= payload_size <= 1400 ->
      uint_ok 16 port -> build_frame buf payload_size ts port src_ip dst_ip = Some (frame, n) ->
      0 < ts -> 0 <= d < 2 ^ 53 -> ts + d < 2 ^ 64 -> sent kL2Ethernet (Arrival frame n (ts + d)) d
  | sent_udp ts rest n d :
      0 < ts -> 0 <= d < 2 ^ 53 -> ts + d < 2 ^ 64 ->
      sent kL4Payload (Arrival (host_bytes 8 ts ++ rest) n (ts + d)) d.

Section Measure.
Context `{Endian} (layer : FrameLayer).

(** Its timestamp is read back, and its latency is the time it took. *)
Lemma sent_latency f d :
  sent layer f d -> readable layer f /\ latency layer f = Some d /\ d < 2 ^ 53.
Proof using Type.
  intros Hs.
  assert (forall layer m n ts, frame_ts layer m 0 n = Some ts -> 0 < ts -> 0 <= d < 2 ^ 53 -> ts + d < 2 ^ 64 ->
    readable layer (Arrival m n (ts + d)) /\ latency layer (Arrival m n (ts + d)) = Some d /\ d < 2 ^ 53) as Hl.
  { intros l m n ts Hts Hp Hd Hr. unfold readable, latency. cbn [a_mem a_len a_now]. rewrite Hts.
    split; [by eexists|]. rewrite (proj2 (Z.eqb_neq _ _)) by lia. split; [f_equal; word|lia]. }
  destruct Hs as [buf payload_size ts port src_ip dst_ip frame n d Hok Hl1 Hp Hport Hb Hts Hd Hr|
    ts rest n d Hts Hd Hr]; apply Hl; try done.
  - eapply frame_ts_built; [exact Hok|exact Hl1|exact Hp|exact Hport| |exact Hb]. unfold uint_ok. lia.
  - unfold frame_ts, load_int. rewrite load_bytes_app_l by by rewrite length_host_bytes.
    cbn. rewrite host_int_host_bytes. f_equal. apply wrap_small. unfold uint_ok.
    change (8 * Z.of_nat 8) with 64. lia.
Qed.

Lemma sent_timed fs ds :
  Forall2 (sent layer) fs ds ->
  Forall (readable layer) fs /\ omap (latency layer) fs = ds /\ Forall (fun d => d < 2 ^ 53) ds.
Proof using Type.
  induction 1 as [|f d fs ds Hs _ (Hr & Ho & Hd)]; [done|].
  destruct (sent_latency f d Hs) as (? & E & ?). split; [by constructor|].
  split; [|by constructor]. simpl. rewrite E. f_equal. exact Ho.
Qed.

Context (over window_over : Z -> bool) (burst t0 : Z).

(** C30. The benchmark measures the delay of its frames. When everything that
  arrives until the run is over are frames of the sender, each some time after
  it was sent, [run_bench] returns their number and their bytes, and for its
  p50 and p99 two of the delays: more than half of the delays are not above the
  first and at least half are not below it, more than 99 in 100 are not above
  the second and at least one in 100 is not below it. The lines it prints tell
  the frames of consecutive windows. *)
Theorem bench_measures sender t_end pre t post ds :
  Forall2 (sent layer) (all_frames (pre ++ [t])) ds -> ds <> [] -> Z.of_nat (length ds) < 2 ^ 45 ->
  (forall k, (0 < k <= length pre)%nat -> bench_over layer over burst t0 (take k pre) = false) ->
  bench_over layer over burst t0 (pre ++ [t]) = true -> sender <> Some false ->
  exists p50 p99 out past rest,
    run_bench layer over window_over burst t0 sender t_end (pre ++ t :: post) =
      (Returns (Result (Z.of_nat (length ds)) (u64 (bytes_of (all_frames (pre ++ [t])))) (t_end - t0) p50 p99), out) /\
    pre ++ [t] = past ++ rest /\ windows past out /\ p50 ∈ ds /\ p99 ∈ ds /\
    Z.of_nat (length ds) < 2 * n_le p50 ds /\ Z.of_nat (length ds) <= 2 * n_ge p50 ds /\
    99 * Z.of_nat (length ds) < 100 * n_le p99 ds /\ Z.of_nat (length ds) <= 100 * n_ge p99 ds.
Proof using Type.
  intros Hsent Hne Hlen Hn Hf Hs. destruct (sent_timed _ _ Hsent) as (Hr & Ht & Hd).
  destruct (run_bench_account layer over window_over burst t0 sender t_end pre t post)
    as (p50 & p99 & out & past & rest & Hp & Hts & Hw & E); [done|done|done|done|by unfold timed; rewrite Ht|].
  unfold timed in Hp. rewrite Ht in Hp.
  destruct (percentiles_exact ds Hne Hlen Hd) as (x & y & Hxy & Hrest). rewrite Hp in Hxy. injection Hxy as <- <-.
  exists p50, p99, out, past, rest. split; [|by split; [|split]].
  rewrite E. do 3 f_equal. unfold n_arrived. rewrite (Forall2_length _ _ _ Hsent). apply wrap_small.
  unfold uint_ok. lia.
Qed.
End Measure.

(** *** Witness *)

(** Three datagrams in two turns, with a burst of three. *)
Definition demo_arrivals : list bench_turn :=
  let _ := little in
  [BenchTurn [Arrival (host_bytes 8 100 ++ []) 16 130; Arrival (host_bytes 8 110 ++ []) 16 120] 140;
   BenchTurn [Arrival (host_bytes 8 120 ++ []) 16 140] 150].

Lemma bench_measures_witness :
  let _ := little in
  exists p50 p99 out past rest,
    run_bench kL4Payload (Z.leb 1000) (Z.leb 45) 3 100 None 160 demo_arrivals =
      (Returns (Result 3 48 60 p50 p99), out) /\
    demo_arrivals = past ++ rest /\ windows past out /\ p50 ∈ [30; 10; 20] /\ p99 ∈ [30; 10; 20] /\
    3 < 2 * n_le p50 [30; 10; 20] /\ 3 <= 2 * n_ge p50 [30; 10; 20] /\
    99 * 3 < 100 * n_le p99 [30; 10; 20] /\ 3 <= 100 * n_ge p99 [30; 10; 20].
Proof.
  intros en.
  apply (bench_measures kL4Payload (Z.leb 1000) (Z.leb 45) 3 100 None 160 [BenchTurn
    [Arrival (host_bytes 8 100 ++ []) 16 130; Arrival (host_bytes 8 110 ++ []) 16 120] 140]
    (BenchTurn [Arrival (host_bytes 8 120 ++ []) 16 140] 150) [] [30; 10; 20]).
  - apply Forall2_cons_2; [apply (sent_udp 100 [] 16 30); lia|].
    apply Forall2_cons_2; [apply (sent_udp 110 [] 16 10); lia|].
    apply Forall2_cons_2; [apply (sent_udp 120 [] 16 20); lia|]. constructor.
  - done.
  - simpl. lia.
  - intros k Hk. simpl in Hk. assert (k = 1)%nat as -> by lia. vm_compute. reflexivity.
  - vm_compute. reflexivity.
  - done.
Defined.
