(* ===== verification/PacketFilter.v ===== *)
(** * Which frames reach the benchmark's backends

    The XDP program [backend/af_xdp.bpf.c], which redirects UDP frames for
    port 9100 to the AF_XDP sockets, and the classic BPF program that
    [backend/af_packet.cpp] attaches to its socket for the same purpose. *)

From S2P Require Import Prelude FwProg FwSpec.

Definition ETH_P_IPV6 : Z := 0x86DD.
Definition UDP_PORT : Z := 9100.

(** ** The XDP program *)

(** The two verdicts: XDP_PASS, or a redirect to the socket of a queue. *)
Inductive xdp_verdict := Pass | Redirect (queue : Z).

Section Redirect.
Context `{Endian}.

(** bpf_redirect_map(map, key, XDP_PASS): [falcon_xsks] tells which keys have a
  socket. *)
Definition bpf_redirect_map (falcon_xsks : Z -> bool) (key : Z) : xdp_verdict :=
  if falcon_xsks key then Redirect key else Pass.

(** The end of the program, with the position of the UDP header. *)
Definition check_udp (pkt : list Z) (falcon_xsks : Z -> bool) (rx_queue_index udp : Z) :
  option xdp_verdict :=
  if Z.of_nat (length pkt) <? udp + 8 then Some Pass else
  dest ← load_int 2 pkt (udp + 2);
  if negb (dest =? htons UDP_PORT) then Some Pass else
  Some (bpf_redirect_map falcon_xsks rx_queue_index).

Definition falcon_xdp_redirect (pkt : list Z) (falcon_xsks : Z -> bool) (rx_queue_index : Z) :
  option xdp_verdict :=
  let data_end := Z.of_nat (length pkt) in
  let ethernet := 0 in
  if data_end <? ethernet + 14 then Some Pass else
  h_proto ← load_int 2 pkt (ethernet + 12);
  let ip := ethernet + 14 in
  if h_proto =? htons ETH_P_IP then
  if data_end <? ip + 20 then Some Pass else
  protocol ← load8 pkt (ip + 9);
  if negb (protocol =? IPPROTO_UDP) then Some Pass else
  version_ihl ← load8 pkt ip;
  if negb (Z.land version_ihl 15 =? 5) then Some Pass else
  check_udp pkt falcon_xsks rx_queue_index (ip + 20)
  else if h_proto =? htons ETH_P_IPV6 then
  if data_end <? ip + 40 then Some Pass else
  nexthdr ← load8 pkt (ip + 6);
  if negb (nexthdr =? IPPROTO_UDP) then Some Pass else
  check_udp pkt falcon_xsks rx_queue_index (ip + 40)
  else Some Pass.
End Redirect.

(** ** The classic BPF program *)

(** The instructions the filter uses: loads of a half word (big-endian) or a
    byte at an absolute offset, a jump on equality that skips [jt] or [jf]
    instructions, and a return. *)
Inductive sock_filter :=
  | LdH (k : Z)
  | LdB (k : Z)
  | Jeq (k : Z) (jt jf : nat)
  | Ret (k : Z).

(** A run from the instruction [pc] with accumulator [A]; a load outside the
    packet ends it with 0. [None] when the fuel runs out or the program runs
    off its end. *)
Fixpoint bpf_run (fuel : nat) (prog : list sock_filter) (pkt : list Z) (pc : nat) (A : Z) :
    option Z :=
  match fuel with
  | O => None
  | S fuel =>
      i ← prog !! pc;
      match i with
      | LdH k =>
          match load_bytes pkt k 2 with
          | Some bs => bpf_run fuel prog pkt (S pc) (be_int bs)
          | None => Some 0
          end
      | LdB k =>
          match load8 pkt k with
          | Some b => bpf_run fuel prog pkt (S pc) b
          | None => Some 0
          end
      | Jeq k jt jf => bpf_run fuel prog pkt (S pc + (if A =? k then jt else jf)) A
      | Ret k => Some k
      end
  end.

(** The array [filter] of AfPacketBackend. *)
Definition filter : list sock_filter := [
    LdH 12;
    Jeq ETH_P_IP 0 4;
    LdB 23;
    Jeq IPPROTO_UDP 0 7;
    LdH 36;
    Jeq 9100 6 5;
    Jeq ETH_P_IPV6 0 4;
    LdB 20;
    Jeq IPPROTO_UDP 0 2;
    LdH 56;
    Jeq 9100 1 0;
    Ret 0;
    Ret 0xFFFFFFFF
  ].

(** Jumps go forward, so no run is longer than the program. *)
Definition filter_result (pkt : list Z) : option Z := bpf_run (length filter) filter pkt 0 0.

(** ** What the two programs select *)

(** The 16-bit number at an offset. *)
Definition half (pkt : list Z) (off : Z) : Z := be_int (sub pkt off 2).
Definition byte_at (pkt : list Z) (off : Z) : Z := le_int (sub pkt off 1).

(** UDP for port 9100, over IPv4 with a 20-byte header and over IPv6. *)
Definition udp4_9100 (pkt : list Z) : Prop :=
  ethertype pkt = 0x0800 /\ ip_proto pkt = 17 /\ half pkt 36 = 9100.
Definition udp6_9100 (pkt : list Z) : Prop :=
  ethertype pkt = 0x86DD /\ byte_at pkt 20 = 17 /\ half pkt 56 = 9100.

Definition xdp_selects (pkt : list Z) : Prop :=
  (42 <= frame_len pkt /\ ip_ihl pkt = 5 /\ udp4_9100 pkt) \/
  (62 <= frame_len pkt /\ udp6_9100 pkt).
Definition filter_selects (pkt : list Z) : Prop :=
  (38 <= frame_len pkt /\ udp4_9100 pkt) \/ (58 <= frame_len pkt /\ udp6_9100 pkt).

#[global] Instance udp4_9100_dec pkt : Decision (udp4_9100 pkt).
Proof. unfold udp4_9100. apply _. Defined.
#[global] Instance udp6_9100_dec pkt : Decision (udp6_9100 pkt).
Proof. unfold udp6_9100. apply _. Defined.
#[global] Instance xdp_selects_dec pkt : Decision (xdp_selects pkt).
Proof. unfold xdp_selects. apply _. Defined.
#[global] Instance filter_selects_dec pkt : Decision (filter_selects pkt).
Proof. unfold filter_selects. apply _. Defined.

Section Props.
Context `{Endian}.

(** A comparison of a 16-bit field with a constant in network byte order. *)
Lemma field_eqb pkt off k :
  bytes_ok pkt -> 0 <= off -> off + 2 <= frame_len pkt -> uint_ok 16 k ->
  (host_int (sub pkt off 2) =? htons k) = bool_decide (half pkt off = k).
Proof using Type.
  intros Hok Ho Hl Hk. unfold half.
  rewrite <-(ntoh_host_int 2) by (auto using sub_ok; apply length_sub; unfold frame_len in *; simpl; lia).
  apply eq_true_iff_eq. rewrite Z.eqb_eq, bool_decide_eq_true. split.
  - intros ->. apply (hton_hton 2). done.
  - intros E. apply (f_equal htons) in E. unfold htons in E. rewrite hton_hton in E; [done|].
    pose proof (host_int_range (sub pkt off 2) (sub_ok _ _ _ Hok)) as Hr.
    rewrite length_sub in Hr by (unfold frame_len in *; simpl; lia). exact Hr.
Qed.

Lemma check_udp_ok pkt xsks q udp :
  bytes_ok pkt -> 0 <= udp ->
  check_udp pkt xsks q udp =
  Some (if decide (udp + 8 <= frame_len pkt /\ half pkt (udp + 2) = 9100)
        then bpf_redirect_map xsks q else Pass).
Proof using Type.
  intros Hok Hu. unfold check_udp. unfold frame_len. case_bool.
  { by rewrite decide_False by lia. }
  rewrite load_int_Some by (simpl; lia). cbn [mbind option_bind].
  rewrite field_eqb; [|done|lia|unfold frame_len; lia|vm_compute; split; [discriminate|reflexivity]].
  unfold UDP_PORT. case_bool_decide.
  - by rewrite decide_True by lia.
  - by rewrite decide_False by lia.
Qed.

(** The XDP program redirects exactly the traffic under test. On every frame
  it terminates without a memory error; it hands the frame to the socket of
  the receiving queue when the frame is a complete UDP datagram for port
  9100 (IPv4 without options, or IPv6 with no extension header) and the
  queue has a socket; and it passes every other frame to the stack. *)
Theorem xdp_redirect_exact pkt xsks q :
  bytes_ok pkt ->
  falcon_xdp_redirect pkt xsks q =
  Some (if decide (xdp_selects pkt /\ xsks q = true) then Redirect q else Pass).
Proof using Type.
  intros Hok. unfold falcon_xdp_redirect. cbv zeta.
  assert (forall P `{Decision P}, (xdp_selects pkt <-> P) ->
    (if decide P then bpf_redirect_map xsks q else Pass) =
    (if decide (xdp_selects pkt /\ xsks q = true) then Redirect q else Pass)) as Hfin.
  { intros P ? HP. unfold bpf_redirect_map. repeat case_decide; destruct (xsks q); naive_solver. }
  assert (~ xdp_selects pkt -> Some Pass =
    Some (if decide (xdp_selects pkt /\ xsks q = true) then Redirect q else Pass)) as Hno
    by (intros; by rewrite decide_False by tauto).
  change (0 + 14) with 14. change (0 + 12) with 12.
  destruct (Z.ltb_spec (Z.of_nat (length pkt)) 14) as [Hl|Hl];
    [apply Hno; unfold xdp_selects, frame_len; lia|].
  rewrite load_int_Some by (simpl; lia). cbn [mbind option_bind].
  rewrite !field_eqb;
    try done; try (unfold frame_len; lia); try (vm_compute; split; [discriminate|reflexivity]).
  change (half pkt 12) with (ethertype pkt). unfold ETH_P_IP, ETH_P_IPV6.
  case_bool_decide as H4; [|case_bool_decide as H6].
  - case_bool; [apply Hno; unfold xdp_selects, udp4_9100, udp6_9100, frame_len; lia|].
    rewrite !load8_Some by lia. cbn [mbind option_bind]. fold (ip_proto pkt).
    change (14 + 9) with 23. fold (ip_proto pkt) (ip_ihl pkt). unfold IPPROTO_UDP.
    destruct (Z.eqb_spec (ip_proto pkt) 17); cbn [negb];
      [|apply Hno; unfold xdp_selects, udp4_9100, udp6_9100; lia].
    destruct (Z.eqb_spec (ip_ihl pkt) 5); cbn [negb];
      [|apply Hno; unfold xdp_selects, udp4_9100, udp6_9100; lia].
    rewrite check_udp_ok by (done || lia). rewrite Hfin; [done|].
    change (14 + 20 + 2) with 36. unfold xdp_selects, udp4_9100, udp6_9100. lia.
  - case_bool; [apply Hno; unfold xdp_selects, udp4_9100, udp6_9100, frame_len; lia|].
    rewrite !load8_Some by lia. cbn [mbind option_bind].
    change (14 + 6) with 20. fold (byte_at pkt 20). unfold IPPROTO_UDP.
    destruct (Z.eqb_spec (byte_at pkt 20) 17); cbn [negb];
      [|apply Hno; unfold xdp_selects, udp4_9100, udp6_9100; unfold ETH_P_IP in *; lia].
    rewrite check_udp_ok by (done || lia). rewrite Hfin; [done|].
    change (14 + 40 + 2) with 56. unfold xdp_selects, udp4_9100, udp6_9100. lia.
  - apply Hno. unfold xdp_selects, udp4_9100, udp6_9100. lia.
Qed.

(** One instruction of a run. *)
Lemma run_LdH prog fuel pkt pc A k :
  prog !! pc = Some (LdH k) -> 0 <= k ->
  bpf_run (S fuel) prog pkt pc A =
  if decide (k + 2 <= frame_len pkt) then bpf_run fuel prog pkt (S pc) (half pkt k) else Some 0.
Proof using Type.
  intros E Hk. cbn [bpf_run]. rewrite E. cbn [mbind option_bind]. case_decide.
  - by rewrite load_bytes_Some by (unfold frame_len in *; simpl; lia).
  - by rewrite load_bytes_None by (unfold frame_len in *; simpl; lia).
Qed.

Lemma run_LdB prog fuel pkt pc A k :
  prog !! pc = Some (LdB k) -> 0 <= k ->
  bpf_run (S fuel) prog pkt pc A =
  if decide (k + 1 <= frame_len pkt) then bpf_run fuel prog pkt (S pc) (byte_at pkt k) else Some 0.
Proof using Type.
  intros E Hk. cbn [bpf_run]. rewrite E. cbn [mbind option_bind]. unfold load8. case_decide.
  - by rewrite load_bytes_Some by (unfold frame_len in *; simpl; lia).
  - by rewrite load_bytes_None by (unfold frame_len in *; simpl; lia).
Qed.

Lemma run_Jeq prog fuel pkt pc A k jt jf :
  prog !! pc = Some (Jeq k jt jf) ->
  bpf_run (S fuel) prog pkt pc A =
  if decide (A = k) then bpf_run fuel prog pkt (S pc + jt) A
  else bpf_run fuel prog pkt (S pc + jf) A.
Proof using Type.
  intros E. cbn [bpf_run]. rewrite E. cbn [mbind option_bind]. case_decide.
  - by rewrite (proj2 (Z.eqb_eq _ _)).
  - by rewrite (proj2 (Z.eqb_neq _ _)).
Qed.

Lemma run_Ret prog fuel pkt pc A k :
  prog !! pc = Some (Ret k) -> bpf_run (S fuel) prog pkt pc A = Some k.
Proof using Type. intros E. cbn [bpf_run]. by rewrite E. Qed.

Ltac bpf_step :=
  first [erewrite run_Ret by reflexivity
      | erewrite run_LdH by (reflexivity || lia); case_decide
      | erewrite run_LdB by (reflexivity || lia); case_decide
      | erewrite run_Jeq by reflexivity; case_decide]; cbn [Nat.add].

(** The filter, with its jumps followed: within its fuel, and for every packet. *)
Lemma filter_result_eq pkt :
  filter_result pkt = Some (if decide (filter_selects pkt) then 0xFFFFFFFF else 0).
Proof using Type.
  unfold filter_result. change (length filter) with 13%nat.
  repeat bpf_step; apply f_equal;
    change (half pkt 12) with (ethertype pkt) in *;
    change (byte_at pkt 23) with (ip_proto pkt) in *;
    unfold filter_selects, udp4_9100, udp6_9100, ETH_P_IP, ETH_P_IPV6, IPPROTO_UDP in *;
    case_decide; (done || lia).
Qed.

(** The headers are all there, up to the end of the UDP header, and those of IPv4
    have no options. *)
Definition headers_complete pkt : Prop :=
  (ethertype pkt = 0x0800 -> ip_proto pkt = 17 -> 42 <= frame_len pkt /\ ip_ihl pkt = 5) /\
  (ethertype pkt = 0x86DD -> byte_at pkt 20 = 17 -> 62 <= frame_len pkt).

(** C34. The two packet backends count the same traffic. Take any frame; when it is
  UDP, let its headers be complete, and let an IPv4 header have no options. The
  classic BPF filter of the AF_PACKET backend accepts the frame when it is a UDP
  datagram for port 9100, over IPv4 or IPv6, and no other; and the XDP program of
  the AF_XDP backend redirects the same frames to the socket of the queue they
  came in on, and passes the others. On a queue without a socket, where the
  kernel has nowhere to redirect to, it passes all. *)
Theorem backends_agree pkt xsks q :
  bytes_ok pkt -> headers_complete pkt ->
  let accepted := bool_decide (udp4_9100 pkt \/ udp6_9100 pkt) in
  filter_result pkt = Some (if accepted then 0xFFFFFFFF else 0) /\
  falcon_xdp_redirect pkt xsks q = Some (if accepted && xsks q then Redirect q else Pass).
Proof using Type.
  intros Hok [H4 H6] accepted. rewrite filter_result_eq, xdp_redirect_exact by done.
  assert (xdp_selects pkt <-> udp4_9100 pkt \/ udp6_9100 pkt) as Hx
    by (unfold xdp_selects, udp4_9100, udp6_9100 in *; tauto).
  assert (filter_selects pkt <-> udp4_9100 pkt \/ udp6_9100 pkt) as Hf.
  { unfold filter_selects, udp4_9100, udp6_9100 in *. intuition lia. }
  unfold accepted. case_bool_decide as Ha; destruct (xsks q); cbn [andb]; split; repeat case_decide; naive_solver.
Qed.

(** The filter does not look at the length of the IPv4 header. With options
  present, it compares bytes 36 and 37 of the frame, which then lie in the
  options or before the UDP header, with the port: it accepts frames that
  the XDP program leaves to the stack, and rejects datagrams whose
  destination port is 9100. *)
Theorem filter_ignores_options pkt :
  bytes_ok pkt -> 62 <= frame_len pkt -> ethertype pkt = 0x0800 -> ip_proto pkt = 17 ->
  ip_ihl pkt <> 5 ->
  (half pkt 36 = 9100 -> filter_result pkt = Some 0xFFFFFFFF /\
   forall xsks q, falcon_xdp_redirect pkt xsks q = Some Pass) /\
  (half pkt (14 + ip_ihl pkt * 4 + 2) = 9100 -> half pkt 36 <> 9100 ->
   filter_result pkt = Some 0).
Proof using Type.
  intros Hok Hl He Hp Hi. rewrite filter_result_eq.
  split; [intros Hh; split|intros Hh Hn].
  - rewrite decide_True; [done|]. unfold filter_selects, udp4_9100. lia.
  - intros xsks q. rewrite xdp_redirect_exact, decide_False; [done| |done].
    unfold xdp_selects, udp4_9100, udp6_9100. lia.
  - rewrite decide_False; [done|]. unfold filter_selects, udp4_9100, udp6_9100. lia.
Qed.
End Props.

(** *** Witnesses *)

(** A 62-byte IPv4/UDP frame for port 9100, and the same with a 24-byte header. *)
Definition frame_9100 : list Z :=
  [255; 255; 255; 255; 255; 255; 2; 0; 0; 0; 0; 2; 8; 0;
   69; 0; 0; 48; 0; 0; 64; 0; 64; 17; 0; 0; 10; 0; 0; 2; 10; 0; 0; 1;
   195; 80; 35; 140; 0; 28; 0; 0] ++ replicate 20 0.
Definition frame_options : list Z := <[14%nat := 0x46]> frame_9100.

Lemma frame_9100_ok : bytes_ok frame_9100.
Proof. by apply (bool_decide_unpack _). Defined.

Lemma xdp_redirect_exact_witness :
  let _ := little in
  falcon_xdp_redirect frame_9100 (fun _ => true) 3 = Some (Redirect 3).
Proof.
  intros en. rewrite (xdp_redirect_exact frame_9100 (fun _ => true) 3 frame_9100_ok). reflexivity.
Defined.

(** A datagram of falcon-validate in a frame of 58 bytes, on a
    queue with a socket. *)
Lemma backends_agree_witness :
  let _ := little in
  filter_result (take 58 frame_9100) = Some 0xFFFFFFFF /\
  falcon_xdp_redirect (take 58 frame_9100) (fun _ => true) 3 = Some (Redirect 3).
Proof.
  intros en. apply (backends_agree (take 58 frame_9100) (fun _ => true) 3).
  - by apply (bool_decide_unpack _).
  - split; [intros _ _; split; [vm_compute; discriminate|reflexivity]|]. intros He. vm_compute in He. discriminate.
Defined.

Lemma filter_ignores_options_witness :
  let _ := little in
  (half frame_options 36 = 9100 -> filter_result frame_options = Some 0xFFFFFFFF /\
     forall xsks q, falcon_xdp_redirect frame_options xsks q = Some Pass) /\
  (half frame_options (14 + ip_ihl frame_options * 4 + 2) = 9100 -> half frame_options 36 <> 9100 ->
     filter_result frame_options = Some 0).
Proof.
  intros en. apply filter_ignores_options.
  - by apply (bool_decide_unpack _).
  - vm_compute. discriminate.
  - reflexivity.
  - reflexivity.
  - vm_compute. discriminate.
Defined.
