(* ===== verification/SocketRx.v ===== *)
(** * The UDP socket backend, [benchmark/src/backend/socket.cpp]

    [recvImpl] receives into [kBATCH] fixed buffers and hands out pointers to
    them: a [Frame] here is the index of its buffer and a length, and the bytes
    it stands for are those of the buffer when it is read. What the kernel
    answers to each [recvmmsg] is the [answer] list; where it ends, the socket
    is drained. [None] is a write outside the caller's array. *)

From S2P Require Import Prelude.

Module Socket.
Definition kBATCH : nat := 64.
Definition kBUFSIZE : nat := 2048.

(** struct Frame, with its pointer as the slot of [buffer_] it points at. *)
Record Frame := mkFrame { slot : nat; len_ : nat }.
#[global] Instance Frame_eq_dec : EqDecision Frame.
Proof. solve_decision. Defined.

(** struct PacketStats: [drops] is never written. *)
Record PacketStats := mkStats { packets : Z; bytes : Z }.

(** The state of the backend: [buffer_], cut into slots, and [stats_]. *)
Record t := mk { buffer_ : list (list Z); stats_ : PacketStats }.

(** What recvmmsg answers: datagrams of the socket's queue, one per buffer
  from the first on; nothing to read; or an error. *)
Inductive answer := Got (ds : list (list Z)) | Again | Fail.

(** What recvImpl does: return a count, or throw. *)
Inductive result := Returned (total : nat) | Thrown.

(** The kernel writes a datagram at the start of a buffer. *)
Definition fill (buf d : list Z) : list Z := d ++ drop (length d) buf.
Fixpoint fill_slots (bufs ds : list (list Z)) : list (list Z) :=
  match bufs, ds with
  | b :: bufs, d :: ds => fill b d :: fill_slots bufs ds
  | _, _ => bufs
  end.

(** What a buffer of [kBUFSIZE] bytes gets of each datagram, and [msg_len]
  counts: the kernel cuts the rest off. *)
Definition received (ds : list (list Z)) : list (list Z) := take kBUFSIZE <$> ds.

(** out[total + i] = Frame(...), for the datagrams of one recvmmsg. *)
Fixpoint store_frames (out : list Frame) (total i : nat) (ds : list (list Z)) :
  option (list Frame) :=
  match ds with
  | [] => Some out
  | d :: ds =>
    if Nat.ltb (total + i) (length out)
    then store_frames (<[(total + i)%nat := mkFrame i (length d)]> out) total (S i) ds
    else None
  end.

Definition count_stats (s : PacketStats) (ds : list (list Z)) : PacketStats :=
  mkStats (u64 (packets s + Z.of_nat (length ds)))
  (foldl (fun b d => u64 (b + Z.of_nat (length d))) (bytes s) ds).

Fixpoint recv_loop (answers : list answer) (max n total : nat) (out : list Frame) (s : t) :
  option (result * list Frame * t) :=
  match answers with
  | [] | Again :: _ => Some (Returned total, out, s)
  | Fail :: _ => Some (Thrown, out, s)
  | Got ds :: answers =>
    let ds := received ds in
    let buffer := fill_slots (buffer_ s) ds in
    out ← store_frames out total 0 ds;
    let total := (total + length ds)%nat in
    let s := mk buffer (count_stats (stats_ s) ds) in
    if Nat.ltb (length ds) n then Some (Returned total, out, s)
    else if Nat.leb max total then Some (Returned total, out, s)
    else recv_loop answers max n total out s
  end.

(** [ready]: the result of epoll_wait. *)
Definition recvImpl (ready : Z) (answers : list answer) (out : list Frame) (max : nat) (s : t) :
  option (result * list Frame * t) :=
  let n := Nat.min max kBATCH in
  if ready <=? 0 then Some (Returned 0, out, s) else recv_loop answers max n 0 out s.

(** The bytes a frame stands for, in a state of the buffers. *)
Definition deref (s : t) (f : Frame) : option (list Z) := take (len_ f) <$> buffer_ s !! slot f.

(** ** What the kernel guarantees *)

(** recvmmsg(fd, msgs, n, ...) fills between 1 and [n] buffers. *)
Definition answer_ok (n : nat) (a : answer) : Prop :=
  match a with
  | Got ds => (1 <= length ds <= n)%nat
  | _ => True
  end.

Definition state_ok (s : t) : Prop :=
  length (buffer_ s) = kBATCH /\ Forall (fun b => length b = kBUFSIZE) (buffer_ s).

(** ** Lemmas *)

Definition fits (d : list Z) : Prop := (length d <= kBUFSIZE)%nat.

Lemma length_received ds : length (received ds) = length ds.
Proof. apply length_fmap. Qed.

Lemma received_fits ds : Forall fits (received ds).
Proof. apply Forall_fmap, Forall_true. intros d. unfold fits, compose. rewrite length_take. lia. Qed.

Lemma received_id ds : Forall fits ds -> received ds = ds.
Proof.
  intros Hf. unfold received. rewrite <-(list_fmap_id ds) at 2.
  apply Forall_fmap_ext_1. eapply Forall_impl; [exact Hf|]. intros d Hd. by apply take_ge.
Qed.

Lemma received_lookup ds k d : ds !! k = Some d -> received ds !! k = Some (take kBUFSIZE d).
Proof. intros E. unfold received. by rewrite list_lookup_fmap, E. Qed.

Lemma length_fill_slots bufs ds : length (fill_slots bufs ds) = length bufs.
Proof. revert ds. induction bufs as [|b bufs IH]; intros [|d ds]; simpl; auto. Qed.

Lemma length_fill b d : (length d <= length b)%nat -> length (fill b d) = length b.
Proof. intros Hl. unfold fill. rewrite length_app, length_drop. lia. Qed.

Lemma fill_slots_ok bufs ds :
  Forall (fun b => length b = kBUFSIZE) bufs -> Forall fits ds ->
  Forall (fun b => length b = kBUFSIZE) (fill_slots bufs ds).
Proof.
  intros Hb. revert ds. induction Hb as [|b bufs Hb Hbs IH]; intros [|d ds] Hd; simpl; auto.
  apply Forall_cons in Hd as [Hd Hds]. constructor; [|by apply IH].
  rewrite length_fill; [done|]. unfold fits in Hd. lia.
Qed.

Lemma fill_slots_lookup bufs ds i b d :
  bufs !! i = Some b -> ds !! i = Some d -> fill_slots bufs ds !! i = Some (fill b d).
Proof.
  revert ds i. induction bufs as [|b' bufs IH]; intros [|d' ds] [|i] Hb Hd; simpl in *;
    try done; [congruence|by apply IH].
Qed.

Lemma take_fill b d : take (length d) (fill b d) = d.
Proof. unfold fill. apply take_app_length. Qed.

(** The frames of one batch. *)
Definition batch_frames (i : nat) (ds : list (list Z)) : list Frame :=
  imap (fun k d => mkFrame (i + k) (length d)) ds.

Lemma store_frames_ok out total i ds :
  (total + i + length ds <= length out)%nat ->
  exists out', store_frames out total i ds = Some out' /\ length out' = length out /\
  (forall k d, ds !! k = Some d -> out' !! (total + i + k)%nat = Some (mkFrame (i + k) (length d))) /\
  (forall j, (j < total + i)%nat -> out' !! j = out !! j).
Proof.
  revert out i. induction ds as [|d ds IH]; intros out i Hl; cbn [store_frames length] in *.
  { exists out. split_and!; done. }
  rewrite (proj2 (Nat.ltb_lt _ _)) by lia.
  destruct (IH (<[(total + i)%nat := mkFrame i (length d)]> out) (S i)) as (out' & E & Hlen & Hn & Ho).
  { rewrite length_insert. lia. }
  exists out'. split; [done|]. split; [by rewrite Hlen, length_insert|]. split.
  - intros [|k] d' Hd'; simpl in Hd'.
    + injection Hd' as ->. rewrite !Nat.add_0_r. rewrite Ho by lia.
      rewrite list_lookup_insert_eq by lia. done.
    + replace (total + i + S k)%nat with (total + S i + k)%nat by lia.
      rewrite (Hn k d' Hd'). do 2 f_equal. lia.
  - intros j Hj. rewrite Ho by lia. apply list_lookup_insert_ne. lia.
Qed.

Lemma store_frames_None out total i ds :
  (total + i <= length out)%nat -> (length out < total + i + length ds)%nat ->
  store_frames out total i ds = None.
Proof.
  revert out i. induction ds as [|d ds IH]; intros out i Hl Hs; cbn [store_frames length] in *; [lia|].
  destruct (Nat.ltb_spec (total + i) (length out)); [|done].
  apply IH; rewrite length_insert; lia.
Qed.

Lemma recv_Got ds answers max n total out s out' :
  store_frames out total 0 (received ds) = Some out' ->
  recv_loop (Got ds :: answers) max n total out s =
  let s' := mk (fill_slots (buffer_ s) (received ds)) (count_stats (stats_ s) (received ds)) in
  let total' := (total + length ds)%nat in
  if Nat.ltb (length ds) n || Nat.leb max total' then Some (Returned total', out', s')
  else recv_loop answers max n total' out' s'.
Proof.
  intros E. cbn [recv_loop]. rewrite E, length_received. cbn [mbind option_bind].
  by destruct (Nat.ltb (length ds) n), (Nat.leb max (total + length ds)).
Qed.

(** A frame of the last batch stands for its datagram. *)
Lemma deref_last s ds k d st :
  state_ok s -> ds !! k = Some d -> (length ds <= kBATCH)%nat ->
  deref (mk (fill_slots (buffer_ s) ds) st) (mkFrame k (length d)) = Some d.
Proof.
  intros [Hl _] Hd Hn. unfold deref. cbn [slot len_ buffer_].
  destruct (lookup_lt_is_Some_2 (buffer_ s) k) as [b Hb].
  { apply lookup_lt_Some in Hd. lia. }
  rewrite (fill_slots_lookup _ _ _ _ _ Hb Hd). cbn. by rewrite take_fill.
Qed.

Lemma recv_loop_bound answers max n total out s :
  (0 < n)%nat -> Forall (answer_ok n) answers -> (n | max)%nat -> (n | total)%nat ->
  (total < max)%nat -> (max <= length out)%nat ->
  exists r out' s', recv_loop answers max n total out s = Some (r, out', s') /\
  length out' = length out /\
  match r with Returned t => (t <= max)%nat | Thrown => True end.
Proof.
  intros Hn Hok Hmax. revert total out s.
  induction Hok as [|a answers Ha _ IH]; intros total out s Ht Hlt Hout.
  { eexists _, _, _. split; [done|]. split; [done|]. cbn. lia. }
  destruct a as [ds| |]; [|eexists _, _, _; split; [done|]; split; [done|]; cbn; lia..].
  simpl in Ha. rename Ha into Hds.
  assert (total + n <= max)%nat as Hroom.
  { destruct Hmax as [x ->], Ht as [y ->].
    assert (y < x)%nat by (apply (Nat.mul_lt_mono_pos_r n); lia).
    pose proof (Nat.mul_le_mono_r (S y) x n). lia. }
  destruct (store_frames_ok out total 0 (received ds)) as (out' & E & Hl & _);
    [rewrite length_received; lia|].
  rewrite (recv_Got _ _ _ _ _ _ _ _ E). cbv zeta.
  destruct (Nat.ltb_spec (length ds) n); cbn [orb].
  { eexists _, _, _. split; [done|]. split; [done|]. cbn. lia. }
  destruct (Nat.leb_spec max (total + length ds)).
  { eexists _, _, _. split; [done|]. split; [done|]. cbn. lia. }
  assert (length ds = n) as -> by lia.
  destruct (IH (total + n)%nat out' (mk (fill_slots (buffer_ s) (received ds)) (count_stats (stats_ s) (received ds))))
    as (r & out2 & s2 & E2 & Hl2 & Hr); [by apply Nat.divide_add_r|lia|lia|].
  exists r, out2, s2. split; [done|]. split; [congruence|done].
Qed.
Lemma fill_slots_beyond bufs ds i : (length ds <= i)%nat -> fill_slots bufs ds !! i = bufs !! i.
Proof.
  revert bufs i. induction ds as [|d ds IH]; intros [|b bufs] [|i] Hi; simpl in *; try done; try lia.
  apply IH. lia.
Qed.

(** Two batches in one receive: the frames handed out, and the buffers. *)
Lemma recv_two_batches ready b1 b2 answers out max s :
  0 < ready -> (64 < max)%nat -> (max <= length out)%nat ->
  length b1 = 64%nat -> (0 < length b2 < 64)%nat -> (64 + length b2 <= max)%nat ->
  exists out' st, recvImpl ready (Got b1 :: Got b2 :: answers) out max s =
    Some (Returned (64 + length b2), out',
          mk (fill_slots (fill_slots (buffer_ s) (received b1)) (received b2)) st) /\
  length out' = length out /\
  (forall k d, received b1 !! k = Some d -> out' !! k = Some (mkFrame k (length d))) /\
  (forall k d, received b2 !! k = Some d -> out' !! (64 + k)%nat = Some (mkFrame k (length d))).
Proof.
  intros Hr Hm Ho H1 H2 Hroom. unfold recvImpl. rewrite (proj2 (Z.leb_gt _ _)) by lia.
  assert (Nat.min max kBATCH = 64%nat) as -> by (unfold kBATCH; lia).
  pose proof (length_received b1) as L1'. pose proof (length_received b2) as L2'.
  destruct (store_frames_ok out 0 0 (received b1)) as (o1 & E1 & L1 & N1 & _); [lia|].
  rewrite (recv_Got _ _ _ _ _ _ _ _ E1). cbv zeta. cbn [Nat.add]. rewrite ?length_received, H1.
  assert (Nat.ltb 64 64 || Nat.leb max 64 = false) as ->.
  { apply orb_false_iff. split; [done|]. apply Nat.leb_gt. lia. }
  destruct (store_frames_ok o1 64 0 (received b2)) as (o2 & E2 & L2 & N2 & O2); [lia|].
  rewrite (recv_Got _ _ _ _ _ _ _ _ E2). cbv zeta.
  rewrite (proj2 (Nat.ltb_lt _ _)) by lia. cbn [orb buffer_].
  eexists _, _. split; [done|]. split; [congruence|]. split.
  - intros k d Hd. assert (k < 64)%nat by (apply lookup_lt_Some in Hd; lia).
    rewrite O2 by lia. by apply (N1 k d).
  - intros k d Hd. replace (64 + k)%nat with (64 + 0 + k)%nat by lia. by apply (N2 k d).
Qed.

Lemma deref_fill bufs ds k b d st :
  bufs !! k = Some b -> ds !! k = Some d ->
  deref (mk (fill_slots bufs ds) st) (mkFrame k (length d)) = Some d.
Proof.
  intros Hb Hd. unfold deref. cbn [slot len_ buffer_].
  rewrite (fill_slots_lookup _ _ _ _ _ Hb Hd). cbn. by rewrite take_fill.
Qed.

Lemma deref_two_batches bufs b1 b2 st out :
  length bufs = 64%nat -> length b1 = 64%nat -> (length b2 < 64)%nat ->
  (forall d1 d2, d1 ∈ b1 -> d2 ∈ b2 -> length d1 = length d2) ->
  (64 + length b2 <= length out)%nat ->
  (forall k d, b1 !! k = Some d -> out !! k = Some (mkFrame k (length d))) ->
  (forall k d, b2 !! k = Some d -> out !! (64 + k)%nat = Some (mkFrame k (length d))) ->
  mapM (deref (mk (fill_slots (fill_slots bufs b1) b2) st)) (take (64 + length b2) out) =
  Some (b2 ++ drop (length b2) b1 ++ b2).
Proof.
  intros Hb H1 H2 Hlen Ho N1 N2. apply mapM_Some, Forall2_same_length_lookup. split.
  { rewrite length_take, !length_app, length_drop. lia. }
  intros i f d Hf Hd. rewrite lookup_take_Some in Hf. destruct Hf as [Hf Hi].
  assert (forall k d, b2 !! k = Some d ->
    deref (mk (fill_slots (fill_slots bufs b1) b2) st) (mkFrame k (length d)) = Some d) as D2.
  { intros k d' Hk. assert (k < 64)%nat by (apply lookup_lt_Some in Hk; lia).
    destruct (lookup_lt_is_Some_2 (fill_slots bufs b1) k) as [b Hbk];
      [rewrite length_fill_slots; lia|]. by eapply deref_fill. }
  destruct (decide (i < length b2)%nat) as [Hi2|Hi2].
  - rewrite lookup_app_l in Hd by done. destruct (lookup_lt_is_Some_2 b1 i) as [d1 Hd1]; [lia|].
    rewrite (N1 i d1 Hd1) in Hf. injection Hf as <-.
    rewrite (Hlen d1 d) by (by eapply list_elem_of_lookup_2). by apply D2.
  - rewrite lookup_app_r in Hd by lia.
    destruct (decide (i < 64)%nat) as [Hi1|Hi1].
    + rewrite lookup_app_l in Hd by (rewrite length_drop; lia). rewrite lookup_drop in Hd.
      replace (length b2 + (i - length b2))%nat with i in Hd by lia.
      rewrite (N1 i d Hd) in Hf. injection Hf as <-.
      unfold deref. cbn [slot len_ buffer_]. rewrite fill_slots_beyond by lia.
      destruct (lookup_lt_is_Some_2 bufs i) as [b Hbi]; [lia|].
      rewrite (fill_slots_lookup _ _ _ _ _ Hbi Hd). cbn. by rewrite take_fill.
    + rewrite lookup_app_r, length_drop in Hd by (rewrite length_drop; lia).
      replace (i - length b2 - (length b1 - length b2))%nat with (i - 64)%nat in Hd by lia.
      pose proof (N2 _ _ Hd) as Hf'. replace (64 + (i - 64))%nat with i in Hf' by lia.
      rewrite Hf' in Hf. injection Hf as <-. by apply D2.
Qed.

End Socket.

Import Socket.

(** C39. A receive of at most one batch delivers the datagrams. With room for at
    most 64 frames, [recv] returns the number of datagrams the kernel had, and
    the frames it hands out are those datagrams, in order, each whole, or cut
    to the 2048 bytes of a buffer when it is longer; the statistics grow by
    their number. *)
Theorem socket_recv_batch ready ds answers out max s :
  0 < ready -> (0 < max <= 64)%nat -> (max <= length out)%nat -> state_ok s ->
  answer_ok max (Got ds) ->
  exists out' s', recvImpl ready (Got ds :: answers) out max s =
      Some (Returned (length ds), out', s') /\ state_ok s' /\
    (forall k d, ds !! k = Some d ->
       exists f, out' !! k = Some f /\ deref s' f = Some (take 2048 d)) /\
    packets (stats_ s') = u64 (packets (stats_ s) + Z.of_nat (length ds)).
Proof.
  intros Hr Hm Ho Hs Hds. simpl in Hds. unfold recvImpl. rewrite (proj2 (Z.leb_gt _ _)) by lia.
  assert (Nat.min max kBATCH = max) as -> by (unfold kBATCH; lia).
  destruct (store_frames_ok out 0 0 (received ds)) as (out' & E & Hl & Hn & _);
    [rewrite length_received; lia|].
  rewrite (recv_Got _ _ _ _ _ _ _ _ E). cbv zeta. cbn [Nat.add].
  assert (Nat.ltb (length ds) max || Nat.leb max (length ds) = true) as ->.
  { destruct (Nat.ltb_spec (length ds) max); [done|]. by apply Nat.leb_le. }
  eexists _, _. split; [done|]. split.
  { destruct Hs as [Hs1 Hs2]. split; cbn [buffer_];
      [by rewrite length_fill_slots|by apply fill_slots_ok; [|apply received_fits]]. }
  split; [|cbn; by rewrite length_received].
  intros k d Hd%received_lookup. exists (mkFrame k (length (take kBUFSIZE d))).
  split; [by apply (Hn k)|].
  apply deref_last; [done|done|rewrite length_received; unfold kBATCH; lia].
Qed.

(** [recv] stays inside the caller's array, and returns at most [max], when
    [max] is a multiple of 64 or less than 64, as it is in every caller. *)
Theorem socket_recv_bounds ready answers out max s :
  (0 < max)%nat -> (max <= 64 \/ (64 | max))%nat -> (max <= length out)%nat ->
  Forall (answer_ok (Nat.min max 64)) answers ->
  exists r out' s', recvImpl ready answers out max s = Some (r, out', s') /\
    length out' = length out /\
    match r with Returned t => (t <= max)%nat | Thrown => True end.
Proof.
  intros Hm Hdiv Ho Hok. unfold recvImpl. case_bool.
  { eexists _, _, _. split; [done|]. split; [done|]. cbn. lia. }
  apply recv_loop_bound; [unfold kBATCH; lia|done| |apply Nat.divide_0_r|lia|done].
  unfold kBATCH. destruct Hdiv as [Hle|Hd].
  - by rewrite Nat.min_l.
  - rewrite Nat.min_r; [done|]. destruct Hd as [x ->]. nia.
Qed.

(** A receive of more than one batch loses datagrams. The buffers of the
    first batch are used again for the second: when 64 datagrams and then
    fewer than 64 more, all of one size, are read in one [recv], its frames
    read back as the second batch, the rest of the first, and the second batch
    again. As many datagrams as the second batch has are gone, and replaced by
    duplicates. *)
Theorem socket_recv_aliases ready b1 b2 answers out max s :
  0 < ready -> (64 < max)%nat -> (max <= length out)%nat -> state_ok s ->
  length b1 = 64%nat -> (0 < length b2 < 64)%nat -> (64 + length b2 <= max)%nat ->
  (forall d1 d2, d1 ∈ b1 -> d2 ∈ b2 -> length d1 = length d2) ->
  exists out' s', recvImpl ready (Got b1 :: Got b2 :: answers) out max s =
      Some (Returned (64 + length b2), out', s') /\
    mapM (deref s') (take (64 + length b2) out') =
      Some (received (b2 ++ drop (length b2) b1 ++ b2)).
Proof.
  intros Hr Hm Ho [Hs _] H1 H2 Hroom Hlen.
  destruct (recv_two_batches ready b1 b2 answers out max s)
    as (out' & st & E & Hl & N1 & N2); [done..|].
  eexists _, _. split; [exact E|]. unfold received. rewrite !fmap_app, fmap_drop.
  fold (received b1) (received b2). rewrite <-(length_received b2).
  apply deref_two_batches; rewrite ?length_received; try (done || lia).
  intros ? ? (d1 & -> & H1')%list_elem_of_fmap (d2 & -> & H2')%list_elem_of_fmap.
  by rewrite !length_take, (Hlen d1 d2).
Qed.

(** With any other [max] above 64, [recv] can write past the caller's
    array: each [recvmmsg] asks for 64 datagrams however little room is left. *)
Theorem socket_recv_overrun ready b1 b2 answers out max s :
  0 < ready -> (64 < max)%nat -> length out = max -> length b1 = 64%nat ->
  (max < 64 + length b2)%nat ->
  recvImpl ready (Got b1 :: Got b2 :: answers) out max s = None.
Proof.
  intros Hr Hm Ho H1 H2. unfold recvImpl. rewrite (proj2 (Z.leb_gt _ _)) by lia.
  assert (Nat.min max kBATCH = 64%nat) as -> by (unfold kBATCH; lia).
  pose proof (length_received b1) as L1'. pose proof (length_received b2) as L2'.
  destruct (store_frames_ok out 0 0 (received b1)) as (o1 & E1 & L1 & _ & _); [lia|].
  rewrite (recv_Got _ _ _ _ _ _ _ _ E1). cbv zeta. cbn [Nat.add]. rewrite ?length_received, H1.
  assert (Nat.ltb 64 64 || Nat.leb max 64 = false) as ->.
  { apply orb_false_iff. split; [done|]. apply Nat.leb_gt. lia. }
  cbn [recv_loop]. rewrite store_frames_None by lia. done.
Qed.

(** *** Witnesses *)

Definition demo_sock : t := mk (replicate 64 (replicate 2048 0)) (mkStats 0 0).
Definition demo_out (n : nat) : list Frame := replicate n (mkFrame 0 0).

Lemma demo_sock_ok : state_ok demo_sock.
Proof.
  unfold state_ok, demo_sock. cbn [buffer_]. split; [by rewrite length_replicate|].
  apply Forall_replicate. by rewrite length_replicate.
Defined.

(** [n] one-byte datagrams. *)
Definition demo_batch (n : nat) (b : Z) : list (list Z) := replicate n [b].
(** Three datagrams: 1 byte, 2049 bytes and none. *)
Definition demo_mixed : list (list Z) := [[7]; replicate 2049 9; []].

Lemma socket_recv_batch_witness :
  exists out' s', recvImpl 1 [Got demo_mixed] (demo_out 64) 64 demo_sock =
      Some (Returned 3, out', s') /\ state_ok s' /\
    (forall k d, demo_mixed !! k = Some d ->
       exists f, out' !! k = Some f /\ deref s' f = Some (take 2048 d)) /\
    packets (stats_ s') = u64 (0 + 3).
Proof.
  apply (socket_recv_batch 1 demo_mixed [] (demo_out 64) 64 demo_sock).
  - lia.
  - lia.
  - unfold demo_out. rewrite length_replicate. lia.
  - exact demo_sock_ok.
  - cbn. lia.
Defined.

Lemma socket_recv_bounds_witness :
  exists r out' s', recvImpl 1 [Got (demo_batch 64 7)] (demo_out 256) 256 demo_sock
      = Some (r, out', s') /\
    length out' = length (demo_out 256) /\
    match r with Returned t => (t <= 256)%nat | Thrown => True end.
Proof.
  apply (socket_recv_bounds 1 [Got (demo_batch 64 7)] (demo_out 256) 256 demo_sock).
  - lia.
  - right. by exists 4%nat.
  - unfold demo_out. rewrite length_replicate. lia.
  - constructor; [|constructor]. unfold demo_batch, answer_ok. rewrite length_replicate. lia.
Defined.

Lemma socket_recv_aliases_witness :
  exists out' s', recvImpl 1 [Got (demo_batch 64 7); Got (demo_batch 3 8)] (demo_out 256) 256 demo_sock
      = Some (Returned 67, out', s') /\
    mapM (deref s') (take 67 out') =
      Some (received (demo_batch 3 8 ++ drop 3 (demo_batch 64 7) ++ demo_batch 3 8)).
Proof.
  apply (socket_recv_aliases 1 (demo_batch 64 7) (demo_batch 3 8) [] (demo_out 256) 256 demo_sock).
  - lia.
  - lia.
  - unfold demo_out. rewrite length_replicate. lia.
  - exact demo_sock_ok.
  - reflexivity.
  - simpl. lia.
  - simpl. lia.
  - intros d1 d2 [-> _]%elem_of_replicate [-> _]%elem_of_replicate. reflexivity.
Defined.

Lemma socket_recv_overrun_witness :
  recvImpl 1 [Got (demo_batch 64 7); Got (demo_batch 64 8)] (demo_out 100) 100 demo_sock = None.
Proof.
  apply (socket_recv_overrun 1 (demo_batch 64 7) (demo_batch 64 8) [] (demo_out 100) 100).
  - lia.
  - lia.
  - reflexivity.
  - reflexivity.
  - simpl. lia.
Defined.
