(* ===== verification/Validate.v ===== *)
(** * Sequenced validation, [benchmark/bench/validate.cpp]

    [transmit] sends numbered datagrams; [receive] checks that each number
    arrives exactly once. A received frame is its bytes, at position 0 of its
    own memory; a batch is what one [recv] returned, and the list of batches
    ends at the deadline. [None] is a read outside a frame. What a frame
    carries is specified apart from the program's way to it, as [number]. *)

From S2P Require Import Prelude FwProg FwSpec Parser SocketRx.

Definition kMagic : Z := 0x46414C43.
Definition kHeaderSize : Z := 16.

Section Validate.
Context `{Endian}.

(** ** The sender *)

(** struct ValidationHeader, packed, with its reserved field zero. *)
Definition header_bytes (sequence : Z) : list Z :=
  host_bytes 4 (htonl kMagic) ++ host_bytes 8 (htobe64 sequence) ++ host_bytes 4 0.

(** The datagrams of transmit, when every send succeeds. *)
Definition transmit (count : Z) : list (list Z) := header_bytes <$> seqZ 0 count.

(** ** The receiver *)

(** payload: [Some None] for the null pointer; otherwise the position of the
  payload and its length. *)
Definition payload (m : list Z) (data length : Z) (layer : FrameLayer) : option (option (Z * Z)) :=
  match layer with
  | kL4Payload => Some (Some (data, length))
  | kL2Ethernet =>
    match parse_ethernet data length with
    | None => Some None
    | Some cursor =>
        ethertype ← EtherHdr.ethertype m data;
        if negb (ntohs ethertype =? kEthTypeIpv4) then Some None else
        let ip := cursor in
        r ← parse_ipv4 m cursor (size_sub length EtherHdr.kSize);
        match r with
        | None => Some None
        | Some cursor =>
            protocol ← Ipv4Hdr.protocol m ip;
            if negb (protocol =? kProtoUdp) then Some None else
            version_ihl ← Ipv4Hdr.version_ihl m ip;
            let udp := cursor in
            match parse_udp cursor (size_sub (size_sub length EtherHdr.kSize)
                                      (Ipv4Hdr.header_len version_ihl)) with
            | None => Some None
            | Some cursor =>
                len ← UdpHdr.len_ m udp;
                Some (Some (cursor, size_sub (ntohs len) UdpHdr.kSize))
            end
        end
    end
  end.

(** The sequence number of a frame; [Some None] when it is counted invalid. *)
Definition decode (layer : FrameLayer) (expected : Z) (pkt : list Z) : option (option Z) :=
  r ← payload pkt 0 (frame_len pkt) layer;
  match r with
  | None => Some None
  | Some (bytes, payload_length) =>
    if payload_length <? kHeaderSize then Some None else
    header ← load_bytes pkt bytes 16;
    magic ← load_int 4 header 0;
    seq ← load_int 8 header 4;
    let sequence := be64toh seq in
    if negb (ntohl magic =? kMagic) || (expected <=? sequence) then Some None
    else Some (Some sequence)
  end.
End Validate.

(** The local variables of receive. *)
Record tally := Tally {
  seen : list bool;
  valid : Z;
  duplicates : Z;
  reordered : Z;
  invalid : Z;
  highest : Z;
  have_highest : bool;
}.

Definition tally0 (expected : Z) : tally :=
  Tally (replicate (Z.to_nat expected) false) 0 0 0 0 0 false.

(** What the body of the inner loop does with a decoded frame. *)
Definition tally_step (t : tally) (d : option Z) : tally :=
  match d with
  | None =>
      Tally (seen t) (valid t) (duplicates t) (reordered t) (u64 (invalid t + 1))
        (highest t) (have_highest t)
  | Some sequence =>
      if default false (seen t !! Z.to_nat sequence) then
        Tally (seen t) (valid t) (u64 (duplicates t + 1)) (reordered t) (invalid t)
          (highest t) (have_highest t)
      else
        Tally (<[Z.to_nat sequence := true]> (seen t)) (u64 (valid t + 1)) (duplicates t)
          (if have_highest t && (sequence <? highest t) then u64 (reordered t + 1)
           else reordered t)
          (invalid t)
          (if have_highest t then Z.max (highest t) sequence else sequence)
          true
  end.

(** The printed total and the exit code. *)
Definition missing (expected : Z) (t : tally) : Z := u64 (expected - valid t).
Definition exit_code (expected : Z) (t : tally) : Z :=
  if (missing expected t =? 0) && (duplicates t =? 0) && (invalid t =? 0) then 0 else 2.

Section Receive.
Context `{Endian} (layer : FrameLayer) (expected : Z).

(** The inner loop over one batch. *)
Fixpoint batch_loop (pkts : list (list Z)) (t : tally) : option tally :=
  match pkts with
  | [] => Some t
  | pkt :: pkts => d ← decode layer expected pkt; batch_loop pkts (tally_step t d)
  end.

(** The outer loop, until the deadline or until everything was received. *)
Fixpoint receive_loop (batches : list (list (list Z))) (t : tally) : option tally :=
  match batches with
  | [] => Some t
  | b :: batches =>
    if valid t <? expected then t ← batch_loop b t; receive_loop batches t else Some t
  end.

Definition receive (batches : list (list (list Z))) : option Z :=
  t ← receive_loop batches (tally0 expected);
  Some (exit_code expected t).
End Receive.

(** ** The tally of a sequence of decoded frames *)

Section Tally.
Context (expected : Z).
Implicit Types (ds : list (option Z)) (t : tally).

Definition decoded_ok (d : option Z) : Prop := forall s, d = Some s -> 0 <= s < expected.

(** The frames so far are distinct numbers. *)
Definition all_distinct ds : Prop := exists p, ds = Some <$> p /\ NoDup p.

Record tally_of ds t : Prop := {
  to_len : length (seen t) = Z.to_nat expected;
  to_seen s : 0 <= s -> seen t !! Z.to_nat s = Some true <-> Some s ∈ ds;
  to_sum : valid t + duplicates t + invalid t = Z.of_nat (length ds);
  to_pos : 0 <= valid t /\ 0 <= duplicates t /\ 0 <= invalid t;
  to_clean : duplicates t = 0 /\ invalid t = 0 <-> all_distinct ds;
}.

Lemma all_distinct_snoc ds d :
  all_distinct (ds ++ [d]) <-> all_distinct ds /\ exists s, d = Some s /\ d ∉ ds.
Proof.
  unfold all_distinct. split.
  - intros (p & E & Hp). destruct p as [|s p _] using rev_ind.
    { by destruct ds. }
    rewrite fmap_app in E. apply app_inj_tail in E as [-> ->].
    apply NoDup_app in Hp as (Hp & Hs & _). split; [by exists p|]. exists s. split; [done|].
    intros (s' & [= <-] & Hin)%list_elem_of_fmap. eapply Hs; [done|left].
  - intros [(p & -> & Hp) (s & -> & Hs)]. exists (p ++ [s]). split; [by rewrite fmap_app|].
    apply NoDup_app. split; [done|]. split; [|apply NoDup_singleton].
    intros x Hx ->%list_elem_of_singleton. apply Hs. by apply list_elem_of_fmap_2.
Qed.

Lemma tally0_of : tally_of [] (tally0 expected).
Proof.
  split; cbn; [by rewrite length_replicate| |lia|lia|].
  - intros s Hs. split; [|by intros ?%not_elem_of_nil].
    intros Hl. apply lookup_replicate in Hl as [? _]. done.
  - split; [|done]. intros _. exists []. split; [done|apply NoDup_nil_2].
Qed.

Lemma tally_step_of ds t d :
  tally_of ds t -> decoded_ok d -> Z.of_nat (length ds) < 2 ^ 64 - 1 ->
  tally_of (ds ++ [d]) (tally_step t d).
Proof.
  intros [Hl Hs Hsum (Hv & Hd & Hi) Hc] Hok Hn.
  assert (forall x, 0 <= x <= Z.of_nat (length ds) -> u64 (x + 1) = x + 1) as Hu
    by (intros; apply wrap_small; unfold uint_ok; lia).
  assert (Z.of_nat (length (ds ++ [d])) = Z.of_nat (length ds) + 1) as Hlen
    by (rewrite length_app; simpl; lia).
  unfold tally_step. destruct d as [s|].
  2:{ split; cbn [seen valid duplicates invalid]; rewrite ?Hlen, ?Hu by lia; [done| |lia|lia|].
  - intros s' Hs'. rewrite Hs by done. set_solver.
  - rewrite all_distinct_snoc. split; [lia|]. by intros [_ (? & ? & _)]. }
  destruct (Hok s eq_refl) as [Hs0 Hs1].
  destruct (lookup_lt_is_Some_2 (seen t) (Z.to_nat s)) as [b Hb]; [lia|].
  rewrite Hb. change (default false (Some b)) with b. destruct b.
  - assert (Some s ∈ ds) as Hin by by apply Hs.
    split; cbn [seen valid duplicates invalid]; rewrite ?Hlen, ?Hu by lia; [done| |lia|lia|].
    + intros s' Hs'. rewrite Hs by done. set_solver.
    + rewrite all_distinct_snoc. split; [lia|]. by intros [_ (? & _ & ?)].
  - assert (Some s ∉ ds) as Hin by (rewrite <-Hs by done; by rewrite Hb).
    split; cbn [seen valid duplicates invalid]; rewrite ?Hlen, ?Hu by lia; [| |lia|lia|].
    + by rewrite length_insert.
    + intros s' Hs'. destruct (decide (s = s')) as [<-|Hne].
      * rewrite list_lookup_insert_eq by lia. set_solver.
      * rewrite list_lookup_insert_ne by lia. rewrite Hs by done. set_solver.
    + rewrite Hc, all_distinct_snoc. naive_solver.
Qed.

Lemma tally_foldl ds' ds t :
  tally_of ds t -> Forall decoded_ok ds' -> Z.of_nat (length ds + length ds') < 2 ^ 64 ->
  tally_of (ds ++ ds') (foldl tally_step t ds').
Proof.
  intros Ht Hok. revert ds t Ht. induction Hok as [|d ds' Hd _ IH]; intros ds t Ht Hn.
  { by rewrite app_nil_r. }
  cbn [length] in Hn. rewrite cons_middle, app_assoc. apply IH.
  - apply tally_step_of; [done|done|lia].
  - rewrite length_app. simpl. lia.
Qed.
End Tally.

(** ** The verdict *)

Section Verdict.
Context `{Endian} (layer : FrameLayer) (expected : Z).
Implicit Types (batches : list (list (list Z))) (dss : list (list (option Z))).

Lemma decode_ok pkt d : bytes_ok pkt -> decode layer expected pkt = Some d -> decoded_ok expected d.
Proof using Type.
  intros Hok E s ->. unfold decode in E.
  destruct (payload _ _ _ _) as [[[bytes len]|]|]; cbn [mbind option_bind] in E; try done.
  destruct (len <? kHeaderSize); [done|].
  destruct (load_bytes pkt bytes 16) as [hd|] eqn:Eh; cbn [mbind option_bind] in E; [|done].
  destruct (load_int 4 hd 0); cbn [mbind option_bind] in E; [|done].
  destruct (load_int 8 hd 4) as [seq|] eqn:Es; cbn [mbind option_bind] in E; [|done].
  destruct (negb _); cbn [orb] in E; [done|].
  destruct (Z.leb_spec expected (be64toh seq)); [done|]. injection E as <-.
  apply load_bytes_inv in Eh as (_ & _ & ->).
  unfold load_int in Es. apply fmap_Some in Es as (bs & Eb & ->).
  apply load_bytes_inv in Eb as (Hb1 & Hb2 & ->).
  pose proof (host_int_range (sub (sub pkt bytes 16) 4 8)) as Hr.
  rewrite length_sub in Hr by lia.
  pose proof (hton_range 8 _ (Hr (sub_ok _ _ _ (sub_ok _ _ _ Hok)))) as Hx.
  unfold be64toh in *. unfold uint_ok in Hx. lia.
Qed.

Lemma batch_loop_foldl b ds t :
  mapM (decode layer expected) b = Some ds ->
  batch_loop layer expected b t = Some (foldl tally_step t ds).
Proof using Type.
  revert ds t. induction b as [|pkt b IH]; intros ds t E; [by injection E as <-|].
  apply mapM_Some in E. inversion E as [|? d ? ds' Ed Eds]; subst.
  cbn [batch_loop foldl]. rewrite Ed. cbn [mbind option_bind]. apply IH. by apply mapM_Some.
Qed.

(** [receive] processes a prefix of the batches: all of them, or the first
  after which everything was received. *)
Lemma receive_loop_prefix batches dss t :
  mapM (mapM (decode layer expected)) batches = Some dss ->
  exists k, (k <= length dss)%nat /\
  receive_loop layer expected batches t = Some (foldl tally_step t (concat (take k dss))) /\
  (k = length dss \/ expected <= valid (foldl tally_step t (concat (take k dss)))) /\
  forall j, (j < k)%nat -> valid (foldl tally_step t (concat (take j dss))) < expected.
Proof using Type.
  revert dss t. induction batches as [|b batches IH]; intros dss t E.
  { injection E as <-. exists 0%nat. cbn. split_and!; [lia|done|by left|lia]. }
  apply mapM_Some in E. inversion E as [|? ds ? dss' Ed Eds]; subst.
  cbn [receive_loop]. destruct (Z.ltb_spec (valid t) expected) as [Hv|Hv].
  2:{ exists 0%nat. cbn. split_and!; [lia|done|by right|lia]. }
  rewrite (batch_loop_foldl b ds t Ed). cbn [mbind option_bind].
  destruct (IH dss' (foldl tally_step t ds)) as (k & Hk & El & Hend & Hj); [by apply mapM_Some|].
  exists (S k). cbn [length take concat]. rewrite foldl_app. split_and!; [lia|done| |].
  - destruct Hend as [->|?]; [by left|by right].
  - intros [|j] Hlt; cbn [take concat]; [done|]. rewrite foldl_app. apply Hj. lia.
Qed.

(** Distinct numbers below [expected], as many as there are: all of them. *)
Lemma perm_of_distinct (p : list Z) :
  NoDup p -> (forall s, s ∈ p -> 0 <= s < expected) -> Z.of_nat (length p) = Z.max 0 expected ->
  p ≡ₚ seqZ 0 expected.
Proof using Type.
  intros Hp Hin Hl. apply submseteq_length_Permutation.
  - apply NoDup_submseteq; [done|]. intros s Hs%Hin. apply elem_of_seqZ. lia.
  - rewrite length_seqZ. lia.
Qed.

Lemma decode_all batches dss :
  mapM (mapM (decode layer expected)) batches = Some dss -> Forall (Forall bytes_ok) batches ->
  Forall (decoded_ok expected) (concat dss).
Proof using Type.
  intros E%mapM_Some Hok. induction E as [|b ds batches dss Eb _ IH]; cbn [concat]; [constructor|].
  apply Forall_cons in Hok as [Hb Hok]. apply Forall_app. split; [|by apply IH].
  apply mapM_Some in Eb. clear -Eb Hb. induction Eb as [|pkt d b ds Ed _ IH]; [constructor|].
  apply Forall_cons in Hb as [Hp Hb]. constructor; [by eapply decode_ok|by apply IH].
Qed.

Lemma valid_of_perm ds t :
  0 <= expected < 2 ^ 64 -> Z.of_nat (length ds) < 2 ^ 64 -> Forall (decoded_ok expected) ds ->
  tally_of expected ds t -> ds ≡ₚ Some <$> seqZ 0 expected -> valid t = expected.
Proof using Type.
  intros He Hn Hok [Hl Hs Hsum Hpos Hc] Hperm.
  assert (all_distinct ds) as Hd.
  { destruct (Permutation_map_inv _ _ Hperm) as (p & -> & Hp). exists p. split; [done|].
    rewrite <-Hp. apply NoDup_seqZ. }
  pose proof (proj2 Hc Hd) as [? ?].
  apply Permutation_length in Hperm. rewrite length_fmap, length_seqZ in Hperm. lia.
Qed.

Lemma exit_code_spec ds t :
  0 <= expected < 2 ^ 64 -> Z.of_nat (length ds) < 2 ^ 64 -> Forall (decoded_ok expected) ds ->
  tally_of expected ds t ->
  (exit_code expected t = 0 <-> ds ≡ₚ Some <$> seqZ 0 expected) /\
  (exit_code expected t = 0 \/ exit_code expected t = 2).
Proof using Type.
  intros He Hn Hok [Hl Hs Hsum Hpos Hc]. unfold exit_code, missing. split.
  2:{ destruct (_ && _); auto. }
  assert (forall s, Some s ∈ ds -> 0 <= s < expected) as Hrange.
  { intros s Hin. rewrite Forall_forall in Hok. by apply (Hok (Some s)). }
  assert (u64 (expected - valid t) = 0 <-> valid t = expected) as Hm.
  { unfold u64, wrap. rewrite Z.mod_divide by lia. split; [|intros ->; exists 0; lia].
    intros [x Hx]. nia. }
  transitivity (valid t = expected /\ all_distinct ds).
  { rewrite <-Hc, <-Hm. destruct (Z.eqb_spec (u64 (expected - valid t)) 0),
      (Z.eqb_spec (duplicates t) 0), (Z.eqb_spec (invalid t) 0); cbn [andb]; lia. }
  split.
  - intros [Hv Hd]. pose proof (proj2 Hc Hd) as [? ?]. destruct Hd as (p & -> & Hp).
    apply fmap_Permutation, perm_of_distinct; [done| |rewrite length_fmap in Hsum; lia].
    intros s Hin. apply Hrange. by apply list_elem_of_fmap_2.
  - intros Hperm. split; [by eapply valid_of_perm|].
    destruct (Permutation_map_inv _ _ Hperm) as (p & -> & Hp). exists p. split; [done|].
    rewrite <-Hp. apply NoDup_seqZ.
Qed.

Lemma concat_take_le {A} (l : list (list A)) j k :
  (j <= k)%nat -> exists r, concat (take k l) = concat (take j l) ++ r.
Proof using Type.
  intros Hjk. exists (concat (take (k - j) (drop j l))).
  rewrite <-concat_app, take_take_drop. by replace (j + (k - j))%nat with k by lia.
Qed.
End Verdict.

Section ValidateProps.
Context `{Endian} (layer : FrameLayer) (expected : Z).
Implicit Types (batches : list (list (list Z))) (dss : list (list (option Z))).

Lemma receive_exact batches dss :
  0 <= expected < 2 ^ 64 ->
  mapM (mapM (decode layer expected)) batches = Some dss ->
  Forall (Forall bytes_ok) batches -> Z.of_nat (length (concat dss)) < 2 ^ 64 ->
  exists code, receive layer expected batches = Some code /\ (code = 0 \/ code = 2) /\
  (code = 0 <-> exists k, (k <= length dss)%nat /\
                  concat (take k dss) ≡ₚ Some <$> seqZ 0 expected).
Proof using Type.
  intros He Hd Hok Hn. unfold receive.
  destruct (receive_loop_prefix layer expected batches dss (tally0 expected) Hd)
    as (k & Hk & -> & Hend & Hj). cbn [mbind option_bind].
  assert (Forall (decoded_ok expected) (concat dss)) as Hall by (by eapply decode_all).
  assert (forall j, tally_of expected (concat (take j dss))
    (foldl tally_step (tally0 expected) (concat (take j dss))) /\
    Z.of_nat (length (concat (take j dss))) < 2 ^ 64 /\
    Forall (decoded_ok expected) (concat (take j dss))) as Ht.
  { intros j. destruct (concat_take_le dss j (length dss + j)) as [r Er]; [lia|].
    rewrite take_ge in Er by lia. rewrite Er, length_app in Hn. rewrite Er in Hall.
    apply Forall_app in Hall as [Hall _].
    split_and!; [|lia|done].
    apply (tally_foldl expected (concat (take j dss)) []); [apply tally0_of|done|].
    cbn [length]. lia. }
  eexists. split; [done|]. destruct (Ht k) as (Hk1 & Hk2 & Hk3).
  destruct (exit_code_spec expected _ _ He Hk2 Hk3 Hk1) as [Hcode Hcodes].
  split; [done|]. rewrite Hcode. split; [by exists k|]. intros (k' & Hk' & Hperm).
  destruct (Ht k') as (Hk1' & Hk2' & Hk3').
  destruct (exit_code_spec expected _ _ He Hk2' Hk3' Hk1') as [Hcode' _].
  pose proof (Permutation_length Hperm) as Hplen. rewrite length_fmap, length_seqZ in Hplen.
  destruct (decide (k' < k)%nat) as [Hlt|Hge].
  - apply Hj in Hlt. pose proof (valid_of_perm expected _ _ He Hk2' Hk3' Hk1' Hperm). lia.
  - destruct Hend as [->|Hv]; [by replace (length dss) with k' by lia|].
    destruct (concat_take_le dss k k') as [r Er]; [lia|]. rewrite Er in Hperm, Hplen.
    rewrite length_app in Hplen. destruct Hk1 as [_ _ Hsum Hpos _].
    assert (r = []) as -> by (apply length_zero_iff_nil; lia). by rewrite app_nil_r in Hperm.
Qed.

End ValidateProps.

(** ** What a frame decodes to *)

Section Decode.
Context `{Endian}.

(** The length field of the UDP header of a frame. *)
Definition udp_len (pkt : list Z) : Z := be_int (sub pkt (14 + ip_hlen pkt + 4) 2).

Lemma payload_udp4 pkt :
  bytes_ok pkt -> frame_len pkt < 2 ^ 64 -> is_udp4 pkt -> 14 + ip_hlen pkt + 8 <= frame_len pkt ->
  payload pkt 0 (frame_len pkt) kL2Ethernet =
  Some (Some (14 + ip_hlen pkt + 8, size_sub (udp_len pkt) 8)).
Proof using Type.
  intros Hok Hl Hu Hfit. pose proof (ip_ihl_range pkt) as Hi.
  destruct (udp4_walk pkt Hok Hl Hu) as (E1 & (ty & E2 & E3) & E4 & E5 & (b & E6 & E7)).
  destruct Hu as (H34 & _ & _). unfold payload.
  rewrite E1, E2. cbn [mbind option_bind]. rewrite E3. cbn [negb].
  rewrite E4. cbn [mbind option_bind]. rewrite E5. cbn [mbind option_bind].
  rewrite Z.eqb_refl. cbn [negb]. rewrite E6. cbn [mbind option_bind]. rewrite E7.
  unfold EtherHdr.kSize. rewrite parse_udp_accepts by lia.
  rewrite decide_True by (unfold udp_accepts; lia).
  unfold UdpHdr.len_, frame_len, ip_hlen in *. rewrite load_int_Some by (simpl; lia).
  cbn [mbind option_bind]. unfold ntohs.
  rewrite ntoh_host_int by (auto using sub_ok; apply length_sub; simpl; lia). done.
Qed.

(** A UDP length below 8 is not rejected. The subtraction that gives the
  payload's length wraps to almost 2^64, so the check against the size of
  the validation header passes, and when the frame ends before that header
  does, [receive] reads outside the frame. *)
Theorem validate_short_udp expected pkt :
  bytes_ok pkt -> frame_len pkt < 2 ^ 64 -> is_udp4 pkt ->
  14 + ip_hlen pkt + 8 <= frame_len pkt < 14 + ip_hlen pkt + 8 + 16 -> udp_len pkt < 8 ->
  decode kL2Ethernet expected pkt = None.
Proof using Type.
  intros Hok Hl Hu Hfit Hlen. pose proof (ip_ihl_range pkt) as Hi. unfold decode.
  rewrite payload_udp4 by (done || lia). cbn [mbind option_bind].
  assert (0 <= udp_len pkt) as H0.
  { pose proof (be_int_range (sub pkt (14 + ip_hlen pkt + 4) 2) (sub_ok _ _ _ Hok)) as [? _]. done. }
  assert (size_sub (udp_len pkt) 8 = udp_len pkt - 8 + 2 ^ 64) as ->.
  { unfold size_sub, u64, wrap. rewrite <-(Z_mod_plus_full _ 1), Z.mod_small; lia. }
  rewrite (proj2 (Z.ltb_ge _ _)) by (unfold kHeaderSize; lia).
  rewrite load_bytes_None; [done|]. unfold frame_len in Hfit. simpl. lia.
Qed.

Lemma length_header_bytes s : length (header_bytes s) = 16%nat.
Proof using Type. unfold header_bytes. by rewrite !length_app, !length_host_bytes. Qed.

Lemma header_bytes_ok s : bytes_ok (header_bytes s).
Proof using Type.
  unfold header_bytes. repeat (apply Forall_app; split); apply host_bytes_ok.
Qed.

Lemma decode_header expected s :
  0 <= s < expected -> expected <= 2 ^ 64 ->
  decode kL4Payload expected (header_bytes s) = Some (Some s).
Proof using Type.
  intros Hs He. unfold decode, payload, frame_len. rewrite length_header_bytes.
  cbn [mbind option_bind]. change (Z.of_nat 16 <? kHeaderSize) with false.
  rewrite load_bytes_Some by (rewrite ?length_header_bytes; lia). cbn [mbind option_bind].
  assert (sub (header_bytes s) 0 16 = header_bytes s) as ->.
  { unfold sub. rewrite drop_0. apply take_ge. by rewrite length_header_bytes. }
  assert (load_int 4 (header_bytes s) 0 = Some (htonl kMagic)) as ->.
  { unfold load_int, header_bytes. rewrite load_bytes_app_l by by rewrite length_host_bytes.
    cbn. rewrite host_int_host_bytes. f_equal. apply wrap_small.
    apply (hton_range 4). vm_compute. split; [discriminate|reflexivity]. }
  assert (load_int 8 (header_bytes s) 4 = Some (htobe64 s)) as ->.
  { unfold load_int, header_bytes.
    pose proof (load_bytes_app_r (host_bytes 4 (htonl kMagic))
      (host_bytes 8 (htobe64 s) ++ host_bytes 4 0) 0 8) as E.
    rewrite length_host_bytes in E. change (Z.of_nat 4 + 0) with 4 in E. rewrite E by lia.
    rewrite load_bytes_app_l by by rewrite length_host_bytes.
    cbn. rewrite host_int_host_bytes. f_equal. apply wrap_small.
    apply (hton_range 8). unfold uint_ok. change (8 * Z.of_nat 8) with 64. lia. }
  cbn [mbind option_bind]. unfold ntohl, htonl, be64toh, htobe64.
  rewrite !hton_hton.
  - rewrite Z.eqb_refl. cbn [negb orb]. by rewrite (proj2 (Z.leb_gt _ _)) by lia.
  - unfold uint_ok, kMagic. change (8 * Z.of_nat 8) with 64. change (8 * Z.of_nat 4) with 32. lia.
  - unfold uint_ok, kMagic. change (8 * Z.of_nat 8) with 64. change (8 * Z.of_nat 4) with 32. lia.
Qed.

(** ** What the frames say *)

(** The UDP payload of a frame; a frame without one has none. *)
Definition body (layer : FrameLayer) (pkt : list Z) : list Z :=
  match layer with
  | kL4Payload => pkt
  | kL2Ethernet =>
    if decide (is_udp4 pkt /\ 14 + ip_hlen pkt + 8 <= frame_len pkt)
    then sub pkt (14 + ip_hlen pkt + 8) (Z.to_nat (udp_len pkt - 8)) else []
  end.

(** The header lengths of an IPv4/UDP frame do not exceed the frame. *)
Definition lengths_true (layer : FrameLayer) (pkt : list Z) : Prop :=
  layer = kL2Ethernet -> is_udp4 pkt ->
  14 + ip_hlen pkt <= frame_len pkt /\
  (14 + ip_hlen pkt + 8 <= frame_len pkt -> 8 <= udp_len pkt /\ 14 + ip_hlen pkt + udp_len pkt <= frame_len pkt).

(** The number that a frame carries, below [expected]: after the letters FALC, in
    network byte order, in a payload of 16 bytes or more. Other frames are
    foreign. *)
Definition number (layer : FrameLayer) (expected : Z) (pkt : list Z) : option Z :=
  let b := body layer pkt in
  if decide ((16 <= length b)%nat /\ sub b 0 4 = [0x46; 0x41; 0x4C; 0x43] /\ be_int (sub b 4 8) < expected)
  then Some (be_int (sub b 4 8)) else None.

Lemma payload_other pkt :
  bytes_ok pkt -> frame_len pkt < 2 ^ 64 -> (is_udp4 pkt -> 14 + ip_hlen pkt <= frame_len pkt) ->
  ~ (is_udp4 pkt /\ 14 + ip_hlen pkt + 8 <= frame_len pkt) ->
  payload pkt 0 (frame_len pkt) kL2Ethernet = Some None.
Proof using Type.
  intros Hok Hl Hfit Hn. destruct (decide (is_udp4 pkt)) as [Hu|Hu].
  - destruct (udp4_walk pkt Hok Hl Hu) as (E1 & (ty & E2 & E3) & E4 & E5 & (b & E6 & E7)).
    specialize (Hfit Hu). unfold payload.
    rewrite E1, E2. cbn [mbind option_bind]. rewrite E3. cbn [negb].
    rewrite E4. cbn [mbind option_bind]. rewrite E5. cbn [mbind option_bind].
    rewrite Z.eqb_refl. cbn [negb]. rewrite E6. cbn [mbind option_bind]. rewrite E7.
    unfold EtherHdr.kSize. rewrite parse_udp_accepts by (destruct Hu; lia).
    rewrite decide_False; [done|]. assert (~ 14 + ip_hlen pkt + 8 <= frame_len pkt) by tauto.
    unfold udp_accepts. lia.
  - unfold payload, parse_ethernet, EtherHdr.kSize, frame_len in *.
    case_bool; [done|]. unfold EtherHdr.ethertype. rewrite load_int_Some by (simpl; lia). cbn [mbind option_bind].
    change (0 + 12) with 12.
    unfold ntohs. rewrite ntoh_host_int by (auto using sub_ok; apply length_sub; simpl; lia).
    fold (FwSpec.ethertype pkt). unfold kEthTypeIpv4.
    destruct (Z.eqb_spec (FwSpec.ethertype pkt) 0x0800) as [He|He]; cbn [negb]; [|done].
    unfold parse_ipv4. rewrite size_sub_small by lia. unfold Ipv4Hdr.kSize. case_bool; [done|].
    unfold Ipv4Hdr.version_ihl, Ipv4Hdr.protocol.
    rewrite !load8_Some by (simpl; lia). cbn [mbind option_bind].
    change (0 + 14) with 14. change (14 + 9) with 23. fold (ip_proto pkt). unfold kProtoUdp.
    destruct (Z.eqb_spec (ip_proto pkt) 17) as [Hp|Hp]; cbn [negb]; [|done].
    destruct Hu. unfold is_udp4, frame_len. lia.
Qed.

(** What follows a payload of [n] bytes that [decode] has found. *)
Lemma decode_payload layer expected pkt p n :
  bytes_ok pkt -> 0 <= p -> 0 <= n -> p + n <= frame_len pkt ->
  payload pkt 0 (frame_len pkt) layer = Some (Some (p, n)) ->
  decode layer expected pkt =
  let b := sub pkt p (Z.to_nat n) in
  Some (if decide ((16 <= length b)%nat /\ sub b 0 4 = [0x46; 0x41; 0x4C; 0x43] /\ be_int (sub b 4 8) < expected)
        then Some (be_int (sub b 4 8)) else None).
Proof using Type.
  intros Hok Hp Hn Hl E. unfold decode. rewrite E. cbn [mbind option_bind]. cbv zeta.
  unfold frame_len in Hl. set (b := sub pkt p (Z.to_nat n)).
  assert (length b = Z.to_nat n) as Hlb by (unfold b; apply length_sub; lia).
  assert (bytes_ok b) as Hb by by apply sub_ok.
  unfold kHeaderSize. case_bool; [by rewrite decide_False by lia|].
  rewrite load_bytes_Some by lia. cbn [mbind option_bind].
  assert (forall off k, 0 <= off -> off + Z.of_nat k <= 16 ->
    load_int k (sub pkt p 16) off = Some (host_int (sub b off k))) as Hload.
  { intros off k Ho Hk. rewrite load_int_Some by (rewrite ?length_sub; lia). do 2 f_equal.
    unfold b, sub. rewrite !skipn_firstn_comm, !take_take. f_equal. lia. }
  rewrite !Hload by lia. cbn [mbind option_bind]. unfold ntohl, be64toh.
  rewrite !ntoh_host_int by (try (by apply sub_ok); apply length_sub; lia).
  assert (be_int (sub b 0 4) = kMagic <-> sub b 0 4 = [0x46; 0x41; 0x4C; 0x43]) as Hm.
  { split; [|by intros ->]. intros Em.
    assert (length (sub b 0 4) = 4%nat) as Hl4 by (apply length_sub; lia).
    rewrite <-(be_bytes_be_int (sub b 0 4)) by by apply sub_ok. by rewrite Hl4, Em. }
  destruct (Z.eqb_spec (be_int (sub b 0 4)) kMagic) as [Hmag|Hmag]; cbn [negb orb].
  - case_bool; [by rewrite decide_False by lia|]. rewrite decide_True; [done|]. split; [lia|]. split; [tauto|lia].
  - rewrite decide_False; [done|]. tauto.
Qed.

(** [decode] finds it, and never reads outside a frame. *)
Lemma decode_number layer expected pkt :
  bytes_ok pkt -> frame_len pkt < 2 ^ 64 -> lengths_true layer pkt ->
  decode layer expected pkt = Some (number layer expected pkt).
Proof using Type.
  intros Hok Hl Ht. unfold number. destruct layer; cbn [body].
  - destruct (decide (is_udp4 pkt /\ 14 + ip_hlen pkt + 8 <= frame_len pkt)) as [[Hu Hfit]|Hu].
    + destruct (Ht eq_refl Hu) as [_ Hlen]. destruct (Hlen Hfit) as [H8 Hend].
      pose proof (ip_ihl_range pkt) as Hi. unfold ip_hlen in *.
      rewrite (decode_payload _ _ pkt (14 + ip_ihl pkt * 4 + 8) (udp_len pkt - 8)); [done|done|lia..|].
      rewrite payload_udp4 by done. unfold ip_hlen. do 3 f_equal. apply size_sub_small. lia.
      pose proof (be_int_range (sub pkt (14 + ip_hlen pkt + 4) 2) (sub_ok _ _ _ Hok)) as [_ Hr].
      fold (udp_len pkt) in Hr. unfold frame_len in *. lia.
    + unfold decode. rewrite payload_other; [|done|done| |done]; [|by intros Hu'; apply Ht].
      cbn [mbind option_bind]. by rewrite decide_False by (simpl; lia).
  - rewrite (decode_payload _ _ pkt 0 (frame_len pkt)); [|done|lia|unfold frame_len; lia..|done].
    replace (sub pkt 0 (Z.to_nat (frame_len pkt))) with pkt; [done|].
    unfold sub, frame_len. rewrite drop_0, take_ge; [done|lia].
Qed.

Lemma decode_numbers layer expected (batches : list (list (list Z))) :
  Forall (Forall (fun pkt => bytes_ok pkt /\ frame_len pkt < 2 ^ 64 /\ lengths_true layer pkt)) batches ->
  mapM (mapM (decode layer expected)) batches = Some ((fun b : list (list Z) => number layer expected <$> b) <$> batches).
Proof using Type.
  intros Hok. apply mapM_Some, Forall2_fmap_r, Forall_Forall2_diag.
  eapply Forall_impl; [exact Hok|]. intros b Hb. apply mapM_Some, Forall2_fmap_r, Forall_Forall2_diag.
  eapply Forall_impl; [exact Hb|]. intros pkt (? & ? & ?). by apply decode_number.
Qed.

(** C35. The verdict of [receive] is exact. Let frames come in batches, as
  different calls of [recv] hand them over, until the deadline; what a frame says
  is read when its batch comes, and the header lengths of an IPv4/UDP frame do
  not exceed the frame (a UDP length below 8 makes [receive] read outside it,
  [validate_short_udp]). Then no read is outside a frame, and [receive] ends with
  exit code 0 or 2: with 0 exactly when at the end of some batch before the
  deadline the frames received carried each number below [expected] once, in any
  order, and nothing else: no number missing, none twice, and no frame that is
  foreign, because it is not UDP over IPv4, is too short for a header, does not
  begin with the letters FALC, or carries a number that was not sent. *)
Theorem validate_exact layer expected (batches : list (list (list Z))) :
  0 <= expected < 2 ^ 64 -> Z.of_nat (length (concat batches)) < 2 ^ 64 ->
  Forall (Forall (fun pkt => bytes_ok pkt /\ frame_len pkt < 2 ^ 64 /\ lengths_true layer pkt)) batches ->
  exists code, receive layer expected batches = Some code /\ (code = 0 \/ code = 2) /\
  (code = 0 <-> exists k, (k <= length batches)%nat /\
     number layer expected <$> concat (take k batches) ≡ₚ Some <$> seqZ 0 expected).
Proof using Type.
  intros He Hn Hok. pose proof (decode_numbers layer expected batches Hok) as Hd.
  assert (forall bs : list (list (list Z)), concat ((fun b : list (list Z) => number layer expected <$> b) <$> bs) = number layer expected <$> concat bs) as Hc.
  { intros bs. induction bs as [|b bs IH]; [done|]. cbn [fmap list_fmap concat]. by rewrite fmap_app, <-IH. }
  destruct (receive_exact layer expected batches _ He Hd) as (code & Er & Hcode & Hzero).
  - eapply Forall_impl; [exact Hok|]. intros b Hb. eapply Forall_impl; [exact Hb|]. by intros pkt [? _].
  - by rewrite Hc, length_fmap.
  - exists code. split; [done|]. split; [done|]. rewrite Hzero. setoid_rewrite <-fmap_take.
    setoid_rewrite Hc. by rewrite length_fmap.
Qed.

(** Batches of transmitted datagrams decode to their numbers. *)
Lemma decode_batches count batches p :
  count <= 2 ^ 64 -> (forall s, s ∈ p -> 0 <= s < count) ->
  concat batches = header_bytes <$> p ->
  exists dss, mapM (mapM (decode kL4Payload count)) batches = Some dss /\
  concat dss = Some <$> p.
Proof using Type.
  intros Hc. revert p. induction batches as [|b batches IH]; intros p Hp E; cbn [concat] in E.
  { symmetry in E. apply fmap_nil_inv in E as ->. by exists []. }
  symmetry in E. apply fmap_app_inv in E as (p1 & p2 & -> & E & ->).
  destruct (IH p2) as (dss & Ed & Eds); [intros; apply Hp; set_solver|exact E|].
  exists ((Some <$> p1) :: dss). split.
  - apply mapM_Some. constructor; [|by apply mapM_Some].
    apply mapM_Some, Forall2_fmap, Forall_Forall2_diag, Forall_forall.
    intros s Hs. apply decode_header; [apply Hp; set_solver|done].
  - cbn [concat]. by rewrite Eds, fmap_app.
Qed.

(** A perfect transmission is recognised. Whatever the order and the
  batches in which the datagrams of [transmit] arrive at an L4 backend,
  [receive] exits with 0 when all of them arrive and nothing else does. *)
Theorem validate_roundtrip count batches :
  0 <= count < 2 ^ 64 -> concat batches ≡ₚ transmit count ->
  receive kL4Payload count batches = Some 0.
Proof using Type.
  intros Hc Hp. apply Permutation_map_inv in Hp as (p & E & Hp).
  destruct (decode_batches count batches p) as (dss & Ed & Eds); [lia| |done|].
  { intros s Hs. rewrite <-Hp in Hs. apply elem_of_seqZ in Hs. lia. }
  assert (length p = Z.to_nat count) as Hl
    by (apply Permutation_length in Hp; by rewrite length_seqZ in Hp).
  destruct (receive_exact kL4Payload count batches dss Hc Ed) as (code & Er & _ & Hcode).
  - assert (Forall bytes_ok (concat batches)) as Hb.
    { rewrite E. apply Forall_fmap, Forall_forall. intros s _. apply header_bytes_ok. }
    clear -Hb. induction batches as [|b batches IH]; [constructor|]. cbn [concat] in Hb.
    apply Forall_app in Hb as [? ?]. constructor; auto.
  - rewrite Eds, length_fmap. lia.
  - rewrite Er. f_equal. apply Hcode. exists (length dss). split; [done|].
    rewrite take_ge, Eds by done. apply fmap_Permutation. by rewrite Hp.
Qed.

(** The first 64 datagrams of a transmission, and the others. *)
Lemma transmit_split count :
  64 < count ->
  take 64 (transmit count) = header_bytes <$> seqZ 0 64 /\
  drop 64 (transmit count) = header_bytes <$> seqZ 64 (count - 64).
Proof using Type.
  intros Hc. unfold transmit.
  assert (seqZ 0 count = seqZ 0 64 ++ seqZ 64 (count - 64)) as ->.
  { transitivity (seqZ 0 (64 + (count - 64))); [f_equal; lia|]. by rewrite seqZ_app by lia. }
  rewrite fmap_app. assert (length (header_bytes <$> seqZ 0 64) = 64%nat) as Hl by done.
  split; [by apply take_app_length'|by apply drop_app_length'].
Qed.

(** [receive] on numbers of which one comes twice. *)
Lemma receive_duplicate count p x :
  0 <= count < 2 ^ 64 -> (forall s, s ∈ p -> 0 <= s < count) -> (length p <= Z.to_nat count)%nat ->
  p <> [] -> ~ NoDup p -> x = header_bytes <$> p -> receive kL4Payload count [x] = Some 2.
Proof using Type.
  intros Hc Hp Hl Hne Hnd ->.
  destruct (decode_batches count [header_bytes <$> p] p) as (dss & Ed & Eds); [lia|done| |].
  { cbn [concat]. by rewrite app_nil_r. }
  destruct (receive_exact kL4Payload count [header_bytes <$> p] dss)
    as (code & Er & Hcode & Hzero); [done|done| | |].
  { constructor; [|constructor]. apply Forall_fmap, Forall_forall. intros s _. apply header_bytes_ok. }
  { rewrite Eds, length_fmap. lia. }
  rewrite Er. destruct Hcode as [->| ->]; [|done]. exfalso.
  destruct (proj1 Hzero eq_refl) as (k & Hk & Hperm).
  assert (length dss = 1%nat) as Hd1 by (apply mapM_Some, Forall2_length in Ed; done).
  destruct (decide (k = 0%nat)) as [->|Hk0].
  - cbn in Hperm. apply Permutation_length in Hperm. rewrite length_fmap, length_seqZ in Hperm.
    destruct p; [done|]. simpl in *. lia.
  - rewrite take_ge, Eds in Hperm by lia. apply Hnd, (NoDup_fmap_1 Some).
    rewrite Hperm. apply NoDup_fmap_2; [apply _|apply NoDup_seqZ].
Qed.

(** [receive] does not work over the socket backend. It asks for 256 frames
  at a time, four times the buffers the backend has. When a correct
  transmission of more than 64 and fewer than 128 datagrams is queued in
  order, so that one [recv] reads it in two batches, nothing is lost on the
  way, but what [receive] sees has duplicates, and it exits with 2. *)
Theorem validate_socket_fails count answers s :
  64 < count < 128 -> Socket.state_ok s ->
  let sent := transmit count in
  exists out' s' pkts,
  Socket.recvImpl 1 (Socket.Got (take 64 sent) :: Socket.Got (drop 64 sent) :: answers)
    (replicate 256 (Socket.mkFrame 0 0)) 256 s =
    Some (Socket.Returned (Z.to_nat count), out', s') /\
  mapM (Socket.deref s') (take (Z.to_nat count) out') = Some pkts /\
  receive kL4Payload count [pkts] = Some 2.
Proof using Type.
  intros Hc [Hs _] sent. destruct (transmit_split count) as [H1 H2]; [lia|].
  unfold sent. rewrite H1, H2. set (b1 := _ <$> seqZ 0 64). set (b2 := _ <$> seqZ 64 _).
  assert (length b1 = 64%nat) as L1 by done.
  assert (length b2 = Z.to_nat count - 64)%nat as L2
    by (unfold b2; rewrite length_fmap, length_seqZ; lia).
  destruct (Socket.recv_two_batches 1 b1 b2 answers (replicate 256 (Socket.mkFrame 0 0)) 256 s)
    as (out' & st & E & Hlo & N1 & N2); [lia|lia|by rewrite length_replicate|lia|lia|lia|].
  assert (forall l, Socket.received (header_bytes <$> l) = header_bytes <$> l) as Hrecv.
  { intros l. apply Socket.received_id, Forall_fmap, Forall_true. intros x.
    unfold Socket.fits, compose. rewrite length_header_bytes. unfold Socket.kBUFSIZE. lia. }
  pose proof (Hrecv (seqZ 0 64)) as R1. pose proof (Hrecv (seqZ 64 (count - 64))) as R2.
  fold b1 in R1. fold b2 in R2. rewrite R1 in E, N1. rewrite R2 in E, N2.
  rewrite length_replicate in Hlo. replace (64 + length b2)%nat with (Z.to_nat count) in E by lia.
  eexists _, _, _. split; [exact E|]. split.
  { replace (Z.to_nat count) with (64 + length b2)%nat by lia.
    apply Socket.deref_two_batches; [done|done|lia| |lia|done|done].
    intros d1 d2 (x1 & -> & _)%list_elem_of_fmap (x2 & -> & _)%list_elem_of_fmap.
    by rewrite !length_header_bytes. }
  apply (receive_duplicate count
    (seqZ 64 (count - 64) ++ drop (length b2) (seqZ 0 64) ++ seqZ 64 (count - 64))); [lia| | | | |].
  - intros x. rewrite !elem_of_app, !elem_of_seqZ. intros [?|[Hx|?]]; [lia| |lia].
    apply (elem_of_submseteq _ (seqZ 0 64)) in Hx; [apply elem_of_seqZ in Hx; lia|].
    apply submseteq_drop.
  - rewrite !length_app, length_drop, !length_seqZ. lia.
  - intros Hnil%app_nil. destruct Hnil as [Hnil _].
    apply (f_equal length) in Hnil. rewrite length_seqZ in Hnil. simpl in Hnil. lia.
  - intros (_ & Hnd & _)%NoDup_app. apply (Hnd 64); [apply elem_of_seqZ; lia|].
    apply elem_of_app. right. apply elem_of_seqZ. lia.
  - by rewrite !fmap_app, fmap_drop.
Qed.
End Decode.

(** *** Witnesses *)

(** The frame of [FwProg] with a UDP length of 0, cut after 50 bytes. *)
Definition short_udp_frame : list Z := take 50 (<[39%nat := 0]> udp_frame).

(** A datagram of [transmit] in a frame, and one whose letters are wrong. *)
Definition validate_frame (header : list Z) : list Z :=
  take 42 (<[38%nat := 0]> (<[39%nat := 24]> udp_frame)) ++ header.
Definition demo_batches `{Endian} : list (list (list Z)) :=
  [[validate_frame (header_bytes 1)];
   [validate_frame (header_bytes 0); validate_frame (<[3%nat := 0]> (header_bytes 0))]].

Lemma validate_exact_witness :
  let _ := little in
  number kL2Ethernet 2 <$> concat demo_batches = [Some 1; Some 0; None] /\
  exists code, receive kL2Ethernet 2 demo_batches = Some code /\
    (code = 0 \/ code = 2) /\
    (code = 0 <-> exists k, (k <= length demo_batches)%nat /\
       number kL2Ethernet 2 <$> concat (take k demo_batches) ≡ₚ Some <$> seqZ 0 2).
Proof.
  intros en. split; [vm_compute; reflexivity|].
  apply (validate_exact kL2Ethernet 2 demo_batches).
  - lia.
  - vm_compute. reflexivity.
  - assert (forall pkt, pkt ∈ concat demo_batches ->
      bytes_ok pkt /\ frame_len pkt = 58 /\ ip_hlen pkt = 20 /\ udp_len pkt = 24) as Hall.
    { intros pkt Hin. change (concat demo_batches) with
        [validate_frame (header_bytes 1); validate_frame (header_bytes 0); validate_frame (<[3%nat := 0]> (header_bytes 0))] in Hin.
      repeat (apply elem_of_cons in Hin as [->|Hin];
        [split; [by apply (bool_decide_unpack _)|repeat split; vm_compute; reflexivity]|]).
      by apply elem_of_nil in Hin. }
    apply Forall_forall. intros b Hb. apply Forall_forall. intros pkt Hpkt.
    destruct (Hall pkt) as (? & El & Eh & Eu); [by apply list_elem_of_In, in_concat; exists b; rewrite <-!list_elem_of_In|].
    split; [done|]. rewrite El. split; [lia|]. intros _ _. rewrite El, Eh, Eu. lia.
Defined.

Lemma validate_short_udp_witness :
  let _ := little in decode kL2Ethernet 100 short_udp_frame = None.
Proof.
  intros en. apply validate_short_udp.
  - by apply (bool_decide_unpack _).
  - vm_compute. reflexivity.
  - repeat split; vm_compute; discriminate || reflexivity.
  - vm_compute. split; [discriminate|reflexivity].
  - vm_compute. reflexivity.
Defined.

Lemma validate_roundtrip_witness :
  let _ := little in receive kL4Payload 3 [[header_bytes 2; header_bytes 0]; [header_bytes 1]] = Some 0.
Proof.
  intros en. apply validate_roundtrip; [lia|].
  change (transmit 3) with ([header_bytes 0; header_bytes 1; header_bytes 2]).
  change (concat _) with ([header_bytes 2; header_bytes 0; header_bytes 1]).
  apply (Permutation_cons_append [header_bytes 0; header_bytes 1] (header_bytes 2)).
Defined.

Lemma validate_socket_fails_witness :
  let _ := little in
  let sent := transmit 70 in
  exists out' s' pkts,
    Socket.recvImpl 1 [Socket.Got (take 64 sent); Socket.Got (drop 64 sent)]
      (replicate 256 (Socket.mkFrame 0 0)) 256 demo_sock =
      Some (Socket.Returned (Z.to_nat 70), out', s') /\
    mapM (Socket.deref s') (take (Z.to_nat 70) out') = Some pkts /\
    receive kL4Payload 70 [pkts] = Some 2.
Proof. intros en. apply (validate_socket_fails 70 [] demo_sock); [lia|exact demo_sock_ok]. Defined.
