(* ===== verification/AfPacket.v ===== *)
(** * The AF_PACKET ring, [benchmark/src/backend/af_packet.cpp]

    [recvImpl] walks the blocks of a TPACKET_V3 ring that the kernel and the
    program share. A block is what the program reads of it: its status, the
    number of its packets, the offset of the first one, and the header at each
    offset. [None] is a read of a header that is not there. What [epoll_wait]
    answers, and what the kernel did to the ring meanwhile, is the list of
    [wait]s; where it ends, it times out. The theorem is about several calls in
    a row ([recv_calls]), since a block is given back by the call after the one
    that finished it. *)

From S2P Require Import Prelude.

Module AfPacket.
Definition kBlockSize : Z := 2 ^ 20.
Definition kBlockCount : nat := 64.

(** The fields of struct tpacket3_hdr that are read. *)
Record tpacket3_hdr := mkHdr { tp_next_offset : Z; tp_snaplen : Z; tp_mac : Z }.

Inductive status := TP_STATUS_KERNEL | TP_STATUS_USER.
#[global] Instance status_eq_dec : EqDecision status.
Proof. solve_decision. Defined.

(** struct tpacket_block_desc *)
Record block := mkBlock {
  block_status : status;
  num_pkts : Z;
  offset_to_first_pkt : Z;
  hdr_at : gmap Z tpacket3_hdr;
}.

(** struct Frame: its pointer is a position in a block of the ring. *)
Record Frame := mkFrame { f_block : nat; f_pos : Z; f_len : Z }.

Record PacketStats := mkStats { packets : Z; bytes : Z }.

(** The members of the class, with the ring. *)
Record t := mk {
  ring_ : list block;
  block_index_ : nat;
  packet_index_ : Z;
  packets_in_block_ : Z;
  packet_offset_ : Z;
  release_block_ : bool;
  stats_ : PacketStats;
}.

Definition set_status (st : status) (b : block) : block :=
  mkBlock st (num_pkts b) (offset_to_first_pkt b) (hdr_at b).

(** The first part of recvImpl: hand the last block back to the kernel. *)
Definition release (s : t) : t :=
  if release_block_ s then
  mk (alter (set_status TP_STATUS_KERNEL) (block_index_ s) (ring_ s))
    ((block_index_ s + 1) mod kBlockCount) (packet_index_ s) (packets_in_block_ s)
    (packet_offset_ s) false (stats_ s)
  else s.

(** The body of the loop on a block that belongs to the program: the frame,
  the new state, and whether the block is finished. *)
Definition take_packet (b : block) (s : t) : option (Frame * t * bool) :=
  let '(in_block, offset) :=
  if packet_index_ s =? 0 then (num_pkts b, offset_to_first_pkt b)
  else (packets_in_block_ s, packet_offset_ s) in
  packet ← hdr_at b !! offset;
  let frame := mkFrame (block_index_ s) (offset + tp_mac packet) (tp_snaplen packet) in
  let stats := mkStats (u64 (packets (stats_ s) + 1)) (u64 (bytes (stats_ s) + tp_snaplen packet)) in
  let index := u32 (packet_index_ s + 1) in
  let offset := u32 (offset + tp_next_offset packet) in
  if index =? in_block
  then Some (frame, mk (ring_ s) (block_index_ s) 0 0 0 true stats, true)
  else Some (frame, mk (ring_ s) (block_index_ s) index in_block offset (release_block_ s) stats, false).

(** One answer of epoll_wait, and the kernel's work before it. *)
Record wait := mkWait { w_ready : Z; w_kernel : list block -> list block }.

Definition with_ring (r : list block) (s : t) : t :=
  mk r (block_index_ s) (packet_index_ s) (packets_in_block_ s) (packet_offset_ s)
  (release_block_ s) (stats_ s).

(** The loop; the frames are those stored in [out] from 0 on. [None] also when
  the fuel runs out. *)
Fixpoint recv_loop (fuel : nat) (waits : list wait) (max : nat) (out : list Frame) (s : t) :
  option (list Frame * t) :=
  match fuel with
  | O => None
  | S fuel =>
    if Nat.ltb (length out) max then
      b ← ring_ s !! block_index_ s;
      match block_status b with
      | TP_STATUS_KERNEL =>
          if negb (Nat.eqb (length out) 0) then Some (out, s) else
          match waits with
          | [] => Some (out, s)
          | w :: waits =>
              let s := with_ring (w_kernel w (ring_ s)) s in
              if w_ready w <=? 0 then Some (out, s) else recv_loop fuel waits max out s
          end
      | TP_STATUS_USER =>
          '(frame, s, finished) ← take_packet b s;
          let out := out ++ [frame] in
          if finished : bool then Some (out, s) else recv_loop fuel waits max out s
      end
    else Some (out, s)
  end.

(** Each round takes a packet or a wait. *)
Definition recvImpl (waits : list wait) (max : nat) (s : t) : option (list Frame * t) :=
  recv_loop (S (max + length waits)) waits max [] (release s).

Definition statsImpl (s : t) : PacketStats := stats_ s.

(** kernelDrops: [statistics] is the tp_drops that getsockopt fills in; [None]
  when it fails, and then kernelDrops throws. *)
Definition kernelDrops (statistics : option Z) : option Z := statistics.

(** ** The packets of a block *)

(** A packet of a block: the position of its bytes, their number, and the
  offset of its header. *)
Record packet := mkPacket { p_offset : Z; p_hdr : tpacket3_hdr }.

Definition frame_of (i : nat) (p : packet) : Frame :=
  mkFrame i (p_offset p + tp_mac (p_hdr p)) (tp_snaplen (p_hdr p)).

(** The headers of [ps] are chained from [offset] on. *)
Fixpoint chain (h : gmap Z tpacket3_hdr) (offset : Z) (ps : list packet) : Prop :=
  match ps with
  | [] => True
  | p :: ps =>
    p_offset p = offset /\ h !! offset = Some (p_hdr p) /\
    chain h (u32 (offset + tp_next_offset (p_hdr p))) ps
  end.

(** The packets still to be read from the current block, in a state between
  two calls in the middle of a block or before its first packet. *)
Definition pending (s : t) (ps : list packet) : Prop :=
  release_block_ s = false /\ ps <> [] /\
  0 <= packet_index_ s /\ packet_index_ s + Z.of_nat (length ps) < 2 ^ 32 /\
  exists b, ring_ s !! block_index_ s = Some b /\ block_status b = TP_STATUS_USER /\
  if packet_index_ s =? 0
  then num_pkts b = Z.of_nat (length ps) /\ chain (hdr_at b) (offset_to_first_pkt b) ps
  else packets_in_block_ s = packet_index_ s + Z.of_nat (length ps) /\
       chain (hdr_at b) (packet_offset_ s) ps.

Definition total_bytes (ps : list packet) : Z :=
  foldr (fun p n => tp_snaplen (p_hdr p) + n) 0 ps.

(** The statistics after [ps]. *)
Definition count_packets (st : PacketStats) (ps : list packet) : PacketStats :=
  foldl (fun st p => mkStats (u64 (packets st + 1)) (u64 (bytes st + tp_snaplen (p_hdr p)))) st ps.

(** After the last packet of a block: it is released at the next call. *)
Definition finished (s s' : t) : Prop :=
  ring_ s' = ring_ s /\ block_index_ s' = block_index_ s /\ packet_index_ s' = 0 /\
  release_block_ s' = true.

Lemma take_packet_pending s p ps :
  pending s (p :: ps) ->
  exists b s', ring_ s !! block_index_ s = Some b /\ block_status b = TP_STATUS_USER /\
  take_packet b s = Some (frame_of (block_index_ s) p, s', bool_decide (ps = [])) /\
  ring_ s' = ring_ s /\ block_index_ s' = block_index_ s /\
  stats_ s' = count_packets (stats_ s) [p] /\
  (if bool_decide (ps = []) then finished s s' else pending s' ps).
Proof.
  intros (Hr & _ & H0 & Hlt & b & Hb & Hu & Hc). cbn [length] in Hlt.
  assert (u32 (packet_index_ s + 1) = packet_index_ s + 1) as Hidx
    by (apply wrap_small; unfold uint_ok; lia).
  assert (exists nb off, (if packet_index_ s =? 0 then (num_pkts b, offset_to_first_pkt b)
    else (packets_in_block_ s, packet_offset_ s)) = (nb, off) /\
    nb = packet_index_ s + Z.of_nat (length (p :: ps)) /\ chain (hdr_at b) off (p :: ps))
    as (nb & off & E & Hnb & Hoff & Hhdr & Hch).
  { revert Hc. destruct (Z.eqb_spec (packet_index_ s) 0) as [E|E]; intros [Hn Hc];
      eexists _, _; (split; [done|]); (split; [lia|done]). }
  exists b. unfold take_packet. rewrite E, Hhdr. cbn [mbind option_bind]. rewrite Hidx.
  cbn [length] in Hnb. rewrite <-Hoff.
  destruct (Z.eqb_spec (packet_index_ s + 1) nb) as [El|El].
  - assert (ps = []) as -> by (destruct ps; [done|simpl in *; lia]).
    eexists. split_and!; done.
  - assert (ps <> []) as Hne by (intros ->; simpl in *; lia).
    rewrite bool_decide_eq_false_2 by done.
    eexists. split_and!; [done..|]. unfold pending.
    cbn [release_block_ packet_index_ ring_ block_index_ packets_in_block_ packet_offset_].
    split_and!; [done|done|lia|lia|].
    exists b. split_and!; [done|done|].
    destruct (Z.eqb_spec (packet_index_ s + 1) 0); [lia|]. split; [lia|]. by rewrite Hoff.
Qed.

Lemma recv_loop_pending fuel waits max out s ps :
  pending s ps -> (length out < max)%nat -> (max - length out < fuel)%nat ->
  let n := Nat.min (max - length out) (length ps) in
  exists s', recv_loop fuel waits max out s = Some (out ++ (frame_of (block_index_ s) <$> take n ps), s') /\
  stats_ s' = count_packets (stats_ s) (take n ps) /\
  ring_ s' = ring_ s /\ block_index_ s' = block_index_ s /\
  (if decide (length ps <= max - length out)%nat then finished s s' else pending s' (drop n ps)).
Proof.
  revert fuel out s. induction ps as [|p ps IH]; intros fuel out s Hp Ho Hf n.
  { by destruct Hp as (_ & ? & _). }
  destruct fuel as [|fuel]; [lia|]. cbn [recv_loop].
  rewrite (proj2 (Nat.ltb_lt _ _)) by lia.
  destruct (take_packet_pending s p ps Hp) as (b & s1 & Hb & Hu & Et & Hr1 & Hi1 & Hst & Hs1).
  rewrite Hb. cbn [mbind option_bind]. rewrite Hu, Et. cbn [mbind option_bind].
  case_bool_decide as Hps.
  - subst ps n. exists s1. cbn [length]. rewrite Nat.min_r by lia. cbn.
    split_and!; try done. by rewrite decide_True by lia.
  - destruct fuel as [|fuel]; [lia|].
    destruct (decide (max = S (length out))) as [Hmax|Hmax].
    + cbn [recv_loop]. rewrite length_app. cbn [length].
      rewrite (proj2 (Nat.ltb_ge _ _)) by lia. exists s1. subst n.
      replace (max - length out)%nat with 1%nat by lia. cbn [length Nat.min take]. cbn.
      split_and!; try done. rewrite decide_False; [done|]. destruct ps; [done|simpl; lia].
    + destruct (IH (S fuel) (out ++ [frame_of (block_index_ s) p]) s1)
        as (s' & E & Hst' & Hr' & Hi' & Hs'); [done|rewrite length_app; simpl; lia..|].
      exists s'. rewrite E. subst n. rewrite length_app in *. cbn [length] in *.
      replace (max - length out)%nat with (S (max - (length out + 1))) by lia.
      cbn [Nat.min take drop fmap list_fmap]. rewrite Hi1, <-app_assoc. cbn [app].
      split_and!; [done| |congruence|congruence|].
      * by rewrite Hst', Hst.
      * destruct (decide (length ps <= max - (length out + 1))%nat).
        -- rewrite decide_True by lia. destruct Hs' as (? & ? & ? & ?). split_and!; congruence.
        -- by rewrite decide_False by lia.
Qed.
(** ** Calls in a row *)

(** The block that the next call reads: after a finished block comes the next. *)
Definition current (s : t) : nat :=
  if release_block_ s then ((block_index_ s + 1) mod kBlockCount)%nat else block_index_ s.

(** The block [b] belongs to the program and holds the packets [ps]. *)
Definition holds (b : block) (ps : list packet) : Prop :=
  block_status b = TP_STATUS_USER /\ ps <> [] /\ num_pkts b = Z.of_nat (length ps) /\
  Z.of_nat (length ps) < 2 ^ 32 /\ chain (hdr_at b) (offset_to_first_pkt b) ps.

(** [ps] are the packets of the current block that are still to be read. *)
Definition waiting (s : t) (ps : list packet) : Prop :=
  if release_block_ s
  then packet_index_ s = 0 /\ exists b, ring_ s !! current s = Some b /\ holds b ps
  else pending s ps.

(** [pss] are the packets of the current block and of those that follow it, each
    finished by the kernel; the ring is longer. *)
Definition stocked (s : t) (pss : list (list packet)) : Prop :=
  match pss with
  | [] => True
  | ps :: pss => waiting s ps /\ (S (length pss) < kBlockCount)%nat /\
    forall j ps', pss !! j = Some ps' ->
      exists b, ring_ s !! ((current s + S j) mod kBlockCount)%nat = Some b /\ holds b ps'
  end.

(** The frames of the packets [pss] of the blocks from the [i]-th on. *)
Fixpoint frames_from (i : nat) (pss : list (list packet)) : list Frame :=
  match pss with
  | [] => []
  | ps :: pss => (frame_of i <$> ps) ++ frames_from ((i + 1) mod kBlockCount) pss
  end.

(** The ring after the [n] blocks from the [i]-th on went back to the kernel. *)
Fixpoint give_back (i n : nat) (r : list block) : list block :=
  match n with
  | O => r
  | S n => give_back ((i + 1) mod kBlockCount) n (alter (set_status TP_STATUS_KERNEL) i r)
  end.

(** Calls in a row: the frames of all of them. *)
Fixpoint recv_calls (calls : list (list wait * nat)) (s : t) : option (list Frame * t) :=
  match calls with
  | [] => Some ([], s)
  | (waits, max) :: calls =>
    '(fs, s) ← recvImpl waits max s;
    '(fs', s) ← recv_calls calls s;
    Some (fs ++ fs', s)
  end.


(** Each frame is counted. *)
Definition count_frames (st : PacketStats) (fs : list Frame) : PacketStats :=
  foldl (fun st f => mkStats (u64 (packets st + 1)) (u64 (bytes st + f_len f))) st fs.

Lemma count_packets_frames i ps st : count_packets st ps = count_frames st (frame_of i <$> ps).
Proof. revert st. induction ps as [|p ps IH]; intros st; [done|]. apply IH. Qed.

(** The first step of a call makes the packets that wait those of the block it
    reads. *)
Lemma waiting_pending s ps :
  (block_index_ s < kBlockCount)%nat -> waiting s ps -> pending (release s) ps /\ block_index_ (release s) = current s /\
  ring_ (release s) = give_back (block_index_ s) (if release_block_ s then 1 else 0) (ring_ s) /\
  stats_ (release s) = stats_ s.
Proof.
  unfold waiting, release, current. destruct (release_block_ s) eqn:Er; [|done].
  intros Hi (Hp & b & Hb & Hu & Hne & Hn & Hl & Hc). split; [|done].
  unfold pending. cbn [release_block_ packet_index_ ring_ block_index_]. rewrite Hp.
  split; [done|]. split; [done|]. split; [lia|]. split; [lia|]. exists b. split; [|done].
  rewrite list_lookup_alter_ne; [done|]. unfold kBlockCount in *.
  destruct (decide (block_index_ s = 63%nat)) as [->|]; [done|]. rewrite Nat.mod_small; lia.
Qed.

(** One call. *)
Lemma recv_waiting waits max s ps :
  (0 < max)%nat -> (block_index_ s < kBlockCount)%nat -> waiting s ps ->
  exists s', recvImpl waits max s = Some (frame_of (current s) <$> take max ps, s') /\
    stats_ s' = count_frames (stats_ s) (frame_of (current s) <$> take max ps) /\
    ring_ s' = give_back (block_index_ s) (if release_block_ s then 1 else 0) (ring_ s) /\
    block_index_ s' = current s /\
    if decide (length ps <= max)%nat then release_block_ s' = true /\ packet_index_ s' = 0
    else pending s' (drop max ps).
Proof.
  intros Hm Hi Hw. destruct (waiting_pending s ps Hi Hw) as (Hp & Ei & Er & Est).
  destruct (recv_loop_pending (S (max + length waits)) waits max [] (release s) ps Hp)
    as (s' & E & Hst & Hr & Hb & Hs'); [simpl; lia..|].
  cbn [length app] in *. rewrite Nat.sub_0_r in *.
  assert (take (Nat.min max (length ps)) ps = take max ps) as Htk.
  { destruct (Nat.min_spec max (length ps)) as [[? ->]|[? ->]]; [done|]. by rewrite !take_ge by lia. }
  rewrite Htk, ?Ei, ?Est in *. exists s'. split; [done|].
  split; [by rewrite Hst, (count_packets_frames (current s))|]. split; [by rewrite Hr|]. split; [by rewrite Hb|].
  case_decide; [by destruct Hs' as (_ & _ & ? & ?)|]. by rewrite Nat.min_l in Hs' by lia.
Qed.

Lemma give_back_add i n1 n2 r : (i < kBlockCount)%nat ->
  give_back i (n1 + n2) r = give_back ((i + n1) mod kBlockCount) n2 (give_back i n1 r).
Proof.
  revert i r. induction n1 as [|n1 IH]; intros i r Hi; cbn [Nat.add give_back].
  - by rewrite Nat.add_0_r, Nat.mod_small.
  - rewrite IH by by apply Nat.mod_upper_bound. f_equal.
    rewrite Nat.Div0.add_mod_idemp_l. f_equal. lia.
Qed.

(** What a call leaves for the next. *)
Lemma stocked_after waits max s ps pss :
  (0 < max)%nat -> (block_index_ s < kBlockCount)%nat -> stocked s (ps :: pss) ->
  exists s' n pss', recvImpl waits max s = Some (frame_of (current s) <$> take max ps, s') /\
    stats_ s' = count_frames (stats_ s) (frame_of (current s) <$> take max ps) /\
    ring_ s' = give_back (block_index_ s) n (ring_ s) /\
    block_index_ s' = ((block_index_ s + n) mod kBlockCount)%nat /\
    frames_from (current s) (ps :: pss) = (frame_of (current s) <$> take max ps) ++ frames_from (current s') pss' /\
    stocked s' pss' /\ (length pss <= length pss')%nat /\
    (n + length pss' + Nat.b2n (release_block_ s') = S (length pss) + Nat.b2n (release_block_ s))%nat.
Proof.
  intros Hm Hi (Hw & Hlen & Hrest).
  destruct (recv_waiting waits max s ps Hm Hi Hw) as (s' & E & Hst & Hr & Hb & Hs').
  set (n := if release_block_ s then 1%nat else 0%nat) in *.
  assert (current s = ((block_index_ s + n) mod kBlockCount)%nat) as Hcur.
  { unfold current, n. destruct (release_block_ s); [done|]. by rewrite Nat.add_0_r, Nat.mod_small. }
  assert (Nat.b2n (release_block_ s) = n) as Hn by by destruct (release_block_ s).
  assert (forall j ps', pss !! j = Some ps' ->
    exists b, ring_ s' !! ((current s + S j) mod kBlockCount)%nat = Some b /\ holds b ps') as Hrest'.
  { intros j ps' Hj. destruct (Hrest j ps' Hj) as (b & Hl & Hh). exists b. split; [|done].
    rewrite Hr. unfold n. destruct (release_block_ s) eqn:Er; [|done]. cbn [give_back].
    rewrite list_lookup_alter_ne; [done|]. apply lookup_lt_Some in Hj.
    unfold current, kBlockCount in *. rewrite Er. rewrite Nat.Div0.add_mod_idemp_l.
    intros Heq. clear -Hi Hj Hlen Heq.
    pose proof (Nat.div_mod_eq (block_index_ s + 1 + S j) 64). lia. }
  case_decide as Hd.
  - destruct Hs' as [Hf Hp]. exists s', n, pss. split; [done|]. split; [done|]. split; [done|].
    split; [by rewrite Hb|]. rewrite (take_ge ps) by done.
    assert (current s' = ((current s + 1) mod kBlockCount)%nat) as Hc' by (unfold current at 1; by rewrite Hf, Hb).
    split; [by rewrite Hc'|]. rewrite Hf, Hn. split; [|simpl; lia].
    destruct pss as [|ps2 pss]; [done|]. cbn [stocked]. split; [|split; [simpl in *; lia|]].
    + unfold waiting. rewrite Hf. split; [done|]. rewrite Hc'. by apply (Hrest' 0%nat).
    + intros j ps' Hj. rewrite Hc', Nat.Div0.add_mod_idemp_l.
      destruct (Hrest' (S j) ps' Hj) as (b & Hl & Hh). exists b. split; [|done]. rewrite <-Hl. do 2 f_equal. lia.
  - pose proof (proj1 Hs') as Hf. assert (current s' = current s) as Hc' by (unfold current at 1; by rewrite Hf, Hb).
    exists s', n, (drop max ps :: pss). split; [done|]. split; [done|]. split; [done|]. split; [by rewrite Hb|].
    rewrite Hc'. split; [|split; [|rewrite Hf, Hn; simpl; lia]].
    + cbn [frames_from]. by rewrite app_assoc, <-fmap_app, take_drop.
    + split; [unfold waiting; by rewrite Hf|]. split; [done|]. by rewrite Hc'.
Qed.

End AfPacket.

Import AfPacket.

(** C37. The ring reader delivers every packet once, in order, and gives every
    block back. Let the packets [pss] wait in the ring: the first of them in the
    block that the next call reads (the rest of it, or, when the last call
    finished a block, the one after it), the others in the blocks that follow.
    Calls of [recv] in a row, as many as there are blocks at most and each for at
    least one frame, hand out one or more frames each, with the position and
    length their headers give, and count them; the frames of all calls, and then
    those of the packets that wait afterwards, are the frames of [pss]: none is
    missing and none comes twice. The blocks given back to the kernel are, from
    the one where the calls began, those that were finished, but the one that the
    last call finished, whose frames the caller still has: the next call gives it
    back. No other block of the ring changes. *)
Theorem ring_delivers calls s pss :
  (block_index_ s < kBlockCount)%nat -> stocked s pss ->
  (length calls <= length pss)%nat -> Forall (fun c => 0 < snd c)%nat calls ->
  exists fs s' n pss', recv_calls calls s = Some (fs, s') /\
    frames_from (current s) pss = fs ++ frames_from (current s') pss' /\ stocked s' pss' /\
    (length calls <= length fs)%nat /\ stats_ s' = count_frames (stats_ s) fs /\
    ring_ s' = give_back (block_index_ s) n (ring_ s) /\
    block_index_ s' = ((block_index_ s + n) mod kBlockCount)%nat /\
    (n + length pss' + Nat.b2n (release_block_ s') = length pss + Nat.b2n (release_block_ s))%nat.
Proof.
  revert s pss. induction calls as [|[waits max] calls IH]; intros s pss Hi Hs Hl Hm; cbn [recv_calls].
  { exists [], s, 0%nat, pss. rewrite Nat.add_0_r, Nat.mod_small by done. split_and!; done || (simpl; lia). }
  apply Forall_cons in Hm as [Hmax Hm]. destruct pss as [|ps pss]; [simpl in Hl; lia|]. simpl in Hmax, Hl.
  destruct (stocked_after waits max s ps pss Hmax Hi Hs)
    as (s1 & n1 & pss1 & -> & Hst1 & Hr1 & Hb1 & Hf1 & Hs1 & Hl1 & Hn1). cbn [mbind option_bind].
  assert ((block_index_ s1 < kBlockCount)%nat) as Hi1 by (rewrite Hb1; by apply Nat.mod_upper_bound).
  destruct (IH s1 pss1 Hi1 Hs1 ltac:(lia) Hm) as (fs & s2 & n2 & pss2 & -> & Hf2 & Hs2 & Hc2 & Hst2 & Hr2 & Hb2 & Hn2).
  cbn [mbind option_bind]. exists ((frame_of (current s) <$> take max ps) ++ fs), s2, (n1 + n2)%nat, pss2.
  split; [done|]. split; [by rewrite Hf1, Hf2, app_assoc|]. split; [done|]. split.
  { assert (ps <> []) as Hne.
    { destruct Hs as (Hw & _). unfold waiting in Hw. destruct (release_block_ s);
        [by destruct Hw as (_ & b & _ & _ & ? & _)|by destruct Hw as (_ & ? & _)]. }
    rewrite length_app, length_fmap, length_take. destruct ps; [done|]. cbn [length]. lia. }
  split; [rewrite Hst2, Hst1; unfold count_frames; by rewrite foldl_app|].
  split; [rewrite give_back_add by done; by rewrite Hr2, Hb1, Hr1|].
  split; [rewrite Hb2, Hb1, Nat.Div0.add_mod_idemp_l; f_equal; lia|]. simpl. lia.
Qed.

(** *** Witnesses *)

(** A block with two packets, at offsets 48 and 128, and one with one packet. *)
Definition demo_p1 : packet := mkPacket 48 (mkHdr 80 60 66).
Definition demo_p2 : packet := mkPacket 128 (mkHdr 0 60 66).
Definition demo_block : block :=
  mkBlock TP_STATUS_USER 2 48 {[48 := p_hdr demo_p1; 128 := p_hdr demo_p2]}.
Definition demo_block2 : block := mkBlock TP_STATUS_USER 1 48 {[48 := p_hdr demo_p1]}.
Definition demo_ring : t := mk [demo_block; demo_block2] 0 0 0 0 false (mkStats 0 0).

(** Two calls; the second gives the first block back. *)
Lemma ring_delivers_witness :
  let pss := [[demo_p1; demo_p2]; [demo_p1]] in
  exists fs s' n pss', recv_calls [([], 8%nat); ([], 8%nat)] demo_ring = Some (fs, s') /\
    frames_from 0 pss = fs ++ frames_from (current s') pss' /\ stocked s' pss' /\
    (2 <= length fs)%nat /\ stats_ s' = count_frames (mkStats 0 0) fs /\
    ring_ s' = give_back 0 n [demo_block; demo_block2] /\
    block_index_ s' = ((0 + n) mod kBlockCount)%nat /\
    (n + length pss' + Nat.b2n (release_block_ s') = 2 + 0)%nat.
Proof.
  apply (ring_delivers [([], 8%nat); ([], 8%nat)] demo_ring [[demo_p1; demo_p2]; [demo_p1]]).
  - simpl. unfold kBlockCount. lia.
  - split; [|split; [simpl; unfold kBlockCount; lia|]].
    + split; [reflexivity|]. split; [discriminate|]. split; [vm_compute; discriminate|].
      split; [reflexivity|]. exists demo_block. split; [reflexivity|]. split; [reflexivity|].
      cbn. repeat split; reflexivity.
    + intros [|j] ps' Hj; [|discriminate]. injection Hj as <-. exists demo_block2.
      split; [reflexivity|]. split; [reflexivity|]. split; [discriminate|]. cbn. repeat split; reflexivity.
  - simpl. lia.
  - repeat constructor; simpl; lia.
Defined.
