(* ===== verification/AfXdp.v ===== *)
(** * The AF_XDP backend, [benchmark/src/backend/af_xdp.cpp]

    The memory of an AF_XDP socket is cut into chunks. A chunk is owned by the
    kernel while its address is in the fill ring or the driver holds it, waits
    in the receive ring when a frame has arrived in it, and is lent to the
    caller (its address kept in [recycle_addrs_]) until the next [recv]. The
    two calls of libxdp that decide how far a call of [recv] gets are a
    parameter, the class [LibXdp], with what libxdp documents of them in
    [LibXdpLaws]; the kernel is the relation [kernel_step]: the driver takes
    chunks from the fill ring, oldest first, and returns a frame in any chunk
    it holds, at any time. *)

From S2P Require Import Prelude.

Module AfXdp.
Definition kChunks : Z := 8192.
Definition kChunkSize : Z := 2048.
Definition kRingSize : nat := Z.to_nat 8192.

(** struct xdp_desc *)
Record xdp_desc := mkDesc { addr : Z; d_len : Z }.

(** struct Frame, with its pointer as a position in [umem_buf_]. *)
Record Frame := mkFrame { data_ : Z; len_ : Z }.

Record PacketStats := mkStats { packets : Z; bytes : Z }.

(** The rings, and the members of the class that [recvImpl] uses. [driver_]
  is the kernel's: the chunks that have left the fill ring and are not back. *)
Record t := mk {
  fill_ring_ : list Z;
  driver_ : list Z;
  rx_ring_ : list xdp_desc;
  recycle_addrs_ : list Z;
  stats_ : PacketStats;
}.

(** libxdp. *)
Class LibXdp := {
  reserve : t -> nat -> nat;   (* xsk_ring_prod__reserve(&fill_ring_, n) *)
  peek : t -> nat -> nat;      (* xsk_ring_cons__peek(&rx_ring_, limit) *)
}.

(** A reservation gets all it asked for when the ring has room, and nothing
  otherwise; a peek gets at most the limit and what is there, and something
  when there is something. *)
Class LibXdpLaws `{LibXdp} : Prop := {
  reserve_room s n : (length (fill_ring_ s) + n <= kRingSize)%nat -> reserve s n = n;
  reserve_full s n : (kRingSize < length (fill_ring_ s) + n)%nat -> reserve s n = 0%nat;
  peek_le s limit : (peek s limit <= Nat.min limit (length (rx_ring_ s)))%nat;
  peek_some s limit : rx_ring_ s <> [] -> (0 < limit)%nat -> (0 < peek s limit)%nat;
}.

Section Rings.
Context `{LibXdp}.

(** The end of the constructor: every chunk goes to the fill ring. *)
Definition fill_all (s : t) : option t :=
  let n := Z.to_nat kChunks in
  if Nat.eqb (reserve s n) n
  then Some (mk (fill_ring_ s ++ ((fun i => i * kChunkSize) <$> seqZ 0 kChunks))
             (driver_ s) (rx_ring_ s) (recycle_addrs_ s) (stats_ s))
  else None.

(** The first part of recvImpl: give the chunks of the last call back. *)
Definition recycle (s : t) : t :=
  match recycle_addrs_ s with
  | [] => s
  | _ =>
    let count := reserve s (length (recycle_addrs_ s)) in
    mk (fill_ring_ s ++ take count (recycle_addrs_ s)) (driver_ s) (rx_ring_ s)
      (drop count (recycle_addrs_ s)) (stats_ s)
  end.

(** The loop over the received descriptors, and the release of the ring. *)
Definition hand_out (received : nat) (s : t) : list Frame * t :=
  let ds := take received (rx_ring_ s) in
  ((fun d => mkFrame (addr d) (d_len d)) <$> ds,
   mk (fill_ring_ s) (driver_ s) (drop received (rx_ring_ s)) (recycle_addrs_ s ++ (addr <$> ds))
   (foldl (fun st d => mkStats (u64 (packets st + 1)) (u64 (bytes st + d_len d))) (stats_ s) ds)).

(** recvImpl: [poll] is what poll answers, and the kernel's work before it. *)
Definition recvImpl (poll : Z * (t -> t)) (max : nat) (s : t) : list Frame * t :=
  let s := recycle s in
  let limit := Nat.min max kRingSize in
  let received := peek s limit in
  if Nat.eqb received 0 then
  let s := snd poll s in
  if fst poll <=? 0 then ([], s) else hand_out (peek s limit) s
  else hand_out received s.

Definition statsImpl (s : t) : PacketStats := stats_ s.

(** kernelDrops: [statistics] is the rx_dropped and rx_invalid_descs that
  getsockopt fills in; [None] when it fails, and then kernelDrops throws. *)
Definition kernelDrops (statistics : option (Z * Z)) : option Z :=
  '(rx_dropped, rx_invalid_descs) ← statistics; Some (u64 (rx_dropped + rx_invalid_descs)).
End Rings.

(** ** The system: the kernel and the program take turns *)

Definition chunk_of (a : Z) : Z := a / kChunkSize.

(** A frame inside the chunk of the fill address [a]. *)
Definition in_chunk (a : Z) (d : xdp_desc) : Prop :=
  chunk_of (addr d) = chunk_of a /\ 0 <= d_len d /\
  addr d + d_len d <= (chunk_of a + 1) * kChunkSize.

Inductive kernel_step : t -> t -> Prop :=
  | kernel_take a fill held rx rec st :
      kernel_step (mk (a :: fill) held rx rec st) (mk fill (held ++ [a]) rx rec st)
  | kernel_receive a fill held held' rx rec st d :
      held ≡ₚ a :: held' -> in_chunk a d ->
      kernel_step (mk fill held rx rec st) (mk fill held' (rx ++ [d]) rec st).

(** Any number of frames arrive. *)
Definition kernel_run : t -> t -> Prop := rtc kernel_step.

Section System.
Context `{LibXdpLaws}.

Inductive step : t -> t -> Prop :=
  | step_kernel s s' : kernel_step s s' -> step s s'
  | step_recv r k max s fs s' :
      (forall s0, kernel_run s0 (k s0)) -> recvImpl (r, k) max s = (fs, s') -> step s s'.

(** The rings are empty when the constructor comes to [fill_all]. *)
Definition start (s : t) : Prop := fill_all (mk [] [] [] [] (mkStats 0 0)) = Some s.
Definition reachable (s : t) : Prop := exists s0, start s0 /\ rtc step s0 s.

(** Where every chunk is. *)
Definition chunks (s : t) : list Z :=
  chunk_of <$> (fill_ring_ s ++ driver_ s ++ (addr <$> rx_ring_ s) ++ recycle_addrs_ s).

Record invariant (s : t) : Prop := {
  inv_chunks : chunks s ≡ₚ seqZ 0 kChunks;
  inv_rx : Forall (fun d => 0 <= d_len d /\ addr d + d_len d <= (chunk_of (addr d) + 1) * kChunkSize)
           (rx_ring_ s);
}.

Lemma length_inv s :
  invariant s ->
  (length (fill_ring_ s) + length (driver_ s) + length (rx_ring_ s) + length (recycle_addrs_ s) = kRingSize)%nat.
Proof using Type.
  intros [Hc _]. apply Permutation_length in Hc. unfold chunks in Hc.
  rewrite length_fmap, !length_app, length_fmap, length_seqZ in Hc.
  change kRingSize with (Z.to_nat kChunks). lia.
Qed.

Lemma kernel_step_inv s s' : kernel_step s s' -> invariant s -> invariant s'.
Proof using Type.
  intros [a fill held rx rec st|a fill held held' rx rec st d Hp (Hd & Hl & Hb)] [Hc Hr];
    split; cbn in *; [|done| |].
  - rewrite <-Hc. unfold chunks. cbn [fill_ring_ driver_ rx_ring_ recycle_addrs_].
    rewrite !fmap_app. cbn [fmap list_fmap]. solve_Permutation.
  - rewrite <-Hc. unfold chunks. cbn [fill_ring_ driver_ rx_ring_ recycle_addrs_].
    rewrite Hp, !fmap_app. cbn [fmap list_fmap]. rewrite Hd. solve_Permutation.
  - apply Forall_app. split; [done|]. constructor; [|done]. rewrite Hd. done.
Qed.

Lemma kernel_run_inv s s' : kernel_run s s' -> invariant s -> invariant s'.
Proof using Type. induction 1; [done|]. eauto using kernel_step_inv. Qed.

(** The reservation always succeeds: the chunks fit the ring. *)
Lemma recycle_all s :
  invariant s ->
  recycle s = mk (fill_ring_ s ++ recycle_addrs_ s) (driver_ s) (rx_ring_ s) [] (stats_ s).
Proof using Type*.
  intros Hi. pose proof (length_inv s Hi) as Hl. unfold recycle.
  rewrite reserve_room by lia.
  destruct s as [fill held rx [|a rec] st];
    cbn [recycle_addrs_ fill_ring_ driver_ rx_ring_ stats_] in *.
  - by rewrite app_nil_r.
  - by rewrite take_ge, drop_ge by done.
Qed.

Lemma recycle_inv s : invariant s -> invariant (recycle s).
Proof using Type*.
  intros Hi. rewrite (recycle_all s Hi). destruct Hi as [Hc Hr]. split; [|done].
  rewrite <-Hc. unfold chunks. cbn [fill_ring_ driver_ rx_ring_ recycle_addrs_].
  rewrite !fmap_app. cbn [fmap list_fmap]. solve_Permutation.
Qed.

Lemma hand_out_inv n s : invariant s -> invariant (snd (hand_out n s)).
Proof using Type.
  intros [Hc Hr]. split; cbn.
  - rewrite <-Hc. unfold chunks. cbn [fill_ring_ driver_ rx_ring_ recycle_addrs_].
    rewrite <-(take_drop n (rx_ring_ s)) at 3. rewrite !fmap_app. solve_Permutation.
  - by apply Forall_drop.
Qed.

Lemma recv_inv r k max s :
  (forall s0, kernel_run s0 (k s0)) -> invariant s -> invariant (snd (recvImpl (r, k) max s)).
Proof using Type*.
  intros Hk Hi. apply recycle_inv in Hi. unfold recvImpl. cbn [fst snd].
  destruct (Nat.eqb _ 0); [|by apply hand_out_inv].
  apply (kernel_run_inv _ _ (Hk _)) in Hi. destruct (r <=? 0); [done|by apply hand_out_inv].
Qed.

Lemma step_inv s s' : step s s' -> invariant s -> invariant s'.
Proof using Type*.
  intros [s1 s2 Hs|r k max s1 fs s2 Hk E] Hi; [by eapply kernel_step_inv|].
  pose proof (recv_inv r k max s1 Hk Hi) as Hr. by rewrite E in Hr.
Qed.

Lemma start_inv s : start s -> invariant s.
Proof using Type.
  unfold start, fill_all. destruct (Nat.eqb _ _); [|done].
  intros Hs%(inj Some). subst s. split; [|by apply Forall_nil]. unfold chunks. cbn [fill_ring_ driver_ rx_ring_ recycle_addrs_ app fmap list_fmap].
  rewrite app_nil_r, <-list_fmap_compose.
  generalize (seqZ 0 kChunks). intros l.
  assert (compose chunk_of (fun i => i * kChunkSize) <$> l = l) as ->; [|done].
  rewrite <-(list_fmap_id l) at 2. apply list_fmap_ext. intros _ i _.
  apply Z.div_mul. unfold kChunkSize. lia.
Qed.

Lemma start_exists : exists s, start s.
Proof using Type*.
  unfold start, fill_all. rewrite reserve_room by reflexivity.
  rewrite Nat.eqb_refl. by eexists.
Qed.

Lemma reachable_inv s : reachable s -> invariant s.
Proof using Type*.
  intros (s0 & Hs & Hr). apply start_inv in Hs.
  induction Hr; [done|]. eauto using step_inv.
Qed.

Lemma kernel_run_recycle s s' : kernel_run s s' -> recycle_addrs_ s' = recycle_addrs_ s.
Proof using Type. induction 1 as [|s1 s2 s3 Hs _ IH]; [done|]. rewrite IH. by destruct Hs. Qed.

Lemma kernel_run_rx s s' : kernel_run s s' -> exists ds, rx_ring_ s' = rx_ring_ s ++ ds.
Proof using Type.
  induction 1 as [|s1 s2 s3 Hs _ [ds ->]]; [exists []; by rewrite app_nil_r|].
  destruct Hs; cbn [rx_ring_]; [by eexists|]. rewrite <-app_assoc. by eexists.
Qed.

Definition frame_at (d : xdp_desc) : Frame := mkFrame (addr d) (d_len d).

(** A call takes frames off the receive ring, in order, at some moment
  between the kernel's steps: [s1] is the state there. *)
Lemma recv_handed r k max s fs s' :
  (forall s0, kernel_run s0 (k s0)) -> invariant s -> recvImpl (r, k) max s = (fs, s') ->
  exists s1 n, invariant s1 /\ kernel_run (recycle s) s1 /\ (n <= max)%nat /\
    (n <= length (rx_ring_ s1))%nat /\ fs = frame_at <$> take n (rx_ring_ s1) /\
    rx_ring_ s' = drop n (rx_ring_ s1) /\ recycle_addrs_ s' = data_ <$> fs /\
    ((0 < max)%nat -> (rx_ring_ s <> [] -> (0 < n)%nat) /\
     rx_ring_ s1 = if decide (rx_ring_ s = []) then rx_ring_ (k (recycle s)) else rx_ring_ s).
Proof using Type*.
  intros Hk Hi. unfold recvImpl. cbn [fst snd]. pose proof (recycle_inv s Hi) as Hi1.
  assert (recycle_addrs_ (recycle s) = [] /\ rx_ring_ (recycle s) = rx_ring_ s) as [Hr Hx]
    by by rewrite recycle_all.
  assert (forall s1, (peek s1 (Nat.min max kRingSize) <= max /\
    peek s1 (Nat.min max kRingSize) <= length (rx_ring_ s1))%nat) as Hp.
  { intros s1. pose proof (peek_le s1 (Nat.min max kRingSize)). lia. }
  assert (rx_ring_ s <> [] -> (0 < max)%nat ->
    (0 < peek (recycle s) (Nat.min max kRingSize))%nat) as Hsome.
  { intros ??. apply peek_some; [congruence|]. assert (0 < kRingSize)%nat by (unfold kRingSize; lia). lia. }
  assert (forall n s1, recycle_addrs_ s1 = [] -> forall fs s', hand_out n s1 = (fs, s') ->
    fs = frame_at <$> take n (rx_ring_ s1) /\ rx_ring_ s' = drop n (rx_ring_ s1) /\
    recycle_addrs_ s' = data_ <$> fs) as Hout.
  { intros n s1 Hr1 fs1 s2 [= <- <-]. cbn [recycle_addrs_ rx_ring_]. rewrite Hr1.
    by rewrite <-list_fmap_compose. }
  set (w := if decide (rx_ring_ s = []) then rx_ring_ (k (recycle s)) else rx_ring_ s).
  destruct (Nat.eqb_spec (peek (recycle s) (Nat.min max kRingSize)) 0) as [Hz|Hz].
  - pose proof (kernel_run_inv _ _ (Hk (recycle s)) Hi1) as Hi2.
    pose proof (kernel_run_recycle _ _ (Hk (recycle s))) as Hr2. rewrite Hr in Hr2.
    assert (forall n, (0 < max)%nat ->
      (rx_ring_ s <> [] -> (0 < n)%nat) /\ rx_ring_ (k (recycle s)) = w) as Hw.
    { intros n Hm. destruct (decide (rx_ring_ s = [])) as [He|He]; [done|].
      specialize (Hsome He Hm). lia. }
    destruct (r <=? 0).
    + intros [= <- <-]. exists (k (recycle s)), 0%nat. split_and!; try done; try lia. apply Hw.
    + intros E. destruct (Hout _ _ Hr2 _ _ E) as (-> & -> & ->).
      exists (k (recycle s)), (peek (k (recycle s)) (Nat.min max kRingSize)).
      split_and!; try done; try apply Hp. apply Hw.
  - intros E. destruct (Hout _ _ Hr _ _ E) as (-> & -> & ->).
    exists (recycle s), (peek (recycle s) (Nat.min max kRingSize)).
    split_and!; try done; try apply Hp. intros Hm. split; [lia|].
    unfold w. rewrite decide_False; [done|]. intros He.
    pose proof (peek_le (recycle s) (Nat.min max kRingSize)) as Hl. rewrite Hx, He in Hl.
    simpl in Hl. lia.
Qed.

Lemma chunks_NoDup s : invariant s -> NoDup (chunks s).
Proof using Type. intros [Hc _]. rewrite Hc. apply NoDup_seqZ. Qed.

(** The lent chunks are distinct. *)
Lemma lent_distinct s fs :
  invariant s -> recycle_addrs_ s = data_ <$> fs ->
  NoDup ((fun f => chunk_of (data_ f)) <$> fs).
Proof using Type.
  intros Hi%chunks_NoDup Hl. unfold chunks in Hi. rewrite !fmap_app, Hl in Hi.
  do 3 apply NoDup_app in Hi as (_ & _ & Hi). by rewrite <-list_fmap_compose in Hi.
Qed.

(** A lent chunk exists, and stays out of the kernel's hands. *)
Lemma lent_safe s s2 f :
  invariant s -> kernel_run s s2 -> data_ f ∈ recycle_addrs_ s ->
  0 <= chunk_of (data_ f) < kChunks /\
  chunk_of (data_ f) ∉ chunk_of <$> (fill_ring_ s2 ++ driver_ s2).
Proof using Type.
  intros Hi Hrun Hf. pose proof (kernel_run_inv _ _ Hrun Hi) as Hi2.
  rewrite <-(kernel_run_recycle _ _ Hrun) in Hf.
  apply (list_elem_of_fmap_2 chunk_of) in Hf. split.
  - assert (chunk_of (data_ f) ∈ chunks s2) as Hc
      by (unfold chunks; rewrite !fmap_app, !elem_of_app; auto).
    rewrite (inv_chunks _ Hi2), elem_of_seqZ in Hc. lia.
  - pose proof (chunks_NoDup _ Hi2) as Hnd. unfold chunks in Hnd. rewrite !fmap_app in Hnd.
    rewrite app_assoc in Hnd. apply NoDup_app in Hnd as (_ & Hnd & _).
    rewrite fmap_app. intros Hin. apply (Hnd _ Hin). apply elem_of_app. by right.
Qed.
End System.
End AfXdp.

Import AfXdp.

(** C38. No chunk of an AF_XDP socket is lost, lent twice, or overwritten
    while it is lent, and no frame is lost. In every state that calls to
    [recv] and the kernel's steps can reach, each chunk is in exactly one
    place (the fill ring, the driver, the receive ring, or lent to the
    caller); the reservation in the fill ring never fails; a call hands out
    the oldest frames of the receive ring, at most [max] and at least one when
    there is one (frames that arrive while it waits, when there is none), and
    leaves the others; and these frames lie inside the UMEM,
    are in different chunks, and stay out of the kernel's hands until the next
    call, whatever arrives meanwhile. *)
Theorem xdp_chunks `{LibXdpLaws} s r k max fs s' :
  reachable s -> (forall s0, kernel_run s0 (k s0)) -> recvImpl (r, k) max s = (fs, s') ->
  chunks s' ≡ₚ seqZ 0 kChunks /\
  fill_ring_ (recycle s') = fill_ring_ s' ++ recycle_addrs_ s' /\
  (length fs <= max)%nat /\ NoDup ((fun f => chunk_of (data_ f)) <$> fs) /\
  ((0 < max)%nat ->
   (rx_ring_ s <> [] -> fs <> []) /\
   fs ++ (frame_at <$> rx_ring_ s') =
     frame_at <$> (if decide (rx_ring_ s = []) then rx_ring_ (k (recycle s)) else rx_ring_ s)) /\
  forall s2, kernel_run s' s2 -> forall f, f ∈ fs ->
    0 <= data_ f /\ data_ f + len_ f <= kChunks * kChunkSize /\
    chunk_of (data_ f) ∉ chunk_of <$> (fill_ring_ s2 ++ driver_ s2).
Proof.
  intros Hreach Hk E. apply reachable_inv in Hreach as Hi.
  pose proof (recv_inv r k max s Hk Hi) as Hi'. rewrite E in Hi'. cbn [snd] in Hi'.
  destruct (recv_handed r k max s fs s' Hk Hi E)
    as (s1 & n & Hi1 & _ & Hn & Hnl & Hfs & Hrx & Hlent & Hsome).
  split; [apply Hi'|]. split; [by rewrite recycle_all|].
  split; [rewrite Hfs, length_fmap, length_take; lia|].
  split; [by apply (lent_distinct s')|]. split.
  { intros [Hpos Hds]%Hsome. rewrite Hfs, Hrx, <-Hds, <-fmap_app, take_drop.
    split; [|done]. intros Hne Hf. specialize (Hpos Hne).
    apply (f_equal length) in Hf. rewrite length_fmap, length_take in Hf. simpl in Hf. lia. }
  intros s2 Hrun f Hf.
  pose proof (lent_safe s' s2 f Hi' Hrun) as Hsafe. rewrite Hlent in Hsafe.
  destruct Hsafe as [Hr Hout]; [by apply list_elem_of_fmap_2|].
  rewrite Hfs in Hf. apply list_elem_of_fmap in Hf as (d & -> & Hd).
  assert (addr d + d_len d <= (chunk_of (addr d) + 1) * kChunkSize).
  { pose proof (inv_rx _ Hi1) as Hrx1. rewrite Forall_forall in Hrx1.
    apply Hrx1. eapply elem_of_submseteq, submseteq_take. exact Hd. }
  cbn [frame_at data_ len_] in *. unfold chunk_of, kChunks, kChunkSize in *.
  split_and!; [Z.div_mod_to_equations; lia..|done].
Qed.


(** *** Witness *)

(** libxdp that hands over all there is. *)
#[local] Instance full_rings : LibXdp := {|
  reserve s n := if decide (length (fill_ring_ s) + n <= kRingSize)%nat then n else 0%nat;
  peek s limit := Nat.min limit (length (rx_ring_ s));
|}.

#[local] Instance full_rings_laws : LibXdpLaws.
Proof.
  split; simpl.
  - intros s n Hr. by rewrite decide_True.
  - intros s n Hr. rewrite decide_False by lia. done.
  - done.
  - intros [fill held [|d ds] rec st] limit Hr Hl; simpl in *; [done|lia].
Qed.

Definition demo_start : t :=
  mk ((fun i => i * kChunkSize) <$> seqZ 0 kChunks) [] [] [] (mkStats 0 0).
(** A frame of 60 bytes has arrived in the first chunk. *)
Definition demo_arrived : t :=
  mk ((fun i => i * kChunkSize) <$> seqZ 1 (kChunks - 1)) [] [mkDesc 256 60] [] (mkStats 0 0).
(** The call has handed it out. *)
Definition demo_lent : t :=
  mk ((fun i => i * kChunkSize) <$> seqZ 1 (kChunks - 1)) [] [] [256] (mkStats 1 60).

Lemma demo_reachable : reachable demo_arrived.
Proof.
  exists demo_start. split; [vm_compute; reflexivity|].
  assert (demo_start = mk (0 :: (fill_ring_ demo_arrived)) [] [] [] (mkStats 0 0)) as ->
    by (vm_compute; reflexivity).
  eapply rtc_l; [apply step_kernel, kernel_take|].
  eapply rtc_l; [|apply rtc_refl].
  apply step_kernel, (kernel_receive 0 _ _ [] []); [done|].
  split; [reflexivity|]. split; vm_compute; discriminate.
Qed.

Lemma xdp_chunks_witness :
  reachable demo_arrived /\ recvImpl (0, id) 64 demo_arrived = ([mkFrame 256 60], demo_lent) /\
  chunks demo_lent ≡ₚ seqZ 0 kChunks /\
  fill_ring_ (recycle demo_lent) = fill_ring_ demo_lent ++ [256] /\
  (1 <= 64)%nat /\ NoDup [chunk_of 256] /\
  ((0 < 64)%nat ->
   (rx_ring_ demo_arrived <> [] -> [mkFrame 256 60] <> []) /\
   [mkFrame 256 60] ++ (frame_at <$> rx_ring_ demo_lent) =
     frame_at <$> (if decide (rx_ring_ demo_arrived = [])
                   then rx_ring_ (id (recycle demo_arrived)) else rx_ring_ demo_arrived)) /\
  forall s2, kernel_run demo_lent s2 -> forall f, f ∈ [mkFrame 256 60] ->
    0 <= data_ f /\ data_ f + len_ f <= kChunks * kChunkSize /\
    chunk_of (data_ f) ∉ chunk_of <$> (fill_ring_ s2 ++ driver_ s2).
Proof.
  assert (recvImpl (0, id) 64 demo_arrived = ([mkFrame 256 60], demo_lent)) as E
    by (vm_compute; reflexivity).
  split; [exact demo_reachable|]. split; [exact E|].
  refine (xdp_chunks demo_arrived 0 id 64 _ _ demo_reachable _ E). intros s0. apply rtc_refl.
Defined.
