(* ===== verification/Resources.v ===== *)
(** * The life of a backend: constructors and destructors

    What the constructors of the three backends acquire and, when a step
    fails, what they release before they throw. A constructor that throws does
    not run the destructor, so whatever it still holds then is lost. The state
    is the set of resources that are held; what each system or library call
    answers is a parameter. *)

From S2P Require Import Prelude.

Module Resources.

Inductive resource :=
  | Fd | EpollFd                                    (* file descriptors *)
  | Ring                                            (* the mapped packet ring *)
  | Object | Attached                               (* the XDP object; its attachment *)
  | UmemBuf | Umem | Xsk.                           (* AF_XDP memory, UMEM and socket *)
#[global] Instance resource_eq_dec : EqDecision resource.
Proof. solve_decision. Defined.
#[global] Instance resource_countable : Countable resource.
Proof.
  refine (inj_countable' (fun r => match r with
    | Fd => 0%nat | EpollFd => 1%nat | Ring => 2%nat | Object => 3%nat | Attached => 4%nat
    | UmemBuf => 5%nat | Umem => 6%nat | Xsk => 7%nat end)
    (fun n => match n with
    | 0%nat => Fd | 1%nat => EpollFd | 2%nat => Ring | 3%nat => Object | 4%nat => Attached
    | 5%nat => UmemBuf | 6%nat => Umem | _ => Xsk end) _).
  by intros [].
Defined.

(** A constructor returns or throws; either way it leaves resources held. *)
Inductive outcome := Done | Throw (msg : string).
Definition held : Type := gset resource.

Definition acquire (r : resource) (h : held) : held := {[r]} ∪ h.
Definition free (r : resource) (h : held) : held := h ∖ {[r]}.

(** ** SocketBackend *)

Record socket_env := {
  s_socket : bool;
  s_bind : bool;
  s_epoll_create : bool;
  s_epoll_ctl : bool;
}.

Definition SocketBackend_ctor (e : socket_env) (h : held) : outcome * held :=
  if negb (s_socket e) then (Throw "socket() failed: ", h) else
  let h := acquire Fd h in
  if negb (s_bind e) then (Throw "bind() failed: ", h) else
  if negb (s_epoll_create e) then (Throw "epoll_create1() failed: ", h) else
  let h := acquire EpollFd h in
  if negb (s_epoll_ctl e) then (Throw "epoll_ctl() failed: ", h) else
  (Done, h).

Definition SocketBackend_dtor (h : held) : held := free Fd (free EpollFd h).

(** ** AfPacketBackend *)

Record packet_env := {
  p_socket : bool;
  p_version : bool;
  p_ifindex : bool;
  p_bind : bool;
  p_filter : bool;
  p_rx_ring : bool;
  p_mmap : bool;
  p_epoll_create : bool;
  p_epoll_ctl : bool;
}.

Definition AfPacketBackend_ctor (e : packet_env) (h : held) : outcome * held :=
  if negb (p_socket e) then (Throw "socket(AF_PACKET) failed: ", h) else
  let h := acquire Fd h in
  if negb (p_version e) then (Throw "PACKET_VERSION failed: ", h) else
  if negb (p_ifindex e) then (Throw "bad interface name: ", h) else
  if negb (p_bind e) then (Throw "bind() failed: ", h) else
  if negb (p_filter e) then (Throw "SO_ATTACH_FILTER failed: ", h) else
  if negb (p_rx_ring e) then (Throw "PACKET_RX_RING failed: ", h) else
  if negb (p_mmap e) then (Throw "mmap(PACKET_RX_RING) failed: ", h) else
  let h := acquire Ring h in
  if negb (p_epoll_create e) then (Throw "epoll_create1() failed: ", h) else
  let h := acquire EpollFd h in
  if negb (p_epoll_ctl e) then (Throw "epoll_ctl() failed: ", h) else
  (Done, h).

Definition AfPacketBackend_dtor (h : held) : held := free Fd (free Ring (free EpollFd h)).

(** ** AfXdpBackend *)

Record xdp_env := {
  x_ifindex : bool;
  x_open : bool;
  x_load : bool;
  x_found : bool;
  x_attach : bool;
  x_memalign : bool;
  x_umem : bool;
  x_socket : bool;
  x_xskmap : bool;
  x_reserve : bool;
}.

Definition AfXdpBackend_ctor (e : xdp_env) (h : held) : outcome * held :=
  if negb (x_ifindex e) then (Throw "bad interface name: ", h) else
  if negb (x_open e) then (Throw "open XDP program failed: ", h) else
  let h := acquire Object h in
  if negb (x_load e) then
  (Throw "load XDP program failed: ", free Object h) else
  if negb (x_found e) then
  (Throw "XDP program is missing falcon_xdp_redirect or falcon_xsks", free Object h) else
  if negb (x_attach e) then
  (Throw "attach XDP program failed: ", free Object h) else
  let h := acquire Attached h in
  if negb (x_memalign e) then
  (Throw "allocate AF_XDP UMEM failed", free Object (free Attached h)) else
  let h := acquire UmemBuf h in
  if negb (x_umem e) then
  (Throw "create AF_XDP UMEM failed: ", free Object (free Attached (free UmemBuf h))) else
  let h := acquire Umem h in
  if negb (x_socket e) then
  (Throw "create AF_XDP socket failed: ",
   free Object (free Attached (free UmemBuf (free Umem h)))) else
  let h := acquire Xsk h in
  if negb (x_xskmap e) then
  (Throw "register AF_XDP socket in XSKMAP failed: ",
   free Object (free Attached (free UmemBuf (free Umem (free Xsk h))))) else
  if negb (x_reserve e) then (Throw "reserve AF_XDP fill ring failed", h) else
  (Done, free Object h).

Definition AfXdpBackend_dtor (h : held) : held :=
  free Attached (free UmemBuf (free Umem (free Xsk h))).
End Resources.

Import Resources.

Ltac ctor_cases :=
  repeat match goal with
  | |- context [negb ?b] => destruct b; cbn [negb]
  end; unfold acquire, free; try set_solver.

(** The AF_XDP backend cleans up after itself. Whichever of its steps
    fails, the constructor releases everything it had acquired, the XDP
    attachment included, before it throws; when it succeeds it holds the
    attachment, the UMEM and the socket, and the destructor releases exactly
    those. (The reservation in the fresh fill ring, the one step without a
    clean-up, does not fail: [AfXdp.start_exists].) *)
Theorem xdp_ctor_cleanup e :
  x_reserve e = true ->
  let '(o, h) := AfXdpBackend_ctor e ∅ in
  match o with
  | Throw _ => h = ∅
  | Done => h = {[Attached; UmemBuf; Umem; Xsk]} /\ AfXdpBackend_dtor h = ∅
  end.
Proof.
  intros Hr. unfold AfXdpBackend_ctor, AfXdpBackend_dtor. rewrite Hr. ctor_cases.
Qed.

(** The other two constructors release nothing: every failure after the first
    step leaves descriptors open. *)
Theorem ctor_leaks :
  (forall e, s_socket e = true -> fst (SocketBackend_ctor e ∅) <> Done ->
     Fd ∈ snd (SocketBackend_ctor e ∅)) /\
  (forall e, p_socket e = true -> fst (AfPacketBackend_ctor e ∅) <> Done ->
     Fd ∈ snd (AfPacketBackend_ctor e ∅)).
Proof.
  split; intros e He; unfold SocketBackend_ctor, AfPacketBackend_ctor; rewrite He; cbn [negb];
    repeat match goal with
    | |- context [negb ?b] => destruct b; cbn [negb fst snd]
    end; intros Hd; try done; unfold acquire; set_solver.
Qed.

(** *** Witness *)

(** A system where everything works except that the socket cannot be made. *)
Definition demo_xdp_env : xdp_env := {|
  x_ifindex := true; x_open := true; x_load := true; x_found := true; x_attach := true;
  x_memalign := true; x_umem := true; x_socket := false; x_xskmap := true; x_reserve := true;
|}.

Lemma xdp_ctor_cleanup_witness :
  fst (AfXdpBackend_ctor demo_xdp_env ∅) = Throw "create AF_XDP socket failed: " /\
  let '(o, h) := AfXdpBackend_ctor demo_xdp_env ∅ in
  match o with
  | Throw _ => h = ∅
  | Done => h = {[Attached; UmemBuf; Umem; Xsk]} /\ AfXdpBackend_dtor h = ∅
  end.
Proof. split; [reflexivity|]. exact (xdp_ctor_cleanup demo_xdp_env eq_refl). Defined.
