(* ===== verification/Throughput.v ===== *)
(** * The throughput receivers, [bench/rx_bench.cpp] and [bench/rx_bench_mq.cpp]

    A receiver asks its backend for frames until enough have arrived or its
    time is over, and reports how many. A turn of the loop is what [recv]
    returned (the lengths of the frames) and the readings of the clock, in
    nanoseconds. The comparisons of a duration with the [seconds] of the
    command line and with the second of a window are made in floating point:
    they are the parameters [over] and [window_over]; of what is printed the
    integers are modelled, and the durations they are divided by. When a run
    ends ([finished]) and what its windows are ([windows_of]) is said of the
    turns alone, without the program's variables. *)

From S2P Require Import Prelude.

(** One turn: the frames, the reading for [start] if the measurement starts
    with it, and the reading for [now]. *)
Record turn := Turn { lens : list Z; t_start : Z; t_now : Z }.

Definition arrived (ts : list turn) : list Z := concat (lens <$> ts).
Definition n_frames (ts : list turn) : Z := Z.of_nat (length (arrived ts)).
Definition sum_Z (l : list Z) : Z := foldr Z.add 0 l.
Definition n_bytes (ts : list turn) : Z := sum_Z (arrived ts).

(** bytes += frames[i].len_, over a batch. *)
Definition add_bytes (b : Z) (ls : list Z) : Z := foldl (fun b l => u64 (b + l)) b ls.

(** What is printed. *)
Inductive report :=
  | WindowLine (elapsed window_packets window_bytes window : Z)
  | TotalLine (packets bytes elapsed : Z)
  | CountLines (packets bytes kernel_drops : Z)
  | LostLines (offered lost : Z).

(** offered_packets, lost_packets: nothing without an expectation. *)
Definition lost_lines (expected packets : Z) : list report :=
  if expected =? 0 then []
  else [LostLines expected (if packets <? expected then u64 (expected - packets) else 0)].

Section Receiver.
Context (over window_over : Z -> bool) (expected : Z).
Implicit Types (ts : list turn).

(** ** The loop of rx_bench.cpp *)

(** The local variables of [run]; [started] holds [start]. *)
Record rx := Rx {
  started : option Z;
  window_start : Z;
  packets : Z;
  bytes : Z;
  window_packets : Z;
  window_bytes : Z;
}.

Definition rx0 : rx := Rx None 0 0 0 0 0.

(** The start of the measurement. *)
Definition rx_begin (t : turn) (s : rx) : rx :=
  if negb (Nat.eqb (length (lens t)) 0) && negb (bool_decide (is_Some (started s)))
  then Rx (Some (t_start t)) (t_start t) (packets s) (bytes s) (window_packets s) (window_bytes s)
  else s.

(** The condition on which the loop ends. *)
Definition rx_done (start packets now : Z) : bool :=
  (negb (expected =? 0) && (expected <=? packets)) || over (now - start).

(** One turn: the new variables, the lines printed, and whether it is the last. *)
Definition rx_turn (t : turn) (s : rx) : rx * list report * bool :=
  let s := rx_begin t s in
  match started s with
  | None => (s, [], false)
  | Some start =>
    let received := Z.of_nat (length (lens t)) in
    let p := u64 (packets s + received) in
    let b := add_bytes (bytes s) (lens t) in
    let wp := u64 (window_packets s + received) in
    let wb := add_bytes (window_bytes s) (lens t) in
    if window_over (t_now t - window_start s)
    then (Rx (Some start) (t_now t) p b 0 0,
          [WindowLine (t_now t - start) wp wb (t_now t - window_start s)], rx_done start p (t_now t))
    else (Rx (Some start) (window_start s) p b wp wb, [], rx_done start p (t_now t))
  end.

(** The lines after the loop; [kernelDrops] throws when it is [None]. *)
Definition rx_report (drops : option Z) (elapsed : Z) (s : rx) : Z * list report :=
  match drops with
  | Some d =>
      (0, [TotalLine (packets s) (bytes s) elapsed; CountLines (packets s) (bytes s) d] ++
          lost_lines expected (packets s))
  | None => (1, [])
  end.

(** The exit code and the output; [None] when the turns do not end the loop. *)
Fixpoint run_loop (drops : option Z) ts (s : rx) : option (Z * list report) :=
  match ts with
  | [] => None
  | t :: ts =>
    let '(s, ls, done) := rx_turn t s in
    if done : bool
    then let '(code, ls') := rx_report drops (t_now t - default 0 (started s)) s in Some (code, ls ++ ls')
    else '(code, ls') ← run_loop drops ts s; Some (code, ls ++ ls')
  end.

Definition run (drops : option Z) ts : option (Z * list report) := run_loop drops ts rx0.

(** ** The loop of rx_bench_mq.cpp *)

(** The integers of QueueResult, and the elapsed time. *)
Record QueueResult := Queue { q_packets : Z; q_bytes : Z; q_drops : Z; q_elapsed : Z }.

(** run_queue; [None] as above, [Some None] when kernelDrops throws. *)
Fixpoint queue_loop (drops : option Z) ts (start : option Z) (p b : Z) : option (option QueueResult) :=
  match ts with
  | [] => None
  | t :: ts =>
    let start := if negb (Nat.eqb (length (lens t)) 0) && negb (bool_decide (is_Some start))
                 then Some (t_start t) else start in
    match start with
    | None => queue_loop drops ts None p b
    | Some t0 =>
      let p := u64 (p + Z.of_nat (length (lens t))) in
      let b := add_bytes b (lens t) in
      if rx_done t0 p (t_now t)
      then Some ((fun d => Queue p b d (t_now t - t0)) <$> drops)
      else queue_loop drops ts start p b
    end
  end.

Definition run_queue (drops : option Z) ts : option (option QueueResult) := queue_loop drops ts None 0 0.
End Receiver.

(** *** The report of several queues *)

Inductive multi_report :=
  | QueueLine (q packets drops : Z)
  | MultiTotals (packets bytes drops max_elapsed : Z)
  | MultiLost (offered lost : Z).

Definition total (f : QueueResult -> Z) (rs : list QueueResult) : Z :=
  foldl (fun n r => u64 (n + f r)) 0 rs.

(** The end of run_multi: what is printed of the results. *)
Definition multi_lines (expected_per_queue : Z) (rs : list QueueResult) : list multi_report :=
  let p := total q_packets rs in
  let offered := u64 (expected_per_queue * Z.of_nat (length rs)) in
  imap (fun q r => QueueLine (Z.of_nat q) (q_packets r) (q_drops r)) rs ++
  [MultiTotals p (total q_bytes rs) (total q_drops rs)
     (foldl (fun m r => if m <? q_elapsed r then q_elapsed r else m) 0 rs)] ++
  (if expected_per_queue =? 0 then []
   else [MultiLost offered (if p <? offered then u64 (offered - p) else 0)]).

(** ** The specification of a run *)

Section Spec.
Context (over window_over : Z -> bool) (expected : Z).
Implicit Types (ts : list turn).

(** The reading with which the measurement starts: at the first frame. *)
Fixpoint start_of ts : option Z :=
  match ts with
  | [] => None
  | t :: ts => match lens t with [] => start_of ts | _ => Some (t_start t) end
  end.

(** The run is over with the last of these turns: frames have come, and they are
    as many as expected, if a number is, or the time since the first is over. *)
Definition finished ts : Prop :=
  exists ts' t t0, ts = ts' ++ [t] /\ start_of ts = Some t0 /\
    (expected <> 0 /\ expected <= u64 (n_frames ts) \/ over (t_now t - t0) = true).

(** The lines that tell the windows [gs], of which the first begins at [ws], in a
    measurement that began at [t0]. A window ends with the first turn whose
    reading is a second away from its beginning; its line tells the time since
    [t0], the frames and bytes of its turns, and its own length; and there the
    next window begins, in the end the one that begins at [ws']. *)
Inductive tells (t0 : Z) : Z -> list report -> list (list turn) -> Z -> Prop :=
  | tells_nil ws : tells t0 ws [] [] ws
  | tells_cons ws g t ls gs ws' :
      Forall (fun u => window_over (t_now u - ws) = false) g -> window_over (t_now t - ws) = true ->
      tells t0 (t_now t) ls gs ws' ->
      tells t0 ws
        (WindowLine (t_now t - t0) (u64 (n_frames (g ++ [t]))) (u64 (n_bytes (g ++ [t]))) (t_now t - ws) :: ls)
        ((g ++ [t]) :: gs) ws'.

(** The turns [ts], with the first frame in a measurement that began at [t0]: the
    turns before it, the windows with the lines [out], and the turns of the
    window that began at [ws] and is not over. *)
Definition windows_of t0 ts out gs rest ws : Prop :=
  exists idle u l, ts = idle ++ u :: l /\ Forall (fun u => lens u = []) idle /\ lens u <> [] /\
    u :: l = concat gs ++ rest /\ t0 = t_start u /\ tells t0 t0 out gs ws /\
    Forall (fun u => window_over (t_now u - ws) = false) rest.

(** The variables after the turns [ts], and the lines until then. *)
Record account ts (s : rx) (out : list report) : Prop := {
  ac_start : started s = start_of ts;
  ac_packets : packets s = u64 (n_frames ts);
  ac_bytes : bytes s = u64 (n_bytes ts);
  ac_windows :
    match start_of ts with
    | None => out = [] /\ window_packets s = 0 /\ window_bytes s = 0
    | Some t0 => exists gs rest, windows_of t0 ts out gs rest (window_start s) /\
        window_packets s = u64 (n_frames rest) /\ window_bytes s = u64 (n_bytes rest)
    end;
}.

Lemma tells_snoc t0 ws ls gs w1 g t :
  tells t0 ws ls gs w1 -> Forall (fun u => window_over (t_now u - w1) = false) g ->
  window_over (t_now t - w1) = true ->
  tells t0 ws
    (ls ++ [WindowLine (t_now t - t0) (u64 (n_frames (g ++ [t]))) (u64 (n_bytes (g ++ [t]))) (t_now t - w1)])
    (gs ++ [g ++ [t]]) (t_now t).
Proof using Type.
  induction 1 as [ws|ws g' t' ls gs ws' Hg' Ht' _ IH]; intros Hg Ht; simpl; constructor; auto. constructor.
Qed.

Lemma sum_Z_app l1 l2 : sum_Z (l1 ++ l2) = sum_Z l1 + sum_Z l2.
Proof using Type. induction l1 as [|x l1 IH]; simpl; [done|]. rewrite IH. lia. Qed.

Lemma arrived_snoc ts t : arrived (ts ++ [t]) = arrived ts ++ lens t.
Proof using Type. unfold arrived. rewrite fmap_app, concat_app. simpl. by rewrite app_nil_r. Qed.

Lemma u64_add_l x y : u64 (u64 x + y) = u64 (x + y).
Proof using Type. by apply wrap_add_l. Qed.

Lemma u64_u64 x : u64 (u64 x) = u64 x.
Proof using Type. by apply wrap_wrap. Qed.

Lemma add_bytes_eq b ls : add_bytes (u64 b) ls = u64 (b + sum_Z ls).
Proof using Type.
  revert b. induction ls as [|l ls IH]; intros b; simpl; [by rewrite Z.add_0_r|].
  change (add_bytes (u64 (u64 b + l)) ls = u64 (b + (l + sum_Z ls))).
  rewrite u64_add_l, IH. f_equal. lia.
Qed.

Lemma count_snoc ts t : u64 (u64 (n_frames ts) + Z.of_nat (length (lens t))) = u64 (n_frames (ts ++ [t])).
Proof using Type.
  unfold n_frames. rewrite arrived_snoc, length_app, Nat2Z.inj_add. apply u64_add_l.
Qed.

Lemma bytes_snoc ts t : add_bytes (u64 (n_bytes ts)) (lens t) = u64 (n_bytes (ts ++ [t])).
Proof using Type. unfold n_bytes. by rewrite add_bytes_eq, arrived_snoc, sum_Z_app. Qed.

Lemma start_of_snoc ts t :
  start_of (ts ++ [t]) =
  match start_of ts with
  | Some t0 => Some t0
  | None => if Nat.eqb (length (lens t)) 0 then None else Some (t_start t)
  end.
Proof using Type. induction ts as [|u ts IH]; simpl; [by destruct (lens t)|]. by destruct (lens u). Qed.

(** The start of the measurement changes nothing else that is reported. *)
Lemma rx_begin_eq t s :
  started (rx_begin t s) =
    match started s with
    | Some t0 => Some t0
    | None => if Nat.eqb (length (lens t)) 0 then None else Some (t_start t)
    end /\
  packets (rx_begin t s) = packets s /\ bytes (rx_begin t s) = bytes s /\
  window_packets (rx_begin t s) = window_packets s /\ window_bytes (rx_begin t s) = window_bytes s.
Proof using Type. unfold rx_begin. destruct (started s) as [t0|] eqn:E, (lens t); simpl; by rewrite ?E. Qed.

Lemma finished_snoc ts t :
  finished (ts ++ [t]) <->
  match start_of (ts ++ [t]) with
  | Some t0 => rx_done over expected t0 (u64 (n_frames (ts ++ [t]))) (t_now t) = true
  | None => False
  end.
Proof using Type.
  clear window_over. unfold finished, rx_done. split.
  - intros (ts' & t' & t0 & [-> ->]%app_inj_tail & -> & Hd).
    rewrite orb_true_iff, andb_true_iff, negb_true_iff, Z.eqb_neq, Z.leb_le. tauto.
  - destruct (start_of (ts ++ [t])) as [t0|]; [|done].
    rewrite orb_true_iff, andb_true_iff, negb_true_iff, Z.eqb_neq, Z.leb_le. intros Hd. by exists ts, t, t0.
Qed.

Lemma not_finished_snoc ts t : ~ finished (ts ++ [t]) ->
  match start_of (ts ++ [t]) with
  | Some t0 => rx_done over expected t0 (u64 (n_frames (ts ++ [t]))) (t_now t) = false
  | None => True
  end.
Proof using Type. rewrite finished_snoc. destruct (start_of _); [|done]. by rewrite not_true_iff_false. Qed.

Lemma start_of_idle ts : start_of ts = None -> Forall (fun u => lens u = []) ts.
Proof using Type. induction ts as [|u ts IH]; simpl; [done|]. destruct (lens u) eqn:E; [|done]. auto. Qed.

Lemma n_idle ts : Forall (fun u => lens u = []) ts -> n_frames ts = 0 /\ n_bytes ts = 0.
Proof using Type.
  unfold n_frames, n_bytes, arrived. induction 1 as [|u ts Hu _ IH]; simpl; [done|]. by rewrite Hu.
Qed.

(** A turn without frames before the first frame. *)
Lemma account_idle ts s out t :
  account ts s out -> start_of (ts ++ [t]) = None -> account (ts ++ [t]) (rx_begin t s) out.
Proof using Type.
  intros [Hs Hp Hb Hw] Hn. pose proof Hn as Hn'. rewrite start_of_snoc in Hn.
  destruct (start_of ts) eqn:Es; [done|]. destruct Hw as (Ho & Hwp & Hwb).
  destruct (rx_begin_eq t s) as (B1 & B2 & B3 & B4 & B5). rewrite Hs in B1.
  assert (lens t = []) as Hl by (by destruct (lens t)).
  split.
  - by rewrite B1, start_of_snoc, Es.
  - by rewrite B2, Hp, <-count_snoc, Hl, Z.add_0_r, u64_u64.
  - by rewrite B3, Hb, <-bytes_snoc, Hl.
  - by rewrite Hn', B4, B5.
Qed.

(** The window that a turn falls into. *)
Lemma windows_begin ts s out t t0 :
  account ts s out -> start_of (ts ++ [t]) = Some t0 ->
  exists gs rest, (forall l, l = rest ++ [t] ->
    Forall (fun u => window_over (t_now u - window_start (rx_begin t s)) = false) l ->
    windows_of t0 (ts ++ [t]) out gs l (window_start (rx_begin t s))) /\
  (window_over (t_now t - window_start (rx_begin t s)) = true ->
    windows_of t0 (ts ++ [t])
      (out ++ [WindowLine (t_now t - t0) (u64 (n_frames (rest ++ [t]))) (u64 (n_bytes (rest ++ [t])))
                 (t_now t - window_start (rx_begin t s))]) (gs ++ [rest ++ [t]]) [] (t_now t)) /\
  Forall (fun u => window_over (t_now u - window_start (rx_begin t s)) = false) rest /\
  window_packets s = u64 (n_frames rest) /\ window_bytes s = u64 (n_bytes rest).
Proof using Type.
  intros [Hs Hp Hb Hw] E. rewrite start_of_snoc in E. unfold rx_begin. rewrite Hs.
  destruct (start_of ts) as [t1|] eqn:Es.
  - injection E as ->. rewrite andb_false_r. cbn [window_start].
    destruct Hw as (gs & rest & (idle & u & l & -> & Hi & Hu & El & Ht & Htl & Hr) & Hwp & Hwb).
    exists gs, rest. split; [|split; [|done]].
    + intros l' -> Hl'. exists idle, u, (l ++ [t]). split; [by rewrite <-app_assoc|].
      split; [done|]. split; [done|]. split; [|done]. by rewrite app_comm_cons, El, app_assoc.
    + intros Ho. exists idle, u, (l ++ [t]). split; [by rewrite <-app_assoc|].
      split; [done|]. split; [done|]. split.
      { rewrite app_comm_cons, El, concat_app, !app_nil_r. simpl. by rewrite app_nil_r, app_assoc. }
      split; [done|]. split; [|done]. by apply tells_snoc.
  - destruct Hw as (-> & Hwp & Hwb). destruct (lens t) as [|x xs] eqn:El; [done|]. injection E as <-.
    assert (Forall (fun u => lens u = []) ts) as Hi by by apply start_of_idle.
    cbn [length Nat.eqb negb andb bool_decide is_Some window_start]. exists [], [].
    assert (lens t <> []) as Hne by by rewrite El.
    split; [|split; [|done]].
    + intros l' -> Hl'. exists ts, t, []. by repeat (split; [done|]); split; [constructor|].
    + intros Ho. exists ts, t, []. repeat (split; [done|]). split; [|done].
      apply (tells_snoc (t_start t) (t_start t) [] [] (t_start t) [] t); [constructor|done|done].
Qed.

Lemma account_turn ts s out t :
  account ts s out ->
  let '(s', ls, done) := rx_turn over window_over expected t s in
  account (ts ++ [t]) s' (out ++ ls) /\ (done = true <-> finished (ts ++ [t])).
Proof using Type.
  intros Ha. pose proof (finished_snoc ts t) as Hfin. unfold rx_turn. pose proof Ha as [Hs Hp Hb _].
  destruct (rx_begin_eq t s) as (B1 & B2 & B3 & B4 & B5).
  rewrite Hs, <-start_of_snoc in B1. rewrite B1. destruct (start_of (ts ++ [t])) as [t0|] eqn:E; rewrite ?E in Hfin; symmetry in Hfin.
  - destruct (windows_begin ts s out t t0 Ha E) as (gs & rest & Hgo & Hover & Hr & Hwp & Hwb).
    rewrite B2, B3, B4, B5, Hp, Hb, Hwp, Hwb, !count_snoc, !bytes_snoc.
    destruct (window_over _) eqn:Ew; (split; [split; cbn [started packets bytes window_packets window_bytes window_start]|done]);
      rewrite ?E; try done.
    + exists (gs ++ [rest ++ [t]]), []. split; [by apply Hover|done].
    + rewrite app_nil_r. exists gs, (rest ++ [t]). split; [|done]. apply Hgo; [done|].
      apply Forall_app_2; [done|by apply Forall_singleton].
  - rewrite app_nil_r. split; [by apply account_idle|]. by rewrite <-Hfin.
Qed.

(** From a state that accounts for the turns [ts]. *)
Lemma run_loop_account drops ts s out pre t post :
  account ts s out -> (forall k, (0 < k <= length pre)%nat -> ~ finished (ts ++ take k pre)) ->
  finished (ts ++ pre ++ [t]) ->
  exists s' ws, account (ts ++ pre ++ [t]) s' (out ++ ws) /\
    run_loop over window_over expected drops (pre ++ t :: post) s =
    (let '(code, ls) := rx_report expected drops (t_now t - default 0 (started s')) s' in
     Some (code, ws ++ ls)).
Proof using Type.
  revert ts s out. induction pre as [|u pre IH]; intros ts s out Ha Hn Hf; simpl.
  - pose proof (account_turn ts s out t Ha) as Ht.
    destruct (rx_turn _ _ _ _ _) as [[s1 ls] dn]. destruct Ht as [Ha1 Hdn]. apply Hdn in Hf as ->.
    exists s1, ls. split; [done|]. by destruct (rx_report _ _ _ _).
  - pose proof (account_turn ts s out u Ha) as Ht.
    destruct (rx_turn _ _ _ _ _) as [[s1 ls] dn]. destruct Ht as [Ha1 Hdn].
    pose proof (Hn 1%nat ltac:(simpl; lia)) as H1. cbn [take] in H1. rewrite firstn_O, <-Hdn, not_true_iff_false in H1.
    rewrite H1. destruct (IH (ts ++ [u]) s1 (out ++ ls) Ha1) as (s' & ws & Ha' & ->).
    + intros k Hk. rewrite <-app_assoc. apply (Hn (S k)). simpl. lia.
    + by rewrite <-app_assoc.
    + exists s', (ls ++ ws). rewrite <-!app_assoc in *. split; [done|].
      destruct (rx_report _ _ _ _). simpl. by rewrite <-app_assoc.
Qed.

(** What is missing of the expected frames. *)
Definition missing_lines (p : Z) : list report :=
  if decide (expected = 0) then [] else [LostLines expected (Z.max 0 (expected - p))].

Lemma lost_lines_eq p : uint_ok 64 expected -> uint_ok 64 p -> lost_lines expected p = missing_lines p.
Proof using Type.
  clear over window_over. intros He Hp. unfold lost_lines, missing_lines, uint_ok in *.
  destruct (Z.eqb_spec expected 0), (decide (expected = 0)); try done.
  assert ((if p <? expected then u64 (expected - p) else 0) = Z.max 0 (expected - p)) as ->; [|done].
  case_bool; [|lia]. unfold u64. rewrite wrap_small; [lia|unfold uint_ok; lia].
Qed.

(** falcon-rxbench reports what arrived. Its loop ends with the first turn
  after which the expected number of frames has come or the time since the
  first frame is over. It prints the frames and bytes of all turns up to that
  one, the kernel's drops, and, when a number was expected, what is missing of
  it; before that one line for each window, from the first frame on. When the
  drops cannot be read it fails, with the windows as its output. *)
Theorem rx_account drops pre t post :
  uint_ok 64 expected ->
  (forall k, (0 < k <= length pre)%nat -> ~ finished (take k pre)) -> finished (pre ++ [t]) ->
  exists t0 ws gs rest w0,
    start_of (pre ++ [t]) = Some t0 /\ windows_of t0 (pre ++ [t]) ws gs rest w0 /\
    run over window_over expected drops (pre ++ t :: post) =
    let p := u64 (n_frames (pre ++ [t])) in
    let b := u64 (n_bytes (pre ++ [t])) in
    match drops with
    | Some d => Some (0, ws ++ [TotalLine p b (t_now t - t0); CountLines p b d] ++ missing_lines p)
    | None => Some (1, ws)
    end.
Proof using Type.
  intros He Hn Hf.
  destruct (run_loop_account drops [] rx0 [] pre t post) as (s' & ws & [Hs Hp Hb Hw] & Hr);
    [by split|done|done|].
  assert (exists t0, start_of (pre ++ [t]) = Some t0) as [t0 E].
  { rewrite finished_snoc in Hf. destruct (start_of _) as [t0|]; [by exists t0|done]. }
  cbn [app] in *. rewrite E in Hw. destruct Hw as (gs & rest & Hw & _).
  exists t0, ws, gs, rest, (window_start s'). split; [done|]. split; [done|].
  unfold run. rewrite Hr, Hs, E. unfold rx_report. rewrite Hp, Hb.
  destruct drops; [|by rewrite app_nil_r]. cbv zeta. rewrite lost_lines_eq; [done|done|by apply wrap_range].
Qed.

(** While nothing arrives the loop goes on, whatever the time. *)
Lemma run_idle drops ts : Forall (fun t => lens t = []) ts -> run over window_over expected drops ts = None.
Proof using Type.
  unfold run. assert (started rx0 = None) as Hs by done. revert Hs. generalize rx0.
  induction ts as [|t ts IH]; intros s Hs Hl; [done|]. apply Forall_cons in Hl as [Ht Hl].
  simpl. unfold rx_turn. assert (rx_begin t s = s) as -> by (unfold rx_begin; by rewrite Ht).
  rewrite Hs. by rewrite IH.
Qed.
End Spec.

(** ** Several queues *)

Section Queues.
Context (over : Z -> bool) (expected : Z).
Implicit Types (ts : list turn).

(** The loop of a queue does not look at windows. *)
#[local] Abbreviation queue_done := (finished over expected).

Lemma queue_loop_account drops ts pre t post :
  (forall k, (0 < k <= length pre)%nat -> ~ queue_done (ts ++ take k pre)) ->
  queue_done (ts ++ pre ++ [t]) ->
  queue_loop over expected drops (pre ++ t :: post) (start_of ts) (u64 (n_frames ts)) (u64 (n_bytes ts)) =
  Some ((fun d => Queue (u64 (n_frames (ts ++ pre ++ [t]))) (u64 (n_bytes (ts ++ pre ++ [t]))) d
                    (t_now t - default 0 (start_of (ts ++ pre ++ [t])))) <$> drops).
Proof using Type.
  revert ts. induction pre as [|u pre IH]; intros ts Hn Hf; simpl.
  - simpl in Hf. rewrite finished_snoc in Hf. rewrite start_of_snoc in *.
    rewrite count_snoc, bytes_snoc.
    destruct (start_of ts) as [t0|]; simpl in *; [|destruct (lens t); simpl in *; [done|]].
    all: rewrite ?andb_false_r; by rewrite Hf.
  - pose proof (Hn 1%nat ltac:(simpl; lia)) as H1. cbn [take] in H1. rewrite firstn_O in H1. simpl in Hf.
    replace (ts ++ u :: pre ++ [t]) with ((ts ++ [u]) ++ pre ++ [t]) in * by (by rewrite <-app_assoc).
    rewrite <-(IH (ts ++ [u])); [|intros k Hk|done].
    2:{ rewrite <-app_assoc. apply (Hn (S k)). simpl. lia. }
    apply not_finished_snoc in H1. rewrite start_of_snoc in *. rewrite <-count_snoc, <-bytes_snoc in *.
    destruct (start_of ts) as [t0|]; simpl in *; [|destruct (lens u) eqn:El; simpl in *].
    + rewrite ?andb_false_r. by rewrite H1.
    + by rewrite Z.add_0_r, u64_u64.
    + by rewrite H1.
Qed.

(** A queue reports the frames and bytes of all its turns, as rx_bench does. *)
Lemma queue_account drops pre t post :
  (forall k, (0 < k <= length pre)%nat -> ~ queue_done (take k pre)) -> queue_done (pre ++ [t]) ->
  run_queue over expected drops (pre ++ t :: post) =
  Some ((fun d => Queue (u64 (n_frames (pre ++ [t]))) (u64 (n_bytes (pre ++ [t]))) d
                    (t_now t - default 0 (start_of (pre ++ [t])))) <$> drops).
Proof using Type. intros Hn Hf. by apply (queue_loop_account drops [] pre t post). Qed.

(** A queue to which nothing arrives goes on, whatever the time. *)
Lemma queue_idle drops ts : Forall (fun t => lens t = []) ts -> run_queue over expected drops ts = None.
Proof using Type. unfold run_queue. induction 1 as [|t ts Ht _ IH]; simpl; [done|]. by rewrite Ht. Qed.
End Queues.

(** *** The totals of all queues *)

Lemma total_sum f rs : total f rs = u64 (sum_Z (f <$> rs)).
Proof.
  unfold total. change (foldl (fun n r => u64 (n + f r)) (u64 0) rs = u64 (0 + sum_Z (f <$> rs))).
  generalize 0 as n. induction rs as [|r rs IH]; intros n; [by rewrite Z.add_0_r|].
  cbn [foldl]. rewrite u64_add_l, IH.
  change (sum_Z (f <$> r :: rs)) with (f r + sum_Z (f <$> rs)). by rewrite Z.add_assoc.
Qed.

(** A queue that died is shown as one that received nothing. *)
Definition no_result : QueueResult := Queue 0 0 0 0.

(** Queues that died count as nothing. *)
Lemma collect_sum f (queues : list (option QueueResult)) :
  f no_result = 0 -> sum_Z (f <$> (default no_result <$> queues)) = sum_Z (f <$> omap id queues).
Proof.
  intros Hf. induction queues as [|[r|] cs IH]; [done|..].
  - change (f r + sum_Z (f <$> (default no_result <$> cs)) = f r + sum_Z (f <$> omap id cs)). by rewrite IH.
  - change (f no_result + sum_Z (f <$> (default no_result <$> cs)) = sum_Z (f <$> omap id cs)). by rewrite Hf, IH.
Qed.

Definition longest (rs : list QueueResult) : Z := foldr (fun r m => Z.max (q_elapsed r) m) 0 rs.

Lemma longest_max rs m x :
  foldr (fun r m => Z.max (q_elapsed r) m) (Z.max x m) rs =
  Z.max x (foldr (fun r m => Z.max (q_elapsed r) m) m rs).
Proof. induction rs as [|r rs IH]; simpl; [done|]. rewrite IH. lia. Qed.

Lemma longest_fold rs m :
  foldl (fun m r => if m <? q_elapsed r then q_elapsed r else m) m rs =
  foldr (fun r m => Z.max (q_elapsed r) m) m rs.
Proof.
  revert m. induction rs as [|r rs IH]; intros m; [done|]. cbn [foldl foldr].
  rewrite IH, <-longest_max. f_equal. case_bool; lia.
Qed.

Lemma longest_collect (queues : list (option QueueResult)) :
  longest (default no_result <$> queues) = longest (omap id queues).
Proof.
  assert (forall rs, 0 <= longest rs) as Hpos by (intros rs; unfold longest; induction rs; simpl; lia).
  induction queues as [|[r|] cs IH]; [done|..].
  - change (Z.max (q_elapsed r) (longest (default no_result <$> cs)) =
      Z.max (q_elapsed r) (longest (omap id cs))). by rewrite IH.
  - change (Z.max 0 (longest (default no_result <$> cs)) = longest (omap id cs)). rewrite IH.
    by apply Z.max_r.
Qed.

(** The report: the totals are those of the queues that reported, and what is
    missing is counted against all of them. *)
Lemma multi_account e (queues : list (option QueueResult)) :
  let alive := omap id queues in
  let p := u64 (sum_Z (q_packets <$> alive)) in
  let offered := u64 (e * Z.of_nat (length queues)) in
  multi_lines e (default no_result <$> queues) =
  imap (fun q c => QueueLine (Z.of_nat q) (from_option q_packets 0 c) (from_option q_drops 0 c)) queues ++
  [MultiTotals p (u64 (sum_Z (q_bytes <$> alive))) (u64 (sum_Z (q_drops <$> alive))) (longest alive)] ++
  (if e =? 0 then [] else [MultiLost offered (Z.max 0 (offered - p))]).
Proof.
  unfold multi_lines. rewrite !total_sum, !collect_sum by done. cbv zeta. f_equal; [|f_equal].
  - rewrite imap_fmap. apply imap_ext. by intros q [c|] _.
  - rewrite longest_fold. fold (longest (default no_result <$> queues)). by rewrite longest_collect.
  - rewrite length_fmap. destruct (e =? 0); [done|]. do 2 f_equal. case_bool; [|lia].
    set (x := u64 (sum_Z _)) in *. set (o := u64 (e * _)) in *.
    assert (uint_ok 64 x /\ uint_ok 64 o) as [? ?] by (split; by apply wrap_range).
    rewrite Z.max_r by lia. apply wrap_small. unfold uint_ok in *. lia.
Qed.
