(* ===== verification/PacketIO.v ===== *)
(** * The interface of the backends, [core/backend.hpp]

    [PacketIO] is the base class of the three backends: [recv] and [stats] call
    the [recvImpl] and [statsImpl] of the derived class, which here is the
    instance of a type class. What a backend promises its callers are the laws
    of [PacketIOLaws]; the three backends keep them. Against the laws alone,
    whatever the backend, the throughput receiver reports what the backend's own
    statistics say ([rx_reports_stats]). *)

From S2P Require Import Prelude SocketRx AfPacket AfXdp Throughput.

(** [io_env] is what one call meets outside the program: the answers of the
    system calls, and the kernel's work meanwhile. The array [out] of the
    caller, of [max] frames, is a list of that length; a call returns the
    number of frames and the array after it, and [None] when it throws or
    leaves the array. *)
Class PacketIO (T : Type) := {
  io_frame : Type;
  io_env : Type;
  io_ok : io_env -> Prop;                                   (* what the kernel guarantees *)
  frame_len : io_frame -> Z;                                (* Frame::len_ *)
  recvImpl : io_env -> list io_frame -> T -> option (nat * list io_frame * T);
  statsImpl : T -> Z * Z;                                   (* packets_, bytes_ *)
}.

Section Dispatch.
Context `{PacketIO T}.

Definition recv (e : io_env) (out : list io_frame) (s : T) : option (nat * list io_frame * T) :=
  recvImpl e out s.
Definition stats (s : T) : Z * Z := statsImpl s.
End Dispatch.

(** Statistics that fit their type, and those after frames of the lengths [ls]. *)
Definition stats_ok (st : Z * Z) : Prop := uint_ok 64 (fst st) /\ uint_ok 64 (snd st).
Definition count_lens (st : Z * Z) (ls : list Z) : Z * Z :=
  (u64 (fst st + Z.of_nat (length ls)), u64 (snd st + sum_Z ls)).

(** A call fills the array from its start, stays inside it, and counts what it
    hands out. *)
Class PacketIOLaws (T : Type) `{PacketIO T} : Prop := {
  recv_ok e out s n out' s' :
    io_ok e -> recvImpl e out s = Some (n, out', s') ->
    length out' = length out /\ (n <= length out')%nat /\
    (stats_ok (statsImpl s) ->
     statsImpl s' = count_lens (statsImpl s) (frame_len <$> take n out'));
}.

Lemma count_lens_ok st ls : stats_ok (count_lens st ls).
Proof. split; by apply wrap_range. Qed.

Lemma count_lens_nil st : stats_ok st -> count_lens st [] = st.
Proof.
  destruct st as [p b]. intros [Hp Hb]. unfold count_lens, u64. simpl in *.
  by rewrite !Z.add_0_r, !wrap_small.
Qed.

Lemma count_lens_app st l1 l2 : count_lens (count_lens st l1) l2 = count_lens st (l1 ++ l2).
Proof.
  unfold count_lens. simpl. rewrite length_app, sum_Z_app, Nat2Z.inj_add, !u64_add_l.
  f_equal; f_equal; lia.
Qed.

(** Frame by frame, as the backends count. *)
Lemma count_lens_fold {A} (f : A -> Z) (xs : list A) st :
  stats_ok st ->
  foldl (fun st x => (u64 (fst st + 1), u64 (snd st + f x))) st xs = count_lens st (f <$> xs).
Proof.
  revert st. induction xs as [|x xs IH]; intros st Hs; simpl; [by rewrite count_lens_nil|].
  rewrite IH by (split; by apply wrap_range).
  assert ((u64 (fst st + 1), u64 (snd st + f x)) = count_lens st [f x]) as ->
    by (unfold count_lens; simpl; by rewrite Z.add_0_r).
  apply (count_lens_app st [f x]).
Qed.

(** ** The three backends *)

(** *** The UDP socket *)

#[global] Instance socket_io : PacketIO Socket.t := {|
  io_frame := Socket.Frame;
  io_env := Z * list Socket.answer;
  io_ok _ := True;
  frame_len f := Z.of_nat (Socket.len_ f);
  recvImpl e out s :=
    match Socket.recvImpl (fst e) (snd e) out (length out) s with
    | Some (Socket.Returned n, out', s') => Some (n, out', s')
    | _ => None
    end;
  statsImpl s := (Socket.packets (Socket.stats_ s), Socket.bytes (Socket.stats_ s));
|}.

(** What one recvmmsg adds to the array. *)
Lemma store_frames_take out total i ds out' :
  Socket.store_frames out total i ds = Some out' -> (total + i <= length out)%nat ->
  length out' = length out /\ (total + i + length ds <= length out)%nat /\
  frame_len (T := Socket.t) <$> take (total + i + length ds) out' =
    (frame_len (T := Socket.t) <$> take (total + i) out) ++ ((fun d => Z.of_nat (length d)) <$> ds).
Proof.
  revert out i. induction ds as [|d ds IH]; intros out i; cbn [Socket.store_frames length].
  - intros [= <-] Hl. rewrite Nat.add_0_r, app_nil_r. done.
  - destruct (Nat.ltb_spec (total + i) (length out)) as [Hlt|]; [|done]. intros E Hl.
    destruct (IH _ _ E) as (L1 & L2 & L3); [rewrite length_insert; lia|]. rewrite length_insert in *.
    replace (total + i + S (length ds))%nat with (total + S i + length ds)%nat by lia.
    split; [done|]. split; [lia|]. rewrite L3. replace (total + S i)%nat with (S (total + i)) by lia.
    rewrite (take_S_r _ _ (Socket.mkFrame i (length d))) by (by apply list_lookup_insert_eq).
    rewrite take_insert_ge by lia. by rewrite fmap_app, <-app_assoc.
Qed.

Lemma socket_count st ds :
  stats_ok (Socket.packets st, Socket.bytes st) ->
  (Socket.packets (Socket.count_stats st ds), Socket.bytes (Socket.count_stats st ds)) =
  count_lens (Socket.packets st, Socket.bytes st) ((fun d => Z.of_nat (length d)) <$> ds).
Proof.
  intros [_ Hb]. unfold Socket.count_stats, count_lens. cbn [Socket.packets Socket.bytes fst snd] in *.
  rewrite length_fmap. f_equal. rewrite <-add_bytes_eq. unfold add_bytes.
  assert (u64 (Socket.bytes st) = Socket.bytes st) as -> by by apply wrap_small.
  generalize (Socket.bytes st). induction ds as [|d ds IH]; intros b; simpl; [done|apply IH].
Qed.

Lemma socket_loop answers max n total out s total' out' s' :
  Socket.recv_loop answers max n total out s = Some (Socket.Returned total', out', s') ->
  (total <= length out)%nat ->
  length out' = length out /\ (total' <= length out')%nat /\
  exists ls, frame_len (T := Socket.t) <$> take total' out' = (frame_len (T := Socket.t) <$> take total out) ++ ls /\
    (stats_ok (statsImpl s) -> statsImpl s' = count_lens (statsImpl s) ls).
Proof.
  revert total out s. induction answers as [|[ds| |] answers IH]; intros total out s; cbn [Socket.recv_loop].
  1, 3: intros [= <- <- <-] Hl; split; [done|]; split; [done|]; exists [];
    (split; [by rewrite app_nil_r|]); intros Hs; by rewrite count_lens_nil.
  2: done.
  generalize (Socket.received ds). clear ds. intros ds.
  destruct (Socket.store_frames out total 0 ds) as [out1|] eqn:E; [|done]. cbn [mbind option_bind].
  intros Hr Hl. destruct (store_frames_take _ _ _ _ _ E) as (L1 & L2 & L3); [lia|].
  rewrite Nat.add_0_r in *. pose proof (socket_count (Socket.stats_ s) ds) as Hc.
  set (s1 := Socket.mk _ _) in *. set (l1 := (fun d => Z.of_nat (length d)) <$> ds) in *.
  change (stats_ok (statsImpl s) -> statsImpl s1 = count_lens (statsImpl s) l1) in Hc.
  destruct (Nat.ltb _ n); [injection Hr as <- <- <-; split; [done|]; split; [lia|by exists l1]|].
  destruct (Nat.leb max _); [injection Hr as <- <- <-; split; [done|]; split; [lia|by exists l1]|].
  destruct (IH _ _ _ Hr) as (L4 & L5 & l2 & E2 & C2); [lia|].
  split; [congruence|]. split; [done|]. exists (l1 ++ l2). split; [by rewrite E2, L3, <-app_assoc|].
  intros Hs. rewrite C2 by (rewrite Hc by done; apply count_lens_ok).
  by rewrite Hc, count_lens_app.
Qed.

#[global] Instance socket_io_laws : PacketIOLaws Socket.t.
Proof.
  split. intros [ready answers] out s n out' s' _. simpl.
  destruct (Socket.recvImpl _ _ _ _ _) as [[[[m|] o] s1]|] eqn:E; [|done..]. intros [= <- <- <-].
  unfold Socket.recvImpl in E. cbv zeta in E. destruct (ready <=? 0).
  - injection E as <- <- <-. split; [done|]. split; [lia|]. intros Hs. by rewrite count_lens_nil.
  - destruct (socket_loop _ _ _ _ _ _ _ _ _ E) as (L1 & L2 & ls & El & Hc); [lia|].
    split; [done|]. split; [done|]. intros Hs. etrans; [exact (Hc Hs)|]. f_equal. by symmetry.
Qed.

(** *** The AF_PACKET ring *)

#[global] Instance packet_io : PacketIO AfPacket.t := {|
  io_frame := AfPacket.Frame;
  io_env := list AfPacket.wait;
  io_ok _ := True;
  frame_len := AfPacket.f_len;
  recvImpl waits out s :=
    '(fs, s) ← AfPacket.recvImpl waits (length out) s;
    Some (length fs, fs ++ drop (length fs) out, s);
  statsImpl s := (AfPacket.packets (AfPacket.statsImpl s), AfPacket.bytes (AfPacket.statsImpl s));
|}.

(** The array after [fs] were stored from its start on. *)
Lemma stored {A} (fs out : list A) :
  (length fs <= length out)%nat ->
  length (fs ++ drop (length fs) out) = length out /\
  (length fs <= length (fs ++ drop (length fs) out))%nat /\
  take (length fs) (fs ++ drop (length fs) out) = fs.
Proof. intros Hl. rewrite length_app, length_drop, take_app_length. split; [lia|]. split; [lia|done]. Qed.

Lemma take_packet_counts b s f s' fin :
  AfPacket.take_packet b s = Some (f, s', fin) -> stats_ok (statsImpl s) ->
  statsImpl s' = count_lens (statsImpl s) [AfPacket.f_len f].
Proof.
  unfold AfPacket.take_packet. destruct (if AfPacket.packet_index_ s =? 0 then _ else _) as [nb off].
  destruct (AfPacket.hdr_at b !! off) as [h|]; [|done]. cbn [mbind option_bind].
  destruct (_ =? nb); intros [= <- <- <-] _; unfold count_lens; simpl; by rewrite Z.add_0_r.
Qed.

Lemma release_stats (s : AfPacket.t) : statsImpl (AfPacket.release s) = statsImpl s.
Proof. unfold AfPacket.release. by destruct (AfPacket.release_block_ s). Qed.

Lemma packet_loop fuel waits max out s out' s' :
  AfPacket.recv_loop fuel waits max out s = Some (out', s') -> (length out <= max)%nat ->
  (length out' <= max)%nat /\
  exists fs, out' = out ++ fs /\
    (stats_ok (statsImpl s) -> statsImpl s' = count_lens (statsImpl s) (AfPacket.f_len <$> fs)).
Proof.
  revert waits out s. induction fuel as [|fuel IH]; intros waits out s; [done|]. cbn [AfPacket.recv_loop].
  assert (forall s1 : AfPacket.t, (length out <= max)%nat -> statsImpl s1 = statsImpl s -> (length out <= max)%nat /\
    exists fs, out = out ++ fs /\
      (stats_ok (statsImpl s) -> statsImpl s1 = count_lens (statsImpl s) (AfPacket.f_len <$> fs))) as Hnil.
  { intros s1 Hl Hs1. split; [done|]. exists []. split; [by rewrite app_nil_r|].
    intros Hs. by rewrite Hs1, count_lens_nil. }
  destruct (Nat.ltb_spec (length out) max); [|intros [= <- <-] ?; by apply Hnil].
  destruct (AfPacket.ring_ s !! AfPacket.block_index_ s) as [b|]; [|done]. cbn [mbind option_bind].
  destruct (AfPacket.block_status b).
  - destruct (negb _); [intros [= <- <-] ?; by apply Hnil|].
    destruct waits as [|w waits]; [intros [= <- <-] ?; by apply Hnil|].
    destruct (AfPacket.w_ready w <=? 0); [intros [= <- <-] ?; by apply Hnil|].
    intros Hr Hl. by destruct (IH _ _ _ Hr Hl).
  - destruct (AfPacket.take_packet b s) as [[[f s1] fin]|] eqn:E; [|done]. cbn [mbind option_bind].
    intros Hr Hl. pose proof (take_packet_counts _ _ _ _ _ E) as Hc.
    assert (length (out ++ [f]) <= max)%nat by (rewrite length_app; simpl; lia).
    destruct fin; [injection Hr as <- <-; split; [done|]; by exists [f]|].
    destruct (IH _ _ _ Hr) as (Hl' & fs & -> & Hc'); [done|]. split; [done|].
    exists (f :: fs). split; [by rewrite <-app_assoc|]. intros Hs.
    rewrite Hc' by (rewrite Hc by done; apply count_lens_ok). rewrite Hc by done. apply count_lens_app.
Qed.

#[global] Instance packet_io_laws : PacketIOLaws AfPacket.t.
Proof.
  split. intros waits out s n out' s' _. simpl.
  destruct (AfPacket.recvImpl _ _ _) as [[fs s1]|] eqn:E; [|done]. intros [= <- <- <-].
  destruct (packet_loop _ _ _ _ _ _ _ E) as (Hl & fs' & -> & Hc); [simpl; lia|].
  destruct (stored _ _ Hl) as (L1 & L2 & L3). split; [done|]. split; [done|].
  rewrite L3. intros Hs. rewrite release_stats in Hc. by apply Hc.
Qed.

(** *** The AF_XDP socket, over any libxdp *)

Section XdpIO.
Context `{AfXdp.LibXdpLaws}.

#[global] Instance xdp_io : PacketIO AfXdp.t := {|
  io_frame := AfXdp.Frame;
  io_env := Z * (AfXdp.t -> AfXdp.t);
  io_ok poll := forall s, AfXdp.kernel_run s (snd poll s);
  frame_len := AfXdp.len_;
  recvImpl poll out s :=
    let '(fs, s) := AfXdp.recvImpl poll (length out) s in
    Some (length fs, fs ++ drop (length fs) out, s);
  statsImpl s := (AfXdp.packets (AfXdp.statsImpl s), AfXdp.bytes (AfXdp.statsImpl s));
|}.

Lemma kernel_run_stats s s' : AfXdp.kernel_run s s' -> AfXdp.stats_ s' = AfXdp.stats_ s.
Proof using Type. induction 1 as [|s1 s2 s3 Hs _ IH]; [done|]. rewrite IH. by destruct Hs. Qed.

Lemma recycle_stats s : AfXdp.stats_ (AfXdp.recycle s) = AfXdp.stats_ s.
Proof using Type. unfold AfXdp.recycle. by destruct (AfXdp.recycle_addrs_ s). Qed.

Lemma hand_out_counts n s fs s' :
  AfXdp.hand_out n s = (fs, s') ->
  (length fs <= n)%nat /\
  (stats_ok (statsImpl s) -> statsImpl s' = count_lens (statsImpl s) (AfXdp.len_ <$> fs)).
Proof using Type.
  intros [= <- <-]. split; [rewrite length_fmap, length_take; lia|]. intros Hs.
  rewrite <-list_fmap_compose. rewrite <-(count_lens_fold AfXdp.d_len) by done.
  simpl. unfold AfXdp.statsImpl. generalize (AfXdp.stats_ s). induction (take n (AfXdp.rx_ring_ s)) as [|d ds IH]; intros st; [done|].
  apply IH.
Qed.

#[global] Instance xdp_io_laws : PacketIOLaws AfXdp.t.
Proof using Type*.
  split. intros [r k] out s n out' s' Hk. cbn [io_frame recvImpl xdp_io] in *.
  assert (forall s1 n, (n <= AfXdp.peek s1 (Nat.min (length out) AfXdp.kRingSize))%nat ->
    (n <= length out)%nat) as Hmax.
  { intros s1 n1 Hn. pose proof (AfXdp.peek_le s1 (Nat.min (length out) AfXdp.kRingSize)). lia. }
  destruct (AfXdp.recvImpl _ _ _) as [fs s1] eqn:E. intros [= <- <- <-].
  assert ((length fs <= length out)%nat /\
    (stats_ok (statsImpl s) -> statsImpl s1 = count_lens (statsImpl s) (AfXdp.len_ <$> fs))) as [Hl Hc].
  { assert (statsImpl (AfXdp.recycle s) = statsImpl s) as Hr
      by (simpl; unfold AfXdp.statsImpl; by rewrite recycle_stats).
    assert (statsImpl (k (AfXdp.recycle s)) = statsImpl s) as Hr'
      by (simpl; unfold AfXdp.statsImpl; by rewrite (kernel_run_stats _ _ (Hk _)), recycle_stats).
    unfold AfXdp.recvImpl in E. cbn [fst snd] in E. destruct (Nat.eqb _ 0); [destruct (r <=? 0)|].
    - injection E as <- <-. split; [simpl; lia|]. intros Hs. rewrite Hr'. symmetry. by apply count_lens_nil.
    - apply hand_out_counts in E as [Hl Hc]. rewrite Hr' in Hc. split; [|done].
      by eapply Hmax.
    - apply hand_out_counts in E as [Hl Hc]. rewrite Hr in Hc. split; [|done].
      by eapply Hmax. }
  destruct (stored _ _ Hl) as (L1 & L2 & L3). split; [done|]. split; [done|]. by rewrite L3.
Qed.
End XdpIO.

(** ** The receivers, over any backend *)

Section Client.
Context {T : Type} `{PacketIOLaws T}.
Context (over window_over : Z -> bool) (expected : Z).
Implicit Types (s : T) (ts : list turn).

(** The turns of a receiver's loop: each is one [recv] into the same array. *)
Inductive io_turns : list io_frame -> T -> list turn -> list io_frame -> T -> Prop :=
  | turns_nil out s : io_turns out s [] out s
  | turns_cons e out s n out1 s1 t ts out2 s2 :
      io_ok e -> recv e out s = Some (n, out1, s1) -> lens t = frame_len <$> take n out1 ->
      io_turns out1 s1 ts out2 s2 -> io_turns out s (t :: ts) out2 s2.

Lemma turns_count out s ts out' s' :
  io_turns out s ts out' s' -> stats_ok (stats s) ->
  stats s' = count_lens (stats s) (arrived ts) /\ Forall (fun t => (length (lens t) <= length out)%nat) ts.
Proof using Type*.
  induction 1 as [out s|e out s n out1 s1 t ts out2 s2 He Hr Ht _ IH]; intros Hs.
  - by rewrite count_lens_nil.
  - destruct (recv_ok _ _ _ _ _ _ He Hr) as (Hl & Hn & Hc). specialize (Hc Hs). rewrite <-Ht in Hc.
    assert (stats_ok (stats s1)) as Hs1 by (unfold stats; rewrite Hc; apply count_lens_ok).
    destruct (IH Hs1) as [E Hb]. split.
    + rewrite E. unfold stats at 1. rewrite Hc. apply count_lens_app.
    + constructor; [|by rewrite <-Hl]. rewrite Ht, length_fmap, length_take. lia.
Qed.

(** Beginning with a new backend. *)
Lemma turns_stats out s ts out' s' :
  io_turns out s ts out' s' -> stats s = (0, 0) ->
  stats s' = (u64 (n_frames ts), u64 (n_bytes ts)) /\ Forall (fun t => (length (lens t) <= length out)%nat) ts.
Proof using Type*.
  intros Hr Hs. destruct (turns_count _ _ _ _ _ Hr) as [E Hb]; [by rewrite Hs|].
  split; [|done]. by rewrite E, Hs.
Qed.

(** C40. falcon-rxbench reports the backend's statistics. Take any backend that
  keeps the laws of the interface (the socket, the ring and AF_XDP do), new when
  the run begins. The loop takes at most one array of frames in a turn. It ends
  with the first turn, from the first frame on, after which as many frames have
  come as were expected, if a number was, or the time since the first frame is
  over. The packets and bytes that it prints are then the [stats()] of the
  backend, although it counts them itself, with what is missing of the expected
  number. Before, it prints one line for each window, from the first frame on: a
  window ends with the first turn that is a second or more after its beginning,
  the next one begins there, and its line tells the frames and bytes of its own
  turns, its length, and the time since the first frame. When the drops cannot be
  read it fails, with the windows as its output. *)
Theorem rx_reports_stats drops out s pre t out' s' :
  uint_ok 64 expected -> stats s = (0, 0) -> io_turns out s (pre ++ [t]) out' s' ->
  (forall k, (0 < k <= length pre)%nat -> ~ finished over expected (take k pre)) ->
  finished over expected (pre ++ [t]) ->
  Forall (fun t => (length (lens t) <= length out)%nat) (pre ++ [t]) /\
  exists t0 ws gs rest w0,
    start_of (pre ++ [t]) = Some t0 /\ windows_of window_over t0 (pre ++ [t]) ws gs rest w0 /\
    run over window_over expected drops (pre ++ [t]) =
    let '(p, b) := stats s' in
    match drops with
    | Some d => Some (0, ws ++ [TotalLine p b (t_now t - t0); CountLines p b d] ++ missing_lines expected p)
    | None => Some (1, ws)
    end.
Proof using Type*.
  intros He Hs Ht Hn Hf. destruct (turns_stats _ _ _ _ _ Ht Hs) as [-> Hb]. split; [done|].
  exact (rx_account over window_over expected drops pre t [] He Hn Hf).
Qed.

(** The same of a queue of falcon-rxbench-mq. *)
Lemma queue_reports_stats drops out s pre t out' s' :
  stats s = (0, 0) -> io_turns out s (pre ++ [t]) out' s' ->
  (forall k, (0 < k <= length pre)%nat -> ~ finished over expected (take k pre)) ->
  finished over expected (pre ++ [t]) ->
  run_queue over expected drops (pre ++ [t]) =
  Some ((fun d => Queue (fst (stats s')) (snd (stats s')) d
                    (t_now t - default 0 (start_of (pre ++ [t])))) <$> drops).
Proof using Type*.
  intros Hs Ht Hn Hf. destruct (turns_stats _ _ _ _ _ Ht Hs) as [-> _].
  by apply queue_account.
Qed.
End Client.

(** *** Witness *)

(** A ring with two packets and one, of 60 bytes, read by a receiver that expects
    three; the third comes more than a second after the others. *)
Definition demo_array : list AfPacket.Frame := replicate 8 (AfPacket.mkFrame 0 0 0).
Definition demo_read (r : nat * list AfPacket.Frame * AfPacket.t) : nat * list AfPacket.Frame * AfPacket.t :=
  default r (recv (T := AfPacket.t) [] (snd (fst r)) (snd r)).
Definition demo_read1 := demo_read (0%nat, demo_array, demo_ring).
Definition demo_read2 := demo_read demo_read1.

Lemma rx_reports_stats_witness :
  let over := fun d => 30000000000 <=? d in
  let window_over := fun d => 1000000000 <=? d in
  let ts := [Turn [60; 60] 25 30] in
  let t := Turn [60] 0 1000000040 in
  exists out' s', io_turns (T := AfPacket.t) demo_array demo_ring (ts ++ [t]) out' s' /\
    stats s' = (3, 180) /\
    Forall (fun t => (length (lens t) <= 8)%nat) (ts ++ [t]) /\
    exists t0 ws gs rest w0,
      start_of (ts ++ [t]) = Some t0 /\ windows_of window_over t0 (ts ++ [t]) ws gs rest w0 /\
      run over window_over 3 (Some 5) (ts ++ [t]) =
      let '(p, b) := stats s' in
      Some (0, ws ++ [TotalLine p b (t_now t - t0); CountLines p b 5] ++ missing_lines 3 p).
Proof.
  intros over window_over ts t. set (out' := snd (fst demo_read2)). set (s' := snd demo_read2).
  assert (io_turns (T := AfPacket.t) demo_array demo_ring (ts ++ [t]) out' s') as Ht.
  { apply (turns_cons (T := AfPacket.t) (H := packet_io) [] _ _ 2%nat (snd (fst demo_read1)) (snd demo_read1)
      (Turn [60; 60] 25 30) [t] _ _ I); [vm_compute; reflexivity|vm_compute; reflexivity|].
    apply (turns_cons (T := AfPacket.t) (H := packet_io) [] _ _ 1%nat out' s' t [] _ _ I);
      [vm_compute; reflexivity|vm_compute; reflexivity|constructor]. }
  assert (stats s' = (3, 180)) as Hs by (vm_compute; reflexivity).
  exists out', s'. split; [exact Ht|]. split; [exact Hs|].
  apply (rx_reports_stats (T := AfPacket.t) (H := packet_io) over window_over 3 (Some 5) demo_array demo_ring ts t out' s').
  - unfold uint_ok. lia.
  - reflexivity.
  - exact Ht.
  - intros k Hk (ts' & t' & t0 & Ets & Est & Hd). destruct k as [|[|k]]; [lia| |simpl in Hk; lia].
    simpl in Ets. destruct ts' as [|? [|]]; [|discriminate..]. injection Ets as <-.
    vm_compute in Est. injection Est as <-. vm_compute in Hd. destruct Hd as [[_ Hd]|]; [by destruct Hd|discriminate].
  - exists ts, t, 25. split; [reflexivity|]. split; [reflexivity|]. left. vm_compute. split; discriminate.
Defined.
