(* ===== verification/RxMulti.v ===== *)
(** * The processes of falcon-rxbench-mq, [run_multi] of [bench/rx_bench_mq.cpp]

    Each queue runs in a process of its own and reports through a pipe. The
    state is what the kernel keeps of them: which process holds which end of
    which pipe, and which children the parent has not waited for. A read blocks
    until there is a report or nobody can write any more, and [waitpid] until
    the child has ended; the program returns exactly when every child ends
    ([multi_returns]), which rests on the parent's closing its own write ends. *)

From S2P Require Import Prelude Throughput.
#[local] Open Scope Z_scope.

Inductive pipe_end := Rd | Wr.
#[global] Instance pipe_end_eq_dec : EqDecision pipe_end.
Proof. solve_decision. Defined.
#[global] Instance pipe_end_countable : Countable pipe_end.
Proof.
  refine (inj_countable' (fun e => match e with Rd => true | Wr => false end)
    (fun b : bool => if b then Rd else Wr) _). by intros [].
Defined.

(** A process: the parent ([None]) or the child of a queue; a descriptor: an end
    of the pipe of a queue. *)
Definition process : Type := option nat.
Definition descriptor : Type := nat * pipe_end.

(** The open descriptors of all processes, the children that were not waited for
    with their queues, and the two vectors of the parent. *)
Record procs := Procs {
  held : gset (process * descriptor);
  unreaped : gmap Z nat;
  children : list Z;
  pipes : list nat;
}.
Definition procs0 : procs := Procs ∅ ∅ [] [].

Definition close (w : process) (d : descriptor) (s : procs) : procs :=
  Procs (held s ∖ {[(w, d)]}) (unreaped s) (children s) (pipes s).

(** The answers of the system: whether [pipe] succeeds for a queue, the process
    that [fork] makes for it, if it does, how the run of that child ends ([None]:
    it does not; [Some None]: with an exception), and which child that has ended
    [waitpid(-1)] takes. *)
Record multi_env := {
  m_pipe : nat -> bool;
  m_fork : nat -> option Z;
  m_child : nat -> option (option QueueResult);
  m_any : gmap Z nat -> Z;
}.

Section Multi.
Context (e : multi_env).

(** pipe(pipefd) *)
Definition open_pipe (q : nat) (s : procs) : procs :=
  Procs ({[(None, (q, Rd)); (None, (q, Wr))]} ∪ held s) (unreaped s) (children s) (pipes s).

(** fork(): the child gets the descriptors of the parent, and closes the read end
    of its own pipe. *)
Definition fork_child (q : nat) (s : procs) : procs :=
  match m_fork e q with
  | Some pid =>
    close (Some q) (q, Rd)
      (Procs (held s ∪ set_map (fun x => (Some q, snd x)) (filter (fun x => fst x = None) (held s)))
         (<[pid := q]> (unreaped s)) (children s) (pipes s))
  | None => s
  end.

(** children.push_back(pid), pipes.push_back(pipefd[0]) *)
Definition remember (q : nat) (s : procs) : procs :=
  Procs (held s) (unreaped s) (children s ++ [default (-1) (m_fork e q)]) (pipes s ++ [q]).

(** One turn of the first loop, when [pipe] succeeds. *)
Definition spawn_turn (q : nat) (s : procs) : procs :=
  remember q (close None (q, Wr) (fork_child q (open_pipe q s))).

(** The first loop, [n] queues from [q] on; false when a pipe cannot be made. *)
Fixpoint spawn (n q : nat) (s : procs) : procs * bool :=
  match n with
  | O => (s, true)
  | S n =>
    if m_pipe e q
    then spawn n (S q) (spawn_turn q s)
    else (s, false)
  end.

(** What the child of a queue writes into its pipe. *)
Definition report_of (q : nat) : option QueueResult :=
  match m_fork e q with Some _ => default None (m_child e q) | None => None end.

(** A process will not close its descriptors by ending. *)
Definition stays (w : process) : Prop :=
  match w with None => True | Some q => m_child e q = None end.
#[global] Instance stays_dec w : Decision (stays w).
Proof. destruct w; apply _. Defined.

(** read(pipes[q], &results[q], ...): [None] when it blocks for ever; at the end
    of the file [results[q]] keeps its value. *)
Definition read_pipe (q : nat) (s : procs) : option QueueResult :=
  match report_of q with
  | Some r => Some r
  | None =>
    if decide (set_Exists (fun x => snd x = (q, Wr) /\ stays (fst x)) (held s)) then None
    else Some no_result
  end.

(** The second loop. *)
Fixpoint collect (qs : list nat) (s : procs) : option (list QueueResult * procs) :=
  match qs with
  | [] => Some ([], s)
  | q :: qs =>
    r ← read_pipe q s;
    '(rs, s) ← collect qs (close None (q, Rd) s);
    Some (r :: rs, s)
  end.

(** waitpid(pid): [None] when it blocks for ever; without such a child it fails
    at once, and waits for any of them when [pid] is -1. *)
Definition reap (pid : Z) (s : procs) : procs :=
  Procs (held s) (delete pid (unreaped s)) (children s) (pipes s).
Definition waitpid (pid : Z) (s : procs) : option procs :=
  if pid =? -1 then
    let ended := filter (fun c => is_Some (m_child e (snd c))) (unreaped s) in
    if decide (ended = ∅) then (if decide (unreaped s = ∅) then Some s else None)
    else Some (reap (m_any e ended) s)
  else
  match unreaped s !! pid with
  | None => Some s
  | Some q => if decide (is_Some (m_child e q)) then Some (reap pid s) else None
  end.

(** The third loop. *)
Fixpoint wait_all (pids : list Z) (s : procs) : option procs :=
  match pids with
  | [] => Some s
  | pid :: pids => s ← waitpid pid s; wait_all pids s
  end.

(** The exit code, what is printed, and what is left of the processes. *)
Definition run_multi (expected : Z) (num_queues : nat) : option (Z * list multi_report * procs) :=
  let '(s, ok) := spawn num_queues 0 procs0 in
  if ok : bool then
    '(rs, s) ← collect (pipes s) s;
    s ← wait_all (children s) s;
    Some (0, multi_lines expected rs, s)
  else Some (1, [], s).

(** ** What the loops keep *)

(** The queues below [q] are set up: a pipe's write end is held by its child
    alone, the parent holds all read ends and nothing else. *)
Record set_up (q : nat) (s : procs) : Prop := {
  su_write w i : (w, (i, Wr)) ∈ held s -> (i < q)%nat /\ w = Some i /\ is_Some (m_fork e i);
  su_parent d : (None, d) ∈ held s <-> exists i, (i < q)%nat /\ d = (i, Rd);
  su_read w i : (w, (i, Rd)) ∈ held s -> (i < q)%nat;
  su_running i : (i < q)%nat -> is_Some (m_fork e i) -> (Some i, (i, Wr)) ∈ held s;
  su_unreaped pid i : unreaped s !! pid = Some i -> (i < q)%nat /\ m_fork e i = Some pid;
  su_waiting pid i : (i < q)%nat -> m_fork e i = Some pid -> is_Some (unreaped s !! pid);
  su_children : children s = (fun i => default (-1) (m_fork e i)) <$> seq 0 q;
  su_pipes : pipes s = seq 0 q;
}.

Lemma set_up0 : set_up 0 procs0.
Proof using Type.
  split; simpl; try done; try (intros; set_solver); try (intros; lia).
  intros d. split; [set_solver|]. intros (i & ? & _). lia.
Qed.

(** What is open after a turn: the read end in the parent, and in a child a copy
    of the parent's descriptors with the write end of the new pipe. *)
Lemma turn_held q s w d : (forall w en, (w, (q, en)) ∉ held s) ->
  (w, d) ∈ held (spawn_turn q s) <->
  (w, d) ∈ held s \/ (w = None /\ d = (q, Rd)) \/
  (w = Some q /\ is_Some (m_fork e q) /\ (d = (q, Wr) \/ (None, d) ∈ held s)).
Proof using Type.
  intros Hq. pose proof (Hq w Rd). pose proof (Hq w Wr). pose proof (Hq None Rd).
  unfold spawn_turn, fork_child. destruct (m_fork e q) as [pid|] eqn:E; simpl.
  - assert (is_Some (Some pid)) by done.
    rewrite !elem_of_difference, !elem_of_union, elem_of_map. setoid_rewrite elem_of_filter.
    setoid_rewrite elem_of_union. rewrite !elem_of_singleton. split.
    + intros [[[[[?|?]|?]|([w' d'] & ? & ? & Hx)] ?] ?]; simplify_eq/=; auto.
      destruct Hx as [[?%elem_of_singleton|?%elem_of_singleton]%elem_of_union|?]; simplify_eq/=; auto 8.
    + intros [?|[[-> ->]|(-> & _ & Hd)]].
      * split; [split; [auto|]|]; intros ?; simplify_eq/=; auto.
      * split; [split; [auto|]|]; intros ?; simplify_eq/=; auto.
      * split; [split; [right; exists (None, d)|]|]; [| |by intros ?]; destruct Hd as [->|Hd];
          try (intros ?; simplify_eq/=; auto; fail); set_solver.
  - rewrite elem_of_difference, !elem_of_union, !elem_of_singleton. split.
    + intros [[[?|?]|?] ?]; simplify_eq/=; auto.
    + intros [?|[[-> ->]|(-> & [? ?] & Hd)]]; [| |done]; (split; [auto|]); intros ?; simplify_eq/=; auto.
Qed.

Hypothesis pids : forall q pid, m_fork e q = Some pid -> 0 < pid.

Lemma set_up_turn q s : set_up q s -> set_up (S q) (spawn_turn q s).
Proof using Type.
  intros [Hw Hp Hr Hu Hn Hz Hc Hi].
  assert (forall w en, (w, (q, en)) ∉ held s) as Hq.
  { intros w [] Hx; [apply Hr in Hx; lia|apply Hw in Hx as [? _]; lia]. }
  split.
  - intros w i [Hx|[[_ ?]|(-> & Hs & [?|Hx])]]%turn_held; simplify_eq/=; try done; [| |].
    + apply Hw in Hx as (? & ? & ?). auto.
    + auto.
    + by apply Hw in Hx as (_ & ? & _).
  - intros d. rewrite turn_held, Hp by done. split.
    + intros [(i & ? & ->)|[[_ ->]|(? & _)]]; [exists i|exists q|done]; auto with lia.
    + intros (i & Hiq & ->). destruct (decide (i = q)) as [->|]; [auto|].
      left. exists i. auto with lia.
  - intros w i [Hx|[[_ ?]|(-> & Hs & [?|Hx])]]%turn_held; simplify_eq/=; try done; try lia.
    + apply Hr in Hx. lia.
    + apply Hr in Hx. lia.
  - intros i Hiq Hs. apply turn_held; [done|]. destruct (decide (i = q)) as [->|]; [by auto 8|].
    left. apply Hu; [lia|done].
  - intros pid i. unfold spawn_turn, fork_child. destruct (m_fork e q) as [pid'|] eqn:E; simpl.
    + intros [[-> ->]|[_ ?%Hn]]%lookup_insert_Some; [auto|]. split; [lia|tauto].
    + intros ?%Hn. split; [lia|tauto].
  - intros pid i Hiq Ei. unfold spawn_turn, fork_child. destruct (decide (i = q)) as [->|].
    + rewrite Ei. simpl. rewrite lookup_insert_eq. eauto.
    + apply Hz in Ei; [|lia]. destruct (m_fork e q) as [pid'|]; [|done]. simpl.
      rewrite lookup_insert_is_Some. destruct (decide (pid' = pid)); auto.
  - unfold spawn_turn, fork_child. rewrite seq_S, fmap_app, <-Hc. simpl. by destruct (m_fork e q).
  - unfold spawn_turn, fork_child. rewrite seq_S, <-Hi. simpl. by destruct (m_fork e q).
Qed.

(** The loop is the turns one after the other. *)
Lemma spawn_app n m q s :
  spawn (n + m) q s = (let '(s', ok) := spawn n q s in if ok : bool then spawn m (q + n) s' else (s', ok)).
Proof using Type.
  clear pids. revert q s. induction n as [|n IH]; intros q s; simpl; [by rewrite Nat.add_0_r|].
  destruct (m_pipe e q); [|done]. by rewrite IH, Nat.add_succ_comm.
Qed.

Lemma spawn_up n q s : (forall i, (q <= i < q + n)%nat -> m_pipe e i = true) -> set_up q s ->
  exists s', spawn n q s = (s', true) /\ set_up (q + n) s'.
Proof using Type.
  revert q s. induction n as [|n IH]; intros q s Hp Hs; simpl.
  - exists s. by rewrite Nat.add_0_r.
  - rewrite Hp by lia. destruct (IH (S q) (spawn_turn q s)) as (s' & -> & Hs').
    { intros i ?. apply Hp. lia. } { by apply set_up_turn. }
    exists s'. by rewrite Nat.add_succ_r.
Qed.
(** ** The second loop *)

(** The child of a queue ends, if there is one. *)
Definition ends (q : nat) : Prop := is_Some (m_fork e q) -> is_Some (m_child e q).

(** With its own child as the only writer, a pipe gives the report or its end
    when that child ends, and blocks when it does not. *)
Lemma read_pipe_ends n q s : set_up n s -> (q < n)%nat -> forall s', held s' ⊆ held s ->
  (forall w, (w, (q, Wr)) ∈ held s -> (w, (q, Wr)) ∈ held s') ->
  (ends q -> read_pipe q s' = Some (default no_result (report_of q))) /\
  (~ ends q -> read_pipe q s' = None).
Proof using Type.
  intros Hs Hq s' Hsub Hkeep. unfold read_pipe, report_of, ends.
  destruct (m_fork e q) as [pid|] eqn:E.
  - destruct (m_child e q) as [r|] eqn:Ec; simpl.
    + split; [|intros []; eauto]. intros _. destruct r as [r|]; [done|]. simpl.
      destruct (decide _) as [([w d] & Hx & ? & Hst)|]; [|done]. simplify_eq/=.
      apply Hsub, (su_write _ _ Hs) in Hx as (_ & -> & _). simpl in Hst. congruence.
    + split; [intros [? ?]; [by eauto|done]|]. intros _.
      destruct (decide _) as [|Hn]; [done|]. destruct Hn. exists (Some q, (q, Wr)).
      split; [|done]. apply Hkeep, (su_running _ _ Hs); [done|by eauto].
  - split; [|intros []; by intros []]. intros _. simpl.
    destruct (decide _) as [([w d] & Hx & ? & _)|]; [|done]. simplify_eq/=.
    apply Hsub, (su_write _ _ Hs) in Hx as (_ & _ & [? ?]). congruence.
Qed.

Definition close_all (qs : list nat) (s : procs) : procs :=
  foldl (fun s q => close None (q, Rd) s) s qs.

Lemma close_all_held qs s x :
  x ∈ held (close_all qs s) <-> x ∈ held s /\ forall q, q ∈ qs -> x <> (None, (q, Rd)).
Proof using Type.
  clear pids e. revert s. induction qs as [|q qs IH]; intros s; simpl; [set_solver|].
  rewrite IH. simpl. rewrite elem_of_difference, elem_of_singleton. set_solver.
Qed.

Lemma close_all_rest qs s :
  unreaped (close_all qs s) = unreaped s /\ children (close_all qs s) = children s.
Proof using Type. revert s. induction qs as [|q qs IH]; intros s; simpl; [done|]. apply (IH (close None (q, Rd) s)). Qed.

Lemma collect_reports n s qs done : set_up n s -> Forall (fun q => q < n)%nat qs ->
  (Forall ends qs -> collect qs (close_all done s) =
     Some ((fun q => default no_result (report_of q)) <$> qs, close_all (done ++ qs) s)) /\
  (~ Forall ends qs -> collect qs (close_all done s) = None).
Proof using Type.
  intros Hs. revert done. induction qs as [|q qs IH]; intros dn Hq; simpl.
  - rewrite app_nil_r. split; [done|]. intros []. constructor.
  - apply Forall_cons in Hq as [Hq Hqs].
    destruct (read_pipe_ends n q s Hs Hq (close_all dn s)) as [He Hn].
    { intros x. rewrite close_all_held. tauto. }
    { intros w ?. apply close_all_held. split; [done|]. by intros ? _ [=]. }
    destruct (IH (dn ++ [q]) Hqs) as [IH1 IH2]. rewrite Forall_cons.
    assert (close None (q, Rd) (close_all dn s) = close_all (dn ++ [q]) s) as Hc
      by (unfold close_all; by rewrite foldl_snoc).
    split.
    + intros [Hend Hends]. rewrite He by done. simpl. rewrite Hc, IH1 by done. simpl.
      by rewrite <-app_assoc.
    + intros Hne. destruct (decide (ends q)) as [Hend|Hend]; [|by rewrite Hn].
      rewrite He by done. simpl. rewrite Hc, IH2; [done|tauto].
Qed.
(** ** The third loop *)

(** When all children end nothing blocks, and none is left that was not waited
    for: also when the wait of a child that was not made has taken another. *)
Lemma wait_all_reaps todo s :
  (forall pid q, unreaped s !! pid = Some q -> pid <> -1 /\ pid ∈ todo /\ is_Some (m_child e q)) ->
  exists s', wait_all todo s = Some s' /\ unreaped s' = ∅ /\ held s' = held s.
Proof using Type.
  clear pids. revert s. induction todo as [|pid todo IH]; intros s Hs; simpl.
  - exists s. split; [done|]. split; [|done]. apply map_empty. intros pid.
    apply eq_None_not_Some. intros [q Hq]. apply Hs in Hq. set_solver.
  - assert (forall c, (pid = -1 \/ c = pid \/ unreaped s !! pid = None) ->
      exists s', wait_all todo (reap c s) = Some s' /\ unreaped s' = ∅ /\ held s' = held s) as Hreap.
    { intros c Hc. apply (IH (reap c s)). intros pid' q Hd. simpl in Hd. apply lookup_delete_Some in Hd as [Hne Hq].
      destruct (Hs _ _ Hq) as (Hm & Hin & Hch). split; [done|]. split; [|done].
      apply elem_of_cons in Hin as [->|]; [|done]. destruct Hc as [|[|]]; congruence. }
    assert (unreaped s !! pid = None -> exists s', wait_all todo s = Some s' /\ unreaped s' = ∅ /\ held s' = held s) as Hstay.
    { intros Hn. apply IH. intros pid' q Hq. destruct (Hs _ _ Hq) as (Hm & Hin & Hch).
      split; [done|]. split; [|done]. apply elem_of_cons in Hin as [->|]; [congruence|done]. }
    unfold waitpid. case_bool; simpl.
    + assert (filter (fun c => is_Some (m_child e (snd c))) (unreaped s) = unreaped s) as ->.
      { apply map_filter_id. intros pid' q Hq. by apply Hs in Hq as (_ & _ & ?). }
      destruct (decide _) as [He|]; [|apply Hreap; auto].
      simpl. apply Hstay. by rewrite He.
    + destruct (unreaped s !! pid) as [q|] eqn:E; [|by apply Hstay].
      destruct (Hs _ _ E) as (_ & _ & ?). destruct (decide _); [|done]. simpl. apply Hreap. auto.
Qed.
(** ** The program *)

Lemma ends_reports n :
  omap id (report_of <$> seq 0 n) = omap report_of (seq 0 n).
Proof using Type.
  clear pids. induction (seq 0 n) as [|q qs IH]; [done|]. simpl.
  destruct (report_of q); [f_equal|]; exact IH.
Qed.

(** The whole program when every pipe can be made. *)
Lemma run_multi_up expected n : (forall q, (q < n)%nat -> m_pipe e q = true) ->
  (Forall ends (seq 0 n) -> exists s, set_up n s /\ exists s',
     run_multi expected n = Some (0, multi_lines expected (default no_result <$> (report_of <$> seq 0 n)), s') /\
     unreaped s' = ∅ /\ held s' = held (close_all (seq 0 n) s)) /\
  (~ Forall ends (seq 0 n) -> run_multi expected n = None).
Proof using e pids.
  intros Hp. destruct (spawn_up n 0 procs0) as (s & Hsp & Hs); [|by apply set_up0|].
  { intros i ?. apply Hp. lia. }
  change (set_up n s) in Hs. unfold run_multi. rewrite Hsp, (su_pipes _ _ Hs).
  destruct (collect_reports n s (seq 0 n) [] Hs) as [Hc Hnc].
  { apply Forall_seq. lia. }
  change (close_all [] s) with s in *. split; [|intros Hn; by rewrite Hnc].
  intros He. exists s. split; [done|]. rewrite Hc by done. simpl.
  destruct (close_all_rest (seq 0 n) s) as [Hu Hch]. rewrite Hch, (su_children _ _ Hs).
  destruct (wait_all_reaps ((fun i => default (-1) (m_fork e i)) <$> seq 0 n) (close_all (seq 0 n) s))
    as (s' & -> & ? & ?).
  - intros pid q. rewrite Hu. intros [Hq Hf]%(su_unreaped _ _ Hs). split; [apply pids in Hf; lia|]. split.
    + apply list_elem_of_fmap. exists q. rewrite Hf. split; [done|]. apply elem_of_seq. lia.
    + rewrite Forall_forall in He. apply (He q); [apply elem_of_seq; lia|by eauto].
  - exists s'. simpl. by rewrite <-list_fmap_compose.
Qed.

(** C32. falcon-rxbench-mq comes back with the sum of its queues. When its pipes
  can be made, it returns exactly when the child of every queue ends, for which a
  queue without a child counts as ended and a child may as well have ended with
  an exception. It prints then one line for each queue, with zeros for one that
  did not report; the sums of the packets, bytes and drops of those that did,
  modulo 2^64; their longest time; and of the packets that were expected of all
  queues those that are missing. It leaves no child that was not waited for and
  no open end of a pipe. *)
Theorem multi_returns expected n : (forall q, (q < n)%nat -> m_pipe e q = true) ->
  let reported := omap report_of (seq 0 n) in
  let p := u64 (sum_Z (q_packets <$> reported)) in
  let offered := u64 (expected * Z.of_nat n) in
  (is_Some (run_multi expected n) <-> forall q, (q < n)%nat -> ends q) /\
  forall code out s, run_multi expected n = Some (code, out, s) ->
    code = 0 /\ unreaped s = ∅ /\ (forall d, (None, d) ∉ held s) /\
    out = imap (fun q r => QueueLine (Z.of_nat q) (from_option q_packets 0 r) (from_option q_drops 0 r))
            (report_of <$> seq 0 n) ++
          [MultiTotals p (u64 (sum_Z (q_bytes <$> reported))) (u64 (sum_Z (q_drops <$> reported)))
             (longest reported)] ++
          (if expected =? 0 then [] else [MultiLost offered (Z.max 0 (offered - p))]).
Proof using e pids.
  intros Hp reported p offered. destruct (run_multi_up expected n Hp) as [He Hn].
  assert (Forall ends (seq 0 n) <-> forall q, (q < n)%nat -> ends q) as <-.
  { rewrite Forall_seq. split; intros H q Hq; apply H; lia. }
  destruct (decide (Forall ends (seq 0 n))) as [Hd|Hd].
  - destruct (He Hd) as (s1 & Hs & s' & -> & Hu & Hh). split; [by eauto|].
    intros code out s [= <- <- <-]. split; [done|]. split; [done|]. split.
    + intros d. rewrite Hh, close_all_held. intros [(q & Hq & ->)%(su_parent _ _ Hs) Hx].
      apply (Hx q); [apply elem_of_seq; lia|done].
    + rewrite multi_account, ends_reports, length_fmap, length_seq. done.
  - rewrite Hn by done. split; [|done]. split; [by intros []|done].
Qed.

(** When a pipe cannot be made the program returns 1 at once: it has read
    nothing, and the children that it has made are not waited for. *)
Theorem multi_pipe_fails expected n q : (q < n)%nat ->
  (forall i, (i < q)%nat -> m_pipe e i = true) -> m_pipe e q = false ->
  exists s, run_multi expected n = Some (1, [], s) /\
    (forall i pid, (i < q)%nat -> m_fork e i = Some pid -> is_Some (unreaped s !! pid)) /\
    forall i, (i < q)%nat -> (None, (i, Rd)) ∈ held s.
Proof using e pids.
  intros Hq Hp Hf. destruct (spawn_up q 0 procs0) as (s & Hsp & Hs); [|by apply set_up0|].
  { intros i ?. apply Hp. lia. }
  assert (spawn n 0 procs0 = (s, false)) as E.
  { replace n with (q + S (n - q - 1))%nat by lia. rewrite spawn_app, Hsp. simpl. by rewrite Hf. }
  exists s. unfold run_multi. rewrite E. split; [done|]. split.
  - intros i pid ? ?. by apply (su_waiting _ _ Hs _ i).
  - intros i ?. apply (su_parent _ _ Hs). eauto.
Qed.
(** A queue without traffic: its child, whatever the others have received and
    however much time has passed, still waits for its first frame, and the
    program with it. *)
Theorem multi_idle expected n over drops (turns : nat -> list turn) q :
  (forall i, (i < n)%nat -> m_pipe e i = true) ->
  (forall i, m_child e i = run_queue over expected (drops i) (turns i)) ->
  (q < n)%nat -> is_Some (m_fork e q) -> Forall (fun t => lens t = []) (turns q) ->
  run_multi expected n = None.
Proof using e pids.
  intros Hp Hc Hq Hf Hi. apply run_multi_up; [done|]. intros He.
  rewrite Forall_forall in He. destruct (He q) as [r Hr]; [apply elem_of_seq; lia|done|].
  by rewrite Hc, queue_idle in Hr.
Qed.
End Multi.

(** *** Witnesses *)

(** Three queues: one that reports, one that fails, and one without a process. *)
Definition demo_multi : multi_env := {|
  m_pipe := fun _ => true;
  m_fork := fun q => if Nat.ltb q 2 then Some (100 + Z.of_nat q) else None;
  m_child := fun q => Some (if Nat.eqb q 0 then Some (Queue 7 420 1 50) else None);
  m_any := fun _ => 100;
|}.

Lemma demo_multi_pids q pid : m_fork demo_multi q = Some pid -> 0 < pid.
Proof. simpl. destruct (Nat.ltb q 2); [|done]. intros [= <-]. lia. Qed.

Lemma multi_returns_witness :
  is_Some (run_multi demo_multi 10 3) /\
  (is_Some (run_multi demo_multi 10 3) <-> forall q, (q < 3)%nat -> ends demo_multi q) /\
  forall code out s, run_multi demo_multi 10 3 = Some (code, out, s) ->
    code = 0 /\ unreaped s = ∅ /\ (forall d, (None, d) ∉ held s) /\
    out = [QueueLine 0 7 1; QueueLine 1 0 0; QueueLine 2 0 0; MultiTotals 7 420 1 50; MultiLost 30 23].
Proof.
  split; [vm_compute; eauto|].
  exact (multi_returns demo_multi demo_multi_pids 10 3 (fun _ _ => eq_refl)).
Defined.

(** The second pipe cannot be made: the child of the first queue is left. *)
Lemma multi_pipe_fails_witness :
  let e := {| m_pipe := Nat.eqb 0; m_fork := m_fork demo_multi; m_child := m_child demo_multi; m_any := fun _ => 100 |} in
  exists s, run_multi e 10 3 = Some (1, [], s) /\
    (forall i pid, (i < 1)%nat -> m_fork e i = Some pid -> is_Some (unreaped s !! pid)) /\
    forall i, (i < 1)%nat -> (None, (i, Rd)) ∈ held s.
Proof.
  intros e. apply (multi_pipe_fails e demo_multi_pids 10 3 1); [lia| |reflexivity].
  intros i Hi. assert (i = 0%nat) as -> by lia. reflexivity.
Defined.

(** Of two queues the second receives nothing. *)
Lemma multi_idle_witness :
  let over := fun d => 1000000000 <=? d in
  let turns := fun q => if Nat.eqb q 0 then [Turn [60] 10 20; Turn [] 0 5000000000] else [Turn [] 0 20; Turn [] 0 5000000000] in
  let e := {| m_pipe := fun _ => true; m_fork := m_fork demo_multi;
              m_child := fun q => run_queue over 0 (Some 0) (turns q); m_any := fun _ => 100 |} in
  is_Some (m_child e 0) /\ run_multi e 0 2 = None.
Proof.
  intros over turns e. split; [vm_compute; eauto|].
  apply (multi_idle e demo_multi_pids 0 2 over (fun _ => Some 0) turns 1);
    [reflexivity|reflexivity|lia|vm_compute; eauto|by repeat constructor].
Defined.
