(* ===== verification/BenchCli.v ===== *)
(** * The command lines of the smaller programs of the benchmark

    [main] of [bench/validate.cpp] with its sender [transmit], and [main] of
    [bench/rx_bench.cpp] and [bench/rx_bench_mq.cpp], around the receivers of
    [Validate] and [Throughput], and the CPU usage that the last one reports.
    What a receiver or a system call answers is a parameter; a [double] is one,
    with [atof] and its comparison with zero. *)

From S2P Require Import Prelude CStrings FwProg FwSpec Parser SocketRx Validate Throughput Resources.
#[local] Open Scope Z_scope.

(** ** falcon-validate *)

Section Transmit.
Context `{Endian} (inet_pton : string -> option Z).

(** What the system calls of the set-up answer, and each sendto. *)
Record udp_env := { u_socket : bool; u_bindtodevice : bool; u_bind : bool; u_send : Z -> bool }.

(** What has left the sender: each datagram, and the time it sleeps until. *)
Definition sent_log : Type := list (list Z * Z).

(** The loop from [sequence] on, [n] turns of it: what was sent, and whether a
    send failed. *)
Fixpoint transmit_loop (send : Z -> bool) (interval : Z) (n : nat) (sequence next : Z) : sent_log * bool :=
  match n with
  | O => ([], true)
  | S n =>
    if send sequence then
      let next := next + interval in
      let '(log, ok) := transmit_loop send interval n (u64 (sequence + 1)) next in
      ((header_bytes sequence, next) :: log, ok)
    else ([], false)
  end.

(** transmit: the exit code or the message of the exception, what was sent, and
    the resources held. *)
Definition transmit_main (e : udp_env) (source destination : string) (count pps now : Z) (h : Resources.held) :
    (Z + string) * sent_log * Resources.held :=
  if negb (u_socket e) then (inr "socket failed: ", [], h) else
  let h := Resources.acquire Resources.Fd h in
  if negb (u_bindtodevice e) then (inr "SO_BINDTODEVICE failed: ", [], h) else
  if negb (bool_decide (is_Some (inet_pton source)) && u_bind e) then (inr "bind source failed: ", [], h) else
  if negb (bool_decide (is_Some (inet_pton destination))) then (inr "invalid destination address", [], h) else
  let interval := 1000000000 / pps in
  let '(log, ok) := transmit_loop (u_send e) interval (Z.to_nat count) 0 now in
  if ok : bool then (inl 0, log, Resources.free Resources.Fd h) else (inr "sendto failed: ", log, h).

(** What [main] does with the arguments after the program's name. *)
Inductive validate_command :=
  | Transmit (ifname source destination : string) (count pps : Z)
  | Receive (backend target : string) (count : Z) (zero_copy : bool)
  | Refuse (msg : string).

Definition validate_args (argv : list string) : validate_command :=
  match argv with
  | [tx; ifname; source; destination; count] =>
    if decide (tx = "tx") then Transmit ifname source destination (strtoull count) 10000 else Refuse "usage"
  | [backend; target; count] =>
    if decide (backend ∈ ["socket"; "packet"; "xdp"; "xdp-zc"])
    then Receive backend target (strtoull count) (bool_decide (backend = "xdp-zc"))
    else Refuse "unknown backend: "
  | _ => Refuse "usage"
  end.

(** The exit code; [receives] is that of [receive], [None] when it throws. *)
Definition validate_main (e : udp_env) (receives : string -> string -> Z -> bool -> option Z) (now : Z)
    (argv : list string) : Z :=
  match validate_args argv with
  | Transmit _ source destination count pps =>
    match transmit_main e source destination count pps now ∅ with
    | (inl code, _, _) => code
    | (inr _, _, _) => 1
    end
  | Receive backend target count zc => default 1 (receives backend target count zc)
  | Refuse _ => 1
  end.

(** *** What is sent *)

(** The datagram of a number with the time the sender sleeps until. *)
Definition paced (now interval : Z) (s : Z) : list Z * Z := (header_bytes s, now + (s + 1) * interval).

Lemma transmit_loop_all send interval n s now :
  0 <= s -> s + Z.of_nat n < 2 ^ 64 -> (forall i, s <= i < s + Z.of_nat n -> send i = true) ->
  transmit_loop send interval n s (now + s * interval) = (paced now interval <$> seqZ s (Z.of_nat n), true).
Proof using Type.
  revert s. induction n as [|n IH]; intros s Hs Hn Hsend; [done|]. cbn [transmit_loop].
  rewrite Hsend by lia. assert (u64 (s + 1) = s + 1) as -> by (apply wrap_small; unfold uint_ok; lia).
  replace (now + s * interval + interval) with (now + (s + 1) * interval) by lia.
  rewrite IH by (lia || (intros; apply Hsend; lia)).
  rewrite (seqZ_cons s) by lia. rewrite fmap_cons. unfold paced at 2. repeat f_equal; lia.
Qed.

Lemma transmit_loop_fails send interval n s now k :
  0 <= s -> s + Z.of_nat n < 2 ^ 64 -> s <= k < s + Z.of_nat n ->
  (forall i, s <= i < k -> send i = true) -> send k = false ->
  transmit_loop send interval n s (now + s * interval) = (paced now interval <$> seqZ s (k - s), false).
Proof using Type.
  revert s. induction n as [|n IH]; intros s Hs Hn Hk Hsend Hfail; [lia|]. cbn [transmit_loop].
  destruct (decide (k = s)) as [->|Hne]; [by rewrite Hfail, Z.sub_diag|].
  rewrite Hsend by lia. assert (u64 (s + 1) = s + 1) as -> by (apply wrap_small; unfold uint_ok; lia).
  replace (now + s * interval + interval) with (now + (s + 1) * interval) by lia.
  rewrite IH by (lia || done || (intros; apply Hsend; lia)).
  rewrite (seqZ_cons s (k - s)) by lia. rewrite fmap_cons. unfold paced at 2. repeat f_equal; lia.
Qed.

(** The set-up of the sender goes well. *)
Definition udp_set_up (e : udp_env) (source destination : string) : Prop :=
  u_socket e = true /\ u_bindtodevice e = true /\ u_bind e = true /\
  is_Some (inet_pton source) /\ is_Some (inet_pton destination).

Lemma transmit_main_eq e source destination count now :
  udp_set_up e source destination ->
  transmit_main e source destination count 10000 now ∅ =
  let '(log, ok) := transmit_loop (u_send e) 100000 (Z.to_nat count) 0 (now + 0 * 100000) in
  if ok then (inl 0, log, ∅) else (inr "sendto failed: ", log, {[Resources.Fd]}).
Proof using Type.
  intros (Hs & Hi & Hb & Hsrc & Hdst). unfold transmit_main.
  rewrite Hs, Hi, Hb, (bool_decide_true _ Hsrc), (bool_decide_true _ Hdst). cbn [negb andb].
  rewrite Z.add_0_r. destruct (transmit_loop _ _ _ _ _) as [log []]; do 2 f_equal;
    unfold Resources.free, Resources.acquire; set_solver.
Qed.

(** C36. The validator's sender. When every send succeeds, the command sends the
  numbers below [count] in order, paces them at 10,000 a second without drift,
  closes its socket and exits with 0; a receiver that gets exactly these
  datagrams, in any batches and any order, accepts. When one fails it has sent
  the numbers before it, and exits with 1. *)
Theorem transmit_exact e ifname source destination count now receives :
  udp_set_up e source destination ->
  let n := strtoull count in
  let argv := ["tx"; ifname; source; destination; count] in
  let '(_, log, h) := transmit_main e source destination n 10000 now ∅ in
  ((forall i, 0 <= i < n -> u_send e i = true) ->
   validate_main e receives now argv = 0 /\ h = ∅ /\ log = paced now 100000 <$> seqZ 0 n /\
   forall batches, concat batches ≡ₚ log.*1 -> Validate.receive kL4Payload n batches = Some 0) /\
  (forall k, 0 <= k < n -> (forall i, 0 <= i < k -> u_send e i = true) -> u_send e k = false ->
   validate_main e receives now argv = 1 /\ log = paced now 100000 <$> seqZ 0 k).
Proof using Type.
  intros He n argv. pose proof (strtoull_range count) as Hn. fold n in Hn. unfold uint_ok in Hn.
  unfold validate_main, argv, validate_args. rewrite decide_True by done. fold n.
  rewrite transmit_main_eq by done.
  destruct (transmit_loop _ _ _ _ _) as [log ok] eqn:E. destruct ok.
  all: split; [intros Hall|intros k Hk Hsend Hfail].
  - rewrite transmit_loop_all in E by (lia || (intros; apply Hall; lia)). injection E as <-.
    rewrite Z2Nat.id by lia. split; [done|]. split; [done|]. split; [done|].
    intros batches Hb. apply validate_roundtrip; [lia|]. rewrite Hb. unfold transmit, paced.
    by rewrite <-list_fmap_compose.
  - by rewrite (transmit_loop_fails _ _ _ _ _ k) in E by (lia || done || (intros; apply Hsend; lia)).
  - by rewrite transmit_loop_all in E by (lia || (intros; apply Hall; lia)).
  - rewrite (transmit_loop_fails _ _ _ _ _ k) in E by (lia || done || (intros; apply Hsend; lia)).
    injection E as <-. by rewrite Z.sub_0_r.
Qed.
End Transmit.

(** ** falcon-rxbench and falcon-rxbench-mq *)

Section Receivers.
Context {double : Type} (atof : string -> double) (not_positive : double -> bool).

(** A run that the command line asks for: backend, target, seconds, expected
    packets, and the number of queues. *)
Inductive rx_command :=
  | RxRun (backend target : string) (seconds : double) (expected : Z)
  | RxMulti (backend target : string) (seconds : double) (expected queues : Z)
  | RxRefuse (msg : string).

Definition backend_known (backend : string) : bool :=
  bool_decide (backend ∈ ["socket"; "packet"; "xdp"; "xdp-zc"]).

Definition rx_args (argv : list string) : rx_command :=
  match argv with
  | backend :: target :: secs :: rest =>
    if (1 <? Z.of_nat (length rest)) then RxRefuse "usage" else
    let seconds := atof secs in
    let expected := from_option strtoull 0 (head rest) in
    if not_positive seconds then RxRefuse "seconds must be positive" else
    if backend_known backend then RxRun backend target seconds expected else RxRefuse "unknown backend: "
  | _ => RxRefuse "usage"
  end.

Definition mq_args (argv : list string) : rx_command :=
  match argv with
  | backend :: target :: secs :: queues :: rest =>
    if (1 <? Z.of_nat (length rest)) then RxRefuse "usage" else
    let seconds := atof secs in
    let num_queues := i32 (strtol queues) in
    let expected := from_option strtoull 0 (head rest) in
    if not_positive seconds || (num_queues <=? 0) || (64 <? num_queues)
    then RxRefuse "invalid seconds or queue count" else
    if backend_known backend then RxMulti backend target seconds expected num_queues
    else RxRefuse "unknown backend: "
  | _ => RxRefuse "usage"
  end.

(** Runs are started only with a known backend, seconds that are not found to be
    zero or negative, and 1 to 64 queues. *)
Lemma rx_args_checked argv :
  match rx_args argv with
  | RxRun b _ s e => backend_known b = true /\ not_positive s = false /\ uint_ok 64 e
  | RxMulti _ _ _ _ _ => False
  | RxRefuse _ => True
  end.
Proof using Type.
  unfold rx_args. destruct argv as [|b [|t [|s rest]]]; try done.
  destruct (1 <? _); [done|]. destruct (not_positive _) eqn:Es; [done|].
  destruct (backend_known b) eqn:Eb; [|done]. split; [done|]. split; [done|].
  destruct rest; simpl; [unfold uint_ok; lia|apply strtoull_range].
Qed.

Lemma mq_args_checked argv :
  match mq_args argv with
  | RxMulti b _ s e n => backend_known b = true /\ not_positive s = false /\ uint_ok 64 e /\ 1 <= n <= 64
  | RxRun _ _ _ _ => False
  | RxRefuse _ => True
  end.
Proof using Type.
  unfold mq_args. destruct argv as [|b [|t [|s [|q rest]]]]; try done.
  destruct (1 <? _); [done|]. destruct (_ || _ || _) eqn:Es; [done|]. bool_hyps.
  destruct (backend_known b) eqn:Eb; [|done]. split; [done|]. split; [done|]. split; [|lia].
  destruct rest; simpl; [unfold uint_ok; lia|apply strtoull_range].
Qed.
End Receivers.

(** *** CPU usage *)

(** The counters of a CPU in /proc/stat, in clock ticks. *)
Record CpuTimes := Cpu {
  user : Z; nice : Z; system : Z; idle : Z; iowait : Z; irq : Z; softirq : Z; steal : Z;
}.

Definition cpu_total (t : CpuTimes) : Z :=
  foldl (fun n x => u64 (n + x)) (user t) [nice t; system t; idle t; iowait t; irq t; softirq t; steal t].

(** cpu_usage_percent: the quotient as numerator and denominator, of which 100.0
    times the first is divided by the second; [None] for 0.0. *)
Definition cpu_usage (before after : CpuTimes) : option (Z * Z) :=
  let total_delta := u64 (cpu_total after - cpu_total before) in
  let idle_delta := u64 (u64 (idle after + iowait after) - u64 (idle before + iowait before)) in
  if total_delta =? 0 then None else Some (u64 (total_delta - idle_delta), total_delta).

(** The time that a CPU was busy. *)
Definition busy (t : CpuTimes) : Z := user t + nice t + system t + irq t + softirq t + steal t.

Definition cpu_fields (t : CpuTimes) : list Z :=
  [user t; nice t; system t; idle t; iowait t; irq t; softirq t; steal t].

(** Counters that have not run for ages. *)
Definition cpu_ok (t : CpuTimes) : Prop := Forall (fun x => 0 <= x < 2 ^ 60) (cpu_fields t).

Lemma cpu_ok_range t : cpu_ok t ->
  0 <= busy t < 6 * 2 ^ 60 /\ 0 <= idle t + iowait t < 2 * 2 ^ 60 /\ cpu_total t = busy t + (idle t + iowait t).
Proof.
  intros Ht. unfold cpu_ok, cpu_fields in Ht. repeat (apply Forall_cons in Ht as [? Ht]). cbv beta in *.
  assert (forall x, 0 <= x < 2 ^ 64 -> u64 x = x) as Hu by (intros; apply wrap_small; unfold uint_ok; lia).
  unfold busy, cpu_total. cbn [foldl].
  repeat match goal with |- context [u64 ?x] =>
    lazymatch x with context [u64 _] => fail | _ => rewrite (Hu x) by lia end end. lia.
Qed.

(** While no counter wraps or goes back, the usage is the busy time over the
    whole time. *)
Lemma cpu_usage_exact before after :
  cpu_ok before -> cpu_ok after -> Forall2 Z.le (cpu_fields before) (cpu_fields after) ->
  let d := busy after - busy before in
  let i := idle after + iowait after - (idle before + iowait before) in
  cpu_usage before after = if d + i =? 0 then None else Some (d, d + i).
Proof.
  intros Hb Ha Hle. destruct (cpu_ok_range _ Hb) as (B1 & B2 & B3), (cpu_ok_range _ Ha) as (A1 & A2 & A3).
  assert (busy before <= busy after /\ idle before + iowait before <= idle after + iowait after) as [L1 L2].
  { unfold cpu_fields in Hle. repeat (apply Forall2_cons_1 in Hle as [? Hle]). unfold busy. lia. }
  cbv zeta. unfold cpu_usage. rewrite A3, B3.
  assert (forall x, 0 <= x < 2 ^ 64 -> u64 x = x) as Hu by (intros; apply wrap_small; unfold uint_ok; lia).
  rewrite (Hu (idle after + iowait after)), (Hu (idle before + iowait before)) by lia.
  rewrite (Hu (idle after + iowait after - _)), (Hu (busy after + _ - _)) by lia.
  replace (busy after + (idle after + iowait after) - (busy before + (idle before + iowait before)))
    with (busy after - busy before + (idle after + iowait after - (idle before + iowait before))) by lia.
  destruct (_ =? 0); [done|]. do 2 f_equal. rewrite Hu; lia.
Qed.

(** *** Witness *)

Definition demo_udp_env : udp_env :=
  {| u_socket := true; u_bindtodevice := true; u_bind := true; u_send := fun i => negb (i =? 2) |}.

(** Five datagrams, of which the third cannot be sent. *)
Lemma transmit_exact_witness :
  let _ := little in
  let pton := fun s : string => Some 1 in
  let receives := fun _ _ _ _ => Some 0 in
  validate_main pton demo_udp_env receives 7 ["tx"; "veth1"; "10.0.0.2"; "10.0.0.1"; "5"] = 1 /\
  snd (fst (transmit_main pton demo_udp_env "10.0.0.2" "10.0.0.1" 5 10000 7 ∅)) = paced 7 100000 <$> seqZ 0 2.
Proof.
  intros en pton receives.
  pose proof (transmit_exact pton demo_udp_env "veth1" "10.0.0.2" "10.0.0.1" "5" 7 receives) as H.
  change (strtoull "5") with 5 in H. cbv zeta in H.
  destruct (transmit_main _ _ _ _ _ _ _ _) as [[r log] h].
  apply H; [by repeat split; eexists|lia| |reflexivity].
  intros i Hi. unfold demo_udp_env. cbn [u_send]. rewrite (proj2 (Z.eqb_neq _ _)) by lia. reflexivity.
Defined.
