(* ===== verification/ProcStat.v ===== *)
(** * CPU times from /proc/stat, [read_cpu_times] of [bench/rx_bench_mq.cpp]

    A queue of falcon-rxbench-mq measures how busy its CPU was with the counters
    that Linux prints for it. The text of the file is a string; [stat_text] is
    the text of a machine as Linux documents it, and read back it gives the
    counters of the CPU that is asked for ([proc_stat_usage]). *)

From S2P Require Import Prelude CStrings FwCtl BenchCli.
#[local] Open Scope Z_scope.

Definition NL : ascii := "010".

(** std::getline, until it fails. *)
Fixpoint lines (s : string) : list string :=
  match s with
  | EmptyString => []
  | String c s =>
    if ascii_dec c NL then "" :: lines s
    else match lines s with
    | [] => [String c ""]
    | l :: ls => String c l :: ls
    end
  end.

(** The digits at the head of a string, after [acc], and the rest. *)
Fixpoint digits_rest (acc : Z) (s : string) : Z * string :=
  match s with
  | String c s' => match digit c with Some d => digits_rest (acc * 10 + d) s' | None => (acc, s) end
  | EmptyString => (acc, s)
  end.

(** A conversion of sscanf to an integer: white space, a sign, digits; the sign,
    the magnitude and the rest, or [None] when it does not match. *)
Definition unsigned_rest (s : string) : option (Z * string) :=
  match s with
  | String c _ => match digit c with Some _ => Some (digits_rest 0 s) | None => None end
  | EmptyString => None
  end.
Definition int_rest (s : string) : option (bool * Z * string) :=
  match skip_space s with
  | String "-" s => (fun r => (true, fst r, snd r)) <$> unsigned_rest s
  | String "+" s => (fun r => (false, fst r, snd r)) <$> unsigned_rest s
  | s => (fun r => (false, fst r, snd r)) <$> unsigned_rest s
  end.

(** " %llu", up to [n] times: the values converted before the first failure.
    [None] when a value does not fit. *)
Fixpoint llus (n : nat) (s : string) : option (list Z) :=
  match n with
  | O => Some []
  | S n =>
    match int_rest s with
    | None => Some []
    | Some (neg, v, rest) =>
      if ULLONG_MAX <? v then None
      else (fun l => (if neg : bool then u64 (- v) else v) :: l) <$> llus n rest
    end
  end.

Definition no_times : CpuTimes := Cpu 0 0 0 0 0 0 0 0.

(** The members that were converted; the others keep their 0. *)
Definition times_of (l : list Z) : CpuTimes :=
  let f i := default 0 (l !! i) in
  Cpu (f 0%nat) (f 1%nat) (f 2%nat) (f 3%nat) (f 4%nat) (f 5%nat) (f 6%nat) (f 7%nat).

(** sscanf(line, "cpu%*d %llu ...", ...) *)
Definition sscanf_times (line : string) : option CpuTimes :=
  match line with
  | String "c" (String "p" (String "u" s)) =>
    match int_rest s with
    | Some (_, _, rest) => times_of <$> llus 8 rest
    | None => Some no_times
    end
  | _ => Some no_times
  end.

(** The loop over the lines. *)
Fixpoint find_times (cpu : Z) (ls : list string) : option CpuTimes :=
  match ls with
  | [] => Some no_times
  | l :: ls => if String.prefix ("cpu" +:+ show cpu +:+ " ") l then sscanf_times l else find_times cpu ls
  end.

Definition read_cpu_times (text : string) (cpu : Z) : option CpuTimes := find_times cpu (lines text).

(** ** Numbers read back *)

(** The next character, if there is one, is not a digit. *)
Definition stops (s : string) : Prop := match s with String c _ => digit c = None | EmptyString => True end.

Lemma digits_rest_app acc s r :
  all_digits s -> stops r -> digits_rest acc (s +:+ r) = (digits_from acc s, r).
Proof.
  revert acc. induction s as [|c s IH]; intros acc Hs Hr.
  - simpl. destruct r as [|c r]; [done|]. simpl in *. by rewrite Hr.
  - destruct Hs as [[d Hd] Hs]. change (String c s +:+ r) with (String c (s +:+ r)).
    cbn [digits_rest digits_from]. rewrite Hd. by apply IH.
Qed.

Lemma show_digits v : 0 <= v -> all_digits (show v) /\ digits_from 0 (show v) = v /\ show v <> "".
Proof.
  intros Hv. destruct v as [|p|p]; [|exact (pretty_N_digits (Npos p))|lia].
  split; [|done]. simpl. by split; [eexists|].
Qed.

Lemma unsigned_show v r : 0 <= v -> stops r -> unsigned_rest (show v +:+ r) = Some (v, r).
Proof.
  intros Hv Hr. destruct (show_digits v Hv) as (Hd & Hf & Hne). pose proof (digits_rest_app 0 _ r Hd Hr) as E.
  rewrite Hf in E. destruct (show v) as [|c s]; [done|]. destruct Hd as [[d Hc] _].
  change (String c s +:+ r) with (String c (s +:+ r)) in *. unfold unsigned_rest. by rewrite Hc, E.
Qed.

(** A conversion reads a number, after a space or not. *)
Lemma int_rest_show v r : 0 <= v -> stops r -> int_rest (show v +:+ r) = Some (false, v, r).
Proof.
  intros Hv Hr. pose proof (unsigned_show v r Hv Hr) as E. destruct (show_digits v Hv) as (Hd & _ & Hne).
  destruct (show v) as [|c s]; [done|]. destruct Hd as [[d Hc] _].
  change (String c s +:+ r) with (String c (s +:+ r)) in *. unfold int_rest. cbn [skip_space].
  assert (is_space c = false) as -> by by destruct c as [[] [] [] [] [] [] [] []].
  destruct c as [[] [] [] [] [] [] [] []]; try done; by rewrite E.
Qed.

Lemma int_rest_space s : int_rest (String " " s) = int_rest s.
Proof. done. Qed.

(** The numbers of a line, as Linux prints them. *)
Definition fields_text (fs : list Z) : string := foldr (fun v s => String " " (show v +:+ s)) "" fs.

Lemma fields_stop fs : stops (fields_text fs).
Proof. by destruct fs. Qed.

Lemma llus_fields n fs : Forall (uint_ok 64) fs -> llus n (fields_text fs) = Some (take n fs).
Proof.
  revert fs. induction n as [|n IH]; intros fs Hf; [done|]. destruct fs as [|v fs]; [done|].
  apply Forall_cons in Hf as [Hv Hf]. cbn [fields_text foldr llus]. rewrite int_rest_space.
  change (foldr _ "" fs) with (fields_text fs).
  rewrite int_rest_show by (apply Hv || apply fields_stop).
  rewrite (proj2 (Z.ltb_ge _ _)) by (unfold ULLONG_MAX, uint_ok in *; lia). by rewrite IH.
Qed.

(** ** The text of a machine *)

(** The line of a CPU: its eight counters, and the ones Linux added later. *)
Definition cpu_line (i : Z) (t : CpuTimes) (more : list Z) : string :=
  "cpu" +:+ show i +:+ fields_text (cpu_fields t ++ more).

Lemma sscanf_cpu_line i t more :
  0 <= i -> Forall (uint_ok 64) (cpu_fields t ++ more) -> sscanf_times (cpu_line i t more) = Some t.
Proof.
  intros Hi Hf. unfold cpu_line. change ("cpu" +:+ ?s) with (String "c" (String "p" (String "u" s))).
  cbn [sscanf_times]. rewrite int_rest_show by (done || apply fields_stop).
  rewrite llus_fields by done. by destruct t.
Qed.

(** A line is the one of CPU [q]. *)
Definition is_cpu (q : Z) (l : string) : bool := String.prefix ("cpu" +:+ show q +:+ " ") l.

Lemma string_app_assoc s1 s2 s3 : (s1 +:+ s2) +:+ s3 = s1 +:+ (s2 +:+ s3).
Proof.
  induction s1 as [|c s1 IH]; [done|].
  by change (String c ((s1 +:+ s2) +:+ s3) = String c (s1 +:+ (s2 +:+ s3))); rewrite IH.
Qed.

Lemma prefix_app s1 s2 : String.prefix s1 s2 = true <-> exists r, s2 = s1 +:+ r.
Proof.
  revert s2. induction s1 as [|c s1 IH]; intros s2; [split; [by exists s2|by destruct s2]|].
  destruct s2 as [|c' s2]; [split; [done|by intros [r ?]]|].
  change (String.prefix (String c s1) (String c' s2))
    with (if ascii_dec c c' then String.prefix s1 s2 else false).
  change (String c s1 +:+ ?r) with (String c (s1 +:+ r)). destruct (ascii_dec c c') as [->|Hne].
  - rewrite IH. split; intros [r Hr]; exists r; [by rewrite Hr|by injection Hr].
  - split; [done|]. by intros [r [= ? _]].
Qed.

Lemma is_cpu_line q i t more : 0 <= q -> 0 <= i -> is_cpu q (cpu_line i t more) = bool_decide (q = i).
Proof.
  intros Hq Hi. unfold is_cpu, cpu_line. case_bool_decide as E.
  - subst. apply prefix_app. destruct t as [u n sy id io ir so st]. eexists (show u +:+ _).
    rewrite !string_app_assoc. reflexivity.
  - apply not_true_iff_false. intros [r Hr]%prefix_app. apply E.
    change ("cpu" +:+ ?s) with (String "c" (String "p" (String "u" s))) in Hr.
    injection Hr as Hr. rewrite !string_app_assoc in Hr.
    pose proof (f_equal (fun s => fst (digits_rest 0 s)) Hr) as Hd. cbv beta in Hd.
    destruct (show_digits q Hq) as (D1 & D2 & _), (show_digits i Hi) as (D3 & D4 & _).
    rewrite !digits_rest_app in Hd by (done || apply fields_stop). simpl in Hd. congruence.
Qed.

(** A text of lines, each ended by a newline. *)
Definition text_of (ls : list string) : string := foldr (fun l s => l +:+ String NL s) "" ls.

Fixpoint no_newline (s : string) : Prop :=
  match s with
  | String c s => c <> NL /\ no_newline s
  | EmptyString => True
  end.

Lemma lines_app l s : no_newline l -> lines (l +:+ String NL s) = l :: lines s.
Proof.
  induction l as [|c l IH]; intros Hl; [done|]. destruct Hl as [Hc Hl].
  change (String c l +:+ String NL s) with (String c (l +:+ String NL s)). cbn [lines].
  destruct (ascii_dec c NL); [done|]. by rewrite IH.
Qed.

Lemma lines_text ls : Forall no_newline ls -> lines (text_of ls) = ls.
Proof.
  induction 1 as [|l ls Hl _ IH]; [done|]. change (text_of (l :: ls)) with (l +:+ String NL (text_of ls)).
  by rewrite lines_app, IH.
Qed.

Lemma no_newline_app s1 s2 : no_newline s1 -> no_newline s2 -> no_newline (s1 +:+ s2).
Proof. induction s1 as [|c s1 IH]; [done|]. intros [Hc Hs] H2. split; [done|by apply IH]. Qed.

Lemma digits_no_newline s : all_digits s -> no_newline s.
Proof. induction s as [|c s IH]; [done|]. intros [[d Hd] Hs]. split; [by intros ->|by apply IH]. Qed.

Lemma cpu_line_no_newline i t more :
  0 <= i -> Forall (uint_ok 64) (cpu_fields t ++ more) -> no_newline (cpu_line i t more).
Proof.
  intros Hi Hf. unfold cpu_line. apply no_newline_app; [by repeat split|].
  apply no_newline_app; [by apply digits_no_newline, show_digits|].
  induction Hf as [|v fs Hv _ IH]; [done|]. split; [done|].
  apply no_newline_app; [apply digits_no_newline, show_digits, Hv|done].
Qed.

(** The lines of /proc/stat: others, among them that of all CPUs together, and
    one for each CPU that is online, with its number. *)
Record stat_file := StatFile {
  sf_before : list string;
  sf_cpus : list (Z * (CpuTimes * list Z));
  sf_after : list string;
}.

Definition cpu_lines (cs : list (Z * (CpuTimes * list Z))) : list string :=
  (fun '(i, (t, more)) => cpu_line i t more) <$> cs.
Definition stat_text (f : stat_file) : string :=
  text_of (sf_before f ++ cpu_lines (sf_cpus f) ++ sf_after f).

(** The counters of CPU [q], if it is online. *)
Definition cpu_at (f : stat_file) (q : Z) : option CpuTimes :=
  fst <$> (list_to_map (sf_cpus f) : gmap Z (CpuTimes * list Z)) !! q.

Definition other_line (l : string) : Prop := no_newline l /\ forall q, 0 <= q -> is_cpu q l = false.

Definition cpu_line_ok : Z * (CpuTimes * list Z) -> Prop :=
  fun '(i, (t, more)) => 0 <= i /\ Forall (uint_ok 64) (cpu_fields t ++ more).

Record stat_ok (f : stat_file) : Prop := {
  so_before : Forall other_line (sf_before f);
  so_after : Forall other_line (sf_after f);
  so_cpus : Forall cpu_line_ok (sf_cpus f);
}.

Lemma find_others q ls ls' : 0 <= q -> Forall other_line ls -> find_times q (ls ++ ls') = find_times q ls'.
Proof.
  intros Hq. induction 1 as [|l ls [_ Hl] _ IH]; [done|]. cbn [app find_times].
  fold (is_cpu q l). by rewrite Hl.
Qed.

Lemma find_cpu q cs ls :
  0 <= q -> Forall cpu_line_ok cs ->
  find_times q (cpu_lines cs ++ ls) =
  match (list_to_map cs : gmap Z (CpuTimes * list Z)) !! q with
  | Some (t, _) => Some t
  | None => find_times q ls
  end.
Proof.
  intros Hq. induction 1 as [|[i [t more]] cs [Hi Hf] _ IH]; [done|].
  cbn [cpu_lines fmap list_fmap app find_times list_to_map foldr uncurry].
  fold (is_cpu q (cpu_line i t more)). rewrite is_cpu_line by done. case_bool_decide as E.
  - subst. rewrite lookup_insert_eq. by apply sscanf_cpu_line.
  - rewrite lookup_insert_ne by done. exact IH.
Qed.

(** The text is read back. *)
Lemma read_stat_text f q :
  stat_ok f -> 0 <= q ->
  read_cpu_times (stat_text f) q = Some (default no_times (cpu_at f q)).
Proof.
  intros [Hb Ha Hc] Hq. unfold read_cpu_times, stat_text, cpu_at. rewrite lines_text.
  - rewrite find_others by done. rewrite find_cpu by done.
    destruct (_ !! _) as [[t more]|]; [done|].
    rewrite <-(app_nil_r (sf_after f)). by rewrite find_others.
  - apply Forall_app_2; [by eapply Forall_impl; [exact Hb|]; intros l []|].
    apply Forall_app_2; [|by eapply Forall_impl; [exact Ha|]; intros l []].
    apply Forall_fmap. eapply Forall_impl; [exact Hc|]. intros [i [t more]] [Hi Hf].
    by apply cpu_line_no_newline.
Qed.

(** C33. The CPU usage of a queue is read from the counters of its CPU. From any
  two texts of /proc/stat, with any other lines and more counters than the
  program knows, and any CPUs online, [read_cpu_times] gets the eight counters
  of the CPU it is asked for and no other's (CPU 1 is not CPU 10), all 0 for
  a CPU that is not there; while they do not run backwards from the one text to
  the other, the usage is the time that CPU was busy over all its time in
  between. For a CPU that neither text has it is 0. *)
Theorem proc_stat_usage f1 f2 q :
  let a := default no_times (cpu_at f1 q) in
  let b := default no_times (cpu_at f2 q) in
  stat_ok f1 -> stat_ok f2 -> 0 <= q -> cpu_ok a -> cpu_ok b ->
  Forall2 Z.le (cpu_fields a) (cpu_fields b) ->
  read_cpu_times (stat_text f1) q = Some a /\ read_cpu_times (stat_text f2) q = Some b /\
  (let d := busy b - busy a in
   let i := idle b + iowait b - (idle a + iowait a) in
   0 <= d /\ 0 <= i /\ cpu_usage a b = if d + i =? 0 then None else Some (d, d + i)) /\
  (cpu_at f1 q = None -> cpu_at f2 q = None -> cpu_usage a b = None).
Proof.
  intros a b H1 H2 Hq Ca Cb Hmono. split; [by apply read_stat_text|].
  split; [by apply read_stat_text|]. split.
  - split; [|split]; [| |by apply cpu_usage_exact];
      unfold cpu_fields in Hmono; repeat (apply Forall2_cons_1 in Hmono as [? Hmono]); unfold busy; lia.
  - unfold a, b. by intros -> ->.
Qed.

(** *** Witness *)

(** CPUs 0 and 2 are online; CPU 2 is asked for. *)
Definition demo_stat (u : Z) : stat_file :=
  StatFile ["cpu  3 0 0 9 0 0 0 0 0 0"]
    [(0, (Cpu 1 0 0 5 0 0 0 0, [0; 0])); (2, (Cpu u 0 2 4 0 0 0 0, [0; 0]))] ["intr 14"; "ctxt 7"].

Lemma demo_stat_ok u : 0 <= u < 100 -> stat_ok (demo_stat u).
Proof.
  intros Hu. split.
  - apply Forall_singleton. split; [repeat split; discriminate|]. intros q Hq. unfold is_cpu.
    apply not_true_iff_false. intros [r Hr]%prefix_app. destruct (show_digits q Hq) as (Hd & _ & Hne).
    destruct (show q) as [|c s]; [done|]. destruct Hd as [[d Hc] _]. injection Hr as <- _. discriminate.
  - repeat constructor; simpl; repeat split; try discriminate;
      intros q Hq; apply not_true_iff_false; intros [r Hr]%prefix_app; discriminate.
  - repeat constructor; simpl; unfold uint_ok; lia.
Defined.

Lemma proc_stat_usage_witness :
  read_cpu_times (stat_text (demo_stat 10)) 2 = Some (Cpu 10 0 2 4 0 0 0 0) /\
  read_cpu_times (stat_text (demo_stat 40)) 2 = Some (Cpu 40 0 2 4 0 0 0 0) /\
  (0 <= 30 /\ 0 <= 0 /\
   cpu_usage (Cpu 10 0 2 4 0 0 0 0) (Cpu 40 0 2 4 0 0 0 0) = Some (30, 30)) /\
  (cpu_at (demo_stat 10) 2 = None -> cpu_at (demo_stat 40) 2 = None ->
   cpu_usage (Cpu 10 0 2 4 0 0 0 0) (Cpu 40 0 2 4 0 0 0 0) = None).
Proof.
  apply (proc_stat_usage (demo_stat 10) (demo_stat 40) 2).
  - apply demo_stat_ok. lia.
  - apply demo_stat_ok. lia.
  - lia.
  - change (cpu_ok (Cpu 10 0 2 4 0 0 0 0)). repeat constructor; simpl; lia.
  - change (cpu_ok (Cpu 40 0 2 4 0 0 0 0)). repeat constructor; simpl; lia.
  - change (Forall2 Z.le [10; 0; 2; 4; 0; 0; 0; 0] [40; 0; 2; 4; 0; 0; 0; 0]).
    repeat constructor; lia.
Defined.
