(* ===== verification/BenchMain.v ===== *)
(** * The command line and the sender of falcon-bench, [bench_main.cpp]

    [main] turns the command line into a [BenchCfg] and starts [run_bench] or,
    in tx mode, [tx_thread], which sends frames until it is told to stop, a
    send fails, the burst is complete or the time is over. A [double] is a
    parameter, with [atof] and the comparison of a duration with it. What the
    system calls answer is a parameter, too: [tx_env] for those of the set-up,
    a [shot] for those of one frame. *)

From S2P Require Import Prelude CStrings FwProg FwSpec Parser BenchFrame Percentile BenchRun Resources.
#[local] Open Scope Z_scope.

Section Main.
Context {double : Type} (atof : string -> double) (three : double).

Record BenchCfg := Cfg {
  port : Z;
  ifname : string;
  tx_netns : string;
  tx_iface : string;
  src_ip : string;
  dst_ip : string;
  payload_size : Z;
  seconds : double;
  burst : Z;
  raw_tx : bool;
}.

Definition cfg0 : BenchCfg := Cfg 9100 "lo" "" "" "10.0.0.2" "10.0.0.1" 16 three 0 false.

(** *** Arguments *)

(** atoi and its conversion to uint16_t; strtoul, for a 64-bit long. *)
Definition atoi (s : string) : Z := i32 (strtol s).
Definition atoi_port (s : string) : Z := u16 (atoi s).
Definition strtoul (s : string) : Z := strtoull s.

Definition set_port v c := Cfg v (ifname c) (tx_netns c) (tx_iface c) (src_ip c) (dst_ip c) (payload_size c) (seconds c) (burst c) (raw_tx c).
Definition set_ifname v c := Cfg (port c) v (tx_netns c) (tx_iface c) (src_ip c) (dst_ip c) (payload_size c) (seconds c) (burst c) (raw_tx c).
Definition set_netns v c := Cfg (port c) (ifname c) v (tx_iface c) (src_ip c) (dst_ip c) (payload_size c) (seconds c) (burst c) (raw_tx c).
Definition set_iface v c := Cfg (port c) (ifname c) (tx_netns c) v (src_ip c) (dst_ip c) (payload_size c) (seconds c) (burst c) (raw_tx c).
Definition set_src v c := Cfg (port c) (ifname c) (tx_netns c) (tx_iface c) v (dst_ip c) (payload_size c) (seconds c) (burst c) (raw_tx c).
Definition set_dst v c := Cfg (port c) (ifname c) (tx_netns c) (tx_iface c) (src_ip c) v (payload_size c) (seconds c) (burst c) (raw_tx c).
Definition set_payload v c := Cfg (port c) (ifname c) (tx_netns c) (tx_iface c) (src_ip c) (dst_ip c) v (seconds c) (burst c) (raw_tx c).
Definition set_seconds v c := Cfg (port c) (ifname c) (tx_netns c) (tx_iface c) (src_ip c) (dst_ip c) (payload_size c) v (burst c) (raw_tx c).
Definition set_burst v c := Cfg (port c) (ifname c) (tx_netns c) (tx_iface c) (src_ip c) (dst_ip c) (payload_size c) (seconds c) v (raw_tx c).
Definition set_raw v c := Cfg (port c) (ifname c) (tx_netns c) (tx_iface c) (src_ip c) (dst_ip c) (payload_size c) (seconds c) (burst c) v.

(** if (argc > arg) field = conv(argv[arg++]), for several fields in a row: the
    configuration and the arguments that are left. *)
Definition setter : Type := string -> BenchCfg -> BenchCfg.
Fixpoint fill (fs : list setter) (c : BenchCfg) (args : list string) : BenchCfg * list string :=
  match fs, args with
  | f :: fs, a :: args => fill fs (f a c) args
  | _, _ => (c, args)
  end.

(** What [main] does with the command line: it fails with a message, or it runs
    the sender, or the receiver, with or without a sender. *)
Inductive bench_command :=
  | Fail (msg : string)
  | Send (c : BenchCfg)
  | Bench_run (receiver_only : bool) (backend : string) (c : BenchCfg).

Definition tx_command (args : list string) : bench_command :=
  let tx_kind := default "udp" (head args) in
  let '(c, args) :=
    if decide (tx_kind ∈ ["udp"; "raw"]) then (set_raw (bool_decide (tx_kind = "raw")) cfg0, tail args)
    else (cfg0, args) in
  let '(c, _) := fill [fun a => set_port (atoi_port a); fun a => set_seconds (atof a);
    fun a => set_burst (strtoull a); set_iface; set_src; set_dst; fun a => set_payload (strtoul a)] c args in
  if decide (tx_iface c = "") then Fail "tx mode requires an interface" else Send c.

(** [netns_exists]: access(path, F_OK) of the namespace's path. *)
Context (netns_exists : string -> bool).

(** The arguments that say how frames are sent. *)
Definition sender_args (receiver_only : bool) (c : BenchCfg) (args : list string) : BenchCfg * list string :=
  if receiver_only then fill [fun a => set_payload (strtoul a)] c args else
  match args with
  | [] => (c, args)
  | ns :: _ =>
    if netns_exists ("/var/run/netns/" +:+ ns)
    then fill [set_netns; set_iface; set_src; set_dst] c args
    else let '(c, args) := fill [set_iface; set_src; set_dst] c args in (set_raw true c, args)
  end.

Definition run_command (receiver_only : bool) (backend : string) (args : list string) : bench_command :=
  if decide (backend ∉ ["socket"; "packet"; "xdp"]) then Fail ("unknown backend: " +:+ backend) else
  let first : setter := if decide (backend = "socket") then fun a => set_port (atoi_port a) else set_ifname in
  let '(c, args) := fill [first; fun a => set_seconds (atof a); fun a => set_burst (strtoull a)] cfg0 args in
  let '(c, args) := sender_args receiver_only c args in
  let '(c, _) := if receiver_only then (c, args) else fill [fun a => set_payload (strtoul a)] c args in
  if (payload_size c <? 8) || (1400 <? payload_size c)
  then Fail "payload size must be between 8 and 1400 bytes"
  else Bench_run receiver_only backend c.

(** [argv]: the arguments after the name of the program. *)
Definition bench_main (argv : list string) : bench_command :=
  let backend_name := default "socket" (head argv) in
  let args := tail argv in
  if decide (backend_name = "rx") then
    match args with
    | [] => Fail "usage"
    | b :: args => run_command true b args
    end
  else if decide (backend_name = "tx") then tx_command args
  else run_command false backend_name args.

(** *** The sender *)

Section Sender.
Context `{Endian} (inet_pton : string -> option Z).

(** What the system calls of the set-up answer. *)
Record tx_env := {
  e_netns_open : bool;
  e_setns : bool;
  e_socket : bool;
  e_ifindex : Z;
  e_bindtodevice : bool;
  e_bind : bool;
}.

(** One turn of the sending loop: whether stop is set, the time stamp, what
    sendto returns, and whether the time is over afterwards. *)
Record shot := Shot { sh_stop : bool; sh_ts : Z; sh_written : Z; sh_over : bool }.

(** The sender has returned: it may have set stop, holds resources, and has sent
    these frames or datagrams. *)
Record sent_all := Sent { tx_stop : bool; tx_held : Resources.held; tx_frames : list (list Z) }.

(** The payload of a datagram, written into [buf]. *)
Definition udp_payload (payload_size : Z) (buf : list Z) (ts : Z) : option (list Z * Z) :=
  buf ← store_bytes buf 0 (host_bytes 8 ts);
  buf ← memset buf 8 0 (size_sub payload_size 8);
  Some (buf, Z.of_nat (length buf)).

(** The loop; [craft] writes a frame into the buffer and returns its size. *)
Fixpoint tx_loop (craft : list Z -> Z -> option (list Z * Z)) (burst : Z) (shots : list shot)
    (buf : list Z) (sent : Z) : outcome (list (list Z)) :=
  match shots with
  | [] => Goes_on
  | s :: shots =>
    if sh_stop s then Returns [] else
    match craft buf (sh_ts s) with
    | None => Crashes
    | Some (buf, size) =>
      if negb (sh_written s =? size) then Returns [] else
      let sent := u64 (sent + 1) in
      let frame := sub buf 0 (Z.to_nat size) in
      if ((0 <? burst) && (burst <=? sent)) || ((burst =? 0) && sh_over s) then Returns [frame]
      else match tx_loop craft burst shots buf sent with
           | Returns fs => Returns (frame :: fs)
           | o => o
           end
    end
  end.

(** The loop, and close(s). *)
Definition tx_run (h : Resources.held) (o : outcome (list (list Z))) : outcome sent_all :=
  match o with
  | Returns fs => Returns (Sent false (Resources.free Resources.Fd h) fs)
  | Throws => Throws
  | Goes_on => Goes_on
  | Crashes => Crashes
  end.

(** A failure of the set-up: stop.store(true). *)
Definition give_up_with (h : Resources.held) : outcome sent_all := Returns (Sent true h []).

Definition tx_raw (e : tx_env) (c : BenchCfg) (shots : list shot) (h : Resources.held) : outcome sent_all :=
  if negb (e_socket e) then give_up_with h else
  let h := Resources.acquire Resources.Fd h in
  if e_ifindex e =? 0 then give_up_with (Resources.free Resources.Fd h) else
  (* an address that inet_pton does not accept leaves its variable unset *)
  let craft buf ts :=
    src ← inet_pton (src_ip c);
    dst ← inet_pton (dst_ip c);
    build_frame buf (payload_size c) ts (port c) src dst in
  tx_run h (tx_loop craft (burst c) shots (replicate (Z.to_nat (u64 (14 + 20 + 8 + payload_size c))) 0) 0).

Definition tx_udp (e : tx_env) (c : BenchCfg) (shots : list shot) (h : Resources.held) : outcome sent_all :=
  if negb (e_socket e) then give_up_with h else
  let h := Resources.acquire Resources.Fd h in
  let closed := Resources.free Resources.Fd h in
  if bool_decide (tx_iface c <> "") &&
     (negb (e_bindtodevice e) || negb (bool_decide (is_Some (inet_pton (src_ip c))) && e_bind e))
  then give_up_with closed else
  if negb (bool_decide (is_Some (inet_pton (if decide (tx_iface c = "") then "127.0.0.1" else dst_ip c))))
  then give_up_with closed else
  tx_run h (tx_loop (udp_payload (payload_size c)) (burst c) shots
    (replicate (Z.to_nat (payload_size c)) 0) 0).

Definition tx_thread (e : tx_env) (c : BenchCfg) (shots : list shot) (h : Resources.held) : outcome sent_all :=
  let send := if raw_tx c then tx_raw e c shots h else tx_udp e c shots h in
  if decide (tx_netns c = "") then send else
  (* the descriptor of the namespace is closed whatever happens *)
  if negb (e_netns_open e) || negb (e_setns e) then give_up_with h else send.
End Sender.
End Main.

(** ** What the command line leads to *)

Section Args.
Context {double : Type} (atof : string -> double) (three : double) (netns_exists : string -> bool).
#[local] Abbreviation cfg := (@BenchCfg double).
#[local] Abbreviation setter := (@setter double).
Implicit Types (c : cfg) (args argv : list string).

Lemma fill_keeps (P : cfg -> Prop) (fs : list setter) c args :
  Forall (fun f : setter => forall a c, P c -> P (f a c)) fs -> P c -> P (fst (fill fs c args)).
Proof using Type.
  intros Hf. revert c args. induction Hf as [|f fs Hf _ IH]; intros c args Hc; [done|].
  destruct args as [|a args]; [done|]. simpl. by apply IH, Hf.
Qed.

Lemma atoi_port_range s : uint_ok 16 (atoi_port s).
Proof using Type. by apply wrap_range. Qed.

(** The numbers fit their types. *)
Definition numbers_ok c : Prop := uint_ok 16 (port c) /\ uint_ok 64 (payload_size c) /\ uint_ok 64 (burst c).
(** Nothing is crafted unless asked for. *)
Definition not_raw c : Prop := raw_tx c = false /\ tx_netns c = "".

Lemma cfg0_ok : numbers_ok (cfg0 three).
Proof using Type. repeat split; simpl; lia. Qed.

Lemma strtoul_range s : uint_ok 64 (strtoul s).
Proof using Type. apply strtoull_range. Qed.

Ltac setters :=
  clear; repeat (apply Forall_cons_2; [unfold numbers_ok, not_raw; simpl; intros|]); [..|apply Forall_nil_2];
  intuition auto using atoi_port_range, strtoull_range, strtoul_range; fail.

(** What follows from the arguments of the sender. *)
Lemma sender_args_ok ro c args :
  numbers_ok c -> not_raw c ->
  let c' := fst (sender_args netns_exists ro c args) in
  numbers_ok c' /\ (raw_tx c' = true -> ro = false /\ tx_netns c' = "").
Proof using Type.
  intros Hc Hr. unfold sender_args. destruct ro.
  { split; [apply fill_keeps; [setters|done]|].
    assert (not_raw (fst (fill [fun a => set_payload (strtoul a)] c args))) as [-> _]; [|done].
    apply fill_keeps; [setters|done]. }
  destruct args as [|ns args]; [split; [done|]; simpl; by destruct Hr as [-> _]|].
  destruct (netns_exists _).
  - split; [apply fill_keeps; [setters|done]|].
    assert (raw_tx (fst (fill [set_netns; set_iface; set_src; set_dst] c (ns :: args))) = false) as ->; [|done].
    apply (fill_keeps (fun c => raw_tx c = false)); [setters|apply Hr].
  - assert (numbers_ok (fst (fill [set_iface; set_src; set_dst] c (ns :: args)))) as Hn
      by (apply fill_keeps; [setters|done]).
    assert (not_raw (fst (fill [set_iface; set_src; set_dst] c (ns :: args)))) as Hr'
      by (apply fill_keeps; [setters|done]).
    destruct (fill _ _ _) as [c' args']. by split; [|intros _; split; [|apply Hr']].
Qed.

(** The configurations that [run_bench] is started with. *)
Lemma run_command_ok ro b args ro' b' c :
  run_command atof three netns_exists ro b args = Bench_run ro' b' c ->
  ro' = ro /\ b' = b /\ b ∈ ["socket"; "packet"; "xdp"] /\ numbers_ok c /\ 8 <= payload_size c <= 1400 /\
  (raw_tx c = true -> ro = false /\ tx_netns c = "").
Proof using Type.
  unfold run_command. destruct (decide (b ∉ _)) as [|Hb]; [done|].
  apply dec_stable in Hb. set (first := if decide (b = "socket") then _ else _).
  assert (Forall (fun f : setter => forall a c, numbers_ok c -> numbers_ok (f a c))
    [first; fun a => set_seconds (atof a); fun a => set_burst (strtoull a)]) as Hf
    by (unfold first; case_decide; setters).
  assert (Forall (fun f : setter => forall a c, not_raw c -> not_raw (f a c))
    [first; fun a => set_seconds (atof a); fun a => set_burst (strtoull a)]) as Hr
    by (unfold first; case_decide; setters).
  pose proof (fill_keeps numbers_ok _ (cfg0 three) args Hf cfg0_ok) as Hn.
  pose proof (fill_keeps not_raw _ (cfg0 three) args Hr (conj eq_refl eq_refl)) as Hnr.
  destruct (fill _ _ _) as [c1 args1]. simpl in Hn, Hnr.
  destruct (sender_args_ok ro c1 args1 Hn Hnr) as [Hn2 Hr2].
  destruct (sender_args netns_exists ro c1 args1) as [c2 args2]. simpl in Hn2, Hr2.
  set (last := if ro then (c2, args2) else _).
  assert (numbers_ok (fst last) /\ (raw_tx (fst last) = true -> ro = false /\ tx_netns (fst last) = "")) as [Hn3 Hr3].
  { unfold last. destruct ro; [done|].
    split; [apply fill_keeps; [setters|done]|].
    pattern (fst (fill [fun a => set_payload (strtoul a)] c2 args2)).
    apply fill_keeps; [setters|done]. }
  destruct last as [c3 args3]. destruct (_ || _) eqn:E; [done|]. intros [= -> -> <-].
  bool_hyps. split_and!; try done; simpl in *; lia.
Qed.

(** What [main] does with any command line. *)
Lemma bench_main_ok argv :
  match bench_main atof three netns_exists argv with
  | Bench_run ro b c =>
      b ∈ ["socket"; "packet"; "xdp"] /\ numbers_ok c /\ 8 <= payload_size c <= 1400 /\
      (raw_tx c = true -> ro = false /\ tx_netns c = "")
  | Send c => tx_iface c <> "" /\ numbers_ok c /\ tx_netns c = ""
  | Fail _ => True
  end.
Proof using Type.
  unfold bench_main.
  assert (forall ro b args, match run_command atof three netns_exists ro b args with
    | Bench_run ro b c => b ∈ ["socket"; "packet"; "xdp"] /\ numbers_ok c /\ 8 <= payload_size c <= 1400 /\
        (raw_tx c = true -> ro = false /\ tx_netns c = "")
    | Send c => False
    | Fail _ => True end) as Hrun.
  { intros ro b args. pose proof (run_command_ok ro b args) as Hok.
    destruct (run_command _ _ _ _ _ _) as [|c|ro' b' c] eqn:E; [done| |].
    - unfold run_command in E. repeat case_decide || case_match; done.
    - by destruct (Hok _ _ _ eq_refl) as (-> & -> & ?). }
  destruct (decide _) as [_|_].
  { destruct (tail argv) as [|b args]; [done|]. specialize (Hrun true b args). by case_match. }
  destruct (decide _) as [_|_]; [|specialize (Hrun false (default "socket" (head argv)) (tail argv)); by case_match].
  unfold tx_command. destruct (if decide _ then _ else _) as [c args] eqn:Ec.
  assert (numbers_ok c /\ tx_netns c = "") as Hc
    by (revert Ec; case_decide; intros [= <- _]; by repeat split).
  match goal with |- context [fill ?fs c args] =>
    pose proof (fill_keeps (fun c => numbers_ok c /\ tx_netns c = "") fs c args) as Hk; destruct (fill fs c args) as [c' ?] end.
  clear Ec. case_decide as Hi; [exact I|]. split; [done|]. apply Hk; [setters|exact Hc].
Qed.

(** The command line is checked. Whatever the arguments, a combined or a
  receiving run is started only with a known backend and a payload of 8 to 1400
  bytes, with numbers that fit their types, and crafts frames only in a
  combined run without a namespace; tx mode starts only with an interface, but
  with a payload of any size. *)
Theorem bench_main_checked argv :
  match bench_main atof three netns_exists argv with
  | Bench_run ro b c =>
      b ∈ ["socket"; "packet"; "xdp"] /\ numbers_ok c /\ 8 <= payload_size c <= 1400 /\
      (raw_tx c = true -> ro = false /\ tx_netns c = "")
  | Send c => tx_iface c <> "" /\ numbers_ok c /\ tx_netns c = ""
  | Fail _ => True
  end.
Proof using Type. apply bench_main_ok. Qed.
End Args.

(** ** What the sender sends *)

Section TxLoop.
Context `{Endian} (craft : list Z -> Z -> option (list Z * Z)) (burst : Z).
Implicit Types (shots : list shot) (buf : list Z).

(** [craft] keeps [ok] of the buffer, and what it makes of a time stamp is
    [good] and of [size] bytes. *)
Context (ok : list Z -> Prop) (good : Z -> list Z -> Prop) (size : Z).
Context (Hcraft : forall buf ts, ok buf -> uint_ok 64 ts ->
  exists buf', craft buf ts = Some (buf', size) /\ ok buf' /\ good ts (sub buf' 0 (Z.to_nat size))).

Definition shot_ok (s : shot) : Prop := uint_ok 64 (sh_ts s).

(** The loop does not reach a memory error, and sends a good frame in each of
    its turns but perhaps the last. *)
Lemma tx_loop_good shots buf sent :
  ok buf -> Forall shot_ok shots ->
  (tx_loop craft burst shots buf sent = Goes_on \/
   exists fs, tx_loop craft burst shots buf sent = Returns fs /\
     Forall2 good (take (length fs) (sh_ts <$> shots)) fs).
Proof using Hcraft.
  intros Hb Hs. revert buf sent Hb. induction Hs as [|s shots Ht _ IH]; intros buf sent Hb; [by left|].
  cbn [tx_loop]. destruct (sh_stop s); [right; by exists []|].
  destruct (Hcraft buf (sh_ts s) Hb Ht) as (buf' & -> & Hb' & Hg).
  destruct (negb _); [right; by exists []|]. destruct (_ || _).
  - right. exists [sub buf' 0 (Z.to_nat size)]. by repeat constructor.
  - destruct (IH buf' (u64 (sent + 1)) Hb') as [->|(fs & -> & Hfs)]; [by left|].
    right. eexists. split; [reflexivity|]. by constructor.
Qed.

(** A turn that sends its frame and is not the last for its time. *)
Definition goes_out (s : shot) : Prop := sh_stop s = false /\ sh_written s = size.

(** With a burst, as many turns as it takes are made, if all of them send. *)
Lemma tx_loop_burst shots rest buf sent :
  ok buf -> Forall shot_ok shots -> Forall goes_out shots ->
  0 < Z.of_nat (length shots) -> sent + Z.of_nat (length shots) = burst -> 0 <= sent -> burst < 2 ^ 64 ->
  exists fs, tx_loop craft burst (shots ++ rest) buf sent = Returns fs /\
    Forall2 good (sh_ts <$> shots) fs.
Proof using Hcraft.
  intros Hb Hs. revert buf sent Hb.
  induction Hs as [|s shots Ht _ IH]; intros buf sent Hb Hg Hl Hsum H0 Hmax; [simpl in Hl; lia|].
  apply Forall_cons in Hg as [[Hstop Hw] Hg]. cbn [app tx_loop]. rewrite Hstop, Hw.
  destruct (Hcraft buf (sh_ts s) Hb Ht) as (buf' & -> & Hb' & Hgood). rewrite Z.eqb_refl. cbn [negb].
  cbn [length] in Hsum. assert (u64 (sent + 1) = sent + 1) as -> by (apply wrap_small; unfold uint_ok; lia).
  rewrite (proj2 (Z.ltb_lt 0 burst)), (proj2 (Z.eqb_neq burst 0)) by lia. cbn [andb]. rewrite orb_false_r.
  destruct shots as [|s' shots'].
  - rewrite (proj2 (Z.leb_le _ _)) by (simpl in Hsum; lia). eexists. split; [reflexivity|]. by repeat constructor.
  - rewrite (proj2 (Z.leb_gt _ _)) by (simpl in Hsum; lia).
    destruct (IH buf' (sent + 1) Hb' Hg) as (fs & -> & Hfs); [simpl; lia|lia|lia|done|].
    eexists. split; [reflexivity|]. by constructor.
Qed.
End TxLoop.

Section Sends.
Context `{Endian} {double : Type} (inet_pton : string -> option Z).
#[local] Abbreviation cfg := (@BenchCfg double).
Implicit Types (c : cfg) (e : tx_env) (shots : list shot).

(** The frame that a configuration sends at [ts]: the receiver of its layer reads
    the time back. *)
Definition carries c (ts : Z) (frame : list Z) : Prop :=
  if raw_tx c
  then frame_len frame = 42 + payload_size c /\ frame_ts kL2Ethernet frame 0 (frame_len frame) = Some ts
  else frame_len frame = payload_size c /\ frame_ts kL4Payload frame 0 (frame_len frame) = Some ts.

Lemma sub_all (m : list Z) n : Z.of_nat (length m) = n -> sub m 0 (Z.to_nat n) = m.
Proof using Type. intros Hn. unfold sub. rewrite drop_0. apply take_ge. lia. Qed.

(** What tx_raw writes into its buffer. *)
Definition craft_raw c (buf : list Z) (ts : Z) : option (list Z * Z) :=
  src ← inet_pton (src_ip c);
  dst ← inet_pton (dst_ip c);
  build_frame buf (payload_size c) ts (port c) src dst.

Definition addresses_ok c : Prop := is_Some (inet_pton (src_ip c)) /\ is_Some (inet_pton (dst_ip c)).

Lemma raw_craft c buf ts :
  raw_tx c = true -> addresses_ok c -> 8 <= payload_size c <= 1400 -> uint_ok 16 (port c) ->
  bytes_ok buf /\ Z.of_nat (length buf) = 42 + payload_size c -> uint_ok 64 ts ->
  exists buf', craft_raw c buf ts = Some (buf', 42 + payload_size c) /\
    (bytes_ok buf' /\ Z.of_nat (length buf') = 42 + payload_size c) /\
    carries c ts (sub buf' 0 (Z.to_nat (42 + payload_size c))).
Proof using Type.
  intros Hraw [[src Hsrc] [dst Hdst]] Hp Hport [Hok Hl] Hts.
  unfold craft_raw. rewrite Hsrc, Hdst. cbn [mbind option_bind].
  pose proof (build_frame_eq buf (payload_size c) ts (port c) src dst Hok Hl ltac:(lia)) as E.
  eexists. split; [exact E|]. set (frame := frame_bytes _ _ _ _ _ _) in *.
  assert (frame_len frame = 42 + payload_size c) as Hfl by (apply length_frame_bytes; lia).
  assert (bytes_ok frame) as Hfok.
  { apply frame_bytes_ok; [lia|done|]. destruct (frame_csum_ok (payload_size c) src dst) as (r & _ & Er & Hr & _); [lia|].
    rewrite Er. unfold uint_ok in *. lia. }
  split; [done|]. unfold frame_len in Hfl. rewrite sub_all by done. unfold carries. rewrite Hraw.
  unfold frame_len. rewrite Hfl. split; [done|].
  exact (frame_ts_built buf _ ts _ src dst frame _ Hok Hl Hp Hport Hts E).
Qed.

Lemma store_bytes_app (old rest bs : list Z) :
  length old = length bs -> store_bytes (old ++ rest) 0 bs = Some (bs ++ rest).
Proof using Type. intros Hl. apply (store_mid [] old rest bs Hl). Qed.

Lemma udp_craft c buf ts :
  raw_tx c = false -> 8 <= payload_size c <= 1400 -> Z.of_nat (length buf) = payload_size c -> uint_ok 64 ts ->
  exists buf', udp_payload (payload_size c) buf ts = Some (buf', payload_size c) /\
    Z.of_nat (length buf') = payload_size c /\ carries c ts (sub buf' 0 (Z.to_nat (payload_size c))).
Proof using Type.
  intros Hraw Hp Hl Hts. unfold udp_payload.
  rewrite <-(take_drop 8 buf), store_bytes_app by (rewrite length_take, length_host_bytes; lia).
  cbn [mbind option_bind]. unfold memset. rewrite size_sub_small by lia.
  assert (Z.of_nat (length (host_bytes 8 ts ++ drop 8 buf)) = payload_size c) as Hl2
    by (rewrite length_app, length_host_bytes, length_drop; lia).
  rewrite !(proj2 (Z.leb_le _ _)) by lia. cbn [andb].
  set (zeros := replicate _ _). assert (Z.of_nat (length zeros) = payload_size c - 8) as Hz
    by (unfold zeros; rewrite length_replicate; lia).
  assert (store_bytes (host_bytes 8 ts ++ drop 8 buf) 8 zeros = Some (host_bytes 8 ts ++ zeros)) as ->.
  { pose proof (store_mid (host_bytes 8 ts) (drop 8 buf) [] zeros) as E. rewrite length_host_bytes in E.
    rewrite !app_nil_r in E. apply E. rewrite length_drop. lia. }
  cbn [mbind option_bind].
  assert (Z.of_nat (length (host_bytes 8 ts ++ zeros)) = payload_size c) as Hl3
    by (rewrite length_app, length_host_bytes; lia).
  eexists. split; [by rewrite Hl3|]. split; [done|]. rewrite sub_all by done. unfold carries. rewrite Hraw.
  split; [done|]. unfold frame_ts, load_int. rewrite load_bytes_app_l by by rewrite length_host_bytes.
  cbn. rewrite host_int_host_bytes. f_equal. by apply wrap_small.
Qed.

(** The loop of either transport does as [tx_loop_good] says. *)
Definition sends c shots (h : Resources.held) (o : outcome sent_all) : Prop :=
  o = Goes_on \/
  exists s, o = Returns s /\ tx_held s = h /\ (tx_stop s = true -> tx_frames s = []) /\
    Forall2 (carries c) (take (length (tx_frames s)) (sh_ts <$> shots)) (tx_frames s).

Lemma held_again (h : Resources.held) :
  Resources.Fd ∉ h -> Resources.free Resources.Fd (Resources.acquire Resources.Fd h) = h.
Proof using Type. unfold Resources.free, Resources.acquire. set_solver. Qed.

Lemma gives_up c shots h : sends c shots h (give_up_with h).
Proof using Type. right. eexists. split; [reflexivity|]. by split; [|split; [|constructor]]. Qed.

Lemma run_sends c shots (h : Resources.held) o :
  Resources.Fd ∉ h ->
  (o = Goes_on \/ exists fs, o = Returns fs /\ Forall2 (carries c) (take (length fs) (sh_ts <$> shots)) fs) ->
  sends c shots h (tx_run (Resources.acquire Resources.Fd h) o).
Proof using Type.
  intros Hh [->|(fs & -> & Hfs)]; [by left|]. right. eexists. split; [reflexivity|]. simpl.
  split; [by apply held_again|]. by split.
Qed.

(** A configuration that passed the checks of [main]. *)
Definition checked c : Prop := numbers_ok c /\ 8 <= payload_size c <= 1400 /\ (raw_tx c = true -> tx_netns c = "").

Lemma tx_send_safe e c shots (h : Resources.held) :
  checked c -> (raw_tx c = true -> addresses_ok c) ->
  Forall shot_ok shots -> Resources.Fd ∉ h -> sends c shots h (tx_thread inet_pton e c shots h).
Proof using Type.
  intros (Hn & Hp & _) Haddr Hs Hh. unfold tx_thread.
  assert (sends c shots h (if raw_tx c then tx_raw inet_pton e c shots h else tx_udp inet_pton e c shots h)) as Hsend.
  { destruct (raw_tx c) eqn:Hraw.
    - unfold tx_raw.
      destruct (e_socket e); simpl; [|apply gives_up].
      destruct (e_ifindex e =? 0); simpl; [rewrite held_again by done; apply gives_up|].
      apply run_sends; [done|].
      apply (tx_loop_good (craft_raw c) _ (fun buf => bytes_ok buf /\ Z.of_nat (length buf) = 42 + payload_size c)
        (carries c) (42 + payload_size c));
        [intros; apply raw_craft; [done|by apply Haddr|done|apply Hn|done|done]| |done].
      rewrite length_replicate. split; [by apply Forall_replicate|]. unfold u64. rewrite wrap_small; unfold uint_ok; lia.
    - unfold tx_udp. destruct (e_socket e); simpl; [|apply gives_up].
      rewrite !held_again by done. destruct (_ && _); [apply gives_up|]. destruct (negb _); [apply gives_up|].
      apply run_sends; [done|].
      eapply (tx_loop_good _ _ (fun buf => Z.of_nat (length buf) = payload_size c)); [intros; by apply udp_craft| |done].
      rewrite length_replicate. lia. }
  destruct (decide _); [done|]. destruct (_ || _); [apply gives_up|done].
Qed.

(** The set-up of the sender goes well. *)
Record set_up e c : Prop := {
  su_socket : e_socket e = true;
  su_netns : tx_netns c <> "" -> e_netns_open e = true /\ e_setns e = true;
  su_iface : e_ifindex e <> 0 /\ e_bindtodevice e = true /\ e_bind e = true;
  su_addresses : addresses_ok c /\ is_Some (inet_pton "127.0.0.1");
}.

(** What sendto has to return. *)
Definition wire_size c : Z := if raw_tx c then 42 + payload_size c else payload_size c.

Lemma tx_thread_set_up e c shots (h : Resources.held) :
  set_up e c -> tx_thread inet_pton e c shots h =
  tx_run (Resources.acquire Resources.Fd h)
    (if raw_tx c
     then tx_loop (craft_raw c) (burst c) shots (replicate (Z.to_nat (u64 (42 + payload_size c))) 0) 0
     else tx_loop (udp_payload (payload_size c)) (burst c) shots (replicate (Z.to_nat (payload_size c)) 0) 0).
Proof using Type.
  intros [Hs Hn (Hi & Hd & Hb) ([Hsrc Hdst] & Hlo)]. unfold tx_thread, tx_raw, tx_udp.
  rewrite Hs, Hd, Hb, (proj2 (Z.eqb_neq _ _) Hi), (bool_decide_true _ Hsrc). cbn [negb orb andb].
  rewrite andb_false_r. rewrite (bool_decide_true (is_Some (inet_pton (if decide _ then _ else _)))) by by case_decide.
  cbn [negb]. assert (forall (b : bool) (x y : outcome (list (list Z))),
    (if b then tx_run (Resources.acquire Resources.Fd h) x else tx_run (Resources.acquire Resources.Fd h) y) =
    tx_run (Resources.acquire Resources.Fd h) (if b then x else y)) as -> by by intros [].
  destruct (decide (tx_netns c = "")) as [|Hne]; [done|]. by destruct (Hn Hne) as [-> ->].
Qed.

Lemma tx_burst_all e c shots rest (h : Resources.held) :
  checked c -> set_up e c -> Forall shot_ok shots -> Forall (goes_out (wire_size c)) shots ->
  0 < burst c -> Z.of_nat (length shots) = burst c -> Resources.Fd ∉ h ->
  exists fs, tx_thread inet_pton e c (shots ++ rest) h = Returns (Sent false h fs) /\
    Forall2 (carries c) (sh_ts <$> shots) fs.
Proof using Type.
  intros (Hn & Hp & _) Hsu Hs Hg Hb Hl Hh. rewrite tx_thread_set_up by done.
  unfold wire_size in Hg.
  assert (burst c < 2 ^ 64) as Hmax by apply Hn.
  destruct (raw_tx c) eqn:Hraw.
  - destruct (tx_loop_burst (craft_raw c) (burst c)
      (fun buf => bytes_ok buf /\ Z.of_nat (length buf) = 42 + payload_size c) (carries c) (42 + payload_size c))
      with (shots := shots) (rest := rest) (buf := replicate (Z.to_nat (u64 (42 + payload_size c))) 0) (sent := 0)
      as (fs & -> & Hfs); try done; try lia.
    + intros buf ts Hbuf Hts. apply raw_craft; [done|apply Hsu|done|apply Hn|done|done].
    + rewrite length_replicate. split; [by apply Forall_replicate|]. unfold u64. rewrite wrap_small; unfold uint_ok; lia.
    + exists fs. split; [|done]. simpl. by rewrite held_again.
  - destruct (tx_loop_burst (udp_payload (payload_size c)) (burst c)
      (fun buf => Z.of_nat (length buf) = payload_size c) (carries c) (payload_size c))
      with (shots := shots) (rest := rest) (buf := replicate (Z.to_nat (payload_size c)) 0) (sent := 0)
      as (fs & -> & Hfs); try done; try lia.
    + intros. by apply udp_craft.
    + rewrite length_replicate. lia.
    + exists fs. split; [|done]. simpl. by rewrite held_again.
Qed.

(** *** The properties *)

Context (atof : string -> double) (three : double) (netns_exists : string -> bool).

Lemma main_checked argv ro b c :
  bench_main atof three netns_exists argv = Bench_run ro b c -> checked c.
Proof using Type.
  intros E. pose proof (bench_main_ok atof three netns_exists argv) as Hok. rewrite E in Hok.
  destruct Hok as (_ & Hn & Hp & Hr). split; [done|]. split; [done|]. intros Hraw. by apply Hr.
Qed.

(** The command line starts a run, or tx mode, with the configuration [c]. *)
Definition starts argv c : Prop :=
  bench_main atof three netns_exists argv = Send c \/
  exists ro b, bench_main atof three netns_exists argv = Bench_run ro b c.
Definition tx_mode argv c : Prop := bench_main atof three netns_exists argv = Send c.

(** C31. The sender is safe. Take any command line that starts one. When it
  crafts frames, let its two addresses be valid, and in tx mode, where [main]
  does not check it, let the payload be of 8 to 1400 bytes; without these the
  sender crashes ([tx_raw_crashes], [tx_raw_unset]). Then, whatever the system
  calls answer, the sender does not touch memory outside its buffer. When it
  returns it holds nothing that it did not hold before; when its set-up fails it
  has sent nothing; and from every frame it has sent, in order, the receiver
  reads back the time at which it was sent. *)
Theorem bench_sender_safe argv c e shots (h : Resources.held) :
  starts argv c -> (tx_mode argv c -> 8 <= payload_size c <= 1400) ->
  (raw_tx c = true -> addresses_ok c) ->
  Forall shot_ok shots -> Resources.Fd ∉ h ->
  tx_thread inet_pton e c shots h = Goes_on \/
  exists s, tx_thread inet_pton e c shots h = Returns s /\ tx_held s = h /\
    (tx_stop s = true -> tx_frames s = []) /\
    Forall2 (carries c) (take (length (tx_frames s)) (sh_ts <$> shots)) (tx_frames s).
Proof using Type.
  intros [Hm|(ro & b & Hm)] Hp; apply tx_send_safe; [|by eapply main_checked].
  pose proof (bench_main_ok atof three netns_exists argv) as Hok. rewrite Hm in Hok.
  destruct Hok as (_ & Hn & Hns). split; [done|]. split; [by apply Hp|done].
Qed.

(** A burst is complete. In every run that a command line starts with a burst,
  when the set-up succeeds and the system takes every frame, the sender returns
  after exactly as many frames as the burst asks for, whatever time that takes,
  each with the time at which it was sent. *)
Theorem bench_burst_sent argv ro b c e shots rest (h : Resources.held) :
  bench_main atof three netns_exists argv = Bench_run ro b c -> set_up e c ->
  Forall shot_ok shots -> Forall (goes_out (wire_size c)) shots ->
  0 < burst c -> Z.of_nat (length shots) = burst c -> Resources.Fd ∉ h ->
  exists fs, tx_thread inet_pton e c (shots ++ rest) h = Returns (Sent false h fs) /\
    Z.of_nat (length fs) = burst c /\ Forall2 (carries c) (sh_ts <$> shots) fs.
Proof using Type.
  intros Hm Hsu Hs Hg Hb Hl Hh.
  destruct (tx_burst_all e c shots rest h (main_checked _ _ _ _ Hm) Hsu Hs Hg Hb Hl Hh) as (fs & E & Hf).
  exists fs. split; [done|]. split; [|done]. by rewrite <-(Forall2_length _ _ _ Hf), length_fmap.
Qed.

(** Crafting frames without these checks is a memory error: in tx mode the size
    of the payload is not checked, and the result of inet_pton is never looked
    at, so that the frame is made of variables that were not written. *)
Theorem tx_raw_crashes e c s shots h :
  raw_tx c = true -> set_up e c -> sh_stop s = false -> payload_size c < 8 -> 0 <= payload_size c ->
  tx_thread inet_pton e c (s :: shots) h = Crashes.
Proof using Type.
  intros Hraw Hsu Hs Hp H0. rewrite tx_thread_set_up, Hraw by done.
  destruct (su_addresses _ _ Hsu) as [[[src Hsrc] [dst Hdst]] _]. cbn [tx_loop]. rewrite Hs.
  unfold craft_raw at 1. rewrite Hsrc, Hdst. cbn [mbind option_bind].
  rewrite build_frame_small; [done| |lia]. rewrite length_replicate. unfold u64.
  rewrite wrap_small; unfold uint_ok; lia.
Qed.

Theorem tx_raw_unset e c s shots h :
  raw_tx c = true -> e_socket e = true -> e_ifindex e <> 0 -> tx_netns c = "" -> sh_stop s = false ->
  inet_pton (src_ip c) = None -> tx_thread inet_pton e c (s :: shots) h = Crashes.
Proof using Type.
  intros Hraw Hs Hi Hn Hst Ha. unfold tx_thread, tx_raw.
  rewrite Hraw, Hs, (proj2 (Z.eqb_neq _ _) Hi), decide_True by done. cbn [negb tx_loop]. by rewrite Hst, Ha.
Qed.
End Sends.

(** *** Witnesses *)

#[local] Abbreviation demo_main := (bench_main (fun s : string => s) "3" (fun _ => false)).

(** Two crafted frames over a veth pair, received by the AF_PACKET backend. *)
Definition demo_args : list string :=
  ["packet"; "veth0"; "3"; "2"; "veth1"; "10.0.0.2"; "10.0.0.1"; "8"].
Definition demo_cfg : BenchCfg := Cfg 9100 "veth0" "" "veth1" "10.0.0.2" "10.0.0.1" 8 "3" 2 true.
Definition demo_addr (s : string) : option Z :=
  if decide (s ∈ ["10.0.0.2"; "10.0.0.1"; "127.0.0.1"]) then Some demo_src else None.
Definition demo_tx_env : tx_env := {|
  e_netns_open := false; e_setns := false; e_socket := true; e_ifindex := 3;
  e_bindtodevice := true; e_bind := true;
|}.
Definition demo_shots : list shot := [Shot false 100 50 true; Shot false 110 50 true].

Lemma demo_args_cfg : demo_main demo_args = Bench_run false "packet" demo_cfg.
Proof. reflexivity. Qed.

(** The same frames in tx mode, with a payload of four bytes: they are not
    refused. *)
Example tx_small_accepted :
  demo_main ["tx"; "raw"; "9100"; "3"; "2"; "veth1"; "10.0.0.2"; "10.0.0.1"; "4"] =
  Send (Cfg 9100 "lo" "" "veth1" "10.0.0.2" "10.0.0.1" 4 "3" 2 true).
Proof. reflexivity. Qed.

Lemma bench_sender_safe_witness :
  let _ := little in
  tx_thread demo_addr demo_tx_env demo_cfg demo_shots ∅ = Goes_on \/
  exists s, tx_thread demo_addr demo_tx_env demo_cfg demo_shots ∅ = Returns s /\ tx_held s = ∅ /\
    (tx_stop s = true -> tx_frames s = []) /\
    Forall2 (carries demo_cfg) (take (length (tx_frames s)) (sh_ts <$> demo_shots)) (tx_frames s).
Proof.
  intros en.
  apply (bench_sender_safe demo_addr (fun s => s) "3" (fun _ => false) demo_args).
  - right. eexists false, "packet". exact demo_args_cfg.
  - unfold tx_mode. rewrite demo_args_cfg. discriminate.
  - by repeat split; eexists.
  - by repeat constructor.
  - set_solver.
Defined.

Lemma bench_burst_sent_witness :
  let _ := little in
  exists fs, tx_thread demo_addr demo_tx_env demo_cfg (demo_shots ++ []) ∅ = Returns (Sent false ∅ fs) /\
    Z.of_nat (length fs) = 2 /\ Forall2 (carries demo_cfg) [100; 110] fs.
Proof.
  intros en.
  apply (bench_burst_sent demo_addr (fun s => s) "3" (fun _ => false) demo_args false "packet" demo_cfg
    demo_tx_env demo_shots []).
  - exact demo_args_cfg.
  - split; [done|done|done|]. by repeat split; eexists.
  - by repeat constructor.
  - by repeat constructor.
  - reflexivity.
  - reflexivity.
  - set_solver.
Defined.
